(* ===== verification/_CoqProject ===== *)
-Q . S2P
Prelude.v
Text.v
Decimal.v
Externals.v
Model.v
Classification.v
Selection.v
Secret.v
Content.v
Sql.v
Tables.v
Database.v
Retention.v
Invariant.v
Preservation.v
History.v
HistorySpec.v
Query.v
Store.v
Examples.v
Gate.v
Offers.v
Wayland.v
Session.v
Operations.v
Drain.v
Worker.v
Pause.v
Backend.v
Artifacts.v
Mutations.v
Thumbnails.v
Keeping.v
Commits.v
Ingest.v
Editor.v
Screenshot.v
Annotation.v
Files.v
Runs.v
Opening.v
Settings.v
Api.v
Preferences.v
Subscription.v
Client.v
Daemon.v
Lifecycle.v
Owners.v
Outcomes.v
Requests.v
Search.v
Sealed.v
Actions.v
