(* ===== verification/Prelude.v ===== *)
(** * clip-daemon: a verification development

    clip-daemon is a Wayland clipboard daemon.  It captures what applications
    copy, keeps a bounded history in an embedded SQL database, publishes entries
    back to the clipboard, pastes them into the previously focused window, and
    serves a JSON API.  This library models its decision-making code as Rocq
    functions and step relations and proves what that code promises.

    ** The parts and how they interact

    A Wayland event reaches the capture thread ([capture/wayland.rs]).  It keeps
    the MIME types of each offer ([capture/policy.rs]), and for an admissible
    offer starts a transfer ([capture/transfer.rs]) under the generation the
    gate ([capture.rs]) admits.  A finished transfer becomes a job; the ingest
    thread hands it to the history only while the gate accepts that generation.
    The history ([history_store]) is one database owner behind a bounded queue.
    An insertion classifies the bytes ([classification.rs], [history/content.rs])
    and evicts down to the stored policy.  The settings manager ([settings.rs])
    commands the capture controller and the store's policy.  Requests arrive at
    the API layer ([api.rs]), which tracks operations by owner and guards the
    wipe; entries are acted on by [actions.rs], which arms paste sessions
    ([session.rs]) after a publication ([selection.rs]); searches are paged with
    sealed cursors ([history_search.rs]); image operations run in tasks of their
    own ([history/operation.rs]).  Behind the requests, the backend
    ([history.rs], [history/]) composes the store, the files it generates, the
    selection and the capture tools; sensitive text goes to an owner thread of
    its own ([selection/secret.rs]).  The daemon ([daemon.rs], [daemon/]) opens
    the history, starts and stops all of this in one order, tells subscribers
    what changed and reclaims what clients leave behind.  The command-line
    client ([client.rs]) asks it for publications and screenshots.

    ** The files

    - [Prelude]: machine integers, [result], list and byte lemmas, tactics, the
      hint database [clip].
    - [Text]: Rust [str] and [char] operations on byte strings: UTF-8 decoding
      and encoding, trimming, splitting, searching.
    - [Externals]: the class of functions the program takes from third-party
      crates and the Unicode tables, the file system snapshot [Fs], and a small
      concrete instance for examples.
    - [Model]: [model.rs] and [backend.rs]: kinds, records, errors, mutations,
      pagination.
    - [Classification]: [classification.rs]: kinds and previews.
    - [Selection]: [selection.rs]: bounded reading, validation, publishing.
    - [Content]: [history/content.rs]: what captured bytes are (text, image, file
      list, local image) and entry details.
    - [Sql]: the [transaction] wrapper of [history_store/database.rs] over an
      engine whose statements and commits fail by an arbitrary schedule.
    - [Tables]: [history_store/schema.rs]: the tables and their constraints.
    - [Database]: every operation of the owner, [history_store/database.rs].
    - [Retention], [Invariant], [Preservation]: what eviction keeps, the
      well-formedness of the tables, and that each operation preserves it.
    - [History]: runs of operations with faults and restarts.
    - [HistorySpec]: what each operation does to the entries.
    - [Opening]: [Database::open]: the directory, the lock, the private files,
      the identity, schema and creation of the database, [HistoryStore]'s
      default path, and the store handed out once it is open.
    - [Query]: the query engine against a reference page.
    - [Store]: the queue, the worker and the shutdown of [history_store/mod.rs].
    - [Examples]: a concrete history and the storage properties on it.
    - [Secret]: [selection/secret.rs]: the threads that own sensitive text.
    - [Gate]: the admission gate, one atomic access at a time.
    - [Offers], [Wayland]: the capture policy, transfers and event handlers.
    - [Worker], [Pause]: [capture/worker.rs]: the controller, the capture and the
      ingest thread step by step; what an acknowledged pause and a lost shutdown
      mean, and that a stop completes.
    - [Session]: paste sessions and the commands they dispatch.
    - [Operations]: the lifecycle of image operations; [Drain]: the operation
      gate of [history.rs], which drains them before a wipe and a shutdown.
    - [Backend]: the world the backend acts on: store, disk, selection, with
      refusals, faults and other clients; [Artifacts]: [history/artifacts.rs];
      [Mutations]: [history/mutation.rs] and the operations of [history.rs];
      [Thumbnails]: the thumbnails of [history/content.rs] and their cache;
      [Ingest]: [history/capture.rs]; [Editor], [Screenshot]: [editor.rs] and
      [history/screenshot.rs]; [Annotation]: the editing of an image entry;
      [Keeping], [Files]: what the requests, and with them ingestion, captures,
      edits and the shutdown, do to files; [Commits]: in which order they
      commit; [Runs]: concrete runs.
    - [Decimal]: integers printed and parsed, for screenshot geometry and for
      the names of thumbnails.
    - [Settings]: the settings manager over the [Services] interface.
    - [Api]: the operation registry, the observation clock, the wipe flow;
      [Preferences]: the settings requests of [api.rs].
    - [Subscription], [Lifecycle]: [daemon/subscription.rs] and the events of
      [api.rs]; [Owners]: [daemon/owner.rs] and the dispatch of [daemon.rs];
      [Daemon]: start and stop ([Life]) and the bus methods ([Boundary]) of
      [daemon.rs].
    - [Client]: the [publish] and [screenshot] commands of [client.rs].
    - [Outcomes]: the registry of [Api] against the operations of [Operations].
    - [Requests]: method routing and [dispatch_owned] of [api.rs].
    - [Search]: cursors and paged search.
    - [Sealed]: [query_history] of [api.rs] over the moving history of [History]
      and the clock of [Api].
    - [Actions]: entry actions, edits, deletions and publications over the
      [ClipboardBackend] interface and [Session].

    ** How state and effects are modelled

    A Rust struct is a record and an enum an inductive type.  A method that takes
    a mutex and changes state is a function from the state to its answer and the
    new state; the [?] operator is the bind of [result] or of a state and error
    monad.  Where several threads or tasks interleave (the gate, the store queue,
    the capture worker, the owners of sensitive text, image operations, the
    Wayland handlers, subscriptions, client resources) the interleaving is an
    explicit sequence of atomic steps and the properties hold for every sequence.
    The file system is a finite map of paths to nodes whose calls may fail.
    A [u64], [usize] or [i64] is a [Z] with the casts, saturation and limits of
    the source written out; a [str] is a byte string, and [len] counts bytes.
    Clock readings, fresh UUIDs and the answers of the outside world are
    arguments.  History variables, which the code does not have, are marked
    where they are declared.

    Third-party code is never defined: it is a parameter ([Externals],
    [Services], [ClipboardBackend], [CursorCodec], [Json], [Service], the SQL
    engine's fault schedule and [Engine]), and what a theorem needs of it is a hypothesis of that theorem
    ([fts_complete], [codec_laws], the settings codec).

    ** What the theorems show

    - Storage: the tables stay well formed and within the policy under every
      sequence, fault and restart; every entry point is atomic; insertion,
      replacement and deletion do exactly what they say; stale revisions are
      refused; the change token grows with every change of content; a page is
      the reference page and paging covers the list once.  An opened history is
      private, locked and this program's, with admission closed; an opening
      that fails harms nothing.
    - Queue: exact byte accounting; jobs are executed once, in order, and
      drained before the worker stops.
    - Capture: an acknowledged pause is a fence, and when the controller
      acknowledges it both threads are gone; an uncertain submission or a lost
      shutdown is never forgotten; a stop completes in boundedly many steps; secrets
      are never requested; everything is bounded; a transfer is exact; a capture is
      stored whole, under admission, or not at all.
    - Sensitive text: never unmarked, never past its time, never left behind.
    - Backend: no file of the user is harmed; clean-up makes progress; a
      thumbnail is of its entry and their cache stays bounded; the
      history is committed before the selection is told, and answers say
      truthfully what happened; a wipe that is acknowledged left the durable
      history empty; an edited image or a screenshot is published whole or not at
      all; nothing runs or commits while the history is wiped.
    - Privacy settings: what is reported as paused was observed; capture resumes
      only in step with the stored limits; policy changes happen while paused; an
      acknowledged request is saved and observed; settings survive a restart.
    - Requests: exactly the published methods are served; every request accounts
      for its reservation, its events and its operation; sessions paste once,
      into a safe window, only when armed after a publication; edits are
      single-use and guarded by revisions; actions and deletions are checked; the
      wipe needs its owner's fresh challenge; operations end once, as their
      work did, and their owners, and nobody else, are told that outcome while the
      backend keeps it; a history
      revision names one state of the history; cursors are bound to their query
      and chain pages of one revision.
    - Clients: no subscriber is left with an old history; a client learns of its
      own requests, and of every gap; nothing outlives its owner; a settings
      answer is what was observed during the request; the screenshot command
      asks once and succeeds only when its screenshot completed.
    - The daemon: one order of start and stop whatever fails, capture stopped
      before anything is let go, the backend last; refused requests do nothing.

    ** Bounds and fuel

    The limits of the source are constants of the same names.  No function takes
    fuel except [Query.walk], which follows [next_offset]; [pages_cover] proves
    that one step per selected entry and one more are enough.  Text decoding
    recurses on the bytes.

    ** Not modelled

    JSON encoding and decoding and the response envelopes, the D-Bus and socket
    transport and what the service boundary admits, the command line, the store
    status report and the JSON Lines transport of the client, running external
    programs (hyprctl, the editor, the screenshot tools), the image and hash
    crates, the Wayland protocol objects and the polling of their connection,
    what the SQL engine writes to its files, zeroizing memory, and panics and
    mutex poisoning outside the gate and the capture thread: none of it decides
    what the parts above do with the history, the files or the selection.
    The fake backend and the contract checks are test code. *)
From stdpp Require Export base tactics option list sorting gmap strings.
From Stdlib Require Export ZArith Lia.
From Stdlib Require Export Strings.Byte.

#[export] Set Default Goal Selector "!".

(** ** Machine integers

    A [u64], [u32], [usize] or [i64] of the source is a [Z]; the casts and the
    saturating and checked operations of the source are written out here. *)
Definition u64_max : Z := 18446744073709551615.
Definition i64_max : Z := 9223372036854775807.

(** [x as i64] of a [u64], and [x as u64] of an [i64]: two's complement. *)
Definition as_i64 (x : Z) : Z := if (x <=? i64_max)%Z then x else (x - (u64_max + 1))%Z.
Definition as_u64 (x : Z) : Z := (x mod (u64_max + 1))%Z.
Definition as_u32 (x : Z) : Z := (x mod 4294967296)%Z.

Lemma as_i64_small x : (x <= i64_max)%Z → as_i64 x = x.
Proof. intros Hx. unfold as_i64. by rewrite (proj2 (Z.leb_le _ _) Hx). Qed.
Lemma as_u64_small x : (0 <= x <= u64_max)%Z → as_u64 x = x.
Proof. intros. unfold as_u64, u64_max in *. apply Z.mod_small. lia. Qed.
Lemma as_u32_small x : (0 <= x < 4294967296)%Z → as_u32 x = x.
Proof. intros. apply Z.mod_small. lia. Qed.

Definition saturating_sub (x y : Z) : Z := Z.max 0 (x - y).
Definition saturating_add (x y : Z) : Z := Z.min u64_max (x + y).
Definition checked_add (x y : Z) : option Z :=
  if (x + y <=? u64_max)%Z then Some (x + y)%Z else None.

(** ** Fallible code *)
Inductive result (E A : Type) : Type :=
| Ok (a : A)
| Err (e : E).
Arguments Ok {E A} a.
Arguments Err {E A} e.

#[export] Instance result_ret {E} : MRet (result E) := λ A a, Ok a.
#[export] Instance result_bind {E} : MBind (result E) :=
  λ A B f m, match m with Ok a => f a | Err e => Err e end.
#[export] Instance result_fmap {E} : FMap (result E) :=
  λ A B f m, match m with Ok a => Ok (f a) | Err e => Err e end.

#[export] Instance result_eq_dec `{EqDecision E, EqDecision A} : EqDecision (result E A).
Proof. solve_decision. Defined.

Definition is_ok {E A} (r : result E A) : bool :=
  match r with Ok _ => true | Err _ => false end.

(** [Result::ok], [Result::err], [Option::ok_or] and [Result::map_err]. *)
Definition ok_of {E A} (r : result E A) : option A :=
  match r with Ok a => Some a | Err _ => None end.
Definition err_of {E A} (r : result E A) : option E :=
  match r with Ok _ => None | Err e => Some e end.
Definition ok_or {E A} (o : option A) (e : E) : result E A :=
  match o with Some a => Ok a | None => Err e end.
Definition map_err {E F A} (f : E → F) (r : result E A) : result F A :=
  match r with Ok a => Ok a | Err e => Err (f e) end.

(** [cond.then_some(()).ok_or(e)], and [if !cond { return Err(e) }]. *)
Definition ensure {E} (cond : bool) (e : E) : result E unit :=
  if cond then Ok tt else Err e.

Lemma bind_Ok_inv {E A B} (m : result E A) (f : A → result E B) b :
  m ≫= f = Ok b → ∃ a, m = Ok a ∧ f a = Ok b.
Proof. destruct m; [eauto | discriminate]. Qed.

Lemma ensure_Ok {E} c (e : E) u : ensure c e = Ok u ↔ c = true.
Proof. destruct c, u; cbn; split; congruence. Qed.

Lemma ok_or_Ok {E A} (o : option A) (e : E) a : ok_or o e = Ok a ↔ o = Some a.
Proof. destruct o; cbn; split; congruence. Qed.

(** ** Lists with integer sizes *)
Definition zlen {A} (l : list A) : Z := Z.of_nat (length l).

(** [iter.skip(n)] and [iter.take(n)] for a machine-integer [n]; structural in
    the list, so they also evaluate for offsets near [usize::MAX]. *)
Fixpoint zdrop {A} (n : Z) (l : list A) : list A :=
  match l with
  | [] => []
  | x :: l' => if (n <=? 0)%Z then l else zdrop (n - 1) l'
  end.
Fixpoint ztake {A} (n : Z) (l : list A) : list A :=
  match l with
  | [] => []
  | x :: l' => if (n <=? 0)%Z then [] else x :: ztake (n - 1) l'
  end.

Fixpoint zsum (l : list Z) : Z :=
  match l with
  | [] => 0
  | x :: l' => x + zsum l'
  end%Z.

(** [Vec::contains] and friends on decidable data, as booleans. *)
Definition memb {A} `{EqDecision A} (x : A) (l : list A) : bool :=
  bool_decide (x ∈ l).

Section list_lemmas.
Context {A : Type}.
Implicit Types (l : list A) (n : Z).
Local Open Scope Z_scope.

Lemma zlen_nil : zlen (@nil A) = 0.
Proof. done. Qed.
Lemma zlen_cons x l : zlen (x :: l) = zlen l + 1.
Proof. unfold zlen; cbn [length]; lia. Qed.
Lemma zlen_app l1 l2 : zlen (l1 ++ l2) = zlen l1 + zlen l2.
Proof. unfold zlen; rewrite length_app; lia. Qed.
Lemma zlen_nonneg l : 0 <= zlen l.
Proof. unfold zlen; lia. Qed.

Lemma zdrop_drop n l : zdrop n l = drop (Z.to_nat n) l.
Proof.
  revert n; induction l as [|x l IH]; intros n; [by rewrite drop_nil|].
  cbn [zdrop]. destruct (Z.leb_spec n 0) as [Hn|Hn].
  - by replace (Z.to_nat n) with 0%nat by lia.
  - rewrite IH. replace (Z.to_nat n) with (S (Z.to_nat (n - 1))) by lia. done.
Qed.
Lemma ztake_take n l : ztake n l = take (Z.to_nat n) l.
Proof.
  revert n; induction l as [|x l IH]; intros n; [by rewrite take_nil|].
  cbn [ztake]. destruct (Z.leb_spec n 0) as [Hn|Hn].
  - by replace (Z.to_nat n) with 0%nat by lia.
  - rewrite IH. replace (Z.to_nat n) with (S (Z.to_nat (n - 1))) by lia. done.
Qed.
Lemma ztake_zdrop n l : ztake n l ++ zdrop n l = l.
Proof. rewrite ztake_take, zdrop_drop. apply take_drop. Qed.
Lemma zdrop_zdrop a b l : 0 <= a → 0 <= b → zdrop a (zdrop b l) = zdrop (a + b) l.
Proof.
  intros. rewrite !zdrop_drop, skipn_skipn. by rewrite Z2Nat.inj_add.
Qed.
Lemma zlen_ztake n l : 0 <= n → zlen (ztake n l) = Z.min n (zlen l).
Proof. intros. rewrite ztake_take. unfold zlen. rewrite length_take. lia. Qed.
Lemma zlen_zdrop n l : 0 <= n → zlen (zdrop n l) = Z.max 0 (zlen l - n).
Proof. intros. rewrite zdrop_drop. unfold zlen. rewrite length_drop. lia. Qed.
Lemma zdrop_0 l : zdrop 0 l = l.
Proof. by rewrite zdrop_drop. Qed.
Lemma ztake_all n l : zlen l <= n → ztake n l = l.
Proof. intros. rewrite ztake_take. apply take_ge. unfold zlen in *; lia. Qed.
Lemma zdrop_all n l : zlen l <= n → zdrop n l = [].
Proof. intros. rewrite zdrop_drop. apply drop_ge. unfold zlen in *; lia. Qed.
Lemma ztake_elem_of n l x : x ∈ ztake n l → x ∈ l.
Proof. intros Hx. rewrite <- (ztake_zdrop n l). apply elem_of_app; by left. Qed.
End list_lemmas.

Lemma zsum_app l1 l2 : zsum (l1 ++ l2) = (zsum l1 + zsum l2)%Z.
Proof. induction l1 as [|x l1 IH]; cbn [zsum app]; lia. Qed.

Lemma zsum_perm l1 l2 : l1 ≡ₚ l2 → zsum l1 = zsum l2.
Proof. induction 1; cbn [zsum]; lia. Qed.

Lemma zsum_nonneg l : Forall (λ x, 0 <= x)%Z l → (0 <= zsum l)%Z.
Proof. induction 1; cbn [zsum]; lia. Qed.

Lemma zsum_sublist_le l1 l2 :
  sublist l1 l2 → Forall (λ x, 0 <= x)%Z l2 → (zsum l1 <= zsum l2)%Z.
Proof.
  induction 1; intros Hpos; [done| |]; inversion Hpos; subst; cbn [zsum].
  - specialize (IHsublist ltac:(done)). lia.
  - specialize (IHsublist ltac:(done)). lia.
Qed.

Lemma Forall_filter_l {A} (P Q : A → Prop) `{∀ x, Decision (Q x)} l :
  Forall P l → Forall P (filter Q l).
Proof. rewrite !Forall_forall. intros Hl x Hx. apply Hl. by apply list_elem_of_filter in Hx as [_ ?]. Qed.

Lemma filter_ext_elem {A} (P Q : A → Prop) `{∀ x, Decision (P x)} `{∀ x, Decision (Q x)} (l : list A) :
  (∀ x, x ∈ l → P x ↔ Q x) → filter P l = filter Q l.
Proof.
  induction l as [|x l IH]; intros Hl; [done|]. rewrite !filter_cons.
  rewrite IH by (intros; apply Hl; by right).
  pose proof (Hl x (list_elem_of_here x l)). repeat case_decide; tauto.
Qed.

(** ** Bytes and strings

    A Rust [&str] is a [string] holding its UTF-8 bytes, so [String.length] is
    [str::len]; a [&[u8]] is a [list byte]. *)
#[export] Instance byte_eq_dec : EqDecision byte := Byte.byte_eq_dec.

Definition bytes := list byte.
Definition str_bytes (s : string) : list byte := String.list_byte_of_string s.
Definition bytes_str (b : list byte) : string := String.string_of_list_byte b.
Definition byte_z (b : byte) : Z := Z.of_N (Byte.to_N b).
Definition str_len (s : string) : Z := Z.of_nat (String.length s).

(** ** Automation *)
Create HintDb clip discriminated.
#[export] Hint Resolve zlen_nonneg zsum_nonneg : clip.

(** Open existentials and conjunctions among the hypotheses. *)
Ltac open_hyps :=
  repeat match goal with
         | H : ∃ _, _ |- _ => destruct H
         | H : _ ∧ _ |- _ => destruct H
         end.

(** Decompose a successful run of a [result] computation. *)
Ltac res_inv :=
  repeat match goal with
         | H : (_ ≫= _) = Ok _ |- _ =>
             apply bind_Ok_inv in H; destruct H as (? & ? & H)
         | H : ensure _ _ = Ok _ |- _ => apply ensure_Ok in H
         | H : ok_or _ _ = Ok _ |- _ => apply ok_or_Ok in H
         | H : Ok _ = Ok _ |- _ => injection H as H; try subst
         | H : Err _ = Ok _ |- _ => discriminate H
         | H : mret _ = Ok _ |- _ => injection H as H; try subst
         end.

(** Case analysis on the scrutinee of a [match] or [if] of the goal. *)
Ltac case_goal :=
  match goal with
  | |- context [match ?x with _ => _ end] =>
      lazymatch x with
      | context [match _ with _ => _ end] => fail
      | _ => destruct x eqn:?
      end
  end.
Ltac case_hyp H :=
  match type of H with
  | context [match ?x with _ => _ end] =>
      lazymatch x with
      | context [match _ with _ => _ end] => fail
      | _ => destruct x eqn:?
      end
  end.

(** Turn boolean comparisons among the hypotheses into propositions. *)
Ltac bools :=
  repeat match goal with
         | H : _ && _ = true |- _ => apply andb_true_iff in H; destruct H
         | H : _ || _ = false |- _ => apply orb_false_iff in H; destruct H
         | H : negb _ = true |- _ => apply negb_true_iff in H
         | H : negb _ = false |- _ => apply negb_false_iff in H
         | H : (_ <=? _)%Z = true |- _ => apply Z.leb_le in H
         | H : (_ <=? _)%Z = false |- _ => apply Z.leb_gt in H
         | H : (_ <? _)%Z = true |- _ => apply Z.ltb_lt in H
         | H : (_ <? _)%Z = false |- _ => apply Z.ltb_ge in H
         | H : (_ =? _)%Z = true |- _ => apply Z.eqb_eq in H
         | H : (_ =? _)%Z = false |- _ => apply Z.eqb_neq in H
         | H : bool_decide _ = true |- _ => apply bool_decide_eq_true in H
         | H : bool_decide _ = false |- _ => apply bool_decide_eq_false in H
         end.
