(* ===== verification/Text.v ===== *)
(** * Text: the string and character functions of Rust's standard library that
    the program calls, on [string] (the UTF-8 bytes of a [&str]) and on
    [list byte] (a [&[u8]]).  A [char] is its code point, a [Z].  The two
    Unicode tables the program needs beyond White_Space and Cc (lower casing
    and alphanumerics) are left abstract, in [Externals.v]. *)
From Stdlib Require Import Ascii.
From S2P Require Import Prelude.
Local Open Scope Z_scope.

Definition char_z (a : Ascii.ascii) : Z := Z.of_N (Ascii.N_of_ascii a).
Definition byte_of_z (z : Z) : byte := default x00 (Byte.of_N (Z.to_N z)).

(** ** ASCII classes of [u8] *)
Definition between (lo x hi : Z) : bool := (lo <=? x) && (x <=? hi).
Definition is_ascii_digit (x : Z) : bool := between 48 x 57.
Definition is_ascii_lowercase (x : Z) : bool := between 97 x 122.
Definition is_ascii_alphabetic (x : Z) : bool := between 65 x 90 || between 97 x 122.
Definition is_ascii_alphanumeric (x : Z) : bool := is_ascii_alphabetic x || is_ascii_digit x.
Definition is_ascii_hexdigit (x : Z) : bool :=
  is_ascii_digit x || between 65 x 70 || between 97 x 102.
Definition is_ascii_control (x : Z) : bool := (x <? 32) || (x =? 127).
(** [u8::is_ascii_whitespace]: space, tab, LF, FF, CR (not VT). *)
Definition is_ascii_whitespace (x : Z) : bool :=
  (x =? 32) || (x =? 9) || (x =? 10) || (x =? 12) || (x =? 13).

Definition ascii_lower (a : Ascii.ascii) : Ascii.ascii :=
  let x := char_z a in
  if between 65 x 90 then Ascii.ascii_of_N (Z.to_N (x + 32)) else a.
Fixpoint to_ascii_lowercase (s : string) : string :=
  match s with
  | EmptyString => EmptyString
  | String a s' => String (ascii_lower a) (to_ascii_lowercase s')
  end.
Definition eq_ignore_ascii_case (a b : string) : bool :=
  bool_decide (to_ascii_lowercase a = to_ascii_lowercase b).

(** ** Searching and splitting by one ASCII character *)
Fixpoint str_forallb (p : Z → bool) (s : string) : bool :=
  match s with
  | EmptyString => true
  | String a s' => p (char_z a) && str_forallb p s'
  end.
Definition str_contains_char (c : Ascii.ascii) (s : string) : bool :=
  negb (str_forallb (λ x, negb (x =? char_z c)) s).

(** [s.split(c).next()]: the part before the first [c], all of [s] if none. *)
Fixpoint before_char (c : Ascii.ascii) (s : string) : string :=
  match s with
  | EmptyString => EmptyString
  | String a s' => if Ascii.eqb a c then EmptyString else String a (before_char c s')
  end.
(** [s.split_once(c)]. *)
Fixpoint split_once (c : Ascii.ascii) (s : string) : option (string * string) :=
  match s with
  | EmptyString => None
  | String a s' =>
      if Ascii.eqb a c then Some (EmptyString, s')
      else '(l, r) ← split_once c s'; Some (String a l, r)
  end.
(** [s.rsplit_once(c)]. *)
Fixpoint rsplit_once (c : Ascii.ascii) (s : string) : option (string * string) :=
  match s with
  | EmptyString => None
  | String a s' =>
      match rsplit_once c s' with
      | Some (l, r) => Some (String a l, r)
      | None => if Ascii.eqb a c then Some (EmptyString, s') else None
      end
  end.
(** [s.split(c)], all the parts. *)
Fixpoint split_char (c : Ascii.ascii) (s : string) : list string :=
  match s with
  | EmptyString => [EmptyString]
  | String a s' =>
      if Ascii.eqb a c then EmptyString :: split_char c s'
      else match split_char c s' with
           | [] => [String a EmptyString]
           | p :: ps => String a p :: ps
           end
  end.

Definition starts_with (p s : string) : bool := String.prefix p s.
Fixpoint strip_prefix (p s : string) : option string :=
  match p, s with
  | EmptyString, _ => Some s
  | String a p', String b s' => if Ascii.eqb a b then strip_prefix p' s' else None
  | String _ _, EmptyString => None
  end.
(** [s.split_once(pat)] for a pattern of several characters. *)
Fixpoint split_once_str (pat s : string) : option (string * string) :=
  match strip_prefix pat s with
  | Some r => Some (EmptyString, r)
  | None =>
      match s with
      | EmptyString => None
      | String a s' => '(l, r) ← split_once_str pat s'; Some (String a l, r)
      end
  end.

(** [s.contains(pat)], and SQL's [instr(s, pat) > 0] on text. *)
Fixpoint str_contains (pat s : string) : bool :=
  starts_with pat s || match s with
                       | EmptyString => false
                       | String _ s' => str_contains pat s'
                       end.

(** [str::lines]: pieces ended by LF (dropped, with one CR before it); a final
    piece without LF is kept whole unless it is empty. *)
Definition strip_cr (s : string) : string :=
  match rsplit_once "013"%char s with
  | Some (l, EmptyString) => l
  | _ => s
  end.
Fixpoint lines_of (parts : list string) : list string :=
  match parts with
  | [] => []
  | [last] => if decide (last = EmptyString) then [] else [last]
  | p :: ps => strip_cr p :: lines_of ps
  end.
Definition str_lines (s : string) : list string := lines_of (split_char "010"%char s).

(** ** UTF-8

    [utf8_chunks b] reads [b] as the standard library does: [Some c] for each
    well-formed scalar value, [None] for each maximal ill-formed prefix. *)
Definition is_cont (b : byte) : bool := between 128 (byte_z b) 191.
Definition second_ok (x : Z) (b1 : byte) : bool :=
  let y := byte_z b1 in
  if x =? 224 then between 160 y 191
  else if x =? 237 then between 128 y 159
  else if x =? 240 then between 144 y 191
  else if x =? 244 then between 128 y 143
  else between 128 y 191.

Fixpoint utf8_chunks (b : list byte) : list (option Z) :=
  match b with
  | [] => []
  | b0 :: r =>
      let x := byte_z b0 in
      if x <? 128 then Some x :: utf8_chunks r
      else if between 194 x 223 then
        match r with
        | b1 :: r1 =>
            if is_cont b1 then Some ((x - 192) * 64 + (byte_z b1 - 128)) :: utf8_chunks r1
            else None :: utf8_chunks r
        | [] => [None]
        end
      else if between 224 x 239 then
        match r with
        | b1 :: r1 =>
            if second_ok x b1 then
              match r1 with
              | b2 :: r2 =>
                  if is_cont b2 then
                    Some ((x - 224) * 4096 + (byte_z b1 - 128) * 64 + (byte_z b2 - 128))
                      :: utf8_chunks r2
                  else None :: utf8_chunks r1
              | [] => [None]
              end
            else None :: utf8_chunks r
        | [] => [None]
        end
      else if between 240 x 244 then
        match r with
        | b1 :: r1 =>
            if second_ok x b1 then
              match r1 with
              | b2 :: r2 =>
                  if is_cont b2 then
                    match r2 with
                    | b3 :: r3 =>
                        if is_cont b3 then
                          Some ((x - 240) * 262144 + (byte_z b1 - 128) * 4096
                                + (byte_z b2 - 128) * 64 + (byte_z b3 - 128))
                            :: utf8_chunks r3
                        else None :: utf8_chunks r2
                    | [] => [None]
                    end
                  else None :: utf8_chunks r1
              | [] => [None]
              end
            else None :: utf8_chunks r
        | [] => [None]
        end
      else None :: utf8_chunks r
  end.

Definition utf8_valid (b : list byte) : bool :=
  forallb (λ o, bool_decide (is_Some o)) (utf8_chunks b).
(** [std::str::from_utf8(b).ok()] and [String::from_utf8_lossy(b)], the latter
    as characters. *)
Definition from_utf8 (b : list byte) : option string :=
  if utf8_valid b then Some (bytes_str b) else None.
Definition from_utf8_lossy (b : list byte) : list Z :=
  default 65533 <$> utf8_chunks b.

Definition encode_char (c : Z) : list byte :=
  if c <? 128 then [byte_of_z c]
  else if c <? 2048 then [byte_of_z (192 + c / 64); byte_of_z (128 + c mod 64)]
  else if c <? 65536 then
    [byte_of_z (224 + c / 4096); byte_of_z (128 + c / 64 mod 64); byte_of_z (128 + c mod 64)]
  else
    [byte_of_z (240 + c / 262144); byte_of_z (128 + c / 4096 mod 64);
     byte_of_z (128 + c / 64 mod 64); byte_of_z (128 + c mod 64)].
Definition encode_chars (cs : list Z) : list byte := mbind encode_char cs.
(** [s.chars()]; a [&str] is always well formed. *)
Definition chars (s : string) : list Z := from_utf8_lossy (str_bytes s).
Definition of_chars (cs : list Z) : string := bytes_str (encode_chars cs).

(** [char::is_whitespace] (White_Space) and [char::is_control] (Cc). *)
Definition is_whitespace (c : Z) : bool :=
  between 9 c 13 || (c =? 32) || (c =? 133) || (c =? 160) || (c =? 5760)
  || between 8192 c 8202 || (c =? 8232) || (c =? 8233) || (c =? 8239)
  || (c =? 8287) || (c =? 12288).
Definition is_control (c : Z) : bool := between 0 c 31 || between 127 c 159.

Fixpoint drop_while {A} (p : A → bool) (l : list A) : list A :=
  match l with
  | [] => []
  | x :: l' => if p x then drop_while p l' else l
  end.
(** [s.trim()]. *)
Definition trim_chars (cs : list Z) : list Z :=
  reverse (drop_while is_whitespace (reverse (drop_while is_whitespace cs))).
Definition trim (s : string) : string := of_chars (trim_chars (chars s)).

(** [s.split_whitespace()]: the non-empty runs of other characters. *)
Fixpoint words_aux (cur : list Z) (cs : list Z) : list (list Z) :=
  match cs with
  | [] => if decide (cur = []) then [] else [reverse cur]
  | c :: cs' =>
      if is_whitespace c then
        (if decide (cur = []) then [] else [reverse cur]) ++ words_aux [] cs'
      else words_aux (c :: cur) cs'
  end.
Definition split_whitespace (cs : list Z) : list (list Z) := words_aux [] cs.

(** [s.floor_char_boundary(limit)]: the greatest character boundary not above
    [limit]; [floor_from] walks down from byte [n]. *)
Fixpoint floor_from (b : list byte) (n : nat) : nat :=
  match n with
  | O => O
  | S n' => match b !! n with
            | Some x => if is_cont x then floor_from b n' else n
            | None => n
            end
  end.
Definition floor_char_boundary (b : list byte) (limit : nat) : nat :=
  if decide (length b ≤ limit)%nat then length b else floor_from b limit.

(** ** Lemmas *)
Lemma str_bytes_length s : length (str_bytes s) = String.length s.
Proof. induction s as [|a s IH]; cbn; [done|]. by f_equal. Qed.

Lemma bytes_str_bytes b : str_bytes (bytes_str b) = b.
Proof. apply String.list_byte_of_string_of_list_byte. Qed.
Lemma str_bytes_str s : bytes_str (str_bytes s) = s.
Proof. apply String.string_of_list_byte_of_string. Qed.

Lemma str_len_bytes_str b : str_len (bytes_str b) = zlen b.
Proof.
  unfold str_len, zlen. by rewrite <- str_bytes_length, bytes_str_bytes.
Qed.

Lemma floor_from_le b n : (floor_from b n ≤ n)%nat.
Proof.
  induction n as [|n IH]; cbn; [lia|].
  destruct (b !! S n) as [x|]; [|lia]. destruct (is_cont x); lia.
Qed.
Lemma floor_char_boundary_le b limit :
  (floor_char_boundary b limit ≤ limit ∧ floor_char_boundary b limit ≤ length b)%nat.
Proof.
  unfold floor_char_boundary. case_decide; [lia|].
  pose proof (floor_from_le b limit). lia.
Qed.

(** The position chosen is a boundary: the first byte, the end, or a byte that
    does not continue a character. *)
Definition boundary (b : list byte) (n : nat) : Prop :=
  n = O ∨ n = length b ∨ ∃ x, b !! n = Some x ∧ is_cont x = false.
Lemma floor_char_boundary_ok b limit : boundary b (floor_char_boundary b limit).
Proof.
  unfold floor_char_boundary. case_decide as Hle; [by right; left|].
  assert (Hlt : (limit < length b)%nat) by lia. clear Hle.
  induction limit as [|n IH]; [by left|]. cbn.
  destruct (b !! S n) as [x|] eqn:Hx.
  - destruct (is_cont x) eqn:Hc; [apply IH; lia|]. right; right; eauto.
  - apply lookup_ge_None in Hx. lia.
Qed.

Lemma second_ok_cont x b : second_ok x b = true → is_cont b = true.
Proof.
  unfold second_ok, is_cont, between. intros H.
  repeat case_match; bools; apply andb_true_iff; rewrite !Z.leb_le; lia.
Qed.


(** A character's encoding: one lead byte, continuation bytes, and a unit for
    the decoder whatever follows. *)
Definition char_unit (u : list byte) : Prop :=
  ∃ b0 tl c, u = b0 :: tl ∧ Forall (λ y, is_cont y = true) tl
    ∧ ∀ rest, utf8_chunks (u ++ rest) = Some c :: utf8_chunks rest.

Lemma utf8_valid_cons_unit u b : char_unit u → utf8_valid (u ++ b) = utf8_valid b.
Proof. intros (b0 & tl & c & -> & _ & Hu). unfold utf8_valid. by rewrite Hu. Qed.

Ltac unit_tac :=
  eexists _, _, _; split_and!;
  [ reflexivity
  | repeat constructor; eauto using second_ok_cont
  | intros rest; cbn [app utf8_chunks]; repeat
      match goal with H : ?c = ?b |- context [if ?c then _ else _] => rewrite H end;
    reflexivity ].

Lemma utf8_valid_unit b : utf8_valid b = true → b ≠ [] →
  ∃ u b', b = u ++ b' ∧ char_unit u ∧ utf8_valid b' = true.
Proof.
  unfold utf8_valid. destruct b as [|b0 r]; [done|]; intros Hv _.
  cbn [utf8_chunks] in Hv.
  repeat (case_match; try discriminate); cbn [forallb] in Hv;
    apply andb_true_iff in Hv as [_ Hv].
  - exists [b0], r. split_and!; [done|unit_tac|done].
  - eexists [b0; _], _. split_and!; [done|unit_tac|done].
  - eexists [b0; _; _], _. split_and!; [done|unit_tac|done].
  - eexists [b0; _; _; _], _. split_and!; [done|unit_tac|done].
Qed.

Lemma utf8_take_aux m b n : (length b ≤ m)%nat →
  utf8_valid b = true → boundary b n →
  utf8_valid (take n b) = true ∧ utf8_chunks (take n b) `prefix_of` utf8_chunks b.
Proof.
  revert b n. induction m as [|m IH]; intros b n Hm Hv Hb.
  { destruct b; [by rewrite take_nil|cbn in Hm; lia]. }
  destruct (decide (b = [])) as [->|Hne]; [by rewrite take_nil|].
  destruct (utf8_valid_unit b Hv Hne) as (u & b' & -> & Hu & Hv').
  pose proof Hu as (b0 & tl & c & Heq & Htl & Hchunk).
  assert (Hlu : length u = S (length tl)) by (by subst u).
  rewrite length_app in Hm.
  destruct (decide (length u ≤ n)%nat) as [Hge|Hlt].
  - rewrite take_app_ge by done. rewrite utf8_valid_cons_unit, !Hchunk by done.
    destruct (IH b' (n - length u)%nat) as [? ?]; [lia|done| |].
    + destruct Hb as [?|[Hn|(x & Hx & Hc)]]; [lia| |].
      * right; left. rewrite length_app in Hn. lia.
      * right; right. exists x. split; [|done]. by rewrite lookup_app_r in Hx by lia.
    + split; [done|by apply prefix_cons].
  - destruct n as [|n]; [split; [done|apply prefix_nil]|]. exfalso.
    destruct Hb as [?|[Hn|(x & Hx & Hc)]]; [done|rewrite length_app in Hn; lia|].
    rewrite lookup_app_l in Hx by lia. subst u. cbn in Hx.
    rewrite Forall_lookup in Htl. apply Htl in Hx. congruence.
Qed.
(** Cutting well-formed text at a character boundary leaves well-formed text,
    and its characters are the first ones. *)
Lemma utf8_take b n :
  utf8_valid b = true → boundary b n →
  utf8_valid (take n b) = true ∧ utf8_chunks (take n b) `prefix_of` utf8_chunks b.
Proof. by apply (utf8_take_aux (length b)). Qed.

(** Unicode scalar values, and the encoder. *)
Definition scalar (c : Z) : Prop := 0 <= c < 55296 ∨ 57344 <= c < 1114112.

Lemma byte_z_of_z z : 0 <= z < 256 → byte_z (byte_of_z z) = z.
Proof.
  intros Hz. unfold byte_z, byte_of_z.
  destruct (Byte.of_N (Z.to_N z)) as [b|] eqn:Hb.
  - apply Byte.to_of_N in Hb. cbn. rewrite Hb. lia.
  - apply Byte.of_N_None_iff in Hb. lia.
Qed.
Lemma byte_z_range b : 0 <= byte_z b < 256.
Proof. unfold byte_z. pose proof (Byte.to_N_bounded b). lia. Qed.

Lemma between_true lo x hi : lo <= x <= hi → between lo x hi = true.
Proof. intros. unfold between. apply andb_true_iff. rewrite !Z.leb_le. lia. Qed.
Lemma between_iff lo x hi : between lo x hi = true ↔ lo <= x <= hi.
Proof. unfold between. rewrite andb_true_iff, !Z.leb_le. done. Qed.

Lemma cont_of_z z : 128 <= z < 192 → is_cont (byte_of_z z) = true.
Proof. intros. unfold is_cont. rewrite byte_z_of_z by lia. apply between_true; lia. Qed.

Lemma second_ok_of_z x z : 128 <= z < 192 →
  (x = 224 → 160 <= z) → (x = 237 → z < 160) → (x = 240 → 144 <= z) → (x = 244 → z < 144) →
  second_ok x (byte_of_z z) = true.
Proof.
  intros. unfold second_ok. rewrite byte_z_of_z by lia.
  repeat case_match; bools; apply between_true; lia.
Qed.
Lemma between_false lo x hi : x < lo ∨ hi < x → between lo x hi = false.
Proof. intros. unfold between. apply andb_false_iff. rewrite !Z.leb_gt. lia. Qed.

(** The three lengths of a multi-byte character, from its 6-bit groups. *)
Lemma chunk2 q r rest : 2 <= q < 32 → 0 <= r < 64 →
  utf8_chunks (byte_of_z (192 + q) :: byte_of_z (128 + r) :: rest)
  = Some (q * 64 + r) :: utf8_chunks rest.
Proof.
  intros. cbn [utf8_chunks]. rewrite !byte_z_of_z by lia.
  rewrite (proj2 (Z.ltb_ge _ _)), between_true, cont_of_z by lia. repeat f_equal; lia.
Qed.
Lemma chunk3 p q r rest : 0 <= p < 16 → 0 <= q < 64 → 0 <= r < 64 →
  (p = 0 → 32 <= q) → (p = 13 → q < 32) →
  utf8_chunks (byte_of_z (224 + p) :: byte_of_z (128 + q) :: byte_of_z (128 + r) :: rest)
  = Some (p * 4096 + q * 64 + r) :: utf8_chunks rest.
Proof.
  intros. cbn [utf8_chunks]. rewrite !byte_z_of_z by lia.
  rewrite (proj2 (Z.ltb_ge _ _)), between_false, between_true, second_ok_of_z, cont_of_z by lia.
  repeat f_equal; lia.
Qed.
Lemma chunk4 o p q r rest : 0 <= o < 5 → 0 <= p < 64 → 0 <= q < 64 → 0 <= r < 64 →
  (o = 0 → 16 <= p) → (o = 4 → p < 16) →
  utf8_chunks (byte_of_z (240 + o) :: byte_of_z (128 + p) :: byte_of_z (128 + q)
               :: byte_of_z (128 + r) :: rest)
  = Some (o * 262144 + p * 4096 + q * 64 + r) :: utf8_chunks rest.
Proof.
  intros. cbn [utf8_chunks]. rewrite !byte_z_of_z by lia.
  rewrite (proj2 (Z.ltb_ge _ _)), !between_false, between_true, second_ok_of_z, !cont_of_z by lia.
  repeat f_equal; lia.
Qed.

Lemma encode_char_chunk c rest : scalar c →
  utf8_chunks (encode_char c ++ rest) = Some c :: utf8_chunks rest.
Proof.
  intros Hc. unfold encode_char, scalar in *.
  pose proof (Z.div_mod c 64 ltac:(lia)) as E1; pose proof (Z.mod_pos_bound c 64 ltac:(lia)).
  pose proof (Z.div_mod (c / 64) 64 ltac:(lia)) as E2;
    pose proof (Z.mod_pos_bound (c / 64) 64 ltac:(lia)).
  pose proof (Z.div_mod (c / 4096) 64 ltac:(lia)) as E3;
    pose proof (Z.mod_pos_bound (c / 4096) 64 ltac:(lia)).
  rewrite Z.div_div in E2 by lia. rewrite Z.div_div in E3 by lia.
  change (64 * 64) with 4096 in E2; change (4096 * 64) with 262144 in E3.
  repeat case_match; bools; cbn [app].
  - cbn [utf8_chunks]. rewrite byte_z_of_z by lia. by rewrite (proj2 (Z.ltb_lt _ _)).
  - rewrite chunk2 by lia. repeat f_equal; lia.
  - rewrite chunk3 by lia. repeat f_equal; lia.
  - rewrite chunk4 by lia. repeat f_equal; lia.
Qed.

Lemma encode_chars_valid cs : Forall scalar cs → utf8_valid (encode_chars cs) = true.
Proof.
  unfold utf8_valid, encode_chars. induction 1 as [|c cs Hc _ IH]; [done|].
  cbn [mbind list_bind]. by rewrite encode_char_chunk.
Qed.
Lemma encode_chars_decode cs : Forall scalar cs →
  utf8_chunks (encode_chars cs) = Some <$> cs.
Proof.
  unfold encode_chars. induction 1 as [|c cs Hc _ IH]; [done|].
  cbn [mbind list_bind]. rewrite encode_char_chunk by done. cbn. by f_equal.
Qed.

(** What the decoder yields are scalar values. *)
Lemma utf8_chunks_scalar b c : Some c ∈ utf8_chunks b → scalar c.
Proof.
  assert (Hgen : ∀ m b, (length b ≤ m)%nat → Some c ∈ utf8_chunks b → scalar c);
    [|by apply (Hgen (length b) b)]. clear b.
  induction m as [|m IH]; intros b Hm Hin.
  { destruct b; [by apply not_elem_of_nil in Hin|cbn in Hm; lia]. }
  destruct b as [|b0 r]; [by apply not_elem_of_nil in Hin|].
  pose proof (byte_z_range b0).
  assert (IH' : ∀ b', (length b' < length (b0 :: r))%nat → Some c ∈ utf8_chunks b' → scalar c).
  { intros b' Hl. apply IH. lia. }
  clear IH Hm. cbn [utf8_chunks] in Hin. cbn [length] in IH'.
  unfold second_ok, is_cont, scalar in *.
  repeat case_match; rewrite ?between_iff in *; bools;
    apply elem_of_cons in Hin as [Hin|Hin];
    try discriminate; try (apply not_elem_of_nil in Hin; done);
    try (eapply IH'; [|exact Hin]; cbn [length]; lia);
    injection Hin as ->; lia.
Qed.

Lemma from_utf8_lossy_scalar b : Forall scalar (from_utf8_lossy b).
Proof.
  unfold from_utf8_lossy. apply Forall_fmap, Forall_forall. intros [c|] Hc; cbn.
  - by eapply utf8_chunks_scalar.
  - unfold scalar; lia.
Qed.

(** Encoding what was decoded from well-formed text gives the text back. *)
Lemma byte_of_z_byte b : byte_of_z (byte_z b) = b.
Proof. by destruct b. Qed.
Lemma second_ok_range x b : second_ok x b = true →
  128 <= byte_z b <= 191 ∧ (x = 224 → 160 <= byte_z b) ∧ (x = 240 → 144 <= byte_z b)
  ∧ (x = 244 → byte_z b <= 143).
Proof.
  unfold second_ok. repeat case_match; rewrite between_iff; bools; lia.
Qed.
Lemma is_cont_range b : is_cont b = true → 128 <= byte_z b <= 191.
Proof. apply between_iff. Qed.
Ltac digit64 := symmetry; first [apply Z.div_unique_pos with (r := _) | apply Z.mod_unique_pos with (q := _)]; lia.

Lemma encode2 x y : 194 <= x <= 223 → 128 <= y <= 191 →
  encode_char ((x - 192) * 64 + (y - 128)) = [byte_of_z x; byte_of_z y].
Proof.
  intros. unfold encode_char. set (c := (x - 192) * 64 + (y - 128)).
  rewrite (proj2 (Z.ltb_ge c 128)), (proj2 (Z.ltb_lt c 2048)) by lia.
  rewrite <- (Z.div_unique_pos c 64 (x - 192) (y - 128)), <- (Z.mod_unique_pos c 64 (x - 192) (y - 128)) by lia.
  f_equal; [f_equal; lia|]. f_equal; f_equal; lia.
Qed.
Lemma encode3 x y z : 224 <= x <= 239 → 128 <= y <= 191 → (x = 224 → 160 <= y) → 128 <= z <= 191 →
  encode_char ((x - 224) * 4096 + (y - 128) * 64 + (z - 128)) = [byte_of_z x; byte_of_z y; byte_of_z z].
Proof.
  intros. unfold encode_char. set (c := (x - 224) * 4096 + (y - 128) * 64 + (z - 128)).
  rewrite (proj2 (Z.ltb_ge c 128)), (proj2 (Z.ltb_ge c 2048)), (proj2 (Z.ltb_lt c 65536)) by lia.
  rewrite <- (Z.div_unique_pos c 4096 (x - 224) ((y - 128) * 64 + (z - 128))),
    <- (Z.div_unique_pos c 64 ((x - 224) * 64 + (y - 128)) (z - 128)),
    <- (Z.mod_unique_pos c 64 ((x - 224) * 64 + (y - 128)) (z - 128)),
    <- (Z.mod_unique_pos _ 64 (x - 224) (y - 128)) by lia.
  do 2 (f_equal; [f_equal; lia|]). f_equal; f_equal; lia.
Qed.
Lemma encode4 x y z w : 240 <= x <= 244 → 128 <= y <= 191 → (x = 240 → 144 <= y) →
  128 <= z <= 191 → 128 <= w <= 191 →
  encode_char ((x - 240) * 262144 + (y - 128) * 4096 + (z - 128) * 64 + (w - 128))
  = [byte_of_z x; byte_of_z y; byte_of_z z; byte_of_z w].
Proof.
  intros. unfold encode_char. set (c := (x - 240) * 262144 + (y - 128) * 4096 + (z - 128) * 64 + (w - 128)).
  rewrite (proj2 (Z.ltb_ge c 128)), (proj2 (Z.ltb_ge c 2048)), (proj2 (Z.ltb_ge c 65536)) by lia.
  rewrite <- (Z.div_unique_pos c 262144 (x - 240) ((y - 128) * 4096 + (z - 128) * 64 + (w - 128))),
    <- (Z.div_unique_pos c 4096 ((x - 240) * 64 + (y - 128)) ((z - 128) * 64 + (w - 128))),
    <- (Z.div_unique_pos c 64 ((x - 240) * 4096 + (y - 128) * 64 + (z - 128)) (w - 128)),
    <- (Z.mod_unique_pos c 64 ((x - 240) * 4096 + (y - 128) * 64 + (z - 128)) (w - 128)),
    <- (Z.mod_unique_pos _ 64 (x - 240) (y - 128)),
    <- (Z.mod_unique_pos _ 64 ((x - 240) * 64 + (y - 128)) (z - 128)) by lia.
  do 3 (f_equal; [f_equal; lia|]). f_equal; f_equal; lia.
Qed.

Lemma utf8_valid_unit_encode b : utf8_valid b = true → b ≠ [] →
  ∃ c b', b = encode_char c ++ b' ∧ utf8_chunks b = Some c :: utf8_chunks b' ∧ utf8_valid b' = true.
Proof.
  unfold utf8_valid. destruct b as [|b0 r]; [done|]; intros Hv _. pose proof (byte_z_range b0).
  cbn [utf8_chunks] in *.
  repeat (case_match; try discriminate); cbn [forallb] in Hv; apply andb_true_iff in Hv as [_ Hv]; bools;
    repeat match goal with
    | H : between _ _ _ = true |- _ => apply between_iff in H
    | H : is_cont _ = true |- _ => apply is_cont_range in H
    | H : second_ok _ _ = true |- _ => apply second_ok_range in H as (? & ? & ? & ?)
    end; (do 2 eexists; split; [|split; [reflexivity|exact Hv]]).
  - unfold encode_char. rewrite (proj2 (Z.ltb_lt (byte_z b0) 128)) by lia. by rewrite byte_of_z_byte.
  - by rewrite encode2, !byte_of_z_byte.
  - by rewrite encode3, !byte_of_z_byte.
  - by rewrite encode4, !byte_of_z_byte.
Qed.
Lemma decode_encode_chars b : utf8_valid b = true → encode_chars (from_utf8_lossy b) = b.
Proof.
  remember (length b) as n eqn:Hn. revert b Hn.
  induction (lt_wf n) as [n _ IH]; intros b Hn Hv.
  destruct (decide (b = [])) as [->|Hne]; [done|].
  destruct (utf8_valid_unit_encode b Hv Hne) as (c & b' & Hb & Hc & Hv').
  unfold from_utf8_lossy. rewrite Hc. cbn [fmap list_fmap default]. unfold encode_chars. rewrite bind_cons.
  fold (encode_chars (default 65533 <$> utf8_chunks b')). fold (from_utf8_lossy b').
  assert (Hlen : (length b' < n)%nat).
  { subst n. rewrite Hb, length_app. unfold encode_char. repeat case_match; cbn; lia. }
  by rewrite (IH (length b')).
Qed.
Lemma of_chars_chars s : utf8_valid (str_bytes s) = true → of_chars (chars s) = s.
Proof. intros Hv. unfold of_chars, chars. rewrite decode_encode_chars by done. apply str_bytes_str. Qed.
Lemma str_bytes_app a b : str_bytes (a ++ b)%string = str_bytes a ++ str_bytes b.
Proof. induction a as [|x a IH]; [done|]. change (str_bytes (String x a ++ b)%string) with (Ascii.byte_of_ascii x :: str_bytes (a ++ b)%string). by rewrite IH. Qed.
Lemma of_chars_app a b : of_chars (a ++ b) = (of_chars a ++ of_chars b)%string.
Proof.
  unfold of_chars. rewrite <- (str_bytes_str (_ ++ _)%string), str_bytes_app, !bytes_str_bytes.
  f_equal. apply bind_app.
Qed.

Lemma starts_with_iff p s : starts_with p s = true ↔ ∃ r, s = (p ++ r)%string.
Proof.
  unfold starts_with. split.
  - revert s. induction p as [|a p IH]; intros s; [by exists s|].
    destruct s as [|b s]; [done|]. cbn [String.prefix].
    destruct (Ascii.ascii_dec a b) as [->|]; [|done]. intros (r & ->)%IH. by exists r.
  - intros [r ->]. induction p as [|a p IH]; [by destruct r|].
    change (String a p ++ r)%string with (String a (p ++ r)%string). cbn [String.prefix].
    by destruct (Ascii.ascii_dec a a).
Qed.
Lemma str_app_assoc a b c : (a ++ (b ++ c))%string = ((a ++ b) ++ c)%string.
Proof.
  induction a as [|x a IH]; [done|].
  change (String x (a ++ (b ++ c)) = String x ((a ++ b) ++ c))%string. by rewrite IH.
Qed.
Lemma str_contains_iff p s : str_contains p s = true ↔ ∃ a b, s = (a ++ p ++ b)%string.
Proof.
  split.
  - induction s as [|x s IH]; cbn [str_contains]; rewrite orb_true_iff, starts_with_iff.
    + intros [[r Hr]|?]; [|done]. exists EmptyString, r. done.
    + intros [[r Hr]|Hs]; [by exists EmptyString, r|]. destruct (IH Hs) as (a & b & ->).
      by exists (String x a), b.
  - intros (a & b & ->). induction a as [|x a IH].
    + assert (Hp : starts_with p (p ++ b)%string = true) by (apply starts_with_iff; eauto).
      change (EmptyString ++ p ++ b)%string with (p ++ b)%string.
      destruct (p ++ b)%string; cbn [str_contains]; by rewrite Hp.
    + change (String x a ++ p ++ b)%string with (String x (a ++ p ++ b)%string).
      cbn [str_contains]. by rewrite IH, orb_true_r.
Qed.
Lemma str_contains_trans a b c : str_contains a b = true → str_contains b c = true → str_contains a c = true.
Proof.
  rewrite !str_contains_iff. intros (x & y & ->) (u & v & ->).
  exists (u ++ x)%string, (y ++ v)%string. by rewrite !str_app_assoc.
Qed.
