(* ===== verification/Decimal.v ===== *)
(** * Decimal: integers printed by [format!] and read back by [str::parse]. *)
From Stdlib Require Import Ascii.
From stdpp Require Import pretty.
From S2P Require Import Prelude Text.
Local Open Scope Z_scope.

(** [str::parse] of an integer type: a sign, then digits, within the range. *)
Fixpoint digits_value (acc : Z) (s : string) : option Z :=
  match s with
  | EmptyString => Some acc
  | String a s' => if is_ascii_digit (char_z a) then digits_value (10 * acc + (char_z a - 48)) s' else None
  end.
Definition parse_digits (s : string) : option Z := if bool_decide (s = EmptyString) then None else digits_value 0 s.
Definition parse_int (signed : bool) (lo hi : Z) (s : string) : option Z :=
  v ← match s with
      | String "+" s' => parse_digits s'
      | String "-" s' => if signed then Z.opp <$> parse_digits s' else None
      | _ => parse_digits s
      end;
  if between lo v hi then Some v else None.
Definition parse_i32 : string → option Z := parse_int true (-2147483648) 2147483647.
Definition parse_u32 : string → option Z := parse_int false 0 4294967295.

(** ** What is printed *)
Definition all_digits (s : string) : Prop := s ≠ EmptyString ∧ str_forallb is_ascii_digit s = true.
Lemma pretty_N_char_value x : (x < 10)%N → is_ascii_digit (char_z (pretty_N_char x)) = true ∧ char_z (pretty_N_char x) - 48 = Z.of_N x.
Proof.
  intros Hx. assert (x = 0 ∨ x = 1 ∨ x = 2 ∨ x = 3 ∨ x = 4 ∨ x = 5 ∨ x = 6 ∨ x = 7 ∨ x = 8 ∨ x = 9)%N as Hc by lia.
  naive_solver.
Qed.
Lemma pretty_N_go_value x s : digits_value 0 (pretty_N_go x s) = digits_value (Z.of_N x) s.
Proof.
  revert s. induction (N.lt_wf_0 x) as [x _ IH]; intros s.
  assert (x = 0 ∨ 0 < x)%N as [->|Hx] by lia; [by rewrite pretty_N_go_0|].
  rewrite pretty_N_go_step by done. rewrite IH by (by apply N.div_lt). cbn [digits_value].
  destruct (pretty_N_char_value (x `mod` 10)) as [-> Hv]; [by apply N.mod_lt|]. rewrite Hv. f_equal.
  pose proof (N.div_mod x 10). lia.
Qed.
Lemma pretty_N_go_digits x s :
  str_forallb is_ascii_digit s = true → (x ≠ 0)%N ∨ s ≠ EmptyString → all_digits (pretty_N_go x s).
Proof.
  revert s. induction (N.lt_wf_0 x) as [x _ IH]; intros s Hs Hx.
  assert (x = 0 ∨ 0 < x)%N as [->|Hp] by lia; [rewrite pretty_N_go_0; split; [naive_solver|done]|].
  rewrite pretty_N_go_step by done. apply IH; [by apply N.div_lt| |by right]. cbn [str_forallb].
  destruct (pretty_N_char_value (x `mod` 10)) as [-> _]; [by apply N.mod_lt|done].
Qed.
Lemma pretty_N_digits (x : N) : all_digits (pretty x).
Proof. unfold pretty, pretty_N. case_decide; [done|]. by apply pretty_N_go_digits; [|left]. Qed.
Lemma pretty_N_value (x : N) : parse_digits (pretty x) = Some (Z.of_N x).
Proof.
  unfold parse_digits. rewrite bool_decide_false by apply pretty_N_digits. unfold pretty, pretty_N.
  case_decide; [by subst|]. apply pretty_N_go_value.
Qed.
Lemma parse_digits_first a s : parse_digits (String a s) ≠ None → is_ascii_digit (char_z a) = true.
Proof. unfold parse_digits. cbn. destruct (is_ascii_digit (char_z a)); done. Qed.
(** Reading back what was printed. *)
Lemma parse_int_pretty signed lo hi z :
  lo <= z <= hi → (z < 0 → signed = true) → parse_int signed lo hi (pretty z) = Some z.
Proof.
  intros Hr Hs. assert (Hb : between lo z hi = true) by by apply between_true.
  assert (Hpos : ∀ n : N, lo <= Z.of_N n <= hi → parse_int signed lo hi (pretty n) = Some (Z.of_N n)).
  { intros n Hn. unfold parse_int. pose proof (pretty_N_value n) as Hv. pose proof (pretty_N_digits n) as [Hne _].
    destruct (pretty n) as [|a s] eqn:Hp; [done|].
    assert (Hd : is_ascii_digit (char_z a) = true) by (apply (parse_digits_first a s); by rewrite Hv).
    assert (Hsame : match String a s with
      | String "+" s' => parse_digits s'
      | String "-" s' => if signed then Z.opp <$> parse_digits s' else None
      | _ => parse_digits (String a s)
      end = Some (Z.of_N n)).
    { destruct a as [[] [] [] [] [] [] [] []]; try exact Hv; vm_compute in Hd; done. }
    rewrite Hsame. cbn [mbind option_bind]. by rewrite between_true. }
  unfold pretty, pretty_Z. destruct z as [|p|p].
  - by apply (Hpos 0%N).
  - by apply (Hpos (N.pos p)).
  - pose proof (pretty_N_value (N.pos p)) as Hv. unfold parse_int. rewrite Hs by lia.
    change ("-" +:+ pretty p)%string with (String "-" (pretty (N.pos p))). cbv beta iota. rewrite Hv. cbn [fmap option_fmap option_map mbind option_bind].
    change (- Z.of_N (N.pos p)) with (Z.neg p). by rewrite Hb.
Qed.
Lemma parse_int_range signed lo hi s z : parse_int signed lo hi s = Some z → lo <= z <= hi.
Proof. unfold parse_int. intros (v & _ & Hb)%bind_Some. destruct (between lo v hi) eqn:E; [|done]. injection Hb as <-. by apply between_iff. Qed.

(** ** Plain text: trimming leaves it alone *)
Definition first_char (s : string) : option Z := match s with EmptyString => None | String a _ => Some (char_z a) end.
Fixpoint last_char (s : string) : option Z :=
  match s with EmptyString => None | String a EmptyString => Some (char_z a) | String _ s' => last_char s' end.
Lemma byte_z_ascii a : byte_z (Ascii.byte_of_ascii a) = char_z a.
Proof. by destruct a as [[] [] [] [] [] [] [] []]. Qed.
Lemma chars_plain s : str_forallb (λ x, x <? 128) s = true → utf8_valid (str_bytes s) = true ∧ chars s = char_z <$> String.list_ascii_of_string s.
Proof.
  unfold chars, from_utf8_lossy, utf8_valid. induction s as [|a s IH]; [done|]. cbn [str_forallb]. intros [Ha Hs]%andb_true_iff.
  destruct (IH Hs) as [Hv Hc]. change (str_bytes (String a s)) with (Ascii.byte_of_ascii a :: str_bytes s).
  cbn [utf8_chunks]. rewrite byte_z_ascii, Ha. cbn. split; [done|]. by rewrite Hc.
Qed.
Lemma drop_while_head {A} (p : A → bool) l : match head l with Some x => p x = false | None => True end → drop_while p l = l.
Proof. destruct l as [|x l]; [done|]. cbn. by intros ->. Qed.
Lemma last_char_spec s : last (char_z <$> String.list_ascii_of_string s) = last_char s.
Proof. induction s as [|a [|b s] IH]; [done..|]. exact IH. Qed.
Lemma trim_plain s :
  str_forallb (λ x, x <? 128) s = true →
  from_option is_whitespace false (first_char s) = false → from_option is_whitespace false (last_char s) = false →
  trim s = s.
Proof.
  intros Hs Hf Hl. destruct (chars_plain s Hs) as [Hv Hc]. unfold trim.
  assert (trim_chars (chars s) = chars s) as ->; [|by apply of_chars_chars].
  unfold trim_chars. rewrite (drop_while_head _ (chars s)).
  - rewrite drop_while_head; [by rewrite reverse_involutive|]. rewrite head_reverse, Hc, last_char_spec. by destruct (last_char s).
  - rewrite Hc. by destruct s.
Qed.

Definition numeral (x : Z) : bool := is_ascii_digit x || (x =? 45).
Lemma str_app_cons c a b : (String c a ++ b)%string = String c (a ++ b)%string.
Proof. done. Qed.
Lemma str_forallb_app p a b : str_forallb p (a ++ b)%string = str_forallb p a && str_forallb p b.
Proof. induction a as [|c a IH]; [done|]. rewrite str_app_cons. cbn. by rewrite IH, andb_assoc. Qed.
Lemma str_forallb_impl (p q : Z → bool) s : (∀ x, p x = true → q x = true) → str_forallb p s = true → str_forallb q s = true.
Proof. intros Hpq. induction s as [|a s IH]; [done|]. cbn. intros [? ?]%andb_true_iff. apply andb_true_iff. auto. Qed.
Lemma pretty_Z_numeral (z : Z) : pretty z ≠ EmptyString ∧ str_forallb numeral (pretty z) = true.
Proof.
  assert (Hn : ∀ n : N, pretty n ≠ EmptyString ∧ str_forallb numeral (pretty n) = true).
  { intros n. destruct (pretty_N_digits n) as [? Hd]. split; [done|]. eapply str_forallb_impl; [|exact Hd].
    intros x Hx. unfold numeral. by rewrite Hx. }
  destruct z as [|p|p]; [apply (Hn 0%N)|apply (Hn (N.pos p))|]. split; [done|].
  change (pretty (Z.neg p)) with (String "-" (pretty (N.pos p))). cbn [str_forallb]. by rewrite (proj2 (Hn (N.pos p))).
Qed.
Lemma numeral_split c s : numeral (char_z c) = false → str_forallb numeral s = true → str_contains_char c s = false.
Proof.
  intros Hc Hs. unfold str_contains_char. apply negb_false_iff. eapply str_forallb_impl; [|exact Hs].
  intros x Hx. apply negb_true_iff, Z.eqb_neq. by intros ->; rewrite Hc in Hx.
Qed.
Lemma split_once_app c a b : str_contains_char c a = false → split_once c (a ++ String c b)%string = Some (a, b).
Proof.
  unfold str_contains_char. rewrite negb_false_iff. induction a as [|x a IH].
  { change (EmptyString ++ String c b)%string with (String c b). cbn [split_once]. by rewrite Ascii.eqb_refl. }
  rewrite str_app_cons. cbn. intros [Hx Ha]%andb_true_iff. destruct (Ascii.eqb_spec x c) as [->|_]; [by rewrite Z.eqb_refl in Hx|]. by rewrite IH.
Qed.
Lemma first_char_app a b : a ≠ EmptyString → first_char (a ++ b)%string = first_char a.
Proof. by destruct a. Qed.
Lemma last_char_app a b : b ≠ EmptyString → last_char (a ++ b)%string = last_char b.
Proof.
  intros Hb. induction a as [|x a IH]; [done|]. rewrite str_app_cons. cbn [last_char].
  destruct (a ++ b)%string eqn:Hab; [by destruct a|]. exact IH.
Qed.
Lemma str_forallb_last p s x : str_forallb p s = true → last_char s = Some x → p x = true.
Proof.
  induction s as [|a s IH]; [done|]. cbn [str_forallb]. intros [Ha Hs]%andb_true_iff.
  destruct s as [|b s]; [by intros [= <-]|]. by apply IH.
Qed.
Lemma numeral_plain x : numeral x = true → (x <? 128) = true ∧ is_whitespace x = false.
Proof.
  unfold numeral, is_ascii_digit. intros [H%between_iff|H%Z.eqb_eq]%orb_true_iff.
  - split; [lia|]. unfold is_whitespace. rewrite !between_false by lia. rewrite !(proj2 (Z.eqb_neq _ _)) by lia. done.
  - by subst.
Qed.
