(* ===== verification/Externals.v ===== *)
(** * Externals: what the program relies on and does not define.

    [Externals] collects the third-party functions (sha2, hmac, serde_json,
    url, image) and the two large Unicode tables as uninterpreted functions;
    nothing is assumed about them unless a theorem names a law.  [Fs] is the
    part of [std::fs] the program reads: what [symlink_metadata] and a read
    return for a path. *)
From Stdlib Require Import Ascii.
From S2P Require Import Prelude Text.
Local Open Scope Z_scope.

(** What the program looks at in a parsed [url::Url]. *)
Record Url := mkUrl {
  url_str : string;                   (* [as_str] / [to_string] *)
  url_scheme : string;
  url_file_path : option string;      (* [to_file_path().ok()] *)
  url_last_segment : option string;   (* [path_segments().and_then(last)] *)
}.

Class Externals := {
  (** [str::to_lowercase] and [char::is_alphanumeric]. *)
  to_lowercase : string → string;
  char_is_alphanumeric : Z → bool;
  (** [sha2::Sha256::digest] and [hex::encode]. *)
  sha256 : bytes → bytes;
  hex_encode : bytes → string;
  (** [serde_json::from_str::<Value>(s).is_ok()]. *)
  json_valid : string → bool;
  (** [Url::parse(s).ok()] and [Url::from_file_path(path).ok()]. *)
  url_parse : string → option Url;
  url_from_file_path : string → option string;
  (** [image::guess_format(b)] as a MIME type; the limited [image_reader] on
      bytes: its format and dimensions; and whether it decodes fully. *)
  guess_format : bytes → option string;
  image_format : bytes → option string;
  image_size : bytes → option (Z * Z);
  image_decodes : bytes → bool;
  (** [Uuid::parse_str(s).is_ok()]. *)
  uuid_valid : string → bool;
  (** [fts_match(document, query)] of the engine's trigram index. *)
  fts_match : string → string → bool;
}.

(** ** Files *)
Inductive FileKind := Regular | Directory | Symlink | OtherKind.
#[export] Instance FileKind_eq_dec : EqDecision FileKind.
Proof. solve_decision. Defined.

Record Node := mkNode {
  node_kind : FileKind;
  node_device : Z;
  node_inode : Z;
  node_owner : Z;
  node_links : Z;
  node_mode : Z;
  node_bytes : bytes;
  node_resolves : bool;               (* following it reaches a file *)
}.
#[export] Instance Node_eq_dec : EqDecision Node.
Proof. solve_decision. Defined.
Abbreviation Fs := (gmap string Node).
Definition is_file (n : Node) : bool := bool_decide (node_kind n = Regular).
(** [Path::exists] follows links. *)
Definition path_exists (fs : Fs) (p : string) : bool :=
  match fs !! p with Some n => node_resolves n | None => false end.
Definition node_len (n : Node) : Z := zlen (node_bytes n).

(** [Path::is_absolute], [Path::parent] and [Path::file_name] on the paths the
    program builds (no trailing slash, no [..]). *)
Definition path_is_absolute (p : string) : bool := starts_with "/" p.
Definition path_split (p : string) : option (string * string) := rsplit_once "/"%char p.
Definition path_parent (p : string) : option string :=
  match path_split p with
  | Some (EmptyString, _) => Some "/"
  | Some (d, _) => Some d
  | None => Some EmptyString
  end.
Definition path_file_name (p : string) : option string :=
  match path_split p with
  | Some (_, EmptyString) => None
  | Some (_, n) => Some n
  | None => if decide (p = EmptyString) then None else Some p
  end.

(** ** A small concrete instance, for evaluation *)
Definition toy_url_parse (s : string) : option Url :=
  match strip_prefix "file://" s with
  | Some p => Some (mkUrl s "file" (Some p) (snd <$> path_split p))
  | None =>
      match split_once_str "://" s with
      | Some (sch, r) => Some (mkUrl s sch None (snd <$> path_split r))
      | None => None
      end
  end.
Definition toy_png (b : bytes) : option string :=
  match b with
  | x89 :: x50 :: x4e :: x47 :: _ => Some "image/png"
  | _ => None
  end.
Definition toy_externals : Externals := {|
  to_lowercase := to_ascii_lowercase;
  char_is_alphanumeric := is_ascii_alphanumeric;
  sha256 b := take 32 (b ++ replicate 32 x00);
  hex_encode b := bytes_str b;
  json_valid s := bool_decide (s = "{}") || bool_decide (s = "[1]");
  url_parse := toy_url_parse;
  url_from_file_path p := Some ("file://" ++ p)%string;
  guess_format := toy_png;
  image_format := toy_png;
  image_size b := _ ← toy_png b; Some (1, 1);
  image_decodes b := bool_decide (is_Some (toy_png b));
  uuid_valid s := (str_len s =? 36);
  fts_match doc q := true;
|}.
