(* ===== verification/Model.v ===== *)
(** * Model: the data of [model.rs] and [backend.rs] — entries, queries, pages,
    errors, mutations — with the checks and the paging helper defined there. *)
From S2P Require Import Prelude Text Externals.
Local Open Scope Z_scope.

(** ** [model.rs] *)
Inductive EntryKind := Text | Link | Image | Files | Html | Json | Color | Binary.
#[export] Instance EntryKind_eq_dec : EqDecision EntryKind.
Proof. solve_decision. Defined.

Definition EntryKind_label (k : EntryKind) : string :=
  match k with
  | Text => "Text" | Link => "Link" | Image => "Image" | Files => "Files"
  | Html => "Html" | Json => "Json" | Color => "Color" | Binary => "Binary"
  end.

Record EntrySummary := mkSummary {
  s_id : string;
  s_revision : Z;
  s_kind : EntryKind;
  s_mime : string;
  s_byte_size : Z;
  s_favorite : bool;
  s_current : bool;
  s_preview : string;
}.
#[export] Instance EntrySummary_eq_dec : EqDecision EntrySummary.
Proof. solve_decision. Defined.

Record HistoryQuery := mkQuery {
  q_query : string;
  q_generation : Z;
  q_offset : Z;
  q_limit : Z;
  q_collapse_self_echoes : bool;
}.

Record HistoryPage := mkPage {
  p_total : Z;
  p_revision : Z;
  p_generation : Z;
  p_current : option EntrySummary;
  p_entries : list EntrySummary;
  p_has_more : bool;
  p_next_offset : option Z;
}.

(** [paginate]: the iterator is consumed by [skip(offset)] and [take(limit)]
    while [inspect] counts what passes, and [matches.count()] drains the rest. *)
Definition paginate {A} (matches : list A) (offset limit : Z) : list A * Z :=
  let skipped := ztake offset matches in
  let after := zdrop offset matches in
  let page := ztake limit after in
  let rest := zdrop limit after in
  let seen := zlen skipped + zlen page in
  (page, seen + zlen rest).

Record ImageMetadata := mkImageMetadata { im_width : Z; im_height : Z }.
Record FilePreview := mkFilePreview {
  fp_display_name : string;
  fp_uri : string;
  fp_exists : bool;
  fp_operation : string;
}.
Record EntryDetails := mkDetails {
  d_entry : EntrySummary;
  d_text : option string;
  d_files : list FilePreview;
  d_image : option ImageMetadata;
  d_preview_truncated : bool;
}.
Record EntryThumbnail := mkThumbnail {
  th_entry_id : string;
  th_revision : Z;
  th_path : string;
  th_width : Z;
  th_height : Z;
}.
Record ReplacementResult := mkReplacement {
  r_entry : EntryDetails;
  r_selection_published : bool;
  r_publication_message : string;
}.
Record OperationResult := mkOperation {
  o_id : string;
  o_action : string;
  o_status : string;
  o_message : string;
  o_path : option string;
  o_warning : option string;
}.
#[export] Instance OperationResult_eq_dec : EqDecision OperationResult.
Proof. solve_decision. Defined.

Definition with_id (id action status message : string) : OperationResult :=
  mkOperation id action status message None None.
(** [OperationResult::completed]; [uuid] is the fresh identifier it draws. *)
Definition completed (uuid action message : string) : OperationResult :=
  with_id ("operation-" ++ uuid)%string action "completed" message.

(** ** [backend.rs] *)
Definition MAX_QUERY_LIMIT : Z := 200.
Definition MAX_QUERY_BYTES : Z := 4096.
Definition MAX_FILES : Z := 100.
Definition MAX_WAYLAND_SELECTION_BYTES : Z := 67108864.

Record EntryTarget := mkTarget { opaque_id : string; expected_revision : Z }.
#[export] Instance EntryTarget_eq_dec : EqDecision EntryTarget.
Proof. solve_decision. Defined.

(** [ScreenshotRegion::valid_dimensions]. *)
Definition valid_dimensions (width height : Z) : bool :=
  between 1 width 16384 && between 1 height 16384 && (width * height <=? 33554432).

Inductive FileSelectionOperation := CopyFiles | CutFiles.
Definition FileSelectionOperation_as_str (o : FileSelectionOperation) : string :=
  match o with CopyFiles => "copy" | CutFiles => "cut" end.
Record FileSelection := mkFileSelection {
  operation : FileSelectionOperation;
  paths : list string;
}.
Definition FileSelection_validate (s : FileSelection) : result string unit :=
  if negb (between 1 (zlen (paths s)) MAX_FILES) then
    Err "paths must contain between 1 and 100 files"
  else if existsb (λ p, negb (path_is_absolute p)) (paths s) then
    Err "every file path must be absolute"
  else Ok tt.

Inductive BackendErrorKind := Unavailable | NotFound | Stale | InvalidData | OperationFailed.
#[export] Instance BackendErrorKind_eq_dec : EqDecision BackendErrorKind.
Proof. solve_decision. Defined.
Definition BackendErrorKind_code (k : BackendErrorKind) : string :=
  match k with
  | Unavailable => "backend-unavailable"
  | NotFound => "entry-not-found"
  | Stale => "stale-action"
  | InvalidData => "invalid-entry"
  | OperationFailed => "operation-failed"
  end.
Definition BackendErrorKind_retryable (k : BackendErrorKind) : bool :=
  bool_decide (k = Unavailable).

Record BackendError := mkError { kind : BackendErrorKind; message : string }.
#[export] Instance BackendError_eq_dec : EqDecision BackendError.
Proof. solve_decision. Defined.
Definition unavailable (m : string) : BackendError := mkError Unavailable m.
Definition not_found (m : string) : BackendError := mkError NotFound m.
Definition stale (m : string) : BackendError := mkError Stale m.
Definition invalid_data (m : string) : BackendError := mkError InvalidData m.
Definition operation_error (m : string) : BackendError := mkError OperationFailed m.
Abbreviation BackendResult := (result BackendError).

Inductive BackendMutation :=
| Restore (max_bytes : Z)
| ImageAsFile (max_bytes : Z)
| Annotate (max_bytes : Z)
| Remove
| SetFavorite (value : bool)
| Wipe
| Cleanup.

Definition for_action (action : string) (max_bytes : Z) : option BackendMutation :=
  if memb action ["copy"; "paste"] then Some (Restore max_bytes)
  else if bool_decide (action = "image-as-file") then Some (ImageAsFile max_bytes)
  else if bool_decide (action = "annotate") then Some (Annotate max_bytes)
  else if bool_decide (action = "delete") then Some Remove
  else if memb action ["favorite"; "pin-current"] then Some (SetFavorite true)
  else if bool_decide (action = "unfavorite") then Some (SetFavorite false)
  else if bool_decide (action = "cleanup") then Some Cleanup
  else None.

Definition require_revision (m : BackendMutation) (revision : option Z) : BackendResult bool :=
  let targets_entry := match m with Wipe | Cleanup => false | _ => true end in
  if targets_entry && bool_decide (revision = None) then
    Err (stale "An expected clipboard entry revision is required")
  else Ok targets_entry.

(** ** Lemmas *)
Lemma EntryKind_label_inj : Inj (=) (=) EntryKind_label.
Proof. intros [] []; done. Qed.

(** The page is the requested window and the count is the whole input: every
    row is visited, whatever the limit. *)
Lemma paginate_spec {A} (l : list A) offset limit :
  paginate l offset limit = (ztake limit (zdrop offset l), zlen l).
Proof.
  unfold paginate. f_equal. rewrite <- Z.add_assoc, <- zlen_app, ztake_zdrop, <- zlen_app.
  by rewrite ztake_zdrop.
Qed.

Lemma valid_dimensions_iff w h :
  valid_dimensions w h = true ↔ 1 <= w <= 16384 ∧ 1 <= h <= 16384 ∧ w * h <= 33554432.
Proof. unfold valid_dimensions. rewrite !andb_true_iff, !between_iff, Z.leb_le. tauto. Qed.
