(* ===== verification/Classification.v ===== *)
(** * Classification: [classification.rs] — the kind of a clipboard entry from
    its MIME type and content, and the bounded one-line preview. *)
From Stdlib Require Import Ascii.
From S2P Require Import Prelude Text Externals Model.
Local Open Scope Z_scope.

Definition INSPECTION_LIMIT : Z := 65536.
Definition PREVIEW_LIMIT : Z := 256.

(** The arms of the [match] in source order; each guard arm is an [if]. *)
Definition authoritative_kind (mime : string) : option EntryKind :=
  let m := to_ascii_lowercase mime in
  if memb m [""; "text/plain"] then None
  else if memb m ["text/uri-list"; "x-special/gnome-copied-files"] then Some Files
  else if memb m ["text/html"; "application/xhtml+xml"] then Some Html
  else if memb m ["application/json"; "application/ld+json"] then Some Json
  else if starts_with "image/" m then Some Image
  else if starts_with "text/" m then None
  else Some Binary.

Definition looks_like_url (value : string) : bool :=
  match split_once_str "://" value with
  | None => false
  | Some (scheme, rest) =>
      memb (to_ascii_lowercase scheme) ["http"; "https"]
      && negb (bool_decide (rest = EmptyString))
      && negb (existsb is_whitespace (chars value))
  end.

(** [\[b'{', .., b'}'\] | \[b'\[', .., b'\]'\]]: at least two bytes, first and last given. *)
Definition bracketed (b : bytes) : bool :=
  match b, last b with
  | _ :: [], _ => false
  | x :: _ :: _, Some y =>
      (bool_decide (x = x7b) && bool_decide (y = x7d))
      || (bool_decide (x = x5b) && bool_decide (y = x5d))
  | _, _ => false
  end.

Definition looks_like_color (value : string) : bool :=
  match strip_prefix "#" value with
  | None => false
  | Some hex => memb (str_len hex) [3; 4; 6; 8] && str_forallb is_ascii_hexdigit hex
  end.

Definition preview_character_is_visible (c : Z) : bool :=
  negb (is_control c)
  && negb ((c =? 173) || (c =? 847) || (c =? 1564) || (c =? 6158)
           || between 8203 c 8207 || between 8234 c 8238
           || between 8288 c 8303 || (c =? 65279)).

Definition truncate_utf8 (value : bytes) (limit : Z) : bytes :=
  take (floor_char_boundary value (Z.to_nat limit)) value.

Fixpoint join_words (ws : list (list Z)) : list Z :=
  match ws with
  | [] => []
  | [w] => w
  | w :: ws' => w ++ 32 :: join_words ws'
  end.

Definition bounded_preview (b : bytes) (max_bytes : Z) : string :=
  let text := from_utf8_lossy (ztake max_bytes b) in
  let ws := filter (λ w, w ≠ []) (filter (λ c, preview_character_is_visible c = true)
                                   <$> split_whitespace text) in
  bytes_str (truncate_utf8 (encode_chars (join_words ws)) PREVIEW_LIMIT).

Section with_externals.
Context `{Externals}.

Definition looks_like_json (value : string) : bool :=
  bracketed (str_bytes value) && json_valid value.

(** [find_map] over the three tests, in order. *)
Definition semantic_text_kind (b : bytes) : EntryKind :=
  match from_utf8 b with
  | None => Binary
  | Some text =>
      let value := trim text in
      if looks_like_url value then Link
      else if looks_like_json value then Json
      else if looks_like_color value then Color
      else Text
  end.

Definition classify (mime : string) (b : bytes) : EntryKind :=
  let normalized := trim (before_char ";"%char mime) in
  match authoritative_kind normalized with
  | Some k => k
  | None => semantic_text_kind (ztake INSPECTION_LIMIT b)
  end.
End with_externals.

(** ** The preview *)
Section preview.
Implicit Types (cs w : list Z).

Lemma drop_words_aux cur cs :
  Forall scalar cur → Forall scalar cs → Forall (Forall scalar) (words_aux cur cs).
Proof.
  intros Hcur Hcs; revert cur Hcur.
  induction Hcs as [|c cs Hc _ IH]; intros cur Hcur; cbn.
  - case_decide; repeat constructor. by apply Forall_reverse.
  - destruct (is_whitespace c).
    + apply Forall_app; split; [|by apply IH].
      case_decide; repeat constructor. by apply Forall_reverse.
    + apply IH. by constructor.
Qed.

Lemma join_words_Forall (P : Z → Prop) ws :
  P 32 → Forall (Forall P) ws → Forall P (join_words ws).
Proof.
  intros Hsp. induction 1 as [|w ws Hw Hws IH]; [constructor|].
  cbn. destruct ws; [done|]. apply Forall_app; split; [done|by constructor].
Qed.

(** The characters of the joined line, before truncation. *)
Definition preview_chars (b : bytes) (max_bytes : Z) : list Z :=
  join_words (filter (λ w, w ≠ []) (filter (λ c, preview_character_is_visible c = true)
                                 <$> split_whitespace (from_utf8_lossy (ztake max_bytes b)))).

Lemma preview_chars_scalar b n : Forall scalar (preview_chars b n).
Proof.
  apply join_words_Forall; [unfold scalar; lia|].
  apply Forall_filter_l, Forall_fmap.
  eapply Forall_impl; [apply drop_words_aux; [constructor|apply from_utf8_lossy_scalar]|].
  intros w Hw; cbn. by apply Forall_filter_l.
Qed.
Lemma preview_chars_visible b n :
  Forall (λ c, preview_character_is_visible c = true) (preview_chars b n).
Proof.
  apply join_words_Forall; [done|]. apply Forall_filter_l, Forall_fmap, Forall_forall.
  intros w _; cbn. apply Forall_forall. intros c Hc.
  by apply list_elem_of_filter in Hc as [? _].
Qed.
End preview.

(** A preview is always displayable: at most 256 bytes, valid UTF-8, only
    visible characters, and a prefix of the text it previews, cut between
    characters. *)
Theorem bounded_preview_ok b n :
  let p := str_bytes (bounded_preview b n) in
  zlen p <= PREVIEW_LIMIT
  ∧ utf8_valid p = true
  ∧ ∃ cs, utf8_chunks p = Some <$> cs
        ∧ cs `prefix_of` preview_chars b n
        ∧ Forall (λ c, preview_character_is_visible c = true) cs.
Proof.
  intros p. subst p. unfold bounded_preview. rewrite bytes_str_bytes.
  fold (preview_chars b n). unfold truncate_utf8.
  set (e := encode_chars (preview_chars b n)).
  assert (Hdec : utf8_chunks e = Some <$> preview_chars b n)
    by apply encode_chars_decode, preview_chars_scalar.
  destruct (utf8_take e (floor_char_boundary e (Z.to_nat PREVIEW_LIMIT))) as [Hv Hpre].
  { apply encode_chars_valid, preview_chars_scalar. }
  { apply floor_char_boundary_ok. }
  split_and!; [|done|].
  - unfold zlen. rewrite length_take. pose proof (floor_char_boundary_le e (Z.to_nat PREVIEW_LIMIT)).
    unfold PREVIEW_LIMIT in *. lia.
  - rewrite Hdec in Hpre. destruct Hpre as [k Hk].
    exists (take (length (utf8_chunks (take (floor_char_boundary e (Z.to_nat PREVIEW_LIMIT)) e)))
                 (preview_chars b n)).
    split_and!.
    + rewrite fmap_take, Hk. by rewrite take_app_length.
    + apply prefix_take.
    + apply Forall_take, preview_chars_visible.
Qed.

(** ** The kind *)
Section kind.
Context `{Externals}.

Lemma before_char_app c m r :
  str_contains_char c m = false → before_char c (m ++ String c r) = m.
Proof.
  unfold str_contains_char. intros Hm. apply negb_false_iff in Hm.
  induction m as [|a m IH]; cbn [before_char String.append str_forallb] in *.
  - change (before_char c (String c r) = EmptyString). cbn [before_char].
    by rewrite Ascii.eqb_refl.
  - change (before_char c (String a (m ++ String c r)) = String a m). cbn [before_char].
    apply andb_true_iff in Hm as [Ha Hm]. destruct (Ascii.eqb_spec a c) as [->|]; [|by rewrite IH].
    by rewrite Z.eqb_refl in Ha.
Qed.
Lemma before_char_none c m : str_contains_char c m = false → before_char c m = m.
Proof.
  unfold str_contains_char. intros Hm. apply negb_false_iff in Hm.
  induction m as [|a m IH]; cbn [before_char str_forallb] in *; [done|].
  apply andb_true_iff in Hm as [Ha Hm]. destruct (Ascii.eqb_spec a c) as [->|]; [|by rewrite IH].
  by rewrite Z.eqb_refl in Ha.
Qed.

(** Classification looks at the MIME essence and a bounded prefix: parameters
    do not matter, nor bytes past the inspection limit, nor any byte when the
    MIME decides. *)
Theorem classify_depends mime params b b' :
  str_contains_char ";" mime = false →
  classify (mime ++ String ";" params) b = classify mime b
  ∧ (ztake INSPECTION_LIMIT b = ztake INSPECTION_LIMIT b' → classify mime b = classify mime b')
  ∧ (authoritative_kind (trim mime) ≠ None → classify mime b = classify mime b').
Proof.
  intros Hm. unfold classify. rewrite before_char_app, before_char_none by done.
  split_and!; [done| |].
  - by intros ->.
  - intros Hk. by destruct (authoritative_kind (trim mime)).
Qed.
End kind.

Lemma classify_depends_witness :
  @classify toy_externals "text/plain;charset=utf-8" [x61] = @classify toy_externals "text/plain" [x61].
Proof. exact (proj1 (@classify_depends toy_externals "text/plain" "charset=utf-8" [x61] [x61] eq_refl)). Defined.
