(* ===== verification/Selection.v ===== *)
(** * Selection: [selection.rs] — validation of what is published on the
    Wayland clipboard, the publisher, and the size-checked reads.

    The [SelectionPublisher] trait is the class [SelectionPublisher]; the
    Wayland implementation hands copy requests to wl-clipboard-rs, which is
    outside the program: [Clipboard] records the requests it accepted and
    carries an arbitrary schedule of its refusals. *)
From Stdlib Require Import Ascii.
From stdpp Require Import pretty.
From S2P Require Import Prelude Text Externals Model.
Local Open Scope Z_scope.

(** ** Limits and validation *)
Definition effective_limit (configured_limit : Z) : Z :=
  Z.min configured_limit MAX_WAYLAND_SELECTION_BYTES.

Definition validate_size (size configured_limit : Z) : BackendResult unit :=
  let limit := effective_limit configured_limit in
  if limit <? size then
    Err (invalid_data ("Clipboard entry is " ++ pretty size
           ++ " bytes; Wayland publishing is limited to " ++ pretty limit ++ " bytes"))
  else Ok tt.

Definition valid_mime_ascii (mime : string) : bool :=
  negb (bool_decide (mime = EmptyString))
  && (str_len mime <=? 255)
  && str_forallb (λ x, (x <? 128) && negb (is_ascii_control x)) mime.

Definition valid_mime_token (value : string) : bool :=
  negb (bool_decide (value = EmptyString))
  && str_forallb (λ x, is_ascii_alphanumeric x
                       || memb x (char_z <$> ["!"; "#"; "$"; "&"; "^"; "_"; "."; "+"; "-"]%char))
                 value.

Definition valid_mime_essence (mime : string) : bool :=
  match split_char "/"%char (trim (before_char ";"%char mime)) with
  | [a; b] => valid_mime_token a && valid_mime_token b
  | _ => false
  end.

Definition validate_mime (mime : string) : BackendResult unit :=
  ensure (valid_mime_ascii mime && valid_mime_essence mime)
         (invalid_data "Clipboard MIME type is invalid for Wayland publishing").

Definition sensitive_error : string :=
  "Sensitive text must be 1–256 UTF-8 bytes; expiry must be 0 or 10–300 seconds".
Definition validate_sensitive (b : bytes) (seconds : Z) : result string unit :=
  if negb (between 1 (zlen b) 256) || negb (utf8_valid b)
     || (negb (seconds =? 0) && negb (between 10 seconds 300))
  then Err sensitive_error else Ok tt.

(** [supports_text_aliases]. *)
Definition supports_text_aliases (mime : string) (b : bytes) : bool :=
  memb mime ["text/plain"; "text/plain;charset=utf-8"] && utf8_valid b.

(** ** Reading with both size checks

    [source] is what the reader would deliver; [take(limit + 1)] bounds it. *)
Definition read_selection (source : bytes) (size configured_limit : Z) : BackendResult bytes :=
  _ ← validate_size size configured_limit;
  let b := ztake (effective_limit configured_limit + 1) source in
  _ ← validate_size (zlen b) configured_limit;
  mret b.

Definition read_path (fs : Fs) (path : string) (max_bytes : Z) : BackendResult bytes :=
  match fs !! path with
  | None => Err (operation_error "No such file or directory")
  | Some n =>
      if decide (node_kind n = Directory) then
        _ ← validate_size (node_len n) max_bytes; Err (operation_error "Is a directory")
      else read_selection (node_bytes n) (node_len n) max_bytes
  end.

(** ** Publishers *)
Definition selection_error (m : string) : BackendError :=
  operation_error ("Could not own the Wayland clipboard selection: " ++ m).

Inductive MimeType := Specific (mime : string) | TextMime.
Record CopyRequest := mkCopy {
  c_sources : list (MimeType * bytes);
  c_omit_text_aliases : bool;
}.
Record Clipboard := mkClipboard {
  cb_owned : list CopyRequest;             (* newest first *)
  cb_refusals : list (option string);      (* what the next requests return *)
}.
(** [options.copy(..)] and [options.copy_multi(..)] of wl-clipboard-rs. *)
Definition wl_copy (r : CopyRequest) (c : Clipboard) : BackendResult unit * Clipboard :=
  match cb_refusals c with
  | Some e :: rest => (Err (selection_error e), mkClipboard (cb_owned c) rest)
  | None :: rest => (Ok tt, mkClipboard (r :: cb_owned c) rest)
  | [] => (Ok tt, mkClipboard (r :: cb_owned c) [])
  end.

Abbreviation Publishing := (Clipboard → BackendResult unit * Clipboard).

(** The trait: required [publish], provided defaults for the rest. *)
Class SelectionPublisher (P : Type) := {
  publisher_publish : P → string → bytes → Publishing;
  publisher_publish_file_link : P → bytes → Publishing;
  publisher_publish_files : P → bytes → bytes → Publishing;
}.

Inductive WaylandSelectionPublisher := wayland_publisher.

Definition wayland_publish (mime : string) (b : bytes) : Publishing :=
  wl_copy (mkCopy [(Specific mime, b)] (negb (supports_text_aliases mime b))).

Definition CRLF : bytes := [x0d; x0a].
Definition strip_crlf (uri : bytes) : bytes :=
  let n := (length uri - 2)%nat in
  if decide (2 ≤ length uri ∧ drop n uri = CRLF)%nat then take n uri else uri.
Definition wayland_publish_file_link (uri : bytes) : Publishing :=
  wl_copy (mkCopy [(Specific "text/uri-list", uri); (TextMime, strip_crlf uri)] false).

Definition wayland_publish_files (gnome_payload uri_list : bytes) : Publishing :=
  wl_copy (mkCopy [(Specific "x-special/gnome-copied-files", gnome_payload);
                   (Specific "text/uri-list", uri_list)] true).

#[export] Instance wayland_selection_publisher : SelectionPublisher WaylandSelectionPublisher := {|
  publisher_publish _ := wayland_publish;
  publisher_publish_file_link _ := wayland_publish_file_link;
  publisher_publish_files _ := wayland_publish_files;
|}.

(** Run a validation before a publication. *)
Definition checked {A} (v : BackendResult A) (k : A → Publishing) : Publishing :=
  λ c, match v with Ok a => k a c | Err e => (Err e, c) end.

Section service.
Context `{SelectionPublisher P} (publisher : P).

Definition publish (mime : string) (b : bytes) (configured_limit : Z) : Publishing :=
  checked (validate_mime mime) (λ _,
  checked (validate_size (zlen b) configured_limit) (λ _,
  publisher_publish publisher mime b)).

Definition publish_file_link (uri : bytes) (configured_limit : Z) : Publishing :=
  checked (validate_size (zlen uri) configured_limit) (λ _,
  publisher_publish_file_link publisher uri).

Definition publish_files (operation : string) (uri_list : bytes) (configured_limit : Z) : Publishing :=
  if negb (memb operation ["copy"; "cut"]) then
    λ c, (Err (invalid_data "File selection operation must be copy or cut"), c)
  else
    checked (validate_size (zlen uri_list + str_len operation + 1) configured_limit) (λ _,
    let gnome_payload := str_bytes operation ++ [x0a] ++ uri_list in
    publisher_publish_files publisher gnome_payload uri_list).

Definition publish_file (fs : Fs) (mime path : string) (configured_limit : Z) : Publishing :=
  checked (validate_mime mime) (λ _,
  checked (read_path fs path configured_limit) (λ b,
  publisher_publish publisher mime b)).
End service.

(** ** Lemmas *)
Lemma validate_size_Ok size limit u :
  validate_size size limit = Ok u ↔ size <= effective_limit limit.
Proof. unfold validate_size. destruct u. case_match; bools; split; (done || lia || congruence). Qed.
Lemma validate_size_Err size limit e :
  validate_size size limit = Err e → effective_limit limit < size ∧ kind e = InvalidData.
Proof. unfold validate_size. case_match; bools; [|done]. by intros [= <-]. Qed.
Lemma validate_mime_Ok mime u :
  validate_mime mime = Ok u ↔ valid_mime_ascii mime = true ∧ valid_mime_essence mime = true.
Proof. unfold validate_mime. by rewrite ensure_Ok, andb_true_iff. Qed.

Lemma checked_ok {A} (v : BackendResult A) k c c' :
  checked v k c = (Ok tt, c') → ∃ a, v = Ok a ∧ k a c = (Ok tt, c').
Proof. unfold checked. destruct v; [eauto|congruence]. Qed.
Lemma checked_err {A} (v : BackendResult A) k c e c' :
  checked v k c = (Err e, c') → (v = Err e ∧ c' = c) ∨ ∃ a, v = Ok a ∧ k a c = (Err e, c').
Proof. unfold checked. destruct v; [eauto|]. intros [= -> ->]; by left. Qed.

Lemma wl_copy_ok r c c' : wl_copy r c = (Ok tt, c') → cb_owned c' = r :: cb_owned c.
Proof. unfold wl_copy. repeat case_match; intros [= <-]; done. Qed.
Lemma wl_copy_err r c e c' :
  wl_copy r c = (Err e, c') → cb_owned c' = cb_owned c ∧ kind e = OperationFailed.
Proof. unfold wl_copy. repeat case_match; intros [= <- <-]; done. Qed.

Lemma strip_crlf_len uri : zlen (strip_crlf uri) <= zlen uri.
Proof. unfold strip_crlf. case_decide; [|lia]. unfold zlen. rewrite length_take. lia. Qed.

Lemma read_selection_Ok source size limit b :
  0 <= limit →
  read_selection source size limit = Ok b ↔
  size <= effective_limit limit ∧ zlen source <= effective_limit limit ∧ b = source.
Proof.
  intros Hl. assert (0 <= effective_limit limit)
    by (unfold effective_limit, MAX_WAYLAND_SELECTION_BYTES; lia).
  unfold read_selection. split.
  - intros H'. res_inv. rewrite validate_size_Ok in *.
    rewrite zlen_ztake in * by lia.
    split_and!; [done|lia|]. by rewrite ztake_all by lia.
  - intros (Hs & Hlen & ->). rewrite ztake_all by lia.
    apply (validate_size_Ok _ _ tt) in Hs as ->. cbn.
    by apply (validate_size_Ok _ _ tt) in Hlen as ->.
Qed.
(** Reading a selection is exact or refused: a file is read only if its size
    and its content are within the effective limit, and then completely. *)
Theorem read_selection_spec source size limit b :
  0 <= limit →
  read_selection source size limit = Ok b ↔
  size <= effective_limit limit ∧ zlen source <= effective_limit limit ∧ b = source.
Proof. apply read_selection_Ok. Qed.
Lemma read_selection_spec_witness :
  read_selection (str_bytes "abcd") 4 4 = Ok (str_bytes "abcd")
  ∧ read_selection (str_bytes "abcde") 4 4 ≠ Ok (str_bytes "abcd").
Proof.
  split.
  - apply (read_selection_spec (str_bytes "abcd") 4 4); [lia|vm_compute; split_and!; congruence].
  - intros H. apply (read_selection_spec (str_bytes "abcde") 4 4) in H; [|lia].
    destruct H as (_ & _ & H). vm_compute in H. discriminate.
Defined.

(** What the program asks the service to publish. *)
Inductive Publication :=
| PContent (mime : string) (b : bytes)
| PFileLink (uri : bytes)
| PFiles (operation : string) (uri_list : bytes)
| PFile (fs : Fs) (mime path : string).
Definition run_publication (p : Publication) (limit : Z) : Publishing :=
  match p with
  | PContent mime b => publish wayland_publisher mime b limit
  | PFileLink uri => publish_file_link wayland_publisher uri limit
  | PFiles op uris => publish_files wayland_publisher op uris limit
  | PFile fs mime path => publish_file wayland_publisher fs mime path limit
  end.

(** Everything a request offers is within the limit, under a valid type. *)
Definition safe_request (limit : Z) (r : CopyRequest) : Prop :=
  Forall (λ '(t, b), zlen b <= effective_limit limit
            ∧ match t with
              | Specific m => valid_mime_ascii m = true ∧ valid_mime_essence m = true
              | TextMime => True
              end) (c_sources r).

(** The content a request carries for a publication. *)
Definition carries (p : Publication) (r : CopyRequest) : Prop :=
  match p with
  | PContent mime b => c_sources r = [(Specific mime, b)]
  | PFileLink uri => (Specific "text/uri-list", uri) ∈ c_sources r
  | PFiles op uris =>
      c_sources r = [(Specific "x-special/gnome-copied-files", str_bytes op ++ x0a :: uris);
                     (Specific "text/uri-list", uris)]
  | PFile fs mime path =>
      ∃ n, fs !! path = Some n ∧ c_sources r = [(Specific mime, node_bytes n)]
  end.

Lemma read_path_Ok fs path limit b :
  0 <= limit → read_path fs path limit = Ok b →
  ∃ n, fs !! path = Some n ∧ b = node_bytes n ∧ zlen b <= effective_limit limit.
Proof.
  intros Hl. unfold read_path. destruct (fs !! path) as [n|]; [|done].
  case_decide; [intros; by res_inv|]. intros Hr.
  apply read_selection_Ok in Hr as (? & ? & ->); eauto.
Qed.

Definition wayland_mime (m : string) : Prop :=
  valid_mime_ascii m = true ∧ valid_mime_essence m = true.
Lemma uri_list_mime : wayland_mime "text/uri-list".
Proof. split; vm_compute; reflexivity. Qed.
Lemma gnome_files_mime : wayland_mime "x-special/gnome-copied-files".
Proof. split; vm_compute; reflexivity. Qed.
#[export] Hint Resolve uri_list_mime gnome_files_mime : clip.

Ltac safe_tac :=
  unfold safe_request; cbn [c_sources]; rewrite ?Forall_cons, Forall_nil;
  cbn beta iota zeta; fold (wayland_mime "text/uri-list") (wayland_mime "x-special/gnome-copied-files");
  repeat split; first [assumption | lia | apply uri_list_mime | apply gnome_files_mime].

Lemma publication_runs p limit c :
  0 <= limit →
  match run_publication p limit c with
  | (Ok _, c') => ∃ r, cb_owned c' = r :: cb_owned c ∧ safe_request limit r ∧ carries p r
  | (Err _, c') => cb_owned c' = cb_owned c
  end.
Proof.
  intros Hl. destruct (run_publication p limit c) as [[[]|e] c'] eqn:Hrun; destruct p; cbn in Hrun.
  - apply checked_ok in Hrun as (? & Hm & Hrun). apply checked_ok in Hrun as (? & Hs & Hrun).
    apply wl_copy_ok in Hrun. apply validate_mime_Ok in Hm as [? ?]. apply validate_size_Ok in Hs.
    eexists; split_and!; [done|safe_tac|done].
  - apply checked_ok in Hrun as (? & Hs & Hrun). apply wl_copy_ok in Hrun.
    apply validate_size_Ok in Hs. pose proof (strip_crlf_len uri).
    eexists; split_and!; [done|safe_tac|cbn; set_solver].
  - unfold publish_files in Hrun. case_match; [done|].
    apply checked_ok in Hrun as (? & Hs & Hrun). apply wl_copy_ok in Hrun.
    apply validate_size_Ok in Hs.
    assert (zlen (str_bytes operation ++ [x0a] ++ uri_list) = zlen uri_list + str_len operation + 1).
    { rewrite !zlen_app. unfold zlen at 1, str_len. rewrite str_bytes_length. change (zlen [x0a]) with 1. lia. }
    assert (0 <= str_len operation) by (unfold str_len; lia).
    eexists; split_and!; [done|safe_tac|done].
  - apply checked_ok in Hrun as (? & Hm & Hrun). apply checked_ok in Hrun as (b & Hr & Hrun).
    apply wl_copy_ok in Hrun. apply validate_mime_Ok in Hm as [? ?].
    apply read_path_Ok in Hr as (n & ? & -> & ?); [|done].
    eexists; split_and!; [done|safe_tac|]. exists n; done.
  - by repeat first [ apply checked_err in Hrun as [[_ ->]|(? & _ & Hrun)]
                    | apply wl_copy_err in Hrun as [-> _] ].
  - by repeat first [ apply checked_err in Hrun as [[_ ->]|(? & _ & Hrun)]
                    | apply wl_copy_err in Hrun as [-> _] ].
  - unfold publish_files in Hrun. case_match; [by injection Hrun as <- <-|].
    by repeat first [ apply checked_err in Hrun as [[_ ->]|(? & _ & Hrun)]
                    | apply wl_copy_err in Hrun as [-> _] ].
  - by repeat first [ apply checked_err in Hrun as [[_ ->]|(? & _ & Hrun)]
                    | apply wl_copy_err in Hrun as [-> _] ].
Qed.
(** Publication is bounded and exact: whatever is published, content, a
    file link, a file list or a file, either the compositor is offered one
    request that carries exactly that content, each representation within the
    effective limit and under a well-formed MIME type, or an error is answered
    and nothing new is offered. *)
Theorem publication_safe p limit c :
  0 <= limit →
  match run_publication p limit c with
  | (Ok _, c') => ∃ r, cb_owned c' = r :: cb_owned c ∧ safe_request limit r ∧ carries p r
  | (Err _, c') => cb_owned c' = cb_owned c
  end.
Proof. apply publication_runs. Qed.
Lemma publication_safe_witness :
  let p := PFiles "cut" (str_bytes "file:///tmp/f") in
  is_ok (fst (run_publication p 64 (mkClipboard [] []))) = true
  ∧ match run_publication p 64 (mkClipboard [] []) with
    | (Ok _, c') => ∃ r, cb_owned c' = [r] ∧ safe_request 64 r ∧ carries p r
    | (Err _, c') => cb_owned c' = []
    end.
Proof.
  split; [vm_compute; reflexivity|].
  apply (publication_safe (PFiles "cut" (str_bytes "file:///tmp/f")) 64 (mkClipboard [] [])). lia.
Defined.
