(* ===== verification/Secret.v ===== *)
(** * Secret: the memory-only owner of sensitive text, [selection/secret.rs].

    A publication starts one thread with its own Wayland connection; at most 16
    live at a time.  A caller waits for the acknowledgement; the thread serves
    paste requests until every seat has a newer owner, the text expires or the
    caller gave up.  The compositor's events, the clock (in milliseconds) and
    the interleaving of callers and threads are arbitrary. *)
From S2P Require Import Prelude Text Externals Model Selection.
Local Open Scope Z_scope.

Definition KDE_HINT : string := "x-kde-passwordManagerHint".
Definition SENSITIVE : string := "application/x-shelllist-sensitive".
Definition MIMES : list string :=
  ["text/plain;charset=utf-8"; "text/plain"; "UTF8_STRING"; KDE_HINT; SENSITIVE].
Definition MAX_OWNERS : Z := 16.
Definition MAX_SEATS : Z := 16.

(** ** The connection's state *)
Record State := mkState {
  seats : list Z;
  ext : option Z;
  wlr : option Z;
  text : bytes;
  owners : Z;
  owned : bool;
  error : option string;
  (* history variable: the MIME types offered, one list per source created *)
  offered : list (list string);
}.
Definition new_state (b : bytes) : State := mkState [] None None b 0 false None [].

Inductive WaylandEvent :=
| Global (name : Z) (interface : string) (version : Z)
| RegistryBarrier
| OwnedBarrier
| Cancelled                              (* a source lost its selection *)
| SendRequest (mime : string)
| DeviceFinished
| OtherEvent.

Definition with_error (e : string) (s : State) : State :=
  mkState (seats s) (ext s) (wlr s) (text s) (owners s) (owned s) (Some e) (offered s).
(** One source and one device per seat. *)
Definition take_seats (s : State) : State :=
  mkState (seats s) (ext s) (wlr s) (text s) (owners s + zlen (seats s)) (owned s) (error s)
          (offered s ++ ((λ _, MIMES) <$> seats s)).
Definition initialize (s : State) : State :=
  match seats s with
  | [] => with_error "No Wayland seat" s
  | _ =>
      match ext s, wlr s with
      | Some _, _ | None, Some _ => take_seats s
      | None, None => with_error "Sensitive clipboard requires Wayland data-control" s
      end
  end.
(** [State::send]: what a paste client is given. *)
Definition send (mime : string) (s : State) : option bytes :=
  if memb mime ["text/plain;charset=utf-8"; "text/plain"; "UTF8_STRING"] then Some (text s)
  else if bool_decide (mime = KDE_HINT) then Some (str_bytes "secret")
  else if bool_decide (mime = SENSITIVE) then Some (str_bytes "1")
  else None.
Definition on_event (e : WaylandEvent) (s : State) : State :=
  match e with
  | Global name interface version =>
      if bool_decide (interface = "ext_data_control_manager_v1") then
        mkState (seats s) (Some name) (wlr s) (text s) (owners s) (owned s) (error s) (offered s)
      else if bool_decide (interface = "zwlr_data_control_manager_v1") && (2 <=? version) then
        mkState (seats s) (ext s) (Some name) (text s) (owners s) (owned s) (error s) (offered s)
      else if bool_decide (interface = "wl_seat") && (zlen (seats s) <? MAX_SEATS) then
        mkState (seats s ++ [name]) (ext s) (wlr s) (text s) (owners s) (owned s) (error s) (offered s)
      else s
  | RegistryBarrier => initialize s
  | OwnedBarrier => mkState (seats s) (ext s) (wlr s) (text s) (owners s) true (error s) (offered s)
  | Cancelled => mkState (seats s) (ext s) (wlr s) (text s) (saturating_sub (owners s) 1) (owned s) (error s) (offered s)
  | SendRequest _ | OtherEvent => s
  | DeviceFinished => with_error "Sensitive clipboard device disappeared" s
  end.

(** ** One publication: the caller of [publish] and its thread *)
Inductive Caller :=
| Waiting                                (* recv_timeout *)
| Failing (e : string)                   (* it failed; the flag is not yet set *)
| Told (r : result string unit).
Inductive Thread :=
| Connecting
| Looping (started : Z) (deadline : option Z) (acknowledged : bool) (s : State)
| Ended.
Record Owner := mkOwner {
  secret : bytes;
  expiry : option Z;                     (* milliseconds *)
  since : Z;                             (* when [recv_timeout] began *)
  channel : option (result string unit); (* sync_channel(1) *)
  caller : Caller;
  cancelled : bool;
  thread : Thread;
}.
Definition INIT_TIMEOUT : Z := 2000.
Definition ACK_TIMEOUT : Z := 3000.
Definition set_thread (t : Thread) (o : Owner) : Owner :=
  mkOwner (secret o) (expiry o) (since o) (channel o) (caller o) (cancelled o) t.
Definition set_channel (c : option (result string unit)) (o : Owner) : Owner :=
  mkOwner (secret o) (expiry o) (since o) c (caller o) (cancelled o) (thread o).
(** [ack.send]: the receiver lives until [publish] returns. *)
Definition deliver (r : result string unit) (o : Owner) : option Owner :=
  match caller o, channel o with (Waiting | Failing _), None => Some (set_channel (Some r) o) | _, _ => None end.
(** [run] returned: an error is offered to the caller; the state is dropped. *)
Definition finish (r : result string unit) (o : Owner) : Owner :=
  set_thread Ended match r with Ok _ => o | Err _ => default o (deliver r o) end.

(** One turn of the loop of [run_on]: the events dispatched are [es]. *)
Definition turn (now : Z) (es : result string (list WaylandEvent)) (o : Owner) : option Owner :=
  match thread o with
  | Looping started deadline acknowledged s =>
      if cancelled o || from_option (λ until, until <=? now) false deadline then Some (finish (Ok tt) o)
      else if negb (owned s) && (INIT_TIMEOUT <? now - started) then
        Some (finish (Err "Sensitive clipboard initialization timed out"%string) o)
      else
        match es with
        | Err _ => Some (finish (Err "Sensitive clipboard dispatch failed"%string) o)
        | Ok es =>
            let s := foldl (λ s e, on_event e s) s es in
            match error s with
            | Some e => Some (finish (Err e) o)
            | None =>
                if owned s && (owners s =? 0) then Some (finish (Ok tt) o)
                else if owned s && negb acknowledged then
                  let deadline := (λ d, now + d) <$> expiry o in
                  match deliver (Ok tt) o with
                  | Some o => Some (set_thread (Looping started deadline true s) o)
                  | None => Some (finish (Err "Sensitive clipboard caller disappeared"%string) o)
                  end
                else Some (set_thread (Looping started deadline acknowledged s) o)
            end
        end
  | _ => None
  end.

(** ** All publications *)
Record Owners := mkOwners { count : Z; all : list Owner }.
Inductive Step :=
| Publish (now : Z) (b : bytes) (seconds : Z) (spawned : bool)
| Connect (i : nat) (now : Z) (ok : bool)
| Turn (i : nat) (now : Z) (es : result string (list WaylandEvent))
| ReadFails (i : nat)                    (* read_events at the end of a turn *)
| Receive (i : nat)                      (* the caller takes the message *)
| GiveUp (i : nat) (now : Z)             (* recv_timeout elapsed, or the thread is gone *)
| ReceiveGone (i : nat)
| Withdraw (i : nat).                    (* cancelled.store(true); publish returns *)

Definition new_owner (now : Z) (b : bytes) (seconds : Z) : Owner :=
  mkOwner b (if 0 <? seconds then Some (1000 * seconds) else None) now None Waiting false Connecting.
(** [publish], up to the wait: refused at once, or an owner is added. *)
Definition publish (now : Z) (b : bytes) (seconds : Z) (spawned : bool) (os : Owners)
    : result string unit * Owners :=
  match validate_sensitive b seconds with
  | Err e => (Err e, os)
  | Ok _ =>
      if negb (count os <? MAX_OWNERS) then (Err "Too many sensitive clipboard owners"%string, os)
      else if negb spawned then (Err "Cannot start sensitive clipboard owner"%string, os)
      else (Ok tt, mkOwners (count os + 1) (all os ++ [new_owner now b seconds]))
  end.
(** The thread ends: its admission is dropped. *)
Definition with_owner (i : nat) (o o' : Owner) (os : Owners) : Owners :=
  mkOwners (match thread o, thread o' with
            | Ended, _ => count os
            | _, Ended => count os - 1
            | _, _ => count os
            end) (<[i := o']> (all os)).
Definition receive (r : result string unit) (o : Owner) : Owner :=
  mkOwner (secret o) (expiry o) (since o) None (match r with Ok _ => Told r | Err e => Failing e end) (cancelled o) (thread o).
Definition unacknowledged : string := "Sensitive clipboard ownership was not acknowledged".
Definition step (e : Step) (os : Owners) : option Owners :=
  match e with
  | Publish now b seconds spawned => Some (publish now b seconds spawned os).2
  | Connect i now ok =>
      o ← all os !! i;
      match thread o with
      | Connecting =>
          Some (with_owner i o (if ok : bool then set_thread (Looping now None false (new_state (secret o))) o
                                else finish (Err "Wayland connection unavailable"%string) o) os)
      | _ => None
      end
  | Turn i now es => o ← all os !! i; o' ← turn now es o; Some (with_owner i o o' os)
  | ReadFails i =>
      o ← all os !! i;
      match thread o with Looping _ _ _ _ => Some (with_owner i o (finish (Err "Wayland read failed"%string) o) os) | _ => None end
  | Receive i =>
      o ← all os !! i;
      match caller o, channel o with Waiting, Some r => Some (with_owner i o (receive r o) os) | _, _ => None end
  | GiveUp i now =>
      o ← all os !! i;
      match caller o with
      | Waiting => if ACK_TIMEOUT <=? now - since o
                   then Some (with_owner i o (receive (Err unacknowledged) o) os)
                   else None
      | _ => None
      end
  | ReceiveGone i =>
      o ← all os !! i;
      match caller o, channel o, thread o with
      | Waiting, None, Ended => Some (with_owner i o (receive (Err unacknowledged) o) os)
      | _, _, _ => None
      end
  | Withdraw i =>
      o ← all os !! i;
      match caller o with
      | Failing e =>
          Some (with_owner i o (mkOwner (secret o) (expiry o) (since o) (channel o) (Told (Err e)) true (thread o)) os)
      | _ => None
      end
  end.
Inductive reachable : Owners → Prop :=
| reachable_init : reachable (mkOwners 0 [])
| reachable_step e os os' : reachable os → step e os = Some os' → reachable os'.

(** ** Invariants *)
(** A thread that may still serve. *)
Definition live (o : Owner) : bool := match thread o with Ended => false | _ => true end.
Record owner_ok (o : Owner) : Prop := {
  oo_thread : match thread o with
              | Looping started deadline acknowledged s =>
                  Forall (λ l, l = MIMES) (offered s) ∧ text s = secret o ∧ owned s = acknowledged
                  ∧ (if acknowledged then ∃ t0, t0 <= started + INIT_TIMEOUT ∧ deadline = (λ d, t0 + d) <$> expiry o
                     else deadline = None)
              | _ => True
              end;
  oo_told : match caller o with Told (Err _) => cancelled o = true | _ => True end;
  oo_success : caller o = Told (Ok tt) ∨ channel o = Some (Ok tt) →
    match thread o with Looping _ _ acknowledged _ => acknowledged = true | Connecting => False | Ended => True end;
  oo_secret : validate_sensitive (secret o) (default 0 (expiry o) / 1000) = Ok tt;
}.

Definition marked (b : bytes) (s : State) : Prop := Forall (λ l, l = MIMES) (offered s) ∧ text s = b.
Lemma on_event_marked b e s : marked b s → marked b (on_event e s).
Proof.
  intros [Ho Ht]. destruct e; cbn; try done.
  - repeat case_match; done.
  - unfold initialize. destruct (seats s) eqn:Hs; [done|].
    assert (Htk : marked b (take_seats s)).
    { split; [|done]. apply Forall_app. split; [done|]. apply Forall_fmap, Forall_forall. by intros. }
    by destruct (ext s), (wlr s).
Qed.
Lemma on_events_marked b es s : marked b s → marked b (foldl (λ s e, on_event e s) s es).
Proof. revert s. induction es as [|e es IH]; intros s Hm; [done|]. by apply IH, on_event_marked. Qed.

Lemma deliver_some r o o' : deliver r o = Some o' →
  o' = set_channel (Some r) o ∧ (caller o = Waiting ∨ ∃ e, caller o = Failing e) ∧ channel o = None.
Proof. unfold deliver. destruct (caller o) as [|e|], (channel o); intros [=]; eauto 6. Qed.
Lemma finish_ok r o : owner_ok o → r = Ok tt ∨ is_ok r = false → owner_ok (finish r o).
Proof.
  intros [H1 H2 H3 H4] _. unfold finish. destruct r as [[]|e]; [by split|].
  destruct (deliver (Err e) o) as [o'|] eqn:Hd; cbn; [|by split].
  apply deliver_some in Hd as (-> & _ & _). by split.
Qed.
Lemma turn_ok now es o o' : turn now es o = Some o' → owner_ok o → owner_ok o'.
Proof.
  intros Ht Hok. unfold turn in Ht. destruct (thread o) as [|started deadline ack s|] eqn:Hth; try done.
  assert (Hfin : ∀ r, owner_ok (finish r o)).
  { intros r. apply finish_ok; [done|]. destruct r as [[]|]; auto. }
  destruct (cancelled o || _); [by injection Ht as <-|]. destruct (negb (owned s) && _) eqn:Hinit; [by injection Ht as <-|].
  destruct es as [es|e]; [|by injection Ht as <-].
  pose proof Hok as [H1 H2 H3 H4]. rewrite Hth in H1. destruct H1 as (Hoff & Htext & Hack & Hdl).
  pose proof (on_events_marked (secret o) es s (conj Hoff Htext)) as [Hoff' Htext'].
  set (s' := foldl (λ s e, on_event e s) s es) in *.
  destruct (error s'); [by injection Ht as <-|]. destruct (owned s' && (owners s' =? 0)); [by injection Ht as <-|].
  destruct (owned s' && negb ack) eqn:Hnow.
  - apply andb_true_iff in Hnow as [Hown Hna]. apply negb_true_iff in Hna. rewrite Hna in *.
    destruct (deliver (Ok tt) o) as [o1|] eqn:Hd; [|by injection Ht as <-]. injection Ht as <-.
    apply deliver_some in Hd as (-> & Hc & Hch). rewrite Hack in Hinit. cbn in Hinit. apply Z.ltb_ge in Hinit.
    split; cbn; try done. split_and!; try done. exists now. split; [lia|done].
  - injection Ht as <-. split; cbn; try done; [|by rewrite Hth in H3].
    assert (owned s' = ack); [|done].
    destruct ack; [|by rewrite andb_true_r in Hnow].
    assert (Hkeep : ∀ l s0, owned s0 = true → owned (foldl (λ s e, on_event e s) s0 l) = true).
    { induction l as [|e l IH]; intros s0 Hs0; [done|]. apply IH. destruct e; cbn; try done; [repeat case_match; done|].
      unfold initialize. by destruct (seats s0), (ext s0), (wlr s0). }
    by apply Hkeep.
Qed.

Definition lives (o : Owner) : Z := if live o then 1 else 0.
Definition living (l : list Owner) : Z := zsum (lives <$> l).
#[global] Arguments living : simpl never.
Record owners_ok (os : Owners) : Prop := {
  os_count : count os = living (all os);
  os_bound : 0 <= count os <= MAX_OWNERS;
  os_each : ∀ i o, all os !! i = Some o → owner_ok o;
}.
Lemma living_insert l i o o' : l !! i = Some o → living (<[i := o']> l) = living l - lives o + lives o'.
Proof.
  unfold living. revert i. induction l as [|x l IH]; intros [|i] Hi; try done.
  - injection Hi as ->. cbn. lia.
  - specialize (IH i Hi). change (lives x + zsum (lives <$> <[i := o']> l) = lives x + zsum (lives <$> l) - lives o + lives o'). lia.
Qed.
Lemma living_pos l i o : l !! i = Some o → live o = true → 1 <= living l.
Proof.
  unfold living. intros Hi Hl. rewrite <- (take_drop_middle l i o Hi), fmap_app, zsum_app. cbn. unfold lives at 2. rewrite Hl.
  assert (Hn : ∀ k, 0 <= zsum (lives <$> k)); [|pose proof (Hn (take i l)); pose proof (Hn (drop (S i) l)); lia].
  intros k. apply zsum_nonneg, Forall_fmap, Forall_forall. intros x _. cbn. unfold lives. by destruct (live x).
Qed.
(** An ended thread stays ended. *)
Lemma with_owner_ok i o o' os :
  owners_ok os → all os !! i = Some o → owner_ok o' → (live o = false → live o' = false) → owners_ok (with_owner i o o' os).
Proof.
  intros [Hc Hb He] Hi Ho' Hl.
  pose proof (living_insert (all os) i o o' Hi) as Hli. pose proof (living_pos (all os) i o Hi) as Hp. unfold lives, live in *.
  split; cbn.
  - rewrite Hli, <- Hc. destruct (thread o), (thread o'); cbn; try lia; by specialize (Hl eq_refl).
  - destruct (thread o), (thread o'); try lia; specialize (Hp eq_refl); lia.
  - intros j x [(-> & <- & _)|[Hne Hj]]%list_lookup_insert_Some; eauto.
Qed.
Lemma owner_receive_ok r o :
  owner_ok o → (r = Ok tt → channel o = Some r) → owner_ok (receive r o).
Proof.
  intros [H1 H2 H3 H4] Hr. destruct r as [[]|e]; split; cbn; try done; [|naive_solver].
  intros _. apply H3. right. by apply Hr.
Qed.
Lemma new_owner_ok now b seconds : validate_sensitive b seconds = Ok tt → owner_ok (new_owner now b seconds).
Proof.
  intros Hv. split; cbn; try done; [naive_solver|].
  destruct (Z.ltb_spec 0 seconds) as [Hs|Hs]; cbn; [by rewrite Z.mul_comm, Z.div_mul|].
  unfold validate_sensitive in *. destruct (_ || _ || _) eqn:Hx in Hv; [done|]. apply orb_false_iff in Hx as [Hx Hy].
  assert (seconds = 0) as ->; [|by rewrite Hx].
  apply andb_false_iff in Hy. unfold between in Hy. destruct Hy; bools; lia.
Qed.
Lemma step_owners e os os' : step e os = Some os' → owners_ok os → owners_ok os'.
Proof.
  intros Hs Hok. pose proof Hok as [Hc Hb He]. destruct e as [now b sec sp|i now ok|i now es|i|i|i now|i|i]; cbn in Hs;
    try (destruct (all os !! i) as [o|] eqn:Hi; cbn in Hs; [|done]; specialize (He i o Hi)).
  - injection Hs as <-. unfold publish. destruct (validate_sensitive b sec) as [[]|e] eqn:Hv; [|done].
    destruct (count os <? MAX_OWNERS) eqn:Hlt; [|done]. destruct sp; [|done]. bools. cbn. split; cbn.
    + rewrite Hc. unfold living. rewrite fmap_app, zsum_app. cbn. lia.
    + lia.
    + intros j x [[_ Hj]|[_ <-]]%lookup_snoc_Some; [eauto|by apply new_owner_ok].
  - destruct (thread o) eqn:Ht; try done. injection Hs as <-. apply with_owner_ok; [done..| |by unfold live; rewrite Ht].
    destruct He as [H1 H2 H3 H4]. rewrite Ht in H3. destruct ok; [split; cbn; try done|apply finish_ok; [by split; rewrite ?Ht|by right]].
  - destruct (turn now es o) as [o'|] eqn:Ht; cbn in Hs; [|done]. injection Hs as <-.
    apply with_owner_ok; [done..|by eapply turn_ok|]. unfold live, turn in *. by destruct (thread o).
  - destruct (thread o) eqn:Ht; try done. injection Hs as <-. apply with_owner_ok; [done..|apply finish_ok; [done|by right]|done].
  - destruct (caller o) eqn:Hca; try done. destruct (channel o) as [r|] eqn:Hch; try done. injection Hs as <-.
    apply with_owner_ok; [done..|by apply owner_receive_ok|done].
  - destruct (caller o) eqn:Hca; try done. destruct (_ <=? _); [|done]. injection Hs as <-.
    apply with_owner_ok; [done..|by apply owner_receive_ok|done].
  - destruct (caller o) eqn:Hca; try done. destruct (channel o) eqn:Hch; try done. destruct (thread o) eqn:Hth; try done.
    injection Hs as <-. apply with_owner_ok; [done..|by apply owner_receive_ok|by unfold live; cbn; rewrite Hth].
  - destruct (caller o) as [|e|] eqn:Hca; try done. injection Hs as <-. apply with_owner_ok; [done..| |done].
    destruct He as [H1 H2 H3 H4]. split; cbn; try done. intros [?|?]; [done|]. apply H3. by right.
Qed.
Lemma reachable_owners os : reachable os → owners_ok os.
Proof. induction 1 as [|e s s' _ IH Hs]; [by split|by eapply step_owners]. Qed.

(** C34 Sensitive text is never offered unmarked, never kept past its time, and
    never left behind by a failed publication.  Under every interleaving of
    callers, threads and compositor events: at most 16 owners live; every source
    a thread created offered both sensitivity markers, and what a paste client
    is given is the text, for a text type only, or a constant; a caller that was
    told of success has an owner that took the selection; an owner still there
    two seconds plus the expiry after its thread started ends at its next turn
    (poll: 25 ms), whatever the compositor sends; and so does, without serving
    anything more, the owner of a caller that was told of an error. *)
Theorem secret_owner_safe os i o :
  reachable os → all os !! i = Some o →
  living (all os) <= MAX_OWNERS
  ∧ (∀ started deadline ack s, thread o = Looping started deadline ack s →
      Forall (λ l, KDE_HINT ∈ l ∧ SENSITIVE ∈ l) (offered s)
      ∧ (∀ m b, send m s = Some b →
           (m ∈ ["text/plain;charset=utf-8"; "text/plain"; "UTF8_STRING"] ∧ b = secret o)
           ∨ (m = KDE_HINT ∧ b = str_bytes "secret") ∨ (m = SENSITIVE ∧ b = str_bytes "1"))
      ∧ (caller o = Told (Ok tt) → owned s = true)
      ∧ (∀ now es d, expiry o = Some d → started + INIT_TIMEOUT + d < now → 0 <= d →
           option_map thread (turn now es o) = Some Ended)
      ∧ (∀ now es e, caller o = Told (Err e) → turn now es o = Some (set_thread Ended o))).
Proof.
  intros Hr Hi. destruct (reachable_owners os Hr) as [Hc Hb He]. destruct (He i o Hi) as [H1 H2 H3 _].
  split; [lia|]. intros started deadline ack s Ht. rewrite Ht in H1, H3. destruct H1 as (Hoff & Htext & Hack & Hdl).
  split_and!.
  - eapply Forall_impl; [exact Hoff|]. intros l ->. split; unfold MIMES; set_solver.
  - intros m b. unfold send. destruct (memb _ _) eqn:Hm.
    { intros [= <-]. left. split; [by apply bool_decide_eq_true in Hm|done]. }
    destruct (bool_decide (m = KDE_HINT)) eqn:Hk; [intros [= <-]; apply bool_decide_eq_true in Hk; auto|].
    destruct (bool_decide (m = SENSITIVE)) eqn:Hsn; [intros [= <-]; apply bool_decide_eq_true in Hsn; auto|done].
  - intros Hca. rewrite Hack. apply H3. by left.
  - intros now es d Hd Hnow Hd0. unfold turn. rewrite Ht.
    destruct (cancelled o || _) eqn:Hx; [done|]. apply orb_false_iff in Hx as [_ Hx].
    destruct ack.
    + destruct Hdl as (t0 & Ht0 & ->). rewrite Hd in Hx. cbn in Hx. bools. lia.
    + rewrite Hack. cbn [negb andb]. rewrite (proj2 (Z.ltb_lt _ _)); [done|lia].
  - intros now es e Hca. rewrite Hca in H2. unfold turn. rewrite Ht, H2. done.
Qed.

Definition demo_step (os : Owners) (e : Step) : Owners := default os (step e os).
Definition demo (l : list Step) : Owners := foldl demo_step (mkOwners 0 []) l.
Lemma demo_reachable l : reachable (demo l).
Proof.
  unfold demo. assert (H : ∀ l os, reachable os → reachable (foldl demo_step os l)); [|by apply H; constructor].
  clear l. induction l as [|e l IH]; intros os Hos; [done|]. apply IH. unfold demo_step.
  destruct (step e os) as [os'|] eqn:He; [|done]. by eapply reachable_step.
Qed.
Definition demo_run : list Step :=
  [Publish 0 (str_bytes "hunter2") 30 true; Connect 0 5 true;
   Turn 0 10 (Ok [Global 1 "ext_data_control_manager_v1" 1; Global 2 "wl_seat" 7; RegistryBarrier]);
   Turn 0 20 (Ok [OwnedBarrier; SendRequest KDE_HINT]); Receive 0].
Definition demo_owner : Owner := default (new_owner 0 [] 0) (all (demo demo_run) !! 0%nat).
Lemma secret_owner_safe_witness : caller demo_owner = Told (Ok tt) ∧ living (all (demo demo_run)) <= MAX_OWNERS.
Proof.
  split; [vm_compute; reflexivity|].
  apply (secret_owner_safe (demo demo_run) 0 demo_owner); [apply demo_reachable|vm_compute; reflexivity].
Defined.
(** [publish_sensitive] as the other components see it: the selection now
    offers the text under both markers, or the call failed. *)
Definition secret_request (b : bytes) : CopyRequest :=
  mkCopy [(Specific "text/plain;charset=utf-8", b); (Specific "text/plain", b); (Specific "UTF8_STRING", b);
          (Specific KDE_HINT, str_bytes "secret"); (Specific SENSITIVE, str_bytes "1")] true.
Definition publish_sensitive (b : bytes) (seconds : Z) : Publishing :=
  checked (map_err invalid_data (validate_sensitive b seconds)) (λ _, wl_copy (secret_request b)).
