(* ===== verification/Content.v ===== *)
(** * Content: [history/content.rs] — what a stored payload is (an inline image,
    a file list, a single local image file, or classified text), and the
    bounded details view.  The image and url crates are [Externals]; files are
    an [Fs]. *)
From Stdlib Require Import Ascii.
From S2P Require Import Prelude Text Externals Model Classification Selection.
Local Open Scope Z_scope.

Definition MAX_THUMBNAIL_BYTES : Z := 33554432.
Definition MAX_DETAILS_BYTES : Z := 262144.

Definition ALIASES : list (string * string) :=
  [("image/x-png", "image/png"); ("image/jpg", "image/jpeg"); ("image/pjpeg", "image/jpeg");
   ("application/x-gnome-copied-files", "x-special/gnome-copied-files");
   ("text/x-uri", "text/uri-list"); ("text/x-uri-list", "text/uri-list")].

Fixpoint find_alias (essence : string) (l : list (string * string)) : option string :=
  match l with
  | [] => None
  | (alias, canonical) :: l' =>
      if eq_ignore_ascii_case essence alias then Some canonical else find_alias essence l'
  end.
Definition canonical_mime (mime : string) : string :=
  let essence := trim (before_char ";"%char mime) in
  default essence (find_alias essence ALIASES).

Record LocalImageSource := mkLocalImage {
  li_path : string;
  li_mime : string;
  li_dimensions : ImageMetadata;
}.
Inductive ResolvedImage :=
| Inline (mime : string) (dimensions : option ImageMetadata)
| LocalFile (source : LocalImageSource).
Record ResolvedContent := mkResolved {
  rc_stored_mime : string;
  rc_kind : EntryKind;
  rc_files : list FilePreview;
  rc_image : option ResolvedImage;
}.

Definition resolved_mime (c : ResolvedContent) : string :=
  match rc_image c with
  | Some (Inline mime _) => mime
  | Some (LocalFile source) => li_mime source
  | None => rc_stored_mime c
  end.
Definition into_files (c : ResolvedContent) : list FilePreview := ztake MAX_FILES (rc_files c).
Definition image_metadata (c : ResolvedContent) : option ImageMetadata :=
  match rc_image c with
  | Some (Inline _ dimensions) => dimensions
  | Some (LocalFile source) => Some (li_dimensions source)
  | None => None
  end.
Definition local_image (c : ResolvedContent) : option LocalImageSource :=
  match rc_image c with Some (LocalFile source) => Some source | _ => None end.

Record StoredEntry := mkStored {
  st_summary : EntrySummary;
  st_mime : string;
  st_bytes : bytes;
}.

(** [filter_map(f).take(n)]: stops once [n] results are found. *)
Fixpoint filter_map_take {A B} (f : A → option B) (n : Z) (l : list A) : list B :=
  match l with
  | [] => []
  | x :: l' =>
      if n <=? 0 then []
      else match f x with
           | Some y => y :: filter_map_take f (n - 1) l'
           | None => filter_map_take f n l'
           end
  end.

Section with_externals.
Context `{Externals}.

Definition file_preview (fs : Fs) (op : string) (uri : string) : option FilePreview :=
  match url_parse uri with
  | None => None
  | Some url =>
      let local_path := url_file_path url in
      let display_name :=
        match (p ← local_path; path_file_name p) with
        | Some name => name
        | None =>
            match url_last_segment url with
            | Some name => if decide (name = EmptyString) then "File" else name
            | None => "File"
            end
        end in
      Some (mkFilePreview display_name (url_str url)
              match local_path with
              | Some p => path_exists fs p
              | None => false
              end op)
  end.

Definition parse_files (fs : Fs) (mime : string) (b : bytes) : list FilePreview :=
  match from_utf8 b with
  | None => []
  | Some text =>
      let lines := filter (λ l, negb (bool_decide (l = EmptyString)) && negb (starts_with "#" l) = true)
                          (str_lines text) in
      let '(op, rest) :=
        if decide (mime = "x-special/gnome-copied-files") then
          match lines with
          | first :: rest => (if memb first ["copy"; "cut"] then first else "copy", rest)
          | [] => ("copy", [])
          end
        else ("copy", lines) in
      filter_map_take (file_preview fs op) (MAX_FILES + 1) rest
  end.

Definition local_image_source_from_files (fs : Fs) (files : list FilePreview) (max_bytes : Z)
    : option LocalImageSource :=
  match files with
  | [file] =>
      url ← url_parse (fp_uri file);
      path ← url_file_path url;
      node ← fs !! path;
      if negb (is_file node) || (max_bytes <? node_len node) then None
      else
        mime ← image_format (node_bytes node);
        '(width, height) ← image_size (node_bytes node);
        Some (mkLocalImage path mime (mkImageMetadata width height))
  | _ => None
  end.

Definition image_dimensions (b : bytes) : option ImageMetadata :=
  '(width, height) ← image_size b; Some (mkImageMetadata width height).

Definition resolve (fs : Fs) (stored_mime : string) (b : bytes) (max_file_bytes : Z)
    : ResolvedContent :=
  let stored_mime := if decide (stored_mime = EmptyString) then "text/plain" else stored_mime in
  match guess_format b with
  | Some mime => mkResolved stored_mime Image [] (Some (Inline mime (image_dimensions b)))
  | None =>
      let semantic_mime := canonical_mime stored_mime in
      let files :=
        if memb semantic_mime ["text/uri-list"; "x-special/gnome-copied-files"; "text/plain"]
        then parse_files fs semantic_mime b else [] in
      let image := local_image_source_from_files fs files max_file_bytes in
      let k := match image with
               | Some _ => Image
               | None => classify semantic_mime b
               end in
      mkResolved stored_mime k files (LocalFile <$> image)
  end.

Definition entry_details (fs : Fs) (stored : StoredEntry) (max_text_bytes : Z) : EntryDetails :=
  let limit := Z.min max_text_bytes MAX_DETAILS_BYTES in
  let truncated := limit <? zlen (st_bytes stored) in
  let b := ztake limit (st_bytes stored) in
  let content := resolve fs (st_mime stored) b MAX_THUMBNAIL_BYTES in
  mkDetails (st_summary stored) (from_utf8 b) (into_files content) (image_metadata content) truncated.

Definition le_u64 (z : Z) : bytes :=
  (λ k, byte_of_z (z / 2 ^ (8 * Z.of_nat k) mod 256)) <$> seq 0 8.
Definition image_identity (mime : string) (b : bytes) : string :=
  hex_encode (sha256 (str_bytes "clip-daemon:resolved-image:v1:"
                      ++ str_bytes (canonical_mime mime) ++ le_u64 (zlen b) ++ b)).

(** [LocalImageSource::identity]. *)
Definition local_image_identity (fs : Fs) (s : LocalImageSource) : option string :=
  node ← fs !! li_path s;
  if negb (is_file node) then None
  else b ← ok_of (read_path fs (li_path s) MAX_WAYLAND_SELECTION_BYTES);
       Some (image_identity (li_mime s) b).

(** [read_edited_image]: a regular, bounded PNG that fully decodes. *)
Definition read_edited_image (fs : Fs) (path : string) (max_bytes : Z) : option bytes :=
  let limit := Z.min max_bytes MAX_THUMBNAIL_BYTES in
  node ← fs !! path;
  if negb (is_file node && (node_len node <=? limit)) then None
  else
    b ← ok_of (read_path fs path limit);
    f ← image_format b;
    if bool_decide (f = "image/png") && image_decodes b then Some b else None.
End with_externals.

(** ** Lemmas *)
Lemma filter_map_take_len {A B} (f : A → option B) n l :
  0 <= n → zlen (filter_map_take f n l) <= n.
Proof.
  revert n; induction l as [|x l IH]; intros n Hn; cbn; [done|].
  case_match; bools; [done|]. destruct (f x); [|by apply IH].
  rewrite zlen_cons. specialize (IH (n - 1)). lia.
Qed.
Lemma filter_map_take_elem {A B} (f : A → option B) n l y :
  y ∈ filter_map_take f n l → ∃ x, x ∈ l ∧ f x = Some y.
Proof.
  revert n; induction l as [|x l IH]; intros n; cbn; [by rewrite elem_of_nil|].
  case_match; [by rewrite elem_of_nil|]. destruct (f x) eqn:Hx.
  - rewrite elem_of_cons. intros [->|Hy]; [exists x; split; [set_solver|done]|].
    apply IH in Hy as (z & ? & ?). exists z; split; [set_solver|done].
  - intros Hy. apply IH in Hy as (z & ? & ?). exists z; split; [set_solver|done].
Qed.

Section content_lemmas.
Context `{Externals}.

Lemma local_image_source_inv fs files max s :
  local_image_source_from_files fs files max = Some s →
  ∃ node, length files = 1%nat ∧ fs !! li_path s = Some node
          ∧ is_file node = true ∧ node_len node <= max.
Proof.
  unfold local_image_source_from_files. destruct files as [|f [|]]; try done.
  intros Hs. apply bind_Some in Hs as (url & _ & Hs).
  apply bind_Some in Hs as (path & _ & Hs). apply bind_Some in Hs as (node & Hn & Hs).
  case_match; [done|]. bools.
  apply bind_Some in Hs as (m & _ & Hs). apply bind_Some in Hs as ([w h] & _ & Hs).
  injection Hs as <-. exists node. done.
Qed.

Lemma parse_files_operation fs mime b f :
  f ∈ parse_files fs mime b → fp_operation f = "copy" ∨ fp_operation f = "cut".
Proof.
  unfold parse_files. destruct (from_utf8 b) as [t|]; [|by rewrite elem_of_nil].
  destruct (if decide _ then _ else _) as [op rest] eqn:Hop.
  assert (Hcc : op = "copy" ∨ op = "cut").
  { repeat case_match; simplify_eq; auto.
    match goal with Hm : memb _ _ = true |- _ => apply bool_decide_eq_true in Hm end.
    set_solver. }
  intros Hf. apply filter_map_take_elem in Hf as (u & _ & Hu).
  unfold file_preview in Hu. case_match; [|done]. by injection Hu as <-.
Qed.


(** A local image is a readable file of the copied list: the content resolves
    to one only if the captured bytes are not an image themselves and the list
    has exactly one file, which exists, is a regular file and fits the limit;
    its MIME is then the reported one. *)
Theorem resolve_local_image fs mime b max s :
  local_image (resolve fs mime b max) = Some s →
  guess_format b = None
  ∧ rc_kind (resolve fs mime b max) = Image
  ∧ resolved_mime (resolve fs mime b max) = li_mime s
  ∧ length (rc_files (resolve fs mime b max)) = 1%nat
  ∧ ∃ node, fs !! li_path s = Some node ∧ is_file node = true ∧ node_len node <= max.
Proof.
  unfold resolve, local_image, resolved_mime. destruct (guess_format b); [done|]. cbn.
  intros Hs. set (files := if memb _ _ then _ else _) in *.
  destruct (local_image_source_from_files fs files max) as [s'|] eqn:Hl; [|done].
  cbn in Hs. injection Hs as ->.
  apply local_image_source_inv in Hl as (node & ? & ? & ? & ?). eauto 10.
Qed.

(** Details tell how much they show: the text is a UTF-8 prefix of the
    payload of at most 256 KiB and the caller's limit, it is flagged as
    truncated exactly when the payload is longer, untruncated text is the whole
    payload, and at most 100 files are listed. *)
Theorem entry_details_exact fs st max :
  0 <= max →
  let d := entry_details fs st max in
  d_entry d = st_summary st
  ∧ zlen (d_files d) <= MAX_FILES
  ∧ (d_preview_truncated d = false ↔ zlen (st_bytes st) <= Z.min max MAX_DETAILS_BYTES)
  ∧ (∀ t, d_text d = Some t →
       str_len t <= MAX_DETAILS_BYTES
       ∧ str_bytes t `prefix_of` st_bytes st
       ∧ (d_preview_truncated d = false → str_bytes t = st_bytes st)).
Proof.
  intros Hmax d. assert (0 <= Z.min max MAX_DETAILS_BYTES) by (unfold MAX_DETAILS_BYTES; lia).
  assert (Htr : d_preview_truncated d = false ↔ zlen (st_bytes st) <= Z.min max MAX_DETAILS_BYTES).
  { cbn. by rewrite Z.ltb_ge. }
  split_and!; [done| |done|].
  - cbn. unfold into_files. rewrite zlen_ztake by done. unfold MAX_FILES. lia.
  - intros t Ht. cbn in Ht. unfold from_utf8 in Ht. case_match; [|done]. injection Ht as <-.
    rewrite str_len_bytes_str, bytes_str_bytes, zlen_ztake by done.
    split_and!; [lia| |].
    + rewrite ztake_take. apply prefix_take.
    + intros Hd. apply Htr in Hd. by apply ztake_all.
Qed.
End content_lemmas.
