(* ===== verification/Sql.v ===== *)
(** * Sql: the connection the database owner works on.

    Turso is outside the program.  What the program sees of it is modelled by
    the meaning of the statements it sends (functions on the tables, in
    [Tables.v]) and an arbitrary schedule of engine faults: any statement may
    fail, and COMMIT or ROLLBACK may fail with the effect done or not done.
    [Database::transaction] is translated on top; everything is generic in the
    type [T] of table contents. *)
From S2P Require Import Prelude Model.

(** What the engine does with the next statement it is sent. *)
Inductive Outcome :=
| Succeeds
| Fails       (* an error, and no effect *)
| LosesAck.   (* an error, although the effect took place *)

Section engine.
Context {T : Type}.

(** One open transaction: its working tables and the faults to come. *)
Record Conn := mkConn { c_tables : T; c_schedule : list Outcome }.
Definition Sql (A : Type) : Type := Conn → BackendResult A * Conn.

#[export] Instance sql_ret : MRet Sql := λ A a c, (Ok a, c).
#[export] Instance sql_bind : MBind Sql := λ A B f m c,
  match m c with
  | (Ok a, c') => f a c'
  | (Err e, c') => (Err e, c')
  end.
Definition sql_fail {A} (e : BackendError) : Sql A := λ c, (Err e, c).
Definition sql_result {A} (r : BackendResult A) : Sql A := λ c, (r, c).

Definition engine_error : BackendError := operation_error "database error".

(** [Database::exec]: a statement is a partial function on the tables; it is
    undefined where a constraint of the schema refuses it. *)
Definition exec (statement : T → option T) : Sql unit := λ c,
  match c_schedule c with
  | [] | Succeeds :: _ =>
      match statement (c_tables c) with
      | Some t' => (Ok tt, mkConn t' (tail (c_schedule c)))
      | None => (Err engine_error, mkConn (c_tables c) (tail (c_schedule c)))
      end
  | _ :: s => (Err engine_error, mkConn (c_tables c) s)
  end.

(** [Database::rows] and [Database::scalar]. *)
Definition rows {A} (select : T → A) : Sql A := λ c,
  match c_schedule c with
  | [] | Succeeds :: _ => (Ok (select (c_tables c)), mkConn (c_tables c) (tail (c_schedule c)))
  | _ :: s => (Err engine_error, mkConn (c_tables c) s)
  end.

(** ** The database owner *)
Record Database := mkDatabase {
  durable : T;                (* what a restart recovers *)
  open_transaction : option T;
  schedule : list Outcome;
  blocked : bool;
}.

(** [Database::transaction].  BEGIN fails without effect; a failed COMMIT is
    never treated as a rollback, and fences the store. *)
Definition transaction {A} (body : Sql A) (db : Database) : BackendResult A * Database :=
  if blocked db then (Err (unavailable "History storage is fenced"), db)
  else
    match schedule db, open_transaction db with
    | (Fails | LosesAck) :: s, o => (Err engine_error, mkDatabase (durable db) o s false)
    | s, Some t => (Err engine_error, mkDatabase (durable db) (Some t) (tail s) false)
    | s, None =>
        match body (mkConn (durable db) (tail s)) with
        | (Ok value, c) =>
            match c_schedule c with
            | Fails :: s' =>
                (Err (unavailable "History commit outcome is uncertain; restart required"),
                 mkDatabase (durable db) (Some (c_tables c)) s' true)
            | LosesAck :: s' =>
                (Err (unavailable "History commit outcome is uncertain; restart required"),
                 mkDatabase (c_tables c) None s' true)
            | s' =>
                match tail s' with
                | (Fails | LosesAck) :: s'' =>
                    (Err (unavailable "History sidecar protection failed; restart required"),
                     mkDatabase (c_tables c) None s'' true)
                | s'' => (Ok value, mkDatabase (c_tables c) None (tail s'') false)
                end
            end
        | (Err error, c) =>
            match c_schedule c with
            | Fails :: s' =>
                (Err (unavailable "History rollback failed; restart required"),
                 mkDatabase (durable db) (Some (c_tables c)) s' true)
            | LosesAck :: s' =>
                (Err (unavailable "History rollback failed; restart required"),
                 mkDatabase (durable db) None s' true)
            | s' => (Err error, mkDatabase (durable db) None (tail s') false)
            end
        end
    end.

(** A read outside a transaction sees the tables the connection shows. *)
Definition read {A} (m : Sql A) (db : Database) : BackendResult A * Database :=
  let '(r, c) := m (mkConn (default (durable db) (open_transaction db)) (schedule db)) in
  (r, mkDatabase (durable db) (open_transaction db) (c_schedule c) (blocked db)).

(** ** Fault-free runs, and code that does nothing else when it succeeds *)
Definition ideal {A} (m : Sql A) (t : T) : BackendResult A * T :=
  let '(r, c) := m (mkConn t []) in (r, c_tables c).

Class Faithful {A} (m : Sql A) : Prop := faithful : ∀ t s a c,
  m (mkConn t s) = (Ok a, c) → m (mkConn t []) = (Ok a, mkConn (c_tables c) []).
#[export] Instance faithful_ret A (a : A) : Faithful (mret a).
Proof. intros t s x c [= <- <-]. done. Qed.
#[export] Instance faithful_fail A e : Faithful (@sql_fail A e).
Proof. by intros t s x c [=]. Qed.
#[export] Instance faithful_result A (r : BackendResult A) : Faithful (sql_result r).
Proof. intros t s x c [= -> <-]. done. Qed.
#[export] Instance faithful_exec f : Faithful (exec f).
Proof.
  intros t s x c. unfold exec; cbn.
  destruct s as [|[] s]; cbn; try done; destruct (f t); try done; by intros [= <- <-].
Qed.
#[export] Instance faithful_rows A (f : T → A) : Faithful (rows f).
Proof. intros t s x c. unfold rows; cbn. destruct s as [|[] s]; cbn; try done; by intros [= <- <-]. Qed.
#[export] Instance faithful_bind A B (m : Sql A) (f : A → Sql B) :
  Faithful m → (∀ a, Faithful (f a)) → Faithful (m ≫= f).
Proof.
  intros Hm Hf t s b c. unfold mbind, sql_bind.
  destruct (m (mkConn t s)) as [[a|e] [t1 s1]] eqn:E; [|done]. intros Hb.
  apply Hm in E. rewrite E. cbn. by apply Hf in Hb.
Qed.

(** [ideal] is a homomorphism to the state-and-error monad on tables. *)
Definition no_faults (c : Conn) : Prop := c_schedule c = [].
Class Quiet {A} (m : Sql A) : Prop := quiet : ∀ t, no_faults (snd (m (mkConn t []))).
#[export] Instance quiet_ret A (a : A) : Quiet (mret a).
Proof. done. Qed.
#[export] Instance quiet_fail A e : Quiet (@sql_fail A e).
Proof. done. Qed.
#[export] Instance quiet_result A (r : BackendResult A) : Quiet (sql_result r).
Proof. done. Qed.
#[export] Instance quiet_exec f : Quiet (exec f).
Proof. intros t. unfold exec; cbn. by destruct (f t). Qed.
#[export] Instance quiet_rows A (f : T → A) : Quiet (rows f).
Proof. done. Qed.
#[export] Instance quiet_bind A B (m : Sql A) (f : A → Sql B) :
  Quiet m → (∀ a, Quiet (f a)) → Quiet (m ≫= f).
Proof.
  intros Hm Hf t. unfold mbind, sql_bind. specialize (Hm t).
  destruct (m (mkConn t [])) as [[a|e] [t1 s1]]; [|done]. cbn in Hm. unfold no_faults in Hm.
  cbn in Hm. subst s1. apply Hf.
Qed.

#[export] Instance quiet_if A (c : bool) (m n : Sql A) :
  Quiet m → Quiet n → Quiet (if c then m else n).
Proof. by destruct c. Qed.
#[export] Instance quiet_option A B (o : option B) (m : B → Sql A) (n : Sql A) :
  (∀ x, Quiet (m x)) → Quiet n → Quiet (match o with Some x => m x | None => n end).
Proof. destruct o; auto. Qed.

Lemma ideal_ret {A} (a : A) t : ideal (mret a) t = (Ok a, t).
Proof. done. Qed.
Lemma ideal_fail {A} e t : ideal (@sql_fail A e) t = (Err e, t).
Proof. done. Qed.
Lemma ideal_result {A} (r : BackendResult A) t : ideal (sql_result r) t = (r, t).
Proof. done. Qed.
Lemma ideal_exec f t :
  ideal (exec f) t = match f t with Some t' => (Ok tt, t') | None => (Err engine_error, t) end.
Proof. unfold ideal, exec; cbn. by destruct (f t). Qed.
Lemma ideal_rows {A} (f : T → A) t : ideal (rows f) t = (Ok (f t), t).
Proof. done. Qed.
Lemma ideal_bind {A B} (m : Sql A) (f : A → Sql B) t `{!Quiet m} :
  ideal (m ≫= f) t = match ideal m t with
                     | (Ok a, t') => ideal (f a) t'
                     | (Err e, t') => (Err e, t')
                     end.
Proof.
  unfold ideal, mbind, sql_bind. pose proof (quiet t) as Hq.
  destruct (m (mkConn t [])) as [[a|e] [t1 s1]]; [|done]. cbn in Hq. unfold no_faults in Hq.
  cbn in Hq. by subst s1.
Qed.

(** ** The guarantee of a transaction *)
Definition healthy (db : Database) : Prop := blocked db = false ∧ open_transaction db = None.

(** What one call may have done, given the fault-free effect of its body:
    acknowledged and durable; refused with nothing changed; or fenced, with
    the old or the new tables durable and never anything in between. *)
Inductive Committed {A} (body : Sql A) (db : Database) : BackendResult A → Database → Prop :=
| Acknowledged a db' :
    healthy db' → ideal body (durable db) = (Ok a, durable db') →
    Committed body db (Ok a) db'
| RolledBack e db' :
    healthy db' → durable db' = durable db → Committed body db (Err e) db'
| Fenced e db' :
    blocked db' = true →
    (durable db' = durable db ∨ ∃ a, ideal body (durable db) = (Ok a, durable db')) →
    Committed body db (Err e) db'.

Lemma transaction_committed {A} (body : Sql A) db `{!Faithful body} :
  healthy db →
  Committed body db (fst (transaction body db)) (snd (transaction body db)).
Proof.
  intros [Hb Ho]. unfold transaction. rewrite Hb, Ho.
  assert (Hbody : ∀ s a c, body (mkConn (durable db) s) = (Ok a, c) →
    ideal body (durable db) = (Ok a, c_tables c)).
  { intros s a c E. apply faithful in E. unfold ideal. by rewrite E. }
  destruct (schedule db) as [|[] s]; cbn [tail];
    try (by apply RolledBack);
    match goal with |- context [body ?c] => destruct (body c) as [[a|e] c'] eqn:E end;
    try apply Hbody in E;
    destruct (c_schedule c') as [|[] s']; cbn [tail fst snd];
    try destruct s' as [|[] s']; cbn [tail fst snd];
    first [ by apply Acknowledged
          | by apply RolledBack
          | apply Fenced; [done|cbn; eauto] ].
Qed.

Lemma transaction_blocked {A} (body : Sql A) db :
  blocked db = true → transaction body db = (Err (unavailable "History storage is fenced"), db).
Proof. intros Hb. unfold transaction. by rewrite Hb. Qed.

(** A run with no faults left is the fault-free run. *)
Lemma transaction_ideal {A} (body : Sql A) t `{!Quiet body} :
  transaction body (mkDatabase t None [] false)
  = match ideal body t with
    | (Ok a, t') => (Ok a, mkDatabase t' None [] false)
    | (Err e, _) => (Err e, mkDatabase t None [] false)
    end.
Proof.
  unfold transaction, ideal. cbn. pose proof (quiet t) as Hq. unfold no_faults in Hq.
  destruct (body (mkConn t [])) as [[a|e] [t1 s1]]; cbn in *; by subst.
Qed.

(** ** Successful fault-free runs, decomposed *)
Definition runs {A} (m : Sql A) (t : T) (a : A) (t' : T) : Prop := ideal m t = (Ok a, t').

Lemma runs_ret {A} (x : A) t a t' : runs (mret x) t a t' ↔ a = x ∧ t' = t.
Proof. unfold runs. rewrite ideal_ret. naive_solver. Qed.
Lemma runs_fail {A} e t (a : A) t' : runs (sql_fail e) t a t' ↔ False.
Proof. unfold runs. rewrite ideal_fail. naive_solver. Qed.
Lemma runs_result {A} (r : BackendResult A) t a t' : runs (sql_result r) t a t' ↔ r = Ok a ∧ t' = t.
Proof. unfold runs. rewrite ideal_result. naive_solver. Qed.
Lemma runs_exec f t a t' : runs (exec f) t a t' ↔ f t = Some t'.
Proof. unfold runs. rewrite ideal_exec. destruct (f t), a; naive_solver. Qed.
Lemma runs_rows {A} (f : T → A) t a t' : runs (rows f) t a t' ↔ a = f t ∧ t' = t.
Proof. unfold runs. rewrite ideal_rows. naive_solver. Qed.
Lemma runs_bind {A B} (m : Sql A) (f : A → Sql B) t b t' `{!Quiet m} :
  runs (m ≫= f) t b t' ↔ ∃ a t1, runs m t a t1 ∧ runs (f a) t1 b t'.
Proof.
  unfold runs. rewrite (ideal_bind m f t). destruct (ideal m t) as [[a|e] t1]; naive_solver.
Qed.
End engine.
Arguments Conn : clear implicits.
Arguments Sql : clear implicits.
Arguments Database : clear implicits.
#[export] Hint Mode Faithful - - ! : typeclass_instances.
#[export] Hint Mode Quiet - - ! : typeclass_instances.

(** Prove [Faithful] or [Quiet] for a program, case by case. *)
Ltac sql_class :=
  repeat first
    [ progress intros
    | apply faithful_bind | apply quiet_bind
    | apply _
    | match goal with
      | |- Faithful (match ?x with _ => _ end) => destruct x
      | |- Quiet (match ?x with _ => _ end) => destruct x
      end ].

(** Decompose the successful runs among the hypotheses. *)
Ltac run_inv :=
  repeat match goal with
         | H : runs (_ ≫= _) _ _ _ |- _ =>
             apply runs_bind in H; [destruct H as (? & ? & ? & H)|apply _]
         | H : runs (mret _) _ _ _ |- _ => apply runs_ret in H; destruct H; subst
         | H : runs (sql_fail _) _ _ _ |- _ => apply runs_fail in H; destruct H
         | H : runs (sql_result _) _ _ _ |- _ => apply runs_result in H; destruct H; subst
         | H : runs (exec _) _ _ _ |- _ => apply runs_exec in H
         | H : runs (rows _) _ _ _ |- _ => apply runs_rows in H; destruct H; subst
         end.
