(* ===== verification/Tables.v ===== *)
(** * Tables: the relational schema of [history_store/schema.rs] as data, its
    CHECK, PRIMARY KEY and FOREIGN KEY constraints, and the meaning of the SQL
    statements of [history_store/database.rs] as functions on it.  A statement
    that a constraint refuses is undefined ([None]) and has no effect. *)
From S2P Require Import Prelude Text Externals Model.
Local Open Scope Z_scope.

(** ** Contents *)
Record StorePolicy := mkPolicy {
  admission : bool;
  max_entries : Z;
  max_favorites : Z;
  max_entry_bytes : Z;
  max_total_bytes : Z;
}.
#[export] Instance StorePolicy_eq_dec : EqDecision StorePolicy.
Proof. solve_decision. Defined.

Record EntryRow := mkEntry {
  e_revision : Z;
  e_favorite : bool;
  e_recency : Z;
  e_mime : string;
  e_resolved_mime : string;
  e_echo_source_id : option string;
  e_byte_size : Z;
  e_digest : bytes;
  e_preview : string;
  e_kind : string;
}.
Record SearchRow := mkSearch {
  sc_content : string;
  sc_indexed_content : string;
  sc_indexed_complete : bool;
}.
Record ArtifactRow := mkArtifact {
  a_source_entry_id : string;
  a_image_identity : string;
  a_created_at : Z;
  a_device : Z;
  a_inode : Z;
  a_owner : Z;
}.
Record EchoRow := mkEcho { ie_source_entry_id : string; ie_created_at : Z }.

Record Tables := mkTables {
  t_revision : Z;                                  (* store_meta.revision *)
  t_sequence : Z;                                  (* store_meta.sequence *)
  t_policy : StorePolicy;                          (* effective_policy *)
  t_entries : gmap string EntryRow;
  t_payloads : gmap string bytes;
  t_search : gmap string SearchRow;
  t_artifacts : gmap string ArtifactRow;
  t_entry_artifacts : gset (string * string);
  t_inline_echoes : gmap string EchoRow;
}.

Definition set_meta (rev seq : Z) (t : Tables) : Tables :=
  mkTables rev seq (t_policy t) (t_entries t) (t_payloads t) (t_search t) (t_artifacts t)
           (t_entry_artifacts t) (t_inline_echoes t).
Definition set_policy (p : StorePolicy) (t : Tables) : Tables :=
  mkTables (t_revision t) (t_sequence t) p (t_entries t) (t_payloads t) (t_search t)
           (t_artifacts t) (t_entry_artifacts t) (t_inline_echoes t).
Definition set_entries (es : gmap string EntryRow) (t : Tables) : Tables :=
  mkTables (t_revision t) (t_sequence t) (t_policy t) es (t_payloads t) (t_search t)
           (t_artifacts t) (t_entry_artifacts t) (t_inline_echoes t).
Definition set_content (ps : gmap string bytes) (ss : gmap string SearchRow)
    (ea : gset (string * string)) (t : Tables) : Tables :=
  mkTables (t_revision t) (t_sequence t) (t_policy t) (t_entries t) ps ss
           (t_artifacts t) ea (t_inline_echoes t).
Definition set_registry (ar : gmap string ArtifactRow) (ie : gmap string EchoRow) (t : Tables)
    : Tables :=
  mkTables (t_revision t) (t_sequence t) (t_policy t) (t_entries t) (t_payloads t) (t_search t)
           ar (t_entry_artifacts t) ie.

(** A freshly created store: the two INSERTs of the schema. *)
Definition MAX_ENTRY_BYTES : Z := 67108864.
Definition initial_policy : StorePolicy := mkPolicy false 1000 100 16777216 268435456.
Definition initial_tables : Tables :=
  mkTables 0 0 initial_policy ∅ ∅ ∅ ∅ ∅ ∅.

(** ** CHECK constraints *)
Definition revision_limit : Z := 9007199254740991.
Definition kind_labels : list string :=
  ["Text"; "Link"; "Image"; "Files"; "Html"; "Json"; "Color"; "Binary"].

Definition meta_ok (rev seq : Z) : bool := (0 <=? rev) && (rev <? revision_limit) && (0 <=? seq) && (seq <=? i64_max).
Definition policy_ok (p : StorePolicy) : bool :=
  between 0 (max_entries p) 100000 && between 0 (max_favorites p) 10000
  && between 1 (max_entry_bytes p) 67108864 && (0 <? max_total_bytes p).
(** SQL [length] of a text counts its characters. *)
Definition sql_length (s : string) : Z := zlen (chars s).
Definition entry_ok (e : EntryRow) : bool :=
  (0 <? e_revision e) && (0 <? e_recency e)
  && (sql_length (e_mime e) <=? 255) && (sql_length (e_resolved_mime e) <=? 255)
  && between 0 (e_byte_size e) 67108864 && (zlen (e_digest e) =? 32)
  && memb (e_kind e) kind_labels.
Definition payload_ok (b : bytes) : bool := zlen b <=? 67108864.

Definition checked_stmt {A} (c : bool) (t : A) : option A := if c then Some t else None.

(** ** store_meta and effective_policy *)
Definition bump_stmt (t : Tables) : option Tables :=
  checked_stmt (meta_ok (t_revision t + 1) (t_sequence t)) (set_meta (t_revision t + 1) (t_sequence t) t).
Definition sequence_stmt (t : Tables) : option Tables :=
  checked_stmt (meta_ok (t_revision t) (t_sequence t + 1)) (set_meta (t_revision t) (t_sequence t + 1) t).
Definition update_policy_stmt (p : StorePolicy) (t : Tables) : option Tables :=
  checked_stmt (policy_ok p) (set_policy p t).
Definition close_admission_stmt (t : Tables) : option Tables :=
  let p := t_policy t in
  Some (set_policy (mkPolicy false (max_entries p) (max_favorites p) (max_entry_bytes p)
                             (max_total_bytes p)) t).

(** ** entries *)
Definition insert_entry_stmt (id : string) (e : EntryRow) (t : Tables) : option Tables :=
  match t_entries t !! id with
  | Some _ => None                                     (* PRIMARY KEY *)
  | None => checked_stmt (entry_ok e) (set_entries (<[id := e]> (t_entries t)) t)
  end.
(** [UPDATE entries SET .. WHERE id = ?]: no matching row is no error. *)
Definition update_entry_stmt (id : string) (f : EntryRow → EntryRow) (t : Tables) : option Tables :=
  match t_entries t !! id with
  | None => Some t
  | Some e => checked_stmt (entry_ok (f e)) (set_entries (<[id := f e]> (t_entries t)) t)
  end.
(** [.. WHERE id = ? AND revision = ?]. *)
Definition update_entry_at_stmt (id : string) (expected : Z) (f : EntryRow → EntryRow) (t : Tables)
    : option Tables :=
  match t_entries t !! id with
  | Some e => if e_revision e =? expected then update_entry_stmt id f t else Some t
  | None => Some t
  end.
Definition set_echo (o : option string) (e : EntryRow) : EntryRow :=
  mkEntry (e_revision e) (e_favorite e) (e_recency e) (e_mime e) (e_resolved_mime e) o
          (e_byte_size e) (e_digest e) (e_preview e) (e_kind e).
Definition set_rank (revision recency : Z) (e : EntryRow) : EntryRow :=
  mkEntry revision (e_favorite e) recency (e_mime e) (e_resolved_mime e) (e_echo_source_id e)
          (e_byte_size e) (e_digest e) (e_preview e) (e_kind e).
Definition set_favorite (favorite : bool) (revision : Z) (e : EntryRow) : EntryRow :=
  mkEntry revision favorite (e_recency e) (e_mime e) (e_resolved_mime e) (e_echo_source_id e)
          (e_byte_size e) (e_digest e) (e_preview e) (e_kind e).
(** [UPDATE entries SET echo_source_id = ?1 WHERE id = ?2], a foreign key. *)
Definition set_echo_stmt (source id : string) (t : Tables) : option Tables :=
  match t_entries t !! source with
  | None => None
  | Some _ => update_entry_stmt id (set_echo (Some source)) t
  end.
(** [UPDATE entries SET echo_source_id = NULL WHERE echo_source_id = ?1]. *)
Definition clear_echoes_stmt (source : string) (t : Tables) : option Tables :=
  Some (set_entries ((λ e, if decide (e_echo_source_id e = Some source) then set_echo None e else e)
                       <$> t_entries t) t).

(** [DELETE FROM entries WHERE p]: ON DELETE CASCADE into payloads,
    search_content and entry_artifacts, ON DELETE SET NULL for echoes. *)
Definition delete_entries (p : string → EntryRow → bool) (t : Tables) : Tables :=
  let gone := λ id, match t_entries t !! id with Some e => p id e | None => false end in
  let forget := λ e, match e_echo_source_id e with
                     | Some s => if gone s then set_echo None e else e
                     | None => e
                     end in
  set_content (filter (λ kv, gone kv.1 = false) (t_payloads t))
              (filter (λ kv, gone kv.1 = false) (t_search t))
              (filter (λ kv, gone kv.1 = false) (t_entry_artifacts t))
    (set_entries (forget <$> filter (λ kv, p kv.1 kv.2 = false) (t_entries t)) t).
Definition delete_entries_stmt (p : string → EntryRow → bool) (t : Tables) : option Tables :=
  Some (delete_entries p t).

(** ** payloads, search_content, entry_artifacts *)
Definition entry_exists (id : string) (t : Tables) : bool :=
  bool_decide (is_Some (t_entries t !! id)).
Definition insert_payload_stmt (id : string) (b : bytes) (t : Tables) : option Tables :=
  match t_payloads t !! id with
  | Some _ => None
  | None => checked_stmt (entry_exists id t && payload_ok b)
              (set_content (<[id := b]> (t_payloads t)) (t_search t) (t_entry_artifacts t) t)
  end.
Definition insert_search_stmt (id : string) (r : SearchRow) (t : Tables) : option Tables :=
  match t_search t !! id with
  | Some _ => None
  | None => checked_stmt (entry_exists id t)
              (set_content (t_payloads t) (<[id := r]> (t_search t)) (t_entry_artifacts t) t)
  end.
Definition insert_entry_artifact_stmt (id path : string) (t : Tables) : option Tables :=
  if decide ((id, path) ∈ t_entry_artifacts t) then None
  else checked_stmt (entry_exists id t)
         (set_content (t_payloads t) (t_search t) ({[(id, path)]} ∪ t_entry_artifacts t) t).
Definition delete_payload_stmt (id : string) (t : Tables) : option Tables :=
  Some (set_content (delete id (t_payloads t)) (t_search t) (t_entry_artifacts t) t).
Definition delete_search_stmt (id : string) (t : Tables) : option Tables :=
  Some (set_content (t_payloads t) (delete id (t_search t)) (t_entry_artifacts t) t).
Definition delete_entry_artifacts_stmt (id : string) (t : Tables) : option Tables :=
  Some (set_content (t_payloads t) (t_search t)
          (filter (λ kv, kv.1 ≠ id) (t_entry_artifacts t)) t).

(** ** artifacts, inline_echoes *)
Definition upsert_artifact_stmt (path : string) (r : ArtifactRow) (t : Tables) : option Tables :=
  checked_stmt ((0 <=? a_created_at r) && (0 <=? a_owner r))
    (set_registry (<[path := r]> (t_artifacts t)) (t_inline_echoes t) t).
Definition delete_artifact_stmt (path : string) (t : Tables) : option Tables :=
  Some (set_registry (delete path (t_artifacts t)) (t_inline_echoes t) t).
Definition upsert_echo_stmt (identity : string) (r : EchoRow) (t : Tables) : option Tables :=
  checked_stmt (0 <=? ie_created_at r)
    (set_registry (t_artifacts t) (<[identity := r]> (t_inline_echoes t)) t).
Definition clear_inline_echoes_stmt (t : Tables) : option Tables :=
  Some (set_registry (t_artifacts t) ∅ t).

(** ** ORDER BY

    Every ordering the store uses is descending in some integer keys and then
    ascending in the primary key (BINARY collation: byte order). *)
Fixpoint cmp_desc (a b : list Z) : comparison :=
  match a, b with
  | [], [] => Eq
  | [], _ :: _ => Lt
  | _ :: _, [] => Gt
  | x :: a', y :: b' =>
      match Z.compare y x with
      | Eq => cmp_desc a' b'
      | c => c
      end
  end.
Definition order_le {V} (keys : string * V → list Z) (x y : string * V) : Prop :=
  match cmp_desc (keys x) (keys y) with
  | Lt => True
  | Eq => String.le x.1 y.1
  | Gt => False
  end.
#[export] Instance order_le_dec {V} (keys : string * V → list Z) : RelDecision (order_le keys).
Proof. intros x y. unfold order_le. destruct (cmp_desc _ _); apply _. Defined.
Definition order_by {V} (keys : string * V → list Z) (l : list (string * V)) : list (string * V) :=
  merge_sort (order_le keys) l.

Definition b2z (b : bool) : Z := if b then 1 else 0.
Definition by_recency (r : string * EntryRow) : list Z := [e_recency r.2].
Definition by_favorite (r : string * EntryRow) : list Z := [b2z (e_favorite r.2); e_recency r.2].
Definition by_protected (p : string) (r : string * EntryRow) : list Z :=
  [b2z (bool_decide (r.1 = p)); e_recency r.2].
Definition by_protected_favorite (p : string) (r : string * EntryRow) : list Z :=
  [b2z (bool_decide (r.1 = p)); b2z (e_favorite r.2); e_recency r.2].

(** [DELETE FROM inline_echoes WHERE image_identity IN (SELECT .. ORDER BY
    created_at DESC, image_identity LIMIT -1 OFFSET keep)]. *)
Definition by_echo_age (r : string * EchoRow) : list Z := [ie_created_at r.2].
Definition trim_echoes_stmt (keep : Z) (t : Tables) : option Tables :=
  Some (set_registry (t_artifacts t)
    (list_to_map (ztake keep (order_by by_echo_age (map_to_list (t_inline_echoes t))))) t).

(** [(SELECT max(recency) FROM entries)], 0 standing for NULL (recency > 0). *)
Definition max_recency (es : gmap string EntryRow) : Z :=
  map_fold (λ _ e acc, Z.max (e_recency e) acc) 0 es.

(** ** Lemmas: ordering *)
Lemma cmp_desc_opp a b : cmp_desc b a = CompOpp (cmp_desc a b).
Proof.
  revert b; induction a as [|x a IH]; intros [|y b]; cbn; try done.
  rewrite Z.compare_antisym. destruct (Z.compare y x); cbn; auto.
Qed.
Lemma cmp_desc_trans a b c :
  cmp_desc a b ≠ Gt → cmp_desc b c ≠ Gt →
  cmp_desc a c ≠ Gt ∧ (cmp_desc a c = Eq → cmp_desc a b = Eq ∧ cmp_desc b c = Eq).
Proof.
  revert b c; induction a as [|x a IH]; intros [|y b] [|z c]; cbn; try done.
  destruct (Z.compare_spec y x), (Z.compare_spec z y), (Z.compare_spec z x);
    subst; try done; try lia; auto.
Qed.

Section order_by.
Context {V : Type} (keys : string * V → list Z).

#[export] Instance order_le_trans : Transitive (order_le keys).
Proof.
  intros x y z. unfold order_le.
  pose proof (cmp_desc_trans (keys x) (keys y) (keys z)) as Ht.
  destruct (cmp_desc (keys x) (keys y)), (cmp_desc (keys y) (keys z)); try done;
    destruct Ht as [H1 H2]; try done;
    destruct (cmp_desc (keys x) (keys z)); try done;
    try (destruct (H2 eq_refl); done).
  intros. by etrans.
Qed.
#[export] Instance order_le_total : Total (order_le keys).
Proof.
  intros x y. unfold order_le. rewrite (cmp_desc_opp (keys x) (keys y)).
  destruct (cmp_desc (keys x) (keys y)); cbn; auto. apply (total String.le).
Qed.

Lemma order_by_perm l : order_by keys l ≡ₚ l.
Proof. apply merge_sort_Permutation. Qed.
Lemma order_by_sorted l : StronglySorted (order_le keys) (order_by keys l).
Proof. apply (StronglySorted_merge_sort _). Qed.
Lemma elem_of_order_by l x : x ∈ order_by keys l ↔ x ∈ l.
Proof. by rewrite order_by_perm. Qed.
Lemma zlen_order_by l : zlen (order_by keys l) = zlen l.
Proof. unfold zlen. by rewrite order_by_perm. Qed.
End order_by.

(** ** Lemmas: DELETE FROM entries *)
Section delete.
Context (p : string → EntryRow → bool) (t : Tables).

Lemma delete_entries_lookup id e' :
  t_entries (delete_entries p t) !! id = Some e' ↔
  ∃ e, t_entries t !! id = Some e ∧ p id e = false
       ∧ e' = match e_echo_source_id e with
              | Some s => if match t_entries t !! s with Some es => p s es | None => false end
                          then set_echo None e else e
              | None => e
              end.
Proof.
  unfold delete_entries; cbn. rewrite lookup_fmap, fmap_Some.
  setoid_rewrite map_lookup_filter_Some. naive_solver.
Qed.

(** Everything but the echo reference is kept. *)
Definition same_row (e e' : EntryRow) : Prop :=
  e' = set_echo (e_echo_source_id e') e.
Lemma delete_entries_row id e' :
  t_entries (delete_entries p t) !! id = Some e' →
  ∃ e, t_entries t !! id = Some e ∧ p id e = false ∧ same_row e e'
       ∧ (e_echo_source_id e' = e_echo_source_id e ∨ e_echo_source_id e' = None).
Proof.
  rewrite delete_entries_lookup. intros (e & He & Hp & ->). exists e.
  split_and!; [done|done| |]; unfold same_row; repeat case_match; destruct e; cbn in *; subst; auto.
Qed.
Lemma delete_entries_keep id e :
  t_entries t !! id = Some e → p id e = false →
  ∃ e', t_entries (delete_entries p t) !! id = Some e' ∧ same_row e e'.
Proof.
  intros He Hp. eexists. split; [apply delete_entries_lookup; eauto|].
  unfold same_row; repeat case_match; destruct e; cbn in *; subst; auto.
Qed.
Lemma delete_entries_gone id :
  t_entries (delete_entries p t) !! id = None ↔
  ∀ e, t_entries t !! id = Some e → p id e = true.
Proof.
  split.
  - intros Hn e He. destruct (p id e) eqn:Hp; [done|].
    destruct (delete_entries_keep id e He Hp) as (e' & He' & _). congruence.
  - intros Hall. destruct (t_entries (delete_entries p t) !! id) as [e'|] eqn:He'; [|done].
    apply delete_entries_row in He' as (e & He & Hp & _). rewrite (Hall e He) in Hp. done.
Qed.
Lemma delete_entries_payload id b :
  t_payloads (delete_entries p t) !! id = Some b ↔
  t_payloads t !! id = Some b
  ∧ match t_entries t !! id with Some e => p id e = false | None => True end.
Proof.
  unfold delete_entries; cbn. rewrite map_lookup_filter_Some. cbn.
  destruct (t_entries t !! id); naive_solver.
Qed.
Lemma delete_entries_search id r :
  t_search (delete_entries p t) !! id = Some r ↔
  t_search t !! id = Some r
  ∧ match t_entries t !! id with Some e => p id e = false | None => True end.
Proof.
  unfold delete_entries; cbn. rewrite map_lookup_filter_Some. cbn.
  destruct (t_entries t !! id); naive_solver.
Qed.
End delete.
