(* ===== verification/Database.v ===== *)
(** * Database: the operations of [history_store/database.rs], statement by
    statement, in the [Sql] monad on the tables of [Tables.v]. *)
From Stdlib Require Import Ascii.
From S2P Require Import Prelude Text Externals Model Classification Selection Content Sql Tables.
Local Open Scope Z_scope.

Abbreviation SqlT := (Sql Tables).

(** ** store_meta, effective_policy *)
Definition db_revision : SqlT Z := r ← rows t_revision; mret (as_u64 r).
Definition bump : SqlT Z := _ ← exec bump_stmt; db_revision.
Definition next_sequence : SqlT Z := _ ← exec sequence_stmt; rows t_sequence.
Definition db_policy : SqlT StorePolicy :=
  p ← rows t_policy;
  mret (mkPolicy (admission p) (as_u32 (max_entries p)) (as_u32 (max_favorites p))
                 (as_u64 (max_entry_bytes p)) (as_u64 (max_total_bytes p))).

(** ** Summaries *)
Definition decode_kind (label : string) : BackendResult EntryKind :=
  match label with
  | "Text" => Ok Text | "Link" => Ok Link | "Image" => Ok Image | "Files" => Ok Files
  | "Html" => Ok Html | "Json" => Ok Json | "Color" => Ok Color | "Binary" => Ok Binary
  | _ => Err (invalid_data "Invalid stored entry kind")
  end%string.
(** A row of [SELECT {COLUMNS} FROM entries e]. *)
Definition decode_summary (es : gmap string EntryRow) (r : string * EntryRow)
    : BackendResult EntrySummary :=
  let '(id, e) := r in
  k ← decode_kind (e_kind e);
  mret (mkSummary id (as_u64 (e_revision e)) k (e_resolved_mime e) (as_u64 (e_byte_size e))
          (e_favorite e) (bool_decide (e_recency e = max_recency es)) (e_preview e)).

Definition db_summary (id : string) (expected : option Z) : SqlT EntrySummary :=
  found ← rows (λ t, (λ e, decode_summary (t_entries t) (id, e)) <$> t_entries t !! id);
  decoded ← sql_result (ok_or found (not_found "Clipboard entry does not exist"));
  s ← sql_result decoded;
  if match expected with Some r => negb (r =? s_revision s) | None => false end
  then sql_fail (stale "Clipboard entry revision changed")
  else mret s.

Definition db_get (id : string) (expected : option Z) : SqlT StoredEntry :=
  s ← db_summary id expected;
  found ← rows (λ t, b ← t_payloads t !! id; e ← t_entries t !! id; Some (b, e_mime e));
  payload ← sql_result (ok_or found (invalid_data "Clipboard payload is missing"));
  let '(b, mime) := payload in
  if negb (zlen b =? s_byte_size s) then
    sql_fail (invalid_data "Clipboard payload length mismatch")
  else mret (mkStored s mime b).

(** ** Retention *)

(** [sum(byte_size) OVER (.. ROWS UNBOUNDED PRECEDING)]. *)
Fixpoint running_sums (acc : Z) (l : list (string * EntryRow)) : list (string * Z) :=
  match l with
  | [] => []
  | (id, e) :: l' => (id, acc + e_byte_size e) :: running_sums (acc + e_byte_size e) l'
  end.

Definition oversized_stmt (p : StorePolicy) (protected : string) : Tables → option Tables :=
  delete_entries_stmt (λ id e, (as_i64 (max_entry_bytes p) <? e_byte_size e)
                               && negb (bool_decide (id = protected))).
(** [.. ORDER BY (id=?2) DESC,recency DESC,id LIMIT -1 OFFSET ?3]. *)
Definition beyond_category (favorite : bool) (limit : Z) (protected : string) (t : Tables) : list string :=
  fst <$> zdrop limit (order_by (by_protected protected)
            (filter (λ r, e_favorite r.2 = favorite) (map_to_list (t_entries t)))).
Definition category_stmt (favorite : bool) (limit : Z) (protected : string) (t : Tables)
    : option Tables :=
  let doomed := beyond_category favorite limit protected t in
  delete_entries_stmt (λ id _, memb id doomed) t.
Definition beyond_total (limit : Z) (protected : string) (t : Tables) : list string :=
  fst <$> filter (λ r, limit < r.2)
    (running_sums 0 (order_by (by_protected_favorite protected) (map_to_list (t_entries t)))).
Definition total_stmt (p : StorePolicy) (protected : string) (t : Tables) : option Tables :=
  let doomed := beyond_total (as_i64 (max_total_bytes p)) protected t in
  delete_entries_stmt (λ id _, memb id doomed) t.

Definition retain (p : StorePolicy) (protected : option string) : SqlT unit :=
  let protected := default EmptyString protected in
  _ ← exec (oversized_stmt p protected);
  _ ← exec (category_stmt false (max_entries p) protected);
  _ ← exec (category_stmt true (max_favorites p) protected);
  _ ← exec (total_stmt p protected);
  if decide (protected = EmptyString) then mret tt
  else _ ← db_summary protected None; mret tt.

(** ** Policy *)
Definition valid_policy (p : StorePolicy) : bool :=
  negb ((100000 <? max_entries p) || (10000 <? max_favorites p)
        || (max_entry_bytes p =? 0) || (MAX_ENTRY_BYTES <? max_entry_bytes p)
        || (max_total_bytes p =? 0) || (i64_max <? max_total_bytes p)).
Definition apply_policy_body (p : StorePolicy) : SqlT unit :=
  current ← db_policy;
  if decide (current = p) then mret tt
  else
    _ ← exec (update_policy_stmt (mkPolicy (admission p) (max_entries p) (max_favorites p)
                (as_i64 (max_entry_bytes p)) (as_i64 (max_total_bytes p))));
    _ ← retain p None;
    _ ← bump;
    mret tt.

(** ** Registry records ([u64] fields are stored as [i64]) *)
Record ArtifactRecord := mkArtifactRecord {
  ar_path : string;
  ar_source_entry_id : string;
  ar_image_identity : string;
  ar_created_at : Z;
  ar_device : Z;
  ar_inode : Z;
  ar_owner : Z;
}.
#[export] Instance ArtifactRecord_eq_dec : EqDecision ArtifactRecord.
Proof. solve_decision. Defined.
Record InlineEchoRecord := mkInlineEchoRecord {
  ir_source_entry_id : string;
  ir_image_identity : string;
  ir_created_at : Z;
}.
Definition decode_artifact (r : string * ArtifactRow) : ArtifactRecord :=
  mkArtifactRecord r.1 (a_source_entry_id r.2) (a_image_identity r.2) (as_u64 (a_created_at r.2))
                   (as_u64 (a_device r.2)) (as_u64 (a_inode r.2)) (as_u32 (a_owner r.2)).
Definition decode_echo (r : string * EchoRow) : InlineEchoRecord :=
  mkInlineEchoRecord (ie_source_entry_id r.2) r.1 (as_u64 (ie_created_at r.2)).

(** Calls of one operation: validation that returns early, or a transaction. *)
Inductive Call (A : Type) :=
| Refuse (e : BackendError)
| Skip (a : A)
| Transact (body : SqlT A).
Arguments Refuse {A} e.
Arguments Skip {A} a.
Arguments Transact {A} body.

Definition run_call {A} (c : Call A) (db : Database Tables) : BackendResult A * Database Tables :=
  match c with
  | Refuse e => (Err e, db)
  | Skip a => (Ok a, db)
  | Transact body => transaction body db
  end.

Definition apply_policy (p : StorePolicy) : Call unit :=
  if valid_policy p then Transact (apply_policy_body p)
  else Refuse (invalid_data "Invalid history retention policy").

Definition allowed_payload (p : StorePolicy) (b : bytes) : BackendResult unit :=
  if (max_entry_bytes p <? zlen b) || (max_total_bytes p <? zlen b) then
    Err (invalid_data "Clipboard entry exceeds effective storage limits")
  else Ok tt.

Section with_externals.
Context `{Externals}.

(** ** Content rows *)
Definition artifact_get (path : string) : SqlT (option ArtifactRecord) :=
  rows (λ t, (λ r, decode_artifact (path, r)) <$> t_artifacts t !! path).

Fixpoint for_each {A} (f : A → SqlT unit) (l : list A) : SqlT unit :=
  match l with
  | [] => mret tt
  | x :: l' => _ ← f x; for_each f l'
  end.

(** The local paths the text names, one URL per line. *)
Definition referenced_paths (b : bytes) : list string :=
  match from_utf8 b with
  | None => []
  | Some text =>
      remove_dups (omap (λ line, url ← url_parse (trim line);
                                 path ← url_file_path url;
                                 if utf8_valid (str_bytes path) then Some path else None)
                        (str_lines text))
  end.

Definition search_row (mime : string) (b : bytes) : SearchRow :=
  let content := to_lowercase (mime ++ String "010" (default EmptyString (from_utf8 b))) in
  let indexed_complete := str_len content <=? 65536 in
  mkSearch content (if indexed_complete then content else EmptyString) indexed_complete.

(** The file behind a local image is the one the registry recorded. *)
Definition owned_identity (fs : Fs) (source : LocalImageSource) (r : ArtifactRecord) : bool :=
  match fs !! li_path source with
  | None => false
  | Some n => is_file n && (node_device n =? ar_device r) && (node_inode n =? ar_inode r)
              && (node_owner n =? ar_owner r)
  end
  && bool_decide (local_image_identity fs source = Some (ar_image_identity r)).

Definition link_echo (fs : Fs) (id : string) (resolved : ResolvedContent) : SqlT unit :=
  match local_image resolved with
  | None => mret tt
  | Some source =>
      if negb (utf8_valid (str_bytes (li_path source))) then mret tt
      else
        found ← artifact_get (li_path source);
        match found with
        | None => mret tt
        | Some r =>
            if bool_decide (ar_source_entry_id r = id) then mret tt
            else
              present ← rows (entry_exists (ar_source_entry_id r));
              if present && owned_identity fs source r then
                exec (set_echo_stmt (ar_source_entry_id r) id)
              else mret tt
        end
  end.

Definition write_content (fs : Fs) (id mime : string) (b : bytes) (resolved : ResolvedContent)
    : SqlT unit :=
  _ ← exec (insert_payload_stmt id b);
  _ ← exec (insert_search_stmt id (search_row mime b));
  _ ← for_each (λ path, exec (insert_entry_artifact_stmt id path)) (referenced_paths b);
  link_echo fs id resolved.

(** ** insert *)
Definition candidates (mime : string) (b : bytes) (t : Tables) : list string :=
  fst <$> order_by by_recency
    (filter (λ r, e_digest r.2 = sha256 b ∧ e_mime r.2 = mime ∧ e_byte_size r.2 = zlen b
                  ∧ t_payloads t !! r.1 = Some b)
            (map_to_list (t_entries t))).

Definition new_entry (revision recency : Z) (mime : string) (b : bytes) (c : ResolvedContent)
    : EntryRow :=
  mkEntry (as_i64 revision) false recency mime (resolved_mime c) None (zlen b) (sha256 b)
          (bounded_preview b INSPECTION_LIMIT) (EntryKind_label (rc_kind c)).

(** The body of [Database::insert]; [uuid] is what [Uuid::new_v4] draws. *)
Definition insert_body (fs : Fs) (uuid mime : string) (b : bytes) : SqlT EntrySummary :=
  policy ← db_policy;
  if negb (admission policy) then
    sql_fail (unavailable "Clipboard history admission is closed")
  else
    _ ← sql_result (allowed_payload policy b);
    found ← rows (candidates mime b);
    let candidate := head found in
    existing ← match candidate with
               | Some id => s ← db_summary id None; mret (Some s)
               | None => mret None
               end;
    match existing with
    | Some s =>
        if s_current s then mret s
        else
          revision ← bump;
          recency ← next_sequence;
          _ ← exec (update_entry_stmt (s_id s) (set_rank (as_i64 revision) recency));
          _ ← retain policy (Some (s_id s));
          db_summary (s_id s) None
    | None =>
        revision ← bump;
        recency ← next_sequence;
        if max_entries policy =? 0 then
          sql_fail (invalid_data "Clipboard main history capacity is zero")
        else
          let id := ("entry-" ++ uuid)%string in
          let content := resolve fs mime b MAX_ENTRY_BYTES in
          _ ← exec (insert_entry_stmt id (new_entry revision recency mime b content));
          _ ← write_content fs id mime b content;
          _ ← retain policy (Some id);
          db_summary id None
    end.
Definition insert (fs : Fs) (uuid mime : string) (b : bytes) : Call EntrySummary :=
  Transact (insert_body fs uuid mime b).

(** ** replace *)
Definition replaced_entry (revision : Z) (mime : string) (b : bytes) (c : ResolvedContent)
    (e : EntryRow) : EntryRow :=
  mkEntry (as_i64 revision) (e_favorite e) (e_recency e) mime (resolved_mime c) None (zlen b)
          (sha256 b) (bounded_preview b INSPECTION_LIMIT) (EntryKind_label (rc_kind c)).
Definition replace_body (fs : Fs) (id : string) (expected : Z) (mime : string) (b : bytes)
    : SqlT EntrySummary :=
  _ ← db_summary id (Some expected);
  policy ← db_policy;
  _ ← sql_result (allowed_payload policy b);
  revision ← bump;
  let content := resolve fs mime b MAX_ENTRY_BYTES in
  _ ← exec (update_entry_at_stmt id (as_i64 expected) (replaced_entry revision mime b content));
  _ ← exec (clear_echoes_stmt id);
  _ ← exec (delete_payload_stmt id);
  _ ← exec (delete_search_stmt id);
  _ ← exec (delete_entry_artifacts_stmt id);
  _ ← write_content fs id mime b content;
  _ ← retain policy (Some id);
  db_summary id None.
Definition replace (fs : Fs) (id : string) (expected : Z) (mime : string) (b : bytes)
    : Call EntrySummary := Transact (replace_body fs id expected mime b).
End with_externals.

(** ** favorite, remove_many, wipe *)
Definition favorite_body (id : string) (expected : Z) (value : bool) : SqlT unit :=
  s ← db_summary id (Some expected);
  if bool_decide (s_favorite s = value) then mret tt
  else
    policy ← db_policy;
    if (value && (max_favorites policy =? 0)) || (negb value && (max_entries policy =? 0)) then
      sql_fail (invalid_data "Requested history category has zero capacity")
    else
      revision ← bump;
      _ ← exec (update_entry_at_stmt id (as_i64 expected) (set_favorite value (as_i64 revision)));
      retain policy (Some id).
Definition favorite (id : string) (expected : Z) (value : bool) : Call unit :=
  Transact (favorite_body id expected value).

(** [WITH targets(id, revision) AS (VALUES ..)]: one row per target, so a
    repeated target counts each time it matches. *)
Definition matches_row (t : Tables) (g : EntryTarget) : bool :=
  match t_entries t !! opaque_id g with
  | Some e => e_revision e =? as_i64 (expected_revision g)
  | None => false
  end.
Definition matching (targets : list EntryTarget) (t : Tables) : list EntryTarget :=
  filter (λ g, matches_row t g = true) targets.
Definition present (targets : list EntryTarget) (t : Tables) : list EntryTarget :=
  filter (λ g, entry_exists (opaque_id g) t = true) targets.
Definition remove_many_body (targets : list EntryTarget) : SqlT unit :=
  valid ← rows (λ t, zlen (matching targets t));
  if negb (valid =? zlen targets) then
    found ← rows (λ t, zlen (present targets t));
    if negb (found =? zlen targets) then sql_fail (not_found "Clipboard entry does not exist")
    else sql_fail (stale "Clipboard entry revision changed")
  else
    _ ← exec (delete_entries_stmt (λ id _, memb id (opaque_id <$> targets)));
    _ ← bump;
    mret tt.
Definition remove_many (targets : list EntryTarget) : Call unit :=
  if bool_decide (targets = []) then Skip tt else Transact (remove_many_body targets).

Definition wipe_body : SqlT unit :=
  _ ← exec (delete_entries_stmt (λ _ _, true));
  _ ← exec clear_inline_echoes_stmt;
  _ ← bump;
  mret tt.
Definition wipe : Call unit := Transact wipe_body.

(** ** Artifact registry *)
Definition all_artifacts (t : Tables) : list ArtifactRecord :=
  decode_artifact <$> order_by (λ _, []) (map_to_list (t_artifacts t)).
Definition artifacts : SqlT (list ArtifactRecord) := rows all_artifacts.

(** [entry_artifacts ea WHERE ea.path = a.path]. *)
Definition path_referenced (path : string) (t : Tables) : bool :=
  existsb (λ kv, bool_decide (kv.2 = path)) (elements (t_entry_artifacts t)).
Definition unreferenced (before : Z) (t : Tables) : list (string * ArtifactRow) :=
  filter (λ r, ((a_created_at r.2 <=? before) && negb (entry_exists (a_source_entry_id r.2) t)
                && negb (path_referenced r.1 t))%bool = true)
         (map_to_list (t_artifacts t)).
(** Ascending in [created_at]: descending in its opposite. *)
Definition by_age (r : string * ArtifactRow) : list Z := [- a_created_at r.2].
Definition artifact_candidates (before limit : Z) : SqlT (list ArtifactRecord) :=
  rows (λ t, decode_artifact <$>
               ztake (Z.min limit 4096) (order_by by_age (unreferenced (Z.min before i64_max) t))).

Definition register_artifact_body (r : ArtifactRecord) : SqlT unit :=
  count ← rows (λ t, Z.of_nat (size (t_artifacts t)));
  known ← (if 4096 <=? count then rows (λ t, bool_decide (is_Some (t_artifacts t !! ar_path r)))
           else mret true);
  if negb known then sql_fail (invalid_data "Artifact registry is full")
  else exec (upsert_artifact_stmt (ar_path r)
               (mkArtifact (ar_source_entry_id r) (ar_image_identity r) (as_i64 (ar_created_at r))
                           (as_i64 (ar_device r)) (as_i64 (ar_inode r)) (ar_owner r))).
Definition register_artifact (r : ArtifactRecord) : Call unit :=
  if negb (utf8_valid (str_bytes (ar_path r))) then Refuse (invalid_data "Artifact path must be UTF-8")
  else if negb (path_is_absolute (ar_path r)) || (32768 <? str_len (ar_path r))
          || (256 <? str_len (ar_image_identity r)) || (128 <? str_len (ar_source_entry_id r))
          || (i64_max <? ar_created_at r)
  then Refuse (invalid_data "Invalid artifact metadata")
  else Transact (register_artifact_body r).
Definition forget_artifact (path : string) : Call unit :=
  if negb (utf8_valid (str_bytes path)) then Refuse (invalid_data "Artifact path must be UTF-8")
  else Transact (exec (delete_artifact_stmt path)).
Definition artifact_references : SqlT (list string) :=
  rows (λ t, fst <$> filter (λ r, entry_exists (a_source_entry_id r.2) t || path_referenced r.1 t = true)
                            (map_to_list (t_artifacts t))).

(** ** Inline echoes *)
Definition inline_echoes : SqlT (list InlineEchoRecord) :=
  rows (λ t, decode_echo <$> order_by (λ _, []) (map_to_list (t_inline_echoes t))).
Definition register_inline_echo (r : InlineEchoRecord) : Call unit :=
  if (256 <? str_len (ir_image_identity r)) || (128 <? str_len (ir_source_entry_id r))
     || (i64_max <? ir_created_at r)
  then Refuse (invalid_data "Invalid inline echo metadata")
  else Transact (
    _ ← exec (upsert_echo_stmt (ir_image_identity r)
                (mkEcho (ir_source_entry_id r) (as_i64 (ir_created_at r))));
    exec (trim_echoes_stmt 4096)).
Definition clear_inline_echoes : Call unit := Transact (exec clear_inline_echoes_stmt).

(** ** Closing *)
Definition close_body : SqlT unit := exec close_admission_stmt.

(** The result row of [PRAGMA wal_checkpoint(TRUNCATE)] and whether the sidecar
    files could be protected afterwards are the environment's. *)
Definition shutdown (checkpoint : BackendResult (option (Z * Z * Z))) (protected : BackendResult unit)
    (db : Database Tables) : BackendResult unit * Database Tables :=
  if blocked db then (Err (unavailable "Fenced history storage cannot confirm clean shutdown"), db)
  else
    match transaction close_body db with
    | (Err e, db') => (Err e, db')
    | (Ok _, db') =>
        (row ← checkpoint;
         r ← ok_or row (unavailable "History checkpoint returned no status");
         let '(busy, log, done) := r in
         if negb (busy =? 0) || negb (log =? done) then
           Err (unavailable "History checkpoint was incomplete")
         else protected, db')
    end.

(** ** Every operation is faithful and quiet *)
#[export] Instance db_revision_quiet : Quiet db_revision.
Proof. unfold db_revision. sql_class. Qed.
#[export] Instance bump_quiet : Quiet bump.
Proof. unfold bump. sql_class. Qed.
#[export] Instance next_sequence_quiet : Quiet next_sequence.
Proof. unfold next_sequence. sql_class. Qed.
#[export] Instance db_policy_quiet : Quiet db_policy.
Proof. unfold db_policy. sql_class. Qed.
#[export] Instance db_summary_quiet id expected : Quiet (db_summary id expected).
Proof. unfold db_summary. sql_class. Qed.
#[export] Instance db_get_quiet id expected : Quiet (db_get id expected).
Proof. unfold db_get. sql_class. Qed.
#[export] Instance retain_quiet p o : Quiet (retain p o).
Proof. unfold retain. sql_class. Qed.
#[export] Instance for_each_quiet {A} (f : A → SqlT unit) l :
  (∀ x, Quiet (f x)) → Quiet (for_each f l).
Proof. intros. induction l; cbn [for_each]; sql_class. Qed.
#[export] Instance db_revision_faithful : Faithful db_revision.
Proof. unfold db_revision. sql_class. Qed.
#[export] Instance bump_faithful : Faithful bump.
Proof. unfold bump. sql_class. Qed.
#[export] Instance next_sequence_faithful : Faithful next_sequence.
Proof. unfold next_sequence. sql_class. Qed.
#[export] Instance db_policy_faithful : Faithful db_policy.
Proof. unfold db_policy. sql_class. Qed.
#[export] Instance db_summary_faithful id expected : Faithful (db_summary id expected).
Proof. unfold db_summary. sql_class. Qed.
#[export] Instance retain_faithful p o : Faithful (retain p o).
Proof. unfold retain. sql_class. Qed.
#[export] Instance for_each_faithful {A} (f : A → SqlT unit) l :
  (∀ x, Faithful (f x)) → Faithful (for_each f l).
Proof. intros. induction l; cbn [for_each]; sql_class. Qed.

Section classes.
Context `{Externals}.
#[export] Instance link_echo_quiet fs id c : Quiet (link_echo fs id c).
Proof. unfold link_echo, artifact_get. sql_class. Qed.
#[export] Instance write_content_quiet fs id mime b c : Quiet (write_content fs id mime b c).
Proof. unfold write_content. sql_class. Qed.
#[export] Instance insert_body_quiet fs uuid mime b : Quiet (insert_body fs uuid mime b).
Proof. unfold insert_body. sql_class. Qed.
#[export] Instance replace_body_quiet fs id r mime b : Quiet (replace_body fs id r mime b).
Proof. unfold replace_body. sql_class. Qed.
#[export] Instance link_echo_faithful fs id c : Faithful (link_echo fs id c).
Proof. unfold link_echo, artifact_get. sql_class. Qed.
#[export] Instance write_content_faithful fs id mime b c : Faithful (write_content fs id mime b c).
Proof. unfold write_content. sql_class. Qed.
#[export] Instance insert_body_faithful fs uuid mime b : Faithful (insert_body fs uuid mime b).
Proof. unfold insert_body. sql_class. Qed.
#[export] Instance replace_body_faithful fs id r mime b : Faithful (replace_body fs id r mime b).
Proof. unfold replace_body. sql_class. Qed.
End classes.
#[export] Instance apply_policy_quiet p : Quiet (apply_policy_body p).
Proof. unfold apply_policy_body. sql_class. Qed.
#[export] Instance favorite_quiet id r v : Quiet (favorite_body id r v).
Proof. unfold favorite_body. sql_class. Qed.
#[export] Instance remove_many_quiet l : Quiet (remove_many_body l).
Proof. unfold remove_many_body. sql_class. Qed.
#[export] Instance wipe_quiet : Quiet wipe_body.
Proof. unfold wipe_body. sql_class. Qed.
#[export] Instance register_artifact_quiet r : Quiet (register_artifact_body r).
Proof. unfold register_artifact_body. sql_class. Qed.
#[export] Instance apply_policy_faithful p : Faithful (apply_policy_body p).
Proof. unfold apply_policy_body. sql_class. Qed.
#[export] Instance favorite_faithful id r v : Faithful (favorite_body id r v).
Proof. unfold favorite_body. sql_class. Qed.
#[export] Instance remove_many_faithful l : Faithful (remove_many_body l).
Proof. unfold remove_many_body. sql_class. Qed.
#[export] Instance wipe_faithful : Faithful wipe_body.
Proof. unfold wipe_body. sql_class. Qed.
#[export] Instance register_artifact_faithful r : Faithful (register_artifact_body r).
Proof. unfold register_artifact_body. sql_class. Qed.

(** ** Successful runs of the shared helpers *)
Lemma decode_summary_Ok es id e s :
  decode_summary es (id, e) = Ok s →
  ∃ k, decode_kind (e_kind e) = Ok k
       ∧ s = mkSummary id (as_u64 (e_revision e)) k (e_resolved_mime e) (as_u64 (e_byte_size e))
               (e_favorite e) (bool_decide (e_recency e = max_recency es)) (e_preview e).
Proof. unfold decode_summary. intros Hd. res_inv. eauto. Qed.

Lemma db_summary_runs id o t s t' :
  runs (db_summary id o) t s t' ↔
  t' = t ∧ ∃ e, t_entries t !! id = Some e ∧ decode_summary (t_entries t) (id, e) = Ok s
                ∧ match o with Some r => r = s_revision s | None => True end.
Proof.
  split.
  - intros Hr. unfold db_summary in Hr. run_inv.
    match goal with H : ok_or _ _ = Ok _ |- _ => apply ok_or_Ok in H as He end.
    destruct (t_entries t !! id) as [e|]; [|done]. cbn in He. injection He as He.
    match goal with
    | H : runs (if ?c then _ else _) _ _ _ |- _ => destruct c eqn:Hc; run_inv
    end.
    split; [done|]. exists e. split_and!; [done|by subst|].
    destruct o as [r|]; [|done]. bools. done.
  - intros (-> & e & He & Hd & Ho). unfold db_summary.
    apply runs_bind; [apply _|]. do 2 eexists. rewrite runs_rows. split; [done|].
    rewrite He. apply runs_bind; [apply _|]. exists (Ok s), t. rewrite runs_result.
    split; [split; [|done]; apply ok_or_Ok; by rewrite <- Hd|]. apply runs_bind; [apply _|]. exists s, t. rewrite runs_result. split; [done|].
    destruct o as [r|]; [|by apply runs_ret]. subst r. rewrite Z.eqb_refl. by apply runs_ret.
Qed.

Lemma bump_runs t r t' :
  runs bump t r t' →
  meta_ok (t_revision t + 1) (t_sequence t) = true
  ∧ t' = set_meta (t_revision t + 1) (t_sequence t) t ∧ r = as_u64 (t_revision t + 1).
Proof.
  unfold bump, db_revision. intros Hr. run_inv. unfold bump_stmt, checked_stmt in *.
  destruct (meta_ok _ _); [|done]. by simplify_eq.
Qed.
Lemma next_sequence_runs t r t' :
  runs next_sequence t r t' →
  meta_ok (t_revision t) (t_sequence t + 1) = true
  ∧ t' = set_meta (t_revision t) (t_sequence t + 1) t ∧ r = t_sequence t + 1.
Proof.
  unfold next_sequence. intros Hr. run_inv. unfold sequence_stmt, checked_stmt in *.
  destruct (meta_ok _ _); [|done]. by simplify_eq.
Qed.
Lemma meta_ok_iff rev seq :
  meta_ok rev seq = true ↔ 0 <= rev < revision_limit ∧ 0 <= seq <= i64_max.
Proof. unfold meta_ok. rewrite !andb_true_iff, !Z.leb_le, Z.ltb_lt. tauto. Qed.

(** What [StorePolicy] rows hold. *)
Record policy_range (p : StorePolicy) : Prop := {
  pr_entries : 0 <= max_entries p <= 100000;
  pr_favorites : 0 <= max_favorites p <= 10000;
  pr_bytes : 1 <= max_entry_bytes p <= MAX_ENTRY_BYTES;
  pr_total : 1 <= max_total_bytes p <= i64_max;
}.
Lemma db_policy_runs t p t' :
  policy_range (t_policy t) → runs db_policy t p t' → p = t_policy t ∧ t' = t.
Proof.
  intros [] Hr. unfold db_policy in Hr. run_inv. split; [|done].
  unfold MAX_ENTRY_BYTES, i64_max in *.
  rewrite !as_u32_small, !as_u64_small by (unfold u64_max; lia). by destruct (t_policy t).
Qed.
Lemma retain_inv p o t t' :
  runs (retain p o) t tt t' →
  ∃ t1 t2 t3, oversized_stmt p (default EmptyString o) t = Some t1
    ∧ category_stmt false (max_entries p) (default EmptyString o) t1 = Some t2
    ∧ category_stmt true (max_favorites p) (default EmptyString o) t2 = Some t3
    ∧ total_stmt p (default EmptyString o) t3 = Some t'
    ∧ (default EmptyString o = EmptyString ∨ is_Some (t_entries t' !! default EmptyString o)).
Proof.
  intros Hr. unfold retain in Hr. run_inv. do 3 eexists. split_and!; [done..| |].
  - case_decide; run_inv; [done|].
    match goal with H : runs (db_summary _ _) _ _ _ |- _ => apply db_summary_runs in H as (-> & _) end.
    done.
  - case_decide; run_inv; [by left|right].
    match goal with H : runs (db_summary _ _) _ _ _ |- _ => apply db_summary_runs in H as (-> & e & He & _) end.
    by rewrite He.
Qed.
