(* ===== verification/Retention.v ===== *)
(** * Retention: what [Database::retain] of [history_store/database.rs] leaves.

    Every eviction is a DELETE of whole entries; afterwards the four limits of
    the policy hold, the protected entry is still there, and what was evicted
    comes after what survived in the order the statement ranks by. *)
From S2P Require Import Prelude Text Externals Model Sql Tables Database.
Local Open Scope Z_scope.

(** ** Limits *)
Definition count (f : bool) (es : gmap string EntryRow) : Z :=
  zlen (filter (λ r, e_favorite r.2 = f) (map_to_list es)).
Definition total_bytes (es : gmap string EntryRow) : Z :=
  zsum ((λ r, e_byte_size r.2) <$> map_to_list es).
Record within_limits (p : StorePolicy) (es : gmap string EntryRow) : Prop := {
  lim_each : ∀ id e, es !! id = Some e → e_byte_size e <= max_entry_bytes p;
  lim_entries : count false es <= max_entries p;
  lim_favorites : count true es <= max_favorites p;
  lim_total : total_bytes es <= max_total_bytes p;
}.
Definition sizes_nonneg (es : gmap string EntryRow) : Prop :=
  ∀ id e, es !! id = Some e → 0 <= e_byte_size e.

(** ** Rows of [es'] are rows of [es], up to fields the limits do not read *)
Definition shape_sub (es' es : gmap string EntryRow) : Prop :=
  ∀ id e', es' !! id = Some e' →
  ∃ e, es !! id = Some e ∧ e_favorite e' = e_favorite e ∧ e_byte_size e' = e_byte_size e.
Definition shape (r : string * EntryRow) : string * (bool * Z) :=
  (r.1, (e_favorite r.2, e_byte_size r.2)).

Lemma zsum_submseteq_le l1 l2 :
  l1 ⊆+ l2 → Forall (λ x, 0 <= x) l2 → zsum l1 <= zsum l2.
Proof.
  intros [k Hk]%submseteq_Permutation Hp. rewrite (zsum_perm _ _ Hk), zsum_app.
  rewrite Hk, Forall_app in Hp. pose proof (zsum_nonneg k (proj2 Hp)). lia.
Qed.
Lemma submseteq_filter {A} (P : A → Prop) `{∀ x, Decision (P x)} l1 l2 :
  l1 ⊆+ l2 → filter P l1 ⊆+ filter P l2.
Proof.
  intros [k ->]%submseteq_Permutation. rewrite filter_app. by apply submseteq_inserts_r.
Qed.

Lemma NoDup_fst_filter {A B} (P : A * B → Prop) `{∀ x, Decision (P x)} (l : list (A * B)) :
  NoDup (fst <$> l) → NoDup (fst <$> filter P l).
Proof.
  induction l as [|x l IH]; [done|]. rewrite fmap_cons, NoDup_cons, filter_cons. intros [Hx Hl].
  destruct (decide _); [|auto]. rewrite fmap_cons, NoDup_cons. split; [|auto].
  contradict Hx. apply list_elem_of_fmap in Hx as (y & -> & [_ Hy]%list_elem_of_filter).
  apply list_elem_of_fmap. eauto.
Qed.

(** Distinct rows of a map, sent into a list that holds their shapes. *)
Lemma shapes_submseteq (es : gmap string EntryRow) (l : list (string * EntryRow)) :
  (∀ id e, es !! id = Some e → ∃ e0, (id, e0) ∈ l ∧ e_favorite e = e_favorite e0
                                     ∧ e_byte_size e = e_byte_size e0) →
  shape <$> map_to_list es ⊆+ shape <$> l.
Proof.
  intros Hsub. apply NoDup_submseteq.
  - apply (NoDup_fmap_1 fst). rewrite <- list_fmap_compose.
    replace (fst ∘ shape) with (@fst string EntryRow) by done. apply NoDup_fst_map_to_list.
  - intros x ([id e] & -> & Hin)%list_elem_of_fmap.
    apply elem_of_map_to_list, Hsub in Hin as (e0 & H0 & Hf & Hs).
    apply list_elem_of_fmap. exists (id, e0). split; [|done]. unfold shape; cbn. by rewrite Hf, Hs.
Qed.
Lemma shapes_count f (l : list (string * EntryRow)) :
  zlen (filter (λ r, e_favorite r.2 = f) l) = zlen (filter (λ s, s.2.1 = f) (shape <$> l)).
Proof.
  induction l as [|r l IH]; [done|]. rewrite fmap_cons, !filter_cons. cbn [shape fst snd].
  destruct (decide _); [|done]. by rewrite !zlen_cons, IH.
Qed.
Lemma shapes_sum (l : list (string * EntryRow)) : (λ r, e_byte_size r.2) <$> l = (λ s, s.2.2) <$> (shape <$> l).
Proof. by rewrite <- list_fmap_compose. Qed.

Lemma zlen_submseteq {A} (l1 l2 : list A) : l1 ⊆+ l2 → zlen l1 <= zlen l2.
Proof. intros Hs%submseteq_length. unfold zlen. lia. Qed.

Section covered.
Context (es : gmap string EntryRow) (l : list (string * EntryRow)).
Hypothesis Hsub : ∀ id e, es !! id = Some e →
  ∃ e0, (id, e0) ∈ l ∧ e_favorite e = e_favorite e0 ∧ e_byte_size e = e_byte_size e0.

Lemma count_covered f : count f es <= zlen (filter (λ r, e_favorite r.2 = f) l).
Proof.
  unfold count. rewrite !shapes_count.
  by apply zlen_submseteq, submseteq_filter, shapes_submseteq.
Qed.
Lemma total_covered :
  Forall (λ r, 0 <= e_byte_size r.2) l →
  total_bytes es <= zsum ((λ r, e_byte_size r.2) <$> l).
Proof.
  intros Hp. unfold total_bytes. apply zsum_submseteq_le.
  - rewrite !shapes_sum. by apply fmap_submseteq, shapes_submseteq.
  - by apply Forall_fmap.
Qed.
End covered.

Lemma sizes_nonneg_list es :
  sizes_nonneg es → Forall (λ r, 0 <= e_byte_size r.2) (map_to_list es).
Proof. intros Hp. apply Forall_forall. intros [id e] Hin%elem_of_map_to_list. cbn. eauto. Qed.

Lemma shape_sub_covered es' es :
  shape_sub es' es → ∀ id e, es' !! id = Some e →
  ∃ e0, (id, e0) ∈ map_to_list es ∧ e_favorite e = e_favorite e0 ∧ e_byte_size e = e_byte_size e0.
Proof. intros Hs id e He. apply Hs in He as (e0 & H0 & ?). exists e0. by rewrite elem_of_map_to_list. Qed.

Lemma count_shape_sub es' es f : shape_sub es' es → count f es' <= count f es.
Proof. intros Hs. by apply count_covered, shape_sub_covered. Qed.
Lemma total_shape_sub es' es :
  shape_sub es' es → sizes_nonneg es → total_bytes es' <= total_bytes es.
Proof.
  intros Hs Hp. by apply total_covered; [apply shape_sub_covered|apply sizes_nonneg_list].
Qed.
Lemma within_limits_sub p es' es :
  shape_sub es' es → sizes_nonneg es → within_limits p es → within_limits p es'.
Proof.
  intros Hs Hp [H1 H2 H3 H4]. split.
  - intros id e He. apply Hs in He as (e0 & He0 & _ & ->). eauto.
  - pose proof (count_shape_sub _ _ false Hs). lia.
  - pose proof (count_shape_sub _ _ true Hs). lia.
  - pose proof (total_shape_sub _ _ Hs Hp). lia.
Qed.
Lemma shape_sub_trans es1 es2 es3 : shape_sub es1 es2 → shape_sub es2 es3 → shape_sub es1 es3.
Proof.
  intros H1 H2 id e He. apply H1 in He as (e2 & He2 & -> & ->).
  apply H2 in He2 as (e3 & He3 & -> & ->). eauto.
Qed.
Lemma shape_sub_refl es : shape_sub es es.
Proof. intros id e He. eauto. Qed.

(** ** Eviction: a sequence of DELETEs of entries *)
Definition evicts : Tables → Tables → Prop := rtc (λ t t', ∃ p, t' = delete_entries p t).

#[export] Instance evicts_trans : Transitive evicts.
Proof. unfold evicts. apply _. Qed.
Lemma evicts_step p t : evicts t (delete_entries p t).
Proof. apply rtc_once. by exists p. Qed.
Lemma delete_entries_shape p t : shape_sub (t_entries (delete_entries p t)) (t_entries t).
Proof.
  intros id e' He'. apply delete_entries_row in He' as (e & He & _ & Hr & _).
  exists e. split; [done|]. by rewrite Hr.
Qed.
Lemma shape_sub_nonneg es' es : shape_sub es' es → sizes_nonneg es → sizes_nonneg es'.
Proof. intros Hs Hp id e He. apply Hs in He as (e0 & He0 & _ & ->). eauto. Qed.

(** ** The category statements *)
Section category.
Context (f : bool) (limit : Z) (protected : string) (t t' : Tables).
Hypothesis Hrun : category_stmt f limit protected t = Some t'.
Hypothesis Hlimit : 0 <= limit.
Let L := order_by (by_protected protected)
           (filter (λ r, e_favorite r.2 = f) (map_to_list (t_entries t))).

Lemma category_evicts :
  t' = delete_entries (λ id _, memb id (fst <$> zdrop limit L)) t.
Proof using Hrun. injection Hrun as <-. done. Qed.

Lemma category_survivor id e' :
  t_entries t' !! id = Some e' → e_favorite e' = f →
  ∃ e, (id, e) ∈ ztake limit L ∧ t_entries t !! id = Some e ∧ e_favorite e' = e_favorite e
       ∧ e_byte_size e' = e_byte_size e.
Proof using Hrun.
  rewrite category_evicts. intros He' Hf.
  apply delete_entries_row in He' as (e & He & Hkeep & Hr & _).
  unfold memb in Hkeep. apply bool_decide_eq_false in Hkeep.
  exists e. split_and!; [|done|by rewrite Hr|by rewrite Hr].
  assert (Hin : (id, e) ∈ L).
  { unfold L. rewrite elem_of_order_by, list_elem_of_filter, elem_of_map_to_list. cbn.
    split; [|done]. rewrite Hr in Hf. done. }
  rewrite <- (ztake_zdrop limit L) in Hin. apply elem_of_app in Hin as [Hin|Hin]; [done|].
  destruct Hkeep. apply list_elem_of_fmap. by exists (id, e).
Qed.
Lemma category_count : count f (t_entries t') <= limit.
Proof using Hrun Hlimit.
  unfold count.
  assert (Hs : fst <$> filter (λ r, e_favorite r.2 = f) (map_to_list (t_entries t'))
               ⊆+ fst <$> ztake limit L).
  { apply NoDup_submseteq.
    - apply NoDup_fst_filter, NoDup_fst_map_to_list.
    - intros x ([id e'] & -> & [Hf Hin]%list_elem_of_filter)%list_elem_of_fmap.
      apply elem_of_map_to_list in Hin.
      destruct (category_survivor id e' Hin Hf) as (e & He & _).
      apply list_elem_of_fmap. by exists (id, e). }
  apply zlen_submseteq in Hs. unfold zlen in *. rewrite !length_fmap in Hs.
  pose proof (zlen_ztake limit L Hlimit). unfold zlen in *. lia.
Qed.
End category.

(** ** The total statement *)
(** The rows whose running sum stays below the limit are a prefix. *)
Lemma running_sums_split limit l acc :
  acc <= limit → Forall (λ x, 0 <= e_byte_size x.2) l →
  ∃ kept gone, l = kept ++ gone
    ∧ acc + zsum ((λ r, e_byte_size r.2) <$> kept) <= limit
    ∧ (∀ id, id ∈ fst <$> gone → id ∈ fst <$> filter (λ r, limit < r.2) (running_sums acc l))
    ∧ (∀ id, id ∈ fst <$> filter (λ r, limit < r.2) (running_sums acc l) → id ∈ fst <$> gone).
Proof.
  revert acc; induction l as [|[i e] l IH]; intros acc Hacc Hp.
  { exists [], []. cbn. split_and!; [done|lia|done|done]. }
  inversion_clear Hp as [|? ? He Hl]. cbn in He. cbn [running_sums].
  rewrite filter_cons. cbn [snd].
  destruct (decide (limit < acc + e_byte_size e)) as [Hbig|Hsmall].
  - exists [], ((i, e) :: l). split; [done|]. split; [cbn; lia|]. rewrite !fmap_cons. cbn [fst].
    enough (Hall : fst <$> filter (λ r, limit < r.2) (running_sums (acc + e_byte_size e) l) = fst <$> l).
    { rewrite Hall. auto. }
    clear IH. revert Hbig. generalize (acc + e_byte_size e) as a. clear -Hl.
    induction l as [|[j x] l IH]; intros a Ha; [done|]. inversion_clear Hl. cbn in *.
    rewrite decide_True by lia. rewrite fmap_cons. f_equal. apply IH; [done|lia].
  - destruct (IH (acc + e_byte_size e)) as (k & g & -> & Hsum & H1 & H2); [lia|done|].
    exists ((i, e) :: k), g. split_and!; [done| |exact H1|exact H2].
    rewrite fmap_cons. cbn [zsum snd]. lia.
Qed.

Section total.
Context (p : StorePolicy) (protected : string) (t t' : Tables).
Hypothesis Hrun : total_stmt p protected t = Some t'.
Hypothesis Hrange : 0 <= max_total_bytes p <= i64_max.
Hypothesis Hsizes : sizes_nonneg (t_entries t).
Let L := order_by (by_protected_favorite protected) (map_to_list (t_entries t)).

Lemma total_evicts : t' = delete_entries (λ id _, memb id (beyond_total (as_i64 (max_total_bytes p)) protected t)) t.
Proof using Hrun. injection Hrun as <-. done. Qed.

Lemma total_kept : total_bytes (t_entries t') <= max_total_bytes p.
Proof using Hrun Hrange Hsizes.
  assert (HL : Forall (λ x, 0 <= e_byte_size x.2) L).
  { unfold L. rewrite order_by_perm. by apply sizes_nonneg_list. }
  destruct (running_sums_split (max_total_bytes p) L 0) as (k & g & HLkg & Hsum & Hgone & _);
    [lia|done|].
  etrans; [apply (total_covered _ k)|lia].
  - rewrite total_evicts. intros id e' He'.
    apply delete_entries_row in He' as (e & He & Hkeep & Hr & _).
    exists e. split; [|by rewrite Hr]. unfold memb in Hkeep. apply bool_decide_eq_false in Hkeep.
    assert (Hin : (id, e) ∈ L) by (unfold L; by rewrite elem_of_order_by, elem_of_map_to_list).
    rewrite HLkg in Hin. apply elem_of_app in Hin as [Hin|Hin]; [done|].
    destruct Hkeep. unfold beyond_total. fold L. rewrite as_i64_small by lia.
    apply Hgone, list_elem_of_fmap. by exists (id, e).
  - rewrite HLkg in HL. by apply Forall_app in HL as [HL _].
Qed.
End total.

(** ** retain *)
Lemma retain_runs p o t t' :
  runs (retain p o) t tt t' → policy_range p → sizes_nonneg (t_entries t) →
  t_entries t !! EmptyString = None →
  (∀ id e, o = Some id → t_entries t !! id = Some e → e_byte_size e <= max_entry_bytes p) →
  evicts t t' ∧ within_limits p (t_entries t')
  ∧ (∀ id, o = Some id → id ≠ EmptyString → is_Some (t_entries t' !! id)).
Proof.
  intros Hrun [Hr1 Hr2 Hr3 Hr4] Hp Hempty Hprot.
  apply retain_inv in Hrun as (t1 & t2 & t3 & H1 & H2 & H3 & H4 & Hpres).
  set (prot := default EmptyString o) in *.
  assert (S1 : shape_sub (t_entries t1) (t_entries t)) by (injection H1 as <-; apply delete_entries_shape).
  assert (S2 : shape_sub (t_entries t2) (t_entries t1)) by (injection H2 as <-; apply delete_entries_shape).
  assert (S3 : shape_sub (t_entries t3) (t_entries t2)) by (injection H3 as <-; apply delete_entries_shape).
  assert (S4 : shape_sub (t_entries t') (t_entries t3)) by (injection H4 as <-; apply delete_entries_shape).
  pose proof (shape_sub_nonneg _ _ S1 Hp) as P1. pose proof (shape_sub_nonneg _ _ S2 P1) as P2.
  pose proof (shape_sub_nonneg _ _ S3 P2) as P3.
  split_and!.
  - trans t1; [injection H1 as <-; apply evicts_step|].
    trans t2; [injection H2 as <-; apply evicts_step|].
    trans t3; [injection H3 as <-; apply evicts_step|].
    injection H4 as <-; apply evicts_step.
  - split.
    + intros id e' He'.
      pose proof (shape_sub_trans _ _ _ S4 (shape_sub_trans _ _ _ S3 S2)) as S.
      apply S in He' as (e & He & _ & ->). injection H1 as <-.
      apply delete_entries_row in He as (e0 & He0 & Hkeep & -> & _). cbn.
      rewrite as_i64_small in Hkeep by (unfold MAX_ENTRY_BYTES, i64_max in *; lia).
      apply andb_false_iff in Hkeep as [Hk|Hk]; [by bools|].
      apply negb_false_iff, bool_decide_eq_true in Hk. subst id.
      destruct o as [i|]; [by apply (Hprot i)|]. cbn in prot. subst prot. congruence.
    + pose proof (category_count _ _ _ _ _ H2 (proj1 Hr1)).
      pose proof (count_shape_sub _ _ false (shape_sub_trans _ _ _ S4 S3)). lia.
    + pose proof (category_count _ _ _ _ _ H3 (proj1 Hr2)).
      pose proof (count_shape_sub _ _ true S4). lia.
    + apply (total_kept _ _ _ _ H4); [lia|done].
  - intros id -> Hne. subst prot. cbn in Hpres. by destruct Hpres.
Qed.

(** ** What retention evicts, exactly *)
(** Nothing matches: nothing happens. *)
Lemma delete_entries_none (p : string → EntryRow → bool) t :
  (∀ id e, t_entries t !! id = Some e → p id e = false) → delete_entries p t = t.
Proof.
  intros Hp. unfold delete_entries.
  assert (Hgone : ∀ id, match t_entries t !! id with Some e => p id e | None => false end = false).
  { intros id. destruct (t_entries t !! id) eqn:He; [by apply Hp|done]. }
  destruct t as [rev seq pol es ps ss ar ea ie]. unfold set_content, set_entries. cbn in *. f_equal.
  - rewrite map_filter_id by (intros ? ? ?; by apply Hp). rewrite <- (map_fmap_id es) at 2. apply map_fmap_ext.
    intros i e He. destruct (e_echo_source_id e); [by rewrite Hgone|done].
  - apply map_filter_id. intros. apply Hgone.
  - apply map_filter_id. intros. apply Hgone.
  - apply set_eq. intros x. rewrite elem_of_filter. split; [tauto|]. intros Hx. split; [apply Hgone|done].
Qed.
Lemma category_fits f limit prot t :
  0 <= limit → count f (t_entries t) <= limit → category_stmt f limit prot t = Some t.
Proof.
  intros Hl Hc. unfold category_stmt, delete_entries_stmt. f_equal. apply delete_entries_none. intros id e _.
  unfold memb, beyond_category. apply bool_decide_eq_false. rewrite zdrop_all; [apply not_elem_of_nil|].
  rewrite zlen_order_by. exact Hc.
Qed.
Lemma oversized_fits p prot t :
  max_entry_bytes p <= i64_max → 0 <= max_entry_bytes p →
  (∀ id e, t_entries t !! id = Some e → e_byte_size e <= max_entry_bytes p) → oversized_stmt p prot t = Some t.
Proof.
  intros Hm Hm' He. unfold oversized_stmt, delete_entries_stmt. f_equal. apply delete_entries_none. intros id e Hid.
  rewrite as_i64_small by lia. specialize (He id e Hid). destruct (Z.ltb_spec (max_entry_bytes p) (e_byte_size e)); [lia|done].
Qed.

(** The bytes of the entries that rank at or before a row: the running sum of
    the statement, without its list. *)
Definition rank_bytes (prot : string) (es : gmap string EntryRow) (r : string * EntryRow) : Z :=
  zsum ((λ x, e_byte_size x.2) <$> filter (λ x, order_le (by_protected_favorite prot) x r) (map_to_list es)).
Definition over_budget (limit : Z) (prot : string) (es : gmap string EntryRow) (id : string) : bool :=
  match es !! id with Some e => limit <? rank_bytes prot es (id, e) | None => false end.

Lemma running_sums_app acc l1 l2 :
  running_sums acc (l1 ++ l2) = running_sums acc l1 ++ running_sums (acc + zsum ((λ r, e_byte_size r.2) <$> l1)) l2.
Proof.
  revert acc. induction l1 as [|[i e] l1 IH]; intros acc; cbn; [by rewrite Z.add_0_r|]. rewrite IH. by rewrite Z.add_assoc.
Qed.
Lemma running_sums_fst acc l : fst <$> running_sums acc l = fst <$> l.
Proof. revert acc. induction l as [|[i e] l IH]; intros acc; cbn; [done|]. by rewrite IH. Qed.
Lemma order_le_antisym {V} (keys : string * V → list Z) x y : order_le keys x y → order_le keys y x → x.1 = y.1.
Proof.
  unfold order_le. rewrite (cmp_desc_opp (keys x) (keys y)). destruct (cmp_desc (keys x) (keys y)); cbn; try done.
  intros. by apply (anti_symm String.le).
Qed.
Lemma filter_every {A} (P : A → Prop) `{∀ x, Decision (P x)} (l : list A) : (∀ x, x ∈ l → P x) → filter P l = l.
Proof. induction l as [|x l IH]; intros Hp; [done|]. rewrite filter_cons_True by (apply Hp; by left). f_equal. apply IH. intros y Hy. apply Hp. by right. Qed.
Lemma filter_nothing {A} (P : A → Prop) `{∀ x, Decision (P x)} (l : list A) : (∀ x, x ∈ l → ¬ P x) → filter P l = [].
Proof. induction l as [|x l IH]; intros Hp; [done|]. rewrite filter_cons_False by (apply Hp; by left). apply IH. intros y Hy. apply Hp. by right. Qed.
(** In a sorted list the rows at or before a row are its prefix. *)
Lemma sorted_prefix {V} (keys : string * V → list Z) l1 r l2 :
  StronglySorted (order_le keys) (l1 ++ r :: l2) → NoDup (fst <$> l1 ++ r :: l2) →
  filter (λ x, order_le keys x r) (l1 ++ r :: l2) = l1 ++ [r].
Proof.
  intros Hs Hn. rewrite filter_app, filter_cons.
  assert (Hr : order_le keys r r) by (destruct (total (order_le keys) r r); done).
  rewrite decide_True by done. f_equal.
  - apply filter_every. intros x Hx.
    apply (StronglySorted_app_1_elem_of _ _ _ _ _ Hs); [done|by left].
  - f_equal. apply filter_nothing. intros x Hx Hle.
    assert (Hrx : order_le keys r x).
    { apply StronglySorted_app_1_r in Hs. apply StronglySorted_inv in Hs as [_ Hs]. rewrite Forall_forall in Hs. by apply Hs. }
    pose proof (order_le_antisym keys _ _ Hle Hrx) as Hid. rewrite fmap_app, fmap_cons, NoDup_app, NoDup_cons in Hn.
    destruct Hn as (_ & _ & Hn & _). apply Hn. rewrite <- Hid. by apply list_elem_of_fmap_2.
Qed.
Lemma beyond_total_over limit prot t id e :
  t_entries t !! id = Some e →
  memb id (beyond_total limit prot t) = over_budget limit prot (t_entries t) id.
Proof.
  intros He. unfold over_budget, beyond_total. rewrite He. set (keys := by_protected_favorite prot).
  set (l := order_by keys (map_to_list (t_entries t))).
  assert (Hin : (id, e) ∈ l) by (unfold l; by rewrite elem_of_order_by, elem_of_map_to_list).
  assert (Hn : NoDup (fst <$> l)) by (unfold l; rewrite order_by_perm; apply NoDup_fst_map_to_list).
  pose proof (order_by_sorted keys (map_to_list (t_entries t))) as Hs. fold l in Hs.
  assert (Hrank : rank_bytes prot (t_entries t) (id, e)
                  = zsum ((λ x, e_byte_size x.2) <$> filter (λ x, order_le keys x (id, e)) l)).
  { unfold rank_bytes. apply zsum_perm. unfold l. by rewrite order_by_perm. }
  rewrite Hrank. clearbody l. apply list_elem_of_split in Hin as (l1 & l2 & ->).
  rewrite sorted_prefix by done. rewrite running_sums_app. cbn [running_sums].
  rewrite fmap_app, zsum_app. cbn [fmap list_fmap zsum snd]. rewrite Z.add_0_r, Z.add_0_l.
  set (total := zsum _ + e_byte_size e). rewrite fmap_app, fmap_cons, NoDup_app, NoDup_cons in Hn.
  destruct Hn as (_ & Hn1 & Hn2 & _). cbn in Hn1, Hn2.
  assert (Hother : ∀ a k, id ∉ fst <$> k → id ∉ fst <$> filter (λ r, limit < r.2) (running_sums a k)).
  { intros a k Hk (x & -> & [_ Hx]%list_elem_of_filter)%list_elem_of_fmap. apply Hk. rewrite <- (running_sums_fst a).
    by apply list_elem_of_fmap_2. }
  unfold memb. rewrite filter_app, filter_cons, fmap_app. cbn [snd].
  destruct (Z.ltb_spec limit total) as [Hlt|Hge].
  - rewrite decide_True by done. apply bool_decide_eq_true. rewrite elem_of_app. right. by left.
  - rewrite decide_False by lia. apply bool_decide_eq_false. rewrite elem_of_app. intros [Hx|Hx].
    + revert Hx. apply Hother. intros Hx. apply (Hn1 id Hx). by left.
    + revert Hx. by apply Hother.
Qed.
Lemma delete_entries_ext (p q : string → EntryRow → bool) t :
  (∀ id e, t_entries t !! id = Some e → p id e = q id e) → delete_entries p t = delete_entries q t.
Proof.
  intros Hpq. unfold delete_entries.
  assert (Hgone : ∀ id, match t_entries t !! id with Some e => p id e | None => false end
                        = match t_entries t !! id with Some e => q id e | None => false end).
  { intros id. destruct (t_entries t !! id) eqn:He; [by apply Hpq|done]. }
  f_equal.
  - apply map_filter_ext. intros i x _. by rewrite Hgone.
  - apply map_filter_ext. intros i x _. by rewrite Hgone.
  - apply set_eq. intros x. rewrite !elem_of_filter. by rewrite Hgone.
  - f_equal. assert (Hf : filter (λ kv, p kv.1 kv.2 = false) (t_entries t) = filter (λ kv, q kv.1 kv.2 = false) (t_entries t)).
    { apply map_filter_ext. intros i x Hx. cbn. by rewrite (Hpq i x Hx). }
    rewrite Hf. apply map_fmap_ext. intros i x _. destruct (e_echo_source_id x); [by rewrite Hgone|done].
Qed.
Lemma count_favorites f es' es :
  (∀ id e', es' !! id = Some e' → ∃ e, es !! id = Some e ∧ e_favorite e' = e_favorite e) → count f es' <= count f es.
Proof.
  intros Hsub. unfold count.
  assert (Hs : fst <$> filter (λ r, e_favorite r.2 = f) (map_to_list es')
               ⊆+ fst <$> filter (λ r, e_favorite r.2 = f) (map_to_list es)).
  { apply NoDup_submseteq; [apply NoDup_fst_filter, NoDup_fst_map_to_list|].
    intros x ([id e'] & -> & [Hf Hin]%list_elem_of_filter)%list_elem_of_fmap. apply elem_of_map_to_list in Hin.
    destruct (Hsub id e' Hin) as (e & He & Hfe). apply list_elem_of_fmap. exists (id, e). split; [done|].
    apply list_elem_of_filter. rewrite elem_of_map_to_list. cbn in *. split; [congruence|done]. }
  apply zlen_submseteq in Hs. unfold zlen in *. by rewrite !length_fmap in Hs.
Qed.
(** When the entries respect the limits on size and number, only the limit on
    the total evicts, and exactly the rows that rank beyond it. *)
Lemma retain_over p o t t' :
  runs (retain p o) t tt t' → policy_range p →
  (∀ id e, t_entries t !! id = Some e → e_byte_size e <= max_entry_bytes p) →
  count false (t_entries t) <= max_entries p → count true (t_entries t) <= max_favorites p →
  t' = delete_entries (λ id _, over_budget (max_total_bytes p) (default EmptyString o) (t_entries t) id) t.
Proof.
  intros Hrun [Hr1 Hr2 Hr3 Hr4] He Hc Hf. apply retain_inv in Hrun as (t1 & t2 & t3 & H1 & H2 & H3 & H4 & _).
  rewrite oversized_fits in H1 by (done || unfold MAX_ENTRY_BYTES, i64_max in *; lia). injection H1 as <-.
  rewrite category_fits in H2 by (done || lia). injection H2 as <-.
  rewrite category_fits in H3 by (done || lia). injection H3 as <-. injection H4 as <-.
  apply delete_entries_ext. intros id e Hid. rewrite as_i64_small by lia. by eapply beyond_total_over.
Qed.
Lemma over_budget_none limit prot es id :
  sizes_nonneg es → total_bytes es <= limit → over_budget limit prot es id = false.
Proof.
  intros Hp Ht. unfold over_budget. destruct (es !! id) as [e|]; [|done]. apply Z.ltb_ge. etrans; [|exact Ht].
  unfold rank_bytes, total_bytes. apply zsum_sublist_le; [apply fmap_sublist, sublist_filter|].
  apply Forall_fmap, sizes_nonneg_list, Hp.
Qed.
