(* ===== verification/Invariant.v ===== *)
(** * Invariant: the well-formedness of the history tables and its preservation
    by every operation of [history_store/database.rs]. *)
From Stdlib Require Import Ascii.
From S2P Require Import Prelude Text Externals Model Classification Content Sql Tables Database Retention.
Local Open Scope Z_scope.

Section invariant.
Context `{Externals}.

(** ** The invariant *)

(** The payload, digest, size, preview and search rows of one entry agree. *)
Definition stored (t : Tables) (id : string) (e : EntryRow) : Prop :=
  ∃ b, t_payloads t !! id = Some b ∧ e_byte_size e = zlen b ∧ e_digest e = sha256 b
       ∧ e_preview e = bounded_preview b INSPECTION_LIMIT
       ∧ t_search t !! id = Some (search_row (e_mime e) b).
Definition row_ok (t : Tables) (id : string) (e : EntryRow) : Prop :=
  (∃ u, id = ("entry-" ++ u)%string) ∧ entry_ok e = true
  ∧ 0 < e_revision e <= t_revision t ∧ 0 < e_recency e <= t_sequence t
  ∧ stored t id e
  ∧ ∀ s, e_echo_source_id e = Some s → s ≠ id ∧ is_Some (t_entries t !! s).

Record tables_wf (t : Tables) : Prop := {
  wf_meta : 0 <= t_revision t < revision_limit ∧ 0 <= t_sequence t <= i64_max;
  wf_policy : policy_range (t_policy t);
  wf_rows : ∀ id e, t_entries t !! id = Some e → row_ok t id e;
  wf_payloads : ∀ id, is_Some (t_payloads t !! id) → is_Some (t_entries t !! id);
  wf_search : ∀ id, is_Some (t_search t !! id) → is_Some (t_entries t !! id);
  wf_paths : ∀ id p, (id, p) ∈ t_entry_artifacts t → is_Some (t_entries t !! id);
  wf_recency : ∀ i j e e', t_entries t !! i = Some e → t_entries t !! j = Some e' →
                           e_recency e = e_recency e' → i = j;
}.
(** A store between two transactions also respects its own policy. *)
Definition tables_ok (t : Tables) : Prop :=
  tables_wf t ∧ within_limits (t_policy t) (t_entries t).

Lemma wf_sizes t : tables_wf t → sizes_nonneg (t_entries t).
Proof.
  intros Hwf id e He. apply (wf_rows t Hwf) in He as (_ & _ & _ & _ & (b & _ & -> & _) & _).
  auto with clip.
Qed.
Lemma wf_no_empty t : tables_wf t → t_entries t !! EmptyString = None.
Proof.
  intros Hwf. destruct (t_entries t !! EmptyString) eqn:E; [|done].
  apply (wf_rows t Hwf) in E as [[u Hu] _]. done.
Qed.

Lemma initial_ok : tables_ok initial_tables.
Proof.
  split; split; cbn; try (intros; set_solver); try done.
  all: try (unfold revision_limit, i64_max, MAX_ENTRY_BYTES; split; cbn; lia).
  all: try (intros ? [? ?]; done).
Qed.

(** ** DELETE *)
Lemma wf_delete p t : tables_wf t → tables_wf (delete_entries p t).
Proof.
  intros Hwf. split; try apply Hwf.
  - intros id e' He'. pose proof He' as Hl. apply delete_entries_lookup in Hl as (e0 & He0 & Hp0 & Hl).
    apply delete_entries_row in He' as (e & He & Hp & Hr & _).
    rewrite He in He0; injection He0 as <-.
    pose proof (wf_rows t Hwf id e He) as (Hu & Hok & Hrev & Hrec & (b & Hb & Hst) & Hecho).
    rewrite Hr in *. split_and!; try done; try apply Hrev; try apply Hrec.
    + exists b. destruct Hst as (? & ? & ? & ?). split_and!; try done.
      * apply delete_entries_payload. by rewrite He.
      * apply delete_entries_search. by rewrite He.
    + intros s Hs. rewrite Hl in Hs. destruct (e_echo_source_id e) as [s'|] eqn:Es; [|by rewrite Es in Hs].
      destruct (Hecho s' eq_refl) as [Hne [es Hes]]. rewrite Hes in Hs.
      destruct (p s' es) eqn:Ep; [done|]. rewrite Es in Hs. injection Hs as <-. split; [done|].
      destruct (delete_entries_keep p t s' es Hes Ep) as (e1 & -> & _). done.
  - intros id [b [Hb Hk]%delete_entries_payload].
    destruct (wf_payloads t Hwf id (mk_is_Some _ _ Hb)) as [e He]. rewrite He in Hk.
    destruct (delete_entries_keep p t id e He Hk) as (e1 & -> & _). done.
  - intros id [b [Hb Hk]%delete_entries_search].
    destruct (wf_search t Hwf id (mk_is_Some _ _ Hb)) as [e He]. rewrite He in Hk.
    destruct (delete_entries_keep p t id e He Hk) as (e1 & -> & _). done.
  - intros id q [Hk Hq]%elem_of_filter. cbn in Hk.
    destruct (wf_paths t Hwf id q Hq) as [e He]. rewrite He in Hk.
    destruct (delete_entries_keep p t id e He Hk) as (e1 & -> & _). done.
  - intros i j e1 e2 H1 H2 Heq. apply delete_entries_row in H1 as (? & H1 & _ & Hr1 & _).
    apply delete_entries_row in H2 as (? & H2 & _ & Hr2 & _).
    rewrite Hr1, Hr2 in Heq. by apply (wf_recency t Hwf _ _ _ _ H1 H2).
Qed.
Lemma wf_evicts t t' : evicts t t' → tables_wf t → tables_wf t'.
Proof. induction 1 as [|t1 t2 t3 [p ->] _ IH]; [done|]. auto using wf_delete. Qed.
Lemma evicts_frame t t' :
  evicts t t' → t_policy t' = t_policy t ∧ t_revision t' = t_revision t
                ∧ t_sequence t' = t_sequence t.
Proof. induction 1 as [|t1 t2 t3 [p ->] _ IH]; [done|]. cbn in *. done. Qed.

(** ** The counters and the policy *)
Lemma row_ok_meta t rev seq id e :
  t_revision t <= rev → t_sequence t <= seq → row_ok t id e → row_ok (set_meta rev seq t) id e.
Proof. intros Hr Hs (? & ? & ? & ? & ? & ?). unfold row_ok; cbn. split_and!; try done; lia. Qed.
Lemma wf_set_meta t rev seq :
  meta_ok rev seq = true → t_revision t <= rev → t_sequence t <= seq →
  tables_wf t → tables_wf (set_meta rev seq t).
Proof.
  intros Hm%meta_ok_iff Hr Hs [Hmeta Hp Hrows H4 H5 H6 H7]. split; try done.
  intros id e He. apply row_ok_meta; auto.
Qed.
Lemma wf_bump t r t' : runs bump t r t' → tables_wf t → tables_wf t'.
Proof. intros (Hm & -> & _)%bump_runs. apply wf_set_meta; [done|lia|lia]. Qed.
Lemma wf_next_sequence t r t' : runs next_sequence t r t' → tables_wf t → tables_wf t'.
Proof. intros (Hm & -> & _)%next_sequence_runs. apply wf_set_meta; [done|lia|lia]. Qed.
Lemma wf_set_policy t p : policy_range p → tables_wf t → tables_wf (set_policy p t).
Proof. intros Hp [? ? Hrows ? ? ? ?]. split; done. Qed.

(** ** One entry written anew, every other entry left alone *)
Record frames (id : string) (t t' : Tables) : Prop := {
  fr_revision : t_revision t <= t_revision t';
  fr_sequence : t_sequence t <= t_sequence t';
  fr_policy : t_policy t' = t_policy t;
  fr_rows : ∀ i e', i ≠ id → t_entries t' !! i = Some e' →
    ∃ e, t_entries t !! i = Some e ∧ same_row e e'
         ∧ (e_echo_source_id e' = e_echo_source_id e ∨ e_echo_source_id e' = None);
  fr_keep : ∀ i, is_Some (t_entries t !! i) → is_Some (t_entries t' !! i);
  fr_payloads : ∀ i, i ≠ id → t_payloads t' !! i = t_payloads t !! i;
  fr_search : ∀ i, i ≠ id → t_search t' !! i = t_search t !! i;
  fr_paths : ∀ i q, i ≠ id → (i, q) ∈ t_entry_artifacts t' → (i, q) ∈ t_entry_artifacts t;
}.
Lemma wf_frames id e' t t' :
  frames id t t' → tables_wf t →
  0 <= t_revision t' < revision_limit ∧ 0 <= t_sequence t' <= i64_max →
  t_entries t' !! id = Some e' → row_ok t' id e' →
  (t_sequence t < e_recency e' ∨ ∃ e, t_entries t !! id = Some e ∧ e_recency e' = e_recency e) →
  tables_wf t'.
Proof.
  intros F Hwf Hmeta Hid Hrow Hrec. split; [done| | | | | |].
  - rewrite (fr_policy _ _ _ F). apply Hwf.
  - intros i ei Hi. destruct (decide (i = id)) as [->|Hne]; [congruence|].
    destruct (fr_rows _ _ _ F i ei Hne Hi) as (e & He & Hr & Hecho).
    destruct (wf_rows t Hwf i e He) as (Hu & Hok & ? & ? & (b & Hb & ? & ? & ? & Hs) & He2).
    pose proof (fr_revision _ _ _ F). pose proof (fr_sequence _ _ _ F).
    split_and!; [done|by rewrite Hr|rewrite Hr; cbn; lia..|rewrite Hr; cbn; lia| |].
    + exists b. rewrite (fr_payloads _ _ _ F), (fr_search _ _ _ F), Hr by done. done.
    + intros s Hs2. destruct Hecho as [Heq|Heq]; [|congruence].
      destruct (He2 s) as [? Hsome]; [congruence|]. split; [done|]. by apply (fr_keep _ _ _ F).
  - intros i Hi. destruct (decide (i = id)) as [->|Hne]; [by rewrite Hid|].
    rewrite (fr_payloads _ _ _ F) in Hi by done. apply (fr_keep _ _ _ F), (wf_payloads t Hwf), Hi.
  - intros i Hi. destruct (decide (i = id)) as [->|Hne]; [by rewrite Hid|].
    rewrite (fr_search _ _ _ F) in Hi by done. apply (fr_keep _ _ _ F), (wf_search t Hwf), Hi.
  - intros i q Hi. destruct (decide (i = id)) as [->|Hne]; [by rewrite Hid|].
    apply (fr_paths _ _ _ F) in Hi; [|done]. apply (fr_keep _ _ _ F), (wf_paths t Hwf i q), Hi.
  - assert (Hx : ∀ j ej, j ≠ id → t_entries t' !! j = Some ej → e_recency ej ≠ e_recency e').
    { intros j ej Hj Hej. destruct (fr_rows _ _ _ F j ej Hj Hej) as (e & He & Hr & _).
      rewrite Hr; cbn. destruct (wf_rows t Hwf j e He) as (_ & _ & _ & ? & _).
      destruct Hrec as [Hlt|(e0 & He0 & Heq)]; [lia|]. rewrite Heq. intros Heq2.
      by apply Hj, (wf_recency t Hwf j id e e0). }
    intros i j ei ej Hi Hj Heq. destruct (decide (i = id)) as [->|Hni], (decide (j = id)) as [->|Hnj];
      [done| | |].
    + rewrite Hid in Hi; injection Hi as <-. by destruct (Hx j ej Hnj Hj).
    + rewrite Hid in Hj; injection Hj as <-. by destruct (Hx i ei Hni Hi).
    + destruct (fr_rows _ _ _ F i ei Hni Hi) as (e1 & He1 & Hr1 & _).
      destruct (fr_rows _ _ _ F j ej Hnj Hj) as (e2 & He2 & Hr2 & _).
      rewrite Hr1, Hr2 in Heq. by apply (wf_recency t Hwf i j e1 e2).
Qed.
End invariant.
