(* ===== verification/Preservation.v ===== *)
(** * Preservation: every operation of [history_store/database.rs] keeps the
    invariant of [Invariant.v], whatever faults the engine injects. *)
From Stdlib Require Import Ascii.
From S2P Require Import Prelude Text Externals Model Classification Content Sql Tables Database Retention Invariant.
Local Open Scope Z_scope.

Section preservation.
Context `{Externals}.

(** ** Content rows *)
Definition linked (id : string) (es es' : gmap string EntryRow) : Prop :=
  es' = es ∨ ∃ e s, es !! id = Some e ∧ is_Some (es !! s) ∧ s ≠ id
                    ∧ entry_ok (set_echo (Some s) e) = true ∧ es' = <[id := set_echo (Some s) e]> es.

Lemma link_echo_runs fs id c t t' :
  runs (link_echo fs id c) t tt t' →
  linked id (t_entries t) (t_entries t') ∧ t' = set_entries (t_entries t') t.
Proof.
  assert (Hself : ∀ t0 : Tables, t0 = set_entries (t_entries t0) t0) by (by intros []).
  unfold link_echo, artifact_get. intros Hr.
  destruct (local_image c) as [source|]; run_inv; [|by split; [left|]].
  destruct (negb _); run_inv; [by split; [left|]|].
  destruct (_ <$> _) as [r|]; run_inv; [|by split; [left|]].
  destruct (bool_decide _) eqn:Hid; run_inv; [by split; [left|]|]. bools.
  destruct (entry_exists _ _ && _) eqn:Hp; run_inv; [|by split; [left|]]. bools.
  unfold entry_exists in *. bools. unfold set_echo_stmt, update_entry_stmt, checked_stmt in Hr.
  destruct (t_entries _ !! ar_source_entry_id r) as [es|] eqn:Hes; [|done].
  destruct (t_entries _ !! id) as [e|] eqn:He; [|simplify_eq; by split; [left|]].
  destruct (entry_ok _) eqn:Hok; [|done]. injection Hr as <-. cbn. split; [|done].
  right. exists e, (ar_source_entry_id r). by rewrite Hes.
Qed.

Lemma entry_artifacts_runs id paths t t' :
  runs (for_each (λ path, exec (insert_entry_artifact_stmt id path)) paths) t tt t' →
  t' = set_content (t_payloads t) (t_search t) (t_entry_artifacts t') t
  ∧ ∀ i q, (i, q) ∈ t_entry_artifacts t' ↔ (i, q) ∈ t_entry_artifacts t ∨ (i = id ∧ q ∈ paths).
Proof.
  revert t; induction paths as [|p paths IH]; intros t Hr; cbn [for_each] in Hr; run_inv.
  - split; [by destruct t|]. set_solver.
  - apply IH in Hr as [-> Hin]. clear IH.
    match goal with H : insert_entry_artifact_stmt _ _ _ = Some _ |- _ => rename H into Hi end.
    unfold insert_entry_artifact_stmt, checked_stmt in Hi.
    destruct (decide _); [done|]. destruct (entry_exists _ _); [|done]. injection Hi as <-.
    cbn in *. split; [done|]. intros i q. rewrite Hin. set_solver.
Qed.

Lemma write_content_runs fs id mime b c t t' :
  runs (write_content fs id mime b c) t tt t' →
  zlen b <= 67108864 ∧ is_Some (t_entries t !! id)
  ∧ linked id (t_entries t) (t_entries t')
  ∧ t' = set_content (<[id := b]> (t_payloads t)) (<[id := search_row mime b]> (t_search t))
           (t_entry_artifacts t') (set_entries (t_entries t') t)
  ∧ ∀ i q, (i, q) ∈ t_entry_artifacts t' ↔
           (i, q) ∈ t_entry_artifacts t ∨ (i = id ∧ q ∈ referenced_paths b).
Proof.
  unfold write_content. intros Hr. run_inv.
  match goal with H : runs (for_each _ _) _ ?u _ |- _ => destruct u; apply entry_artifacts_runs in H as [Hu Hp] end.
  apply link_echo_runs in Hr as [Hl ->].
  match goal with H : insert_payload_stmt _ _ _ = Some _ |- _ => rename H into Hpay end.
  match goal with H : insert_search_stmt _ _ _ = Some _ |- _ => rename H into Hs end.
  unfold insert_payload_stmt, insert_search_stmt, checked_stmt in *.
  destruct (t_payloads t !! id); [done|].
  destruct (entry_exists id t && payload_ok b) eqn:Hok; [|done]. injection Hpay as <-. cbn in *.
  destruct (t_search t !! id); [done|].
  destruct (entry_exists id _) eqn:Hex; [|done]. injection Hs as <-. cbn in *.
  unfold payload_ok, entry_exists in *. bools. rewrite Hu in Hl |- *. split_and!; done.
Qed.
Lemma linked_id id es es' e :
  linked id es es' → es !! id = Some e →
  ∃ e', es' !! id = Some e' ∧ same_row e e' ∧ (entry_ok e = true → entry_ok e' = true)
        ∧ (e_echo_source_id e = None →
           ∀ s, e_echo_source_id e' = Some s → s ≠ id ∧ is_Some (es' !! s)).
Proof.
  intros [->|(e0 & s & He0 & Hs & Hne & Hok & ->)] He.
  - exists e. split_and!; [done|by destruct e|done|congruence].
  - rewrite He in He0. injection He0 as <-. exists (set_echo (Some s) e).
    rewrite lookup_insert_eq. split_and!; [done|done|done|].
    intros _ s' [= <-]. by rewrite lookup_insert_ne.
Qed.
Lemma linked_ne id es es' i : linked id es es' → i ≠ id → es' !! i = es !! i.
Proof. intros [->|(e & s & _ & _ & _ & _ & ->)] Hne; [done|]. by rewrite lookup_insert_ne. Qed.

(** ** Writing one entry with its content *)
Lemma wf_write fs id mime b c e t0 t t' :
  runs (write_content fs id mime b c) t tt t' → tables_wf t0 → frames id t0 t →
  0 <= t_revision t < revision_limit ∧ 0 <= t_sequence t <= i64_max →
  t_entries t !! id = Some e →
  (∃ u, id = ("entry-" ++ u)%string) → entry_ok e = true → e_echo_source_id e = None →
  0 < e_revision e <= t_revision t → 0 < e_recency e <= t_sequence t →
  e_byte_size e = zlen b → e_digest e = sha256 b → e_preview e = bounded_preview b INSPECTION_LIMIT →
  e_mime e = mime →
  (t_sequence t0 < e_recency e ∨ ∃ e0, t_entries t0 !! id = Some e0 ∧ e_recency e = e_recency e0) →
  tables_wf t' ∧ t_policy t' = t_policy t0 ∧ ∃ e', t_entries t' !! id = Some e' ∧ same_row e e'.
Proof.
  intros Hr Hwf F Hmeta He Hu Hok Hecho Hrev Hrec Hsize Hdig Hprev Hmime Hseq.
  apply write_content_runs in Hr as (_ & _ & Hl & -> & Hp).
  destruct (linked_id _ _ _ _ Hl He) as (e' & He' & Hrow & Hok' & Hecho').
  split; [|split; [apply F|by exists e']].
  apply (wf_frames id e' t0); [|done|done|done| |]; cbn.
  - split; cbn; try apply F.
    + intros i ei Hne Hi. rewrite (linked_ne _ _ _ _ Hl Hne) in Hi. by apply (fr_rows _ _ _ F).
    + intros i Hi. destruct (decide (i = id)) as [->|Hne]; [by rewrite He'|].
      rewrite (linked_ne _ _ _ _ Hl Hne). by apply (fr_keep _ _ _ F).
    + intros i Hne. rewrite lookup_insert_ne by done. by apply (fr_payloads _ _ _ F).
    + intros i Hne. rewrite lookup_insert_ne by done. by apply (fr_search _ _ _ F).
    + intros i q Hne [Hi|[-> _]]%Hp; [|done]. by apply (fr_paths _ _ _ F).
  - rewrite Hrow in *. cbn in *. unfold row_ok; cbn. split_and!; try done; try lia; auto.
    exists b. cbn. rewrite !lookup_insert_eq, Hmime. done.
  - rewrite Hrow; cbn. done.
Qed.

(** ** Each operation *)
Definition preserves {A} (body : SqlT A) : Prop :=
  ∀ t a t', runs body t a t' → tables_ok t → tables_ok t'.

(** Retention closes an operation. *)
Lemma retain_ok p o t t' :
  runs (retain p o) t tt t' → tables_wf t → t_policy t = p →
  (∀ id e, o = Some id → t_entries t !! id = Some e → e_byte_size e <= max_entry_bytes p) →
  tables_ok t' ∧ evicts t t'.
Proof.
  intros Hr Hwf <- Hprot.
  destruct (retain_runs _ _ _ _ Hr (wf_policy t Hwf) (wf_sizes t Hwf) (wf_no_empty t Hwf) Hprot)
    as (He & Hl & _).
  destruct (evicts_frame _ _ He) as (Hp & _). split; [split; [by apply (wf_evicts t)|by rewrite Hp]|done].
Qed.

Lemma allowed_payload_Ok p b u : allowed_payload p b = Ok u → zlen b <= max_entry_bytes p ∧ zlen b <= max_total_bytes p.
Proof. unfold allowed_payload. case_match eqn:Hc; [done|]. intros _. bools. lia. Qed.

(** Renaming the counters inside a row: the current entry moves to the top. *)
Lemma wf_update id f t t' e :
  update_entry_stmt id f t = Some t' → tables_wf t → t_entries t !! id = Some e →
  e_byte_size (f e) = e_byte_size e → e_digest (f e) = e_digest e →
  e_preview (f e) = e_preview e → e_mime (f e) = e_mime e →
  e_echo_source_id (f e) = e_echo_source_id e →
  0 < e_revision (f e) <= t_revision t →
  e_recency (f e) = e_recency e ∨ (∀ i ei, t_entries t !! i = Some ei → e_recency ei < e_recency (f e)) →
  e_recency (f e) <= t_sequence t →
  tables_wf t' ∧ t' = set_entries (<[id := f e]> (t_entries t)) t.
Proof.
  unfold update_entry_stmt, checked_stmt. intros Hrun Hwf He. rewrite He in Hrun.
  destruct (entry_ok (f e)) eqn:Hok; [|done]. injection Hrun as <-.
  intros Hs1 Hs2 Hs3 Hs4 Hecho Hrev Hrec Hseq. split; [|done].
  pose proof (wf_rows t Hwf id e He) as (Hu & _ & ? & Hrec0 & Hst & He2).
  assert (Hsome : ∀ s, is_Some (t_entries t !! s) → is_Some (<[id := f e]> (t_entries t) !! s)).
  { intros s Hs. destruct (decide (s = id)) as [->|]; [by rewrite lookup_insert_eq|by rewrite lookup_insert_ne]. }
  split; cbn; try apply Hwf.
  - intros i ei Hi. destruct (decide (i = id)) as [->|Hne].
    + rewrite lookup_insert_eq in Hi. injection Hi as <-. unfold row_ok; cbn. split_and!; try done; try lia.
      * destruct Hrec as [->|Hlt]; [lia|]. specialize (Hlt id e He). lia.
      * destruct Hst as (b & ? & ? & ? & ? & ?). exists b. rewrite Hs1, Hs2, Hs3, Hs4. done.
      * intros s Hs. rewrite Hecho in Hs. destruct (He2 s Hs). eauto.
    + rewrite lookup_insert_ne in Hi by done.
      pose proof (wf_rows t Hwf i ei Hi) as (? & ? & ? & ? & ? & He3).
      unfold row_ok; cbn. split_and!; try done; try lia. intros s Hs. destruct (He3 s Hs). eauto.
  - intros i Hi. by apply Hsome, (wf_payloads t Hwf).
  - intros i Hi. by apply Hsome, (wf_search t Hwf).
  - intros i q Hi. by apply Hsome, (wf_paths t Hwf i q).
  - intros i j ei ej Hi Hj Heq.
    assert (Hx : ∀ k ek, k ≠ id → t_entries t !! k = Some ek → e_recency ek ≠ e_recency (f e)).
    { intros k ek Hk Hek. destruct Hrec as [->|Hlt]; [|specialize (Hlt k ek Hek); lia].
      intros Heq2. by apply Hk, (wf_recency t Hwf k id ek e). }
    destruct (decide (i = id)) as [->|Hni], (decide (j = id)) as [->|Hnj]; [done| | |].
    + rewrite lookup_insert_eq in Hi. rewrite lookup_insert_ne in Hj by done. injection Hi as <-.
      by destruct (Hx j ej Hnj Hj).
    + rewrite lookup_insert_eq in Hj. rewrite lookup_insert_ne in Hi by done. injection Hj as <-.
      by destruct (Hx i ei Hni Hi).
    + rewrite lookup_insert_ne in Hi, Hj by done. by apply (wf_recency t Hwf i j ei ej).
Qed.

Lemma bumped t r t' :
  runs bump t r t' → tables_wf t →
  tables_wf t' ∧ t' = set_meta (t_revision t + 1) (t_sequence t) t ∧ r = t_revision t + 1
  ∧ as_i64 r = t_revision t + 1 ∧ t_revision t + 1 < revision_limit.
Proof.
  intros Hr Hwf. pose proof (wf_bump _ _ _ Hr Hwf) as Hwf'. apply bump_runs in Hr as (Hm & -> & ->).
  apply meta_ok_iff in Hm. unfold revision_limit in *.
  rewrite as_u64_small, as_i64_small by (unfold i64_max, u64_max; lia). split_and!; [done..|lia].
Qed.
Lemma wf_row_below t i e : tables_wf t → t_entries t !! i = Some e → e_recency e <= t_sequence t.
Proof. intros Hwf He. apply (wf_rows t Hwf) in He as (_ & _ & _ & ? & _). lia. Qed.
Lemma limits_each t i e :
  tables_ok t → t_entries t !! i = Some e → e_byte_size e <= max_entry_bytes (t_policy t).
Proof. intros [_ Hl]. apply (lim_each _ _ Hl). Qed.

Lemma apply_policy_preserves p : policy_range p → preserves (apply_policy_body p).
Proof.
  intros Hp t [] t' Hr [Hwf Hl]. unfold apply_policy_body in Hr. run_inv.
  match goal with H : runs db_policy _ _ _ |- _ => apply db_policy_runs in H as [-> ->]; [|apply Hwf] end.
  case_decide; run_inv; [by split|].
  match goal with H : update_policy_stmt _ _ = Some _ |- _ => rename H into Hu end.
  match goal with H : runs (retain _ _) _ ?u _ |- _ => destruct u; rename H into Hret end.
  match goal with H : runs bump _ _ _ |- _ => rename H into Hb end.
  unfold update_policy_stmt, checked_stmt in Hu. destruct (policy_ok _); [|done]. injection Hu as <-.
  rewrite !as_i64_small in Hret by (destruct Hp; unfold MAX_ENTRY_BYTES, i64_max in *; lia).
  replace (mkPolicy _ _ _ _ _) with p in Hret by by destruct p.
  apply retain_ok in Hret as [[Hwf2 Hl2] _]; [|by apply wf_set_policy|done|by intros].
  apply bumped in Hb as (Hwf3 & -> & _); [|done]. done.
Qed.

Lemma favorite_preserves id r v : preserves (favorite_body id r v).
Proof.
  intros t [] t' Hr Hok. pose proof Hok as [Hwf Hl]. unfold favorite_body in Hr. run_inv.
  match goal with H : runs (db_summary _ _) _ _ _ |- _ => apply db_summary_runs in H as (-> & e & He & Hd & ->) end.
  destruct (bool_decide _); run_inv; [by split|].
  match goal with H : runs db_policy _ _ _ |- _ => apply db_policy_runs in H as [-> ->]; [|apply Hwf] end.
  destruct (_ || _); run_inv.
  match goal with H : runs bump _ _ _ |- _ => apply bumped in H as (Hwf1 & -> & -> & Hi & _); [|done] end.
  match goal with H : update_entry_at_stmt _ _ _ _ = Some _ |- _ => rename H into Hu end.
  apply decode_summary_Ok in Hd as (k & _ & ->). cbn in Hu.
  unfold update_entry_at_stmt in Hu. cbn in Hu. rewrite He in Hu.
  destruct (_ =? _) eqn:Hrev.
  - pose proof (wf_rows t Hwf id e He) as (_ & _ & ? & ? & _).
    apply (wf_update _ _ _ _ e) in Hu as [Hwf2 ->]; cbn; try done; try lia; auto.
    apply retain_ok in Hr as [? _]; [done|done|done|]. cbn. intros i ei [= <-].
    rewrite lookup_insert_eq. intros [= <-]. cbn. by apply (limits_each t id).
  - simplify_eq. apply retain_ok in Hr as [? _]; [done|done|done|]. cbn. intros i ei [= <-] Hei.
    by apply (limits_each t id).
Qed.

Lemma remove_many_preserves l : preserves (remove_many_body l).
Proof.
  intros t [] t' Hr [Hwf Hl]. unfold remove_many_body in Hr. run_inv.
  destruct (negb _); run_inv; [destruct (negb _); by run_inv|].
  match goal with H : delete_entries_stmt _ _ = Some _ |- _ => injection H as <- end.
  match goal with H : runs bump _ _ _ |- _ => apply bumped in H as (Hwf1 & -> & _); [|by apply wf_delete] end.
  split; [done|]. apply (within_limits_sub _ _ (t_entries t));
    [apply (delete_entries_shape _ t)|by apply wf_sizes|done].
Qed.

Lemma wf_registry t ar ie : tables_wf t → tables_wf (set_registry ar ie t).
Proof. intros [? ? Hrows ? ? ? ?]. by split. Qed.
Lemma wipe_preserves : preserves wipe_body.
Proof.
  intros t [] t' Hr [Hwf Hl]. unfold wipe_body in Hr. run_inv.
  match goal with H : delete_entries_stmt _ _ = Some _ |- _ => injection H as <- end.
  match goal with H : clear_inline_echoes_stmt _ = Some _ |- _ => injection H as <- end.
  match goal with H : runs bump _ _ _ |- _ => apply bumped in H as (Hwf1 & -> & _); [|by apply wf_registry, wf_delete] end.
  split; [done|]. apply (within_limits_sub _ _ (t_entries t));
    [apply (delete_entries_shape _ t)|by apply wf_sizes|done].
Qed.
Lemma register_artifact_preserves r : preserves (register_artifact_body r).
Proof.
  intros t [] t' Hr [Hwf Hl]. unfold register_artifact_body in Hr. run_inv.
  match goal with H : runs (if ?c then _ else _) ?u _ ?w |- _ =>
    assert (w = u) as -> by (destruct c; by run_inv) end.
  destruct (negb _); run_inv. unfold upsert_artifact_stmt, checked_stmt in Hr.
  destruct (_ && _); [|done]. injection Hr as <-. split; [by apply wf_registry|done].
Qed.

(** Re-observed bytes move their entry to the top. *)
Lemma insert_again_preserves id e revision recency t t1 t2 t3 t' p :
  runs bump t revision t1 → runs next_sequence t1 recency t2 →
  update_entry_stmt id (set_rank (as_i64 revision) recency) t2 = Some t3 →
  runs (retain p (Some id)) t3 tt t' →
  tables_ok t → t_policy t = p → t_entries t !! id = Some e → tables_ok t'.
Proof.
  intros Hb Hs Hu Hr Hok Hp He. pose proof Hok as [Hwf Hl].
  apply bumped in Hb as (Hwf1 & -> & -> & Hi & _); [|done].
  pose proof (wf_next_sequence _ _ _ Hs Hwf1) as Hwf2.
  apply next_sequence_runs in Hs as (_ & -> & ->). cbn in *.
  rewrite Hi in Hu. pose proof (wf_rows t Hwf id e He) as (_ & _ & ? & ? & _).
  destruct (wf_update _ _ _ _ e Hu Hwf2 He) as [Hwf3 ->]; cbn; try done; try lia; auto.
  { right. intros i ei Hei. pose proof (wf_row_below t i ei Hwf Hei). lia. }
  apply retain_ok in Hr as [? _]; [done|done|done|]. cbn. intros i ei [= <-].
  rewrite lookup_insert_eq. intros [= <-]. cbn. rewrite <- Hp. by apply (limits_each t id).
Qed.

(** New bytes get a new row with its content. *)
Lemma insert_new_written fs uuid mime b c revision recency t t1 t2 t3 t4 :
  let id := ("entry-" ++ uuid)%string in
  runs bump t revision t1 → runs next_sequence t1 recency t2 →
  insert_entry_stmt id (new_entry revision recency mime b c) t2 = Some t3 →
  runs (write_content fs id mime b c) t3 tt t4 → tables_wf t →
  t_entries t !! id = None ∧ tables_wf t4 ∧ t_policy t4 = t_policy t
  ∧ t_payloads t4 = <[id := b]> (t_payloads t)
  ∧ (∃ e', t_entries t4 !! id = Some e' ∧ e_mime e' = mime ∧ e_byte_size e' = zlen b
           ∧ e_recency e' = t_sequence t + 1)
  ∧ ∀ i, i ≠ id → t_entries t4 !! i = t_entries t !! i.
Proof.
  intros id Hb Hs Hins Hw Hwf.
  apply bumped in Hb as (Hwf1 & -> & -> & Hi & Hlim); [|done].
  pose proof (wf_next_sequence _ _ _ Hs Hwf1) as Hwf2. apply next_sequence_runs in Hs as (_ & -> & ->).
  unfold insert_entry_stmt, checked_stmt, new_entry in Hins. cbn [t_entries set_meta] in Hins.
  rewrite Hi in Hins. destruct (t_entries t !! id) eqn:Hnew; [done|].
  destruct (entry_ok _) eqn:Hrow; [|done]. injection Hins as <-. split; [done|].
  pose proof (wf_meta t Hwf) as [? ?]. pose proof (wf_meta _ Hwf2) as [? ?]. cbn in *.
  pose proof (write_content_runs _ _ _ _ _ _ _ Hw) as (_ & _ & Hlink & Heq & _). cbn in Hlink, Heq.
  eapply (wf_write _ _ _ _ _ _ t) in Hw as (Hw & Hpol & e' & He' & Hsame); cbn; try done; try lia.
  - split; [done|]. split; [done|]. split; [by rewrite Heq|]. split.
    + exists e'. split_and!; [done|by rewrite Hsame..].
    + intros i Hne. rewrite (linked_ne _ _ _ _ Hlink Hne). by rewrite lookup_insert_ne.
  - split; cbn; try done; try lia.
    + intros i ei Hne. rewrite lookup_insert_ne by done. intros Hei. exists ei.
      split_and!; [done|by destruct ei|by left].
    + intros i Hi2. destruct (decide (i = id)) as [->|]; [by rewrite lookup_insert_eq|by rewrite lookup_insert_ne].
  - by rewrite lookup_insert_eq.
  - by exists uuid.
  - cbn. lia.
  - cbn. lia.
  - cbn. left. lia.
Qed.

Lemma insert_body_preserves fs uuid mime b : preserves (insert_body fs uuid mime b).
Proof.
  intros t s t' Hr Hok. pose proof Hok as [Hwf Hl]. unfold insert_body in Hr. run_inv.
  match goal with H : runs db_policy _ _ _ |- _ => apply db_policy_runs in H as [-> ->]; [|apply Hwf] end.
  destruct (negb _); run_inv.
  match goal with H : allowed_payload _ _ = Ok _ |- _ => apply allowed_payload_Ok in H as [Hb1 Hb2] end.
  destruct (head _) as [id|]; run_inv.
  - match goal with H : runs (db_summary _ _) _ _ _ |- _ =>
      apply db_summary_runs in H as (-> & e & He & Hd & _) end.
    destruct (s_current _); run_inv; [done|].
    apply decode_summary_Ok in Hd as (k & _ & ->). cbn [s_id] in *.
    match goal with H : runs (retain _ _) _ ?u _ |- _ => destruct u end.
    match goal with H : runs (db_summary _ _) _ _ _ |- _ => apply db_summary_runs in H as (-> & _) end.
    eapply insert_again_preserves; done.
  - destruct (max_entries _ =? 0); run_inv.
    match goal with H : runs (retain _ _) _ ?u _ |- _ => destruct u; rename H into Hret end.
    match goal with H : runs (write_content _ _ _ _ _) _ ?u _ |- _ => destruct u; rename H into Hw end.
    match goal with H : runs (db_summary _ _) _ _ _ |- _ => apply db_summary_runs in H as (-> & _) end.
    match goal with H : runs bump _ _ _ |- _ => rename H into Hb end.
    match goal with H : runs next_sequence _ _ _ |- _ => rename H into Hs end.
    match goal with H : insert_entry_stmt _ _ _ = Some _ |- _ => rename H into Hins end.
    destruct (insert_new_written _ _ _ _ _ _ _ _ _ _ _ _ Hb Hs Hins Hw Hwf)
      as (_ & Hwf4 & Hpol & _ & (e' & He' & _ & Hsize & _) & _).
    apply retain_ok in Hret as [? _]; [done|done|done|].
    intros i ei [= <-]. rewrite He'. intros [= <-]. lia.
Qed.

(** The entry row before its content is written anew. *)
Definition cleared (id : string) (es : gmap string EntryRow) : gmap string EntryRow :=
  (λ e, if decide (e_echo_source_id e = Some id) then set_echo None e else e) <$> es.
Lemma cleared_lookup id es i e' :
  cleared id es !! i = Some e' →
  ∃ e, es !! i = Some e ∧ same_row e e'
       ∧ (e_echo_source_id e' = e_echo_source_id e ∨ e_echo_source_id e' = None).
Proof.
  unfold cleared. rewrite lookup_fmap, fmap_Some. intros (e & He & ->). exists e.
  case_decide; (split_and!; [done|unfold same_row; by destruct e|cbn; auto]).
Qed.
Lemma cleared_some id es i : is_Some (es !! i) → is_Some (cleared id es !! i).
Proof. unfold cleared. rewrite lookup_fmap. by intros [e ->]. Qed.

Lemma cleared_frames id row t :
  is_Some (t_entries t !! id) → t_revision t + 1 < revision_limit →
  frames id t (set_content (delete id (t_payloads t)) (delete id (t_search t))
                 (filter (λ kv, kv.1 ≠ id) (t_entry_artifacts t))
                 (set_entries (cleared id (<[id := row]> (t_entries t)))
                    (set_meta (t_revision t + 1) (t_sequence t) t))).
Proof.
  intros Hid Hlim. split; cbn; try done; try lia.
  - intros i e' Hne (e & He & Hx)%cleared_lookup. rewrite lookup_insert_ne in He by done. eauto.
  - intros i Hi. apply cleared_some. destruct (decide (i = id)) as [->|];
      [by rewrite lookup_insert_eq|by rewrite lookup_insert_ne].
  - intros i Hne. by rewrite lookup_delete_ne.
  - intros i Hne. by rewrite lookup_delete_ne.
  - intros i q _ [_ Hi]%elem_of_filter. done.
Qed.

(** The row and the content of one entry are replaced. *)
Lemma replace_written fs id e mime b c revision t t1 t2 t3 t4 t5 t6 t7 :
  runs bump t revision t1 →
  update_entry_at_stmt id (e_revision e) (replaced_entry revision mime b c) t1 = Some t2 →
  clear_echoes_stmt id t2 = Some t3 → delete_payload_stmt id t3 = Some t4 →
  delete_search_stmt id t4 = Some t5 → delete_entry_artifacts_stmt id t5 = Some t6 →
  runs (write_content fs id mime b c) t6 tt t7 → tables_wf t → t_entries t !! id = Some e →
  tables_wf t7 ∧ t_policy t7 = t_policy t ∧ t_revision t7 = t_revision t + 1
  ∧ t_payloads t7 !! id = Some b
  ∧ (∃ e', t_entries t7 !! id = Some e' ∧ same_row (replaced_entry (t_revision t + 1) mime b c e) e')
  ∧ (∀ i e', i ≠ id → t_entries t7 !! i = Some e' →
      ∃ e, t_entries t !! i = Some e ∧ same_row e e' ∧ t_payloads t7 !! i = t_payloads t !! i)
  ∧ (∃ row, t_entries t7 = <[id := row]> (cleared id (t_entries t))) ∧ t_payloads t7 = <[id := b]> (t_payloads t).
Proof.
  intros Hb Hu [= <-] [= <-] [= <-] [= <-] Hw Hwf He.
  apply bumped in Hb as (Hwf1 & -> & -> & Hi & Hlim); [|done].
  pose proof (wf_rows t Hwf id e He) as (Hu2 & _ & Hrev & Hrec & _).
  pose proof (wf_meta t Hwf) as [Hm1 Hm2].
  unfold update_entry_at_stmt, update_entry_stmt, checked_stmt, replaced_entry in Hu.
  cbn [t_entries set_meta] in Hu. rewrite He, Z.eqb_refl, Hi in Hu.
  destruct (entry_ok _) eqn:Hrow; [|done]. injection Hu as <-.
  match type of Hrow with entry_ok ?x = _ => set (row := x) in * end. cbn in Hw.
  fold (cleared id (<[id := row]> (t_entries t))) in Hw.
  pose proof (cleared_frames id row t (mk_is_Some _ _ He) Hlim) as Hf.
  pose proof (write_content_runs _ _ _ _ _ _ _ Hw) as (_ & _ & Hlink & Heq & _). cbn in Hlink, Heq.
  eapply (wf_write _ _ _ _ _ row t) in Hw as (Hw & Hpol & e' & He' & Hsame); cbn; try done; try lia.
  - split_and!; [done|done|by rewrite Heq|by rewrite Heq; cbn; rewrite lookup_insert_eq| | | |].
    + exists e'. split; [done|]. unfold replaced_entry. rewrite as_i64_small; [done|].
      unfold revision_limit, i64_max in *. lia.
    + intros i ei Hne. rewrite (linked_ne _ _ _ _ Hlink Hne). intros Hei.
      apply (fr_rows _ _ _ Hf) in Hei as (e0 & He0 & Hrow0 & _); [|done]. exists e0.
      split_and!; [done|done|]. rewrite Heq. cbn. by rewrite lookup_insert_ne, lookup_delete_ne.
    + unfold cleared in *. rewrite fmap_insert in Hlink. cbn in Hlink.
      destruct Hlink as [->|(? & ? & _ & _ & _ & _ & ->)]; [by eexists|]. rewrite insert_insert_eq. by eexists.
    + rewrite Heq. cbn. by rewrite insert_delete_eq.
  - unfold cleared. by rewrite lookup_fmap, lookup_insert_eq.
  - right. by exists e.
Qed.

Lemma replace_inv fs id r mime b t s t' :
  runs (replace_body fs id r mime b) t s t' → tables_wf t →
  ∃ e t7 t8, t_entries t !! id = Some e ∧ r = e_revision e
    ∧ zlen b <= max_entry_bytes (t_policy t) ∧ zlen b <= max_total_bytes (t_policy t)
    ∧ tables_wf t7 ∧ t_policy t7 = t_policy t ∧ t_revision t7 = t_revision t + 1
    ∧ t_payloads t7 !! id = Some b
    ∧ (∃ e', t_entries t7 !! id = Some e' ∧
             same_row (replaced_entry (t_revision t + 1) mime b (resolve fs mime b MAX_ENTRY_BYTES) e) e')
    ∧ (∀ i e', i ≠ id → t_entries t7 !! i = Some e' →
         ∃ e, t_entries t !! i = Some e ∧ same_row e e' ∧ t_payloads t7 !! i = t_payloads t !! i)
    ∧ runs (retain (t_policy t) (Some id)) t7 tt t8 ∧ runs (db_summary id None) t8 s t'
    ∧ (∃ row, t_entries t7 = <[id := row]> (cleared id (t_entries t))) ∧ t_payloads t7 = <[id := b]> (t_payloads t).
Proof.
  intros Hr Hwf. unfold replace_body in Hr. run_inv.
  match goal with H : runs (retain _ _) _ ?u _ |- _ => destruct u; rename H into Hret end.
  match goal with H : runs (write_content _ _ _ _ _) _ ?u _ |- _ => destruct u; rename H into Hw end.
  match goal with H : runs (db_summary _ (Some _)) _ _ _ |- _ =>
    apply db_summary_runs in H as (-> & e & He & Hd & ->) end.
  match goal with H : runs db_policy _ _ _ |- _ => apply db_policy_runs in H as [-> ->]; [|apply Hwf] end.
  match goal with H : allowed_payload _ _ = Ok _ |- _ => apply allowed_payload_Ok in H as [Hb1 Hb2] end.
  apply decode_summary_Ok in Hd as (k & _ & ->). cbn [s_revision] in *.
  pose proof (wf_rows t Hwf id e He) as (_ & _ & Hrev & _). pose proof (wf_meta t Hwf) as [Hm1 Hm2].
  match goal with H : update_entry_at_stmt _ _ _ _ = Some _ |- _ => rename H into Hu end.
  unfold revision_limit in *.
  assert (Hcast : as_u64 (e_revision e) = e_revision e) by (apply as_u64_small; unfold u64_max; lia).
  rewrite Hcast, as_i64_small in Hu by (unfold i64_max; lia). rewrite Hcast.
  match goal with H : runs bump _ _ _ |- _ => rename H into Hb end.
  eapply replace_written in Hw as (? & ? & ? & ? & ? & ? & ? & ?); [|done..].
  do 3 eexists. split_and!; done.
Qed.

Lemma replace_body_preserves fs id r mime b : preserves (replace_body fs id r mime b).
Proof.
  intros t s t' Hr [Hwf Hl].
  apply replace_inv in Hr as (e & t7 & t8 & He & _ & Hb1 & _ & Hw & Hpol & _ & _ & (e' & He' & Hsame) & _ & Hret & Hs & _);
    [|done].
  apply db_summary_runs in Hs as (-> & _).
  apply retain_ok in Hret as [? _]; [done|done|done|].
  intros i ei [= <-]. rewrite He'. intros [= <-]. rewrite Hsame. cbn. lia.
Qed.
End preservation.
