(* ===== verification/History.v ===== *)
(** * History: the operations of the database owner together — what a caller of
    [history_store/database.rs] may rely on across calls, engine faults and
    restarts. *)
From Stdlib Require Import Ascii.
From S2P Require Import Prelude Text Externals Model Classification Content Sql Tables Database Retention Invariant Preservation.
Local Open Scope Z_scope.

(** The mutating entry points of [Database], and [Database::open] on the file
    an earlier owner left. *)
Inductive Operation :=
| OpInsert (fs : Fs) (uuid mime : string) (b : bytes)
| OpReplace (fs : Fs) (id : string) (expected : Z) (mime : string) (b : bytes)
| OpFavorite (id : string) (expected : Z) (value : bool)
| OpRemove (targets : list EntryTarget)
| OpWipe
| OpPolicy (p : StorePolicy)
| OpRegister (r : ArtifactRecord)
| OpForget (path : string)
| OpEcho (r : InlineEchoRecord)
| OpClearEchoes
| OpShutdown (checkpoint : BackendResult (option (Z * Z * Z))) (protected : BackendResult unit)
| OpRestart (faults : list Outcome).

(** The last statements of [Database::open]; opening finds the durable tables
    and no transaction. *)
Definition reopen (faults : list Outcome) (db : Database Tables) : BackendResult unit * Database Tables :=
  transaction close_body (mkDatabase (durable db) None faults false).

Section history.
Context `{Externals}.

(** Whether the caller is told of success, and the owner afterwards. *)
Definition told {A} (r : BackendResult A * Database Tables) : bool * Database Tables :=
  (is_ok r.1, r.2).
Definition perform (o : Operation) (db : Database Tables) : bool * Database Tables :=
  match o with
  | OpInsert fs uuid mime b => told (run_call (insert fs uuid mime b) db)
  | OpReplace fs id expected mime b => told (run_call (replace fs id expected mime b) db)
  | OpFavorite id expected value => told (run_call (favorite id expected value) db)
  | OpRemove targets => told (run_call (remove_many targets) db)
  | OpWipe => told (run_call wipe db)
  | OpPolicy p => told (run_call (apply_policy p) db)
  | OpRegister r => told (run_call (register_artifact r) db)
  | OpForget path => told (run_call (forget_artifact path) db)
  | OpEcho r => told (run_call (register_inline_echo r) db)
  | OpClearEchoes => told (run_call clear_inline_echoes db)
  | OpShutdown checkpoint protected => told (shutdown checkpoint protected db)
  | OpRestart faults => told (reopen faults db)
  end.
Definition step (o : Operation) (db : Database Tables) : Database Tables := snd (perform o db).
Definition steps (os : list Operation) (db : Database Tables) : Database Tables :=
  foldl (λ d o, step o d) db os.

(** The fields of a [StorePolicy] are unsigned. *)
Definition unsigned_policy (p : StorePolicy) : Prop :=
  0 <= max_entries p ∧ 0 <= max_favorites p ∧ 0 <= max_entry_bytes p ∧ 0 <= max_total_bytes p.
Definition typed (o : Operation) : Prop :=
  match o with OpPolicy p => unsigned_policy p | _ => True end.

(** Between two calls the owner is idle or fenced. *)
Definition settled (db : Database Tables) : Prop :=
  tables_ok (durable db) ∧ (blocked db = true ∨ healthy db).

Lemma valid_policy_range p : unsigned_policy p → valid_policy p = true → policy_range p.
Proof.
  unfold unsigned_policy, valid_policy, MAX_ENTRY_BYTES. intros ? Hv. bools. split; unfold MAX_ENTRY_BYTES; lia.
Qed.

Lemma settled_transaction {A} (body : SqlT A) db `{!Faithful body} :
  preserves body → settled db → settled (snd (transaction body db)).
Proof.
  intros Hp [Hok [Hb|Hh]]; [rewrite transaction_blocked by done; split; auto|].
  destruct (transaction_committed body db Hh) as [a db' Hh' Hr|e db' Hh' Hd|e db' Hb [Hd|[a Hr]]];
    (split; [|by auto]); try rewrite Hd; eauto.
Qed.
Lemma settled_call {A} (c : Call A) db :
  match c with Transact body => Faithful body ∧ preserves body | _ => True end →
  settled db → settled (snd (run_call c db)).
Proof. destruct c; [done..|]. intros [? ?]. by apply settled_transaction. Qed.

Lemma close_preserves : preserves close_body.
Proof.
  intros t [] t' Hr [Hwf Hl]. unfold close_body in Hr. run_inv. injection Hr as <-. split.
  - apply wf_set_policy; [|done]. by destruct (wf_policy t Hwf).
  - by destruct Hl.
Qed.
Lemma registry_preserves (f : Tables → option Tables) :
  (∀ t t', f t = Some t' → ∃ ar ie, t' = set_registry ar ie t) → preserves (exec f).
Proof.
  intros Hf t [] t' Hr [Hwf Hl]. run_inv. apply Hf in Hr as (ar & ie & ->).
  split; [by apply wf_registry|done].
Qed.
Lemma echo_preserves r : preserves
  (_ ← exec (upsert_echo_stmt (ir_image_identity r)
               (mkEcho (ir_source_entry_id r) (as_i64 (ir_created_at r))));
   exec (trim_echoes_stmt 4096)).
Proof.
  intros t [] t' Hr Hok. run_inv.
  assert (∀ u v, upsert_echo_stmt (ir_image_identity r)
            (mkEcho (ir_source_entry_id r) (as_i64 (ir_created_at r))) u = Some v → tables_ok u → tables_ok v) as H1.
  { intros u v Hu [Hwf Hl]. unfold upsert_echo_stmt, checked_stmt in Hu. destruct (_ <=? _); [|done].
    injection Hu as <-. split; [by apply wf_registry|done]. }
  match goal with H : upsert_echo_stmt _ _ _ = Some _ |- _ => apply H1 in H as [Hwf Hl]; [|done] end.
  injection Hr as <-. split; [by apply wf_registry|done].
Qed.

Lemma settled_step o db : typed o → settled db → settled (step o db).
Proof.
  intros Ht Hs. unfold step. destruct o; cbn [perform told snd].
  - apply settled_call; [split; [apply _|apply insert_body_preserves]|done].
  - apply settled_call; [split; [apply _|apply replace_body_preserves]|done].
  - apply settled_call; [split; [apply _|apply favorite_preserves]|done].
  - apply settled_call; [|done]. unfold remove_many. destruct (bool_decide _); [done|].
    split; [apply _|apply remove_many_preserves].
  - apply settled_call; [split; [apply _|apply wipe_preserves]|done].
  - apply settled_call; [|done]. unfold apply_policy. destruct (valid_policy p) eqn:Hv; [|done].
    split; [apply _|by apply apply_policy_preserves, valid_policy_range].
  - apply settled_call; [|done]. unfold register_artifact.
    destruct (negb (utf8_valid _)); [done|]. destruct (_ || _); [done|].
    split; [apply _|apply register_artifact_preserves].
  - apply settled_call; [|done]. unfold forget_artifact. destruct (negb _); [done|].
    split; [apply _|apply registry_preserves]. intros t t' [= <-]. eauto.
  - apply settled_call; [|done]. unfold register_inline_echo. destruct (_ || _); [done|].
    split; [apply _|apply echo_preserves].
  - apply settled_call; [|done]. split; [apply _|apply registry_preserves]. intros t t' [= <-]. eauto.
  - unfold shutdown. destruct (blocked db); [done|].
    pose proof (settled_transaction close_body db close_preserves Hs) as Hs'.
    by destruct (transaction close_body db) as [[[]|?] ?].
  - apply (settled_transaction close_body _ close_preserves). destruct Hs as [Hok _].
    split; [done|]. by right.
Qed.

Lemma settled_steps os db : Forall typed os → settled db → settled (steps os db).
Proof.
  intros Hty. revert db. induction Hty as [|o os Ho _ IH]; intros db Hdb; [done|]. by apply IH, settled_step.
Qed.
Lemma settled_start t faults : tables_ok t → settled (mkDatabase t None faults false).
Proof. intros Hok. split; [done|by right]. Qed.

(** C1 Whatever sequence of operations the owner is sent, whatever faults
    the engine injects and however often the daemon restarts, the durable
    tables stay well formed and within the stored policy: every entry has
    exactly one payload of its recorded size and digest and one search row,
    its revision and recency are within the counters, recencies are distinct,
    echo references are to other existing entries, and the four limits hold. *)
Theorem history_invariant os t faults :
  tables_ok t → Forall typed os →
  tables_ok (durable (steps os (mkDatabase t None faults false))).
Proof.
  intros Hok Hty. by apply settled_steps, settled_start.
Qed.
End history.

Section atomicity.
Context `{Externals}.

(** The effect of an operation when the engine does what it is asked. *)
Definition call_effect {A} (c : Call A) (t : Tables) : option Tables :=
  match c with
  | Refuse _ => None
  | Skip _ => Some t
  | Transact body => match ideal body t with (Ok _, t') => Some t' | _ => None end
  end.
Definition effect (o : Operation) (t : Tables) : option Tables :=
  match o with
  | OpInsert fs uuid mime b => call_effect (insert fs uuid mime b) t
  | OpReplace fs id expected mime b => call_effect (replace fs id expected mime b) t
  | OpFavorite id expected value => call_effect (favorite id expected value) t
  | OpRemove targets => call_effect (remove_many targets) t
  | OpWipe => call_effect wipe t
  | OpPolicy p => call_effect (apply_policy p) t
  | OpRegister r => call_effect (register_artifact r) t
  | OpForget path => call_effect (forget_artifact path) t
  | OpEcho r => call_effect (register_inline_echo r) t
  | OpClearEchoes => call_effect clear_inline_echoes t
  | OpShutdown _ _ | OpRestart _ => call_effect (Transact close_body) t
  end.
Definition is_shutdown (o : Operation) : Prop := match o with OpShutdown _ _ => True | _ => False end.

(** What a caller may conclude. *)
Record Atomic (o : Operation) (db : Database Tables) (ok : bool) (db' : Database Tables) : Prop := {
  at_acknowledged : ok = true → healthy db' ∧ effect o (durable db) = Some (durable db');
  at_refused : ok = false → durable db' = durable db ∨
    (effect o (durable db) = Some (durable db') ∧ (blocked db' = true ∨ is_shutdown o));
  at_settled : blocked db' = true ∨ healthy db';
}.
Lemma atomic_transaction {A} o (body : SqlT A) db `{!Faithful body} :
  healthy db → (∀ t, effect o t = call_effect (Transact body) t) →
  Atomic o db (is_ok (fst (transaction body db))) (snd (transaction body db)).
Proof.
  intros Hh He. destruct (transaction_committed body db Hh) as [a db' Hh' Hr|e db' Hh' Hd|e db' Hb Hd];
    split; cbn; try done; auto; intros _; rewrite He; cbn.
  - by rewrite Hr.
  - destruct Hd as [Hd|[a ->]]; auto.
Qed.
Lemma atomic_call {A} o (c : Call A) db :
  match c with Transact body => Faithful body | _ => True end →
  healthy db → (∀ t, effect o t = call_effect c t) →
  Atomic o db (is_ok (fst (run_call c db))) (snd (run_call c db)).
Proof.
  intros Hf Hh He. destruct c as [e|a|body]; cbn [run_call].
  - split; cbn; auto; done.
  - split; cbn; auto; done.
  - by apply atomic_transaction.
Qed.

Lemma perform_atomic o db :
  healthy db → Atomic o db (fst (perform o db)) (snd (perform o db)).
Proof.
  intros Hh. destruct o; cbn [perform told fst snd];
    try (apply atomic_call; [|done|by intros]).
  1-3: cbn; apply _.
  - unfold remove_many. destruct (bool_decide _); [done|apply _].
  - cbn; apply _.
  - unfold apply_policy. destruct (valid_policy _); [apply _|done].
  - unfold register_artifact. destruct (negb (utf8_valid _)); [done|]. destruct (_ || _); [done|apply _].
  - unfold forget_artifact. destruct (negb _); [done|apply _].
  - unfold register_inline_echo. destruct (_ || _); [done|apply _].
  - cbn; apply _.
  - unfold shutdown. destruct Hh as [Hb Ho]. rewrite Hb.
    pose proof (atomic_transaction (OpShutdown checkpoint protected) close_body db (conj Hb Ho) (λ t, eq_refl)) as [H1 H2 H3].
    destruct (transaction close_body db) as [[u|e] db']; cbn in *.
    + destruct (H1 eq_refl) as [Hh Heff]. split; cbn; eauto.
    + split; cbn; auto.
  - unfold reopen.
    destruct (atomic_transaction (OpRestart faults) close_body (mkDatabase (durable db) None faults false))
      as [H1 H2 H3]; [done|done|]. by split.
Qed.
(** C2 Every mutating entry point is atomic under every fault schedule: a
    success that reaches the caller is durable and is exactly the fault-free
    effect; a failure left the durable tables as they were, or left that same
    complete effect behind and fenced the store (a shutdown may also report a
    failed checkpoint); a partial effect is never durable. *)
Theorem operation_atomic o db :
  healthy db → Atomic o db (fst (perform o db)) (snd (perform o db)).
Proof.
  apply perform_atomic.
Qed.
End atomicity.
