(* ===== verification/HistorySpec.v ===== *)
(** * HistorySpec: what each operation of [history_store/database.rs] computes
    on well-formed tables when the engine does what it is asked. *)
From Stdlib Require Import Ascii.
From S2P Require Import Prelude Text Externals Model Classification Content Sql Tables Database Retention Invariant Preservation History.
Local Open Scope Z_scope.

(** ** Summaries *)
Definition kind_of (label : string) : EntryKind := default Text (ok_of (decode_kind label)).
Definition summary_of (es : gmap string EntryRow) (id : string) (e : EntryRow) : EntrySummary :=
  mkSummary id (e_revision e) (kind_of (e_kind e)) (e_resolved_mime e) (e_byte_size e)
    (e_favorite e) (bool_decide (e_recency e = max_recency es)) (e_preview e).

Lemma decode_kind_label l : memb l kind_labels = true → decode_kind l = Ok (kind_of l).
Proof.
  unfold memb, kind_labels. intros Hl%bool_decide_eq_true.
  repeat (apply elem_of_cons in Hl as [->|Hl]; [done|]). by apply elem_of_nil in Hl.
Qed.
Lemma entry_ok_kind e : entry_ok e = true → decode_kind (e_kind e) = Ok (kind_of (e_kind e)).
Proof. unfold entry_ok. intros Ho. bools. by apply decode_kind_label. Qed.

(** The ranks of [max_recency]. *)
Lemma max_recency_ge es id e : es !! id = Some e → e_recency e <= max_recency es.
Proof.
  revert id e. unfold max_recency.
  refine (map_fold_weak_ind (λ r m, ∀ id e, m !! id = Some e → e_recency e <= r) _ 0 _ _ es).
  - intros id e He. by rewrite lookup_empty in He.
  - intros i x m r Hi IH id e. destruct (decide (i = id)) as [->|Hne].
    + rewrite lookup_insert_eq. intros [= ->]. lia.
    + rewrite lookup_insert_ne by done. intros He. specialize (IH id e He). lia.
Qed.
Lemma max_recency_in es : max_recency es = 0 ∨ ∃ id e, es !! id = Some e ∧ e_recency e = max_recency es.
Proof.
  unfold max_recency.
  refine (map_fold_weak_ind (λ r m, r = 0 ∨ ∃ id e, m !! id = Some e ∧ e_recency e = r) _ 0 _ _ es).
  - by left.
  - intros i x m r Hi IH. destruct (Z.max_spec (e_recency x) r) as [[Hlt ->]|[Hle ->]].
    + destruct IH as [->|(id & e & He & Hr)]; [by left|]. right. exists id, e. split; [|done].
      rewrite lookup_insert_ne; [done|congruence].
    + right. exists i, x. by rewrite lookup_insert_eq.
Qed.
Lemma max_recency_top es id e :
  es !! id = Some e → 0 <= e_recency e → (∀ i ei, es !! i = Some ei → e_recency ei <= e_recency e) →
  max_recency es = e_recency e.
Proof.
  intros He Hp Hall. pose proof (max_recency_ge es id e He).
  destruct (max_recency_in es) as [?|(i & ei & Hei & ?)]; [lia|]. specialize (Hall i ei Hei). lia.
Qed.

Section spec.
Context `{Externals}.

Lemma ideal_db_summary id o t :
  tables_wf t →
  ideal (db_summary id o) t =
    (match t_entries t !! id with
     | None => Err (not_found "Clipboard entry does not exist")
     | Some e => if bool_decide (default (e_revision e) o = e_revision e)
                 then Ok (summary_of (t_entries t) id e)
                 else Err (stale "Clipboard entry revision changed")
     end, t).
Proof.
  intros Hwf. unfold db_summary. rewrite ideal_bind by apply _. rewrite ideal_rows.
  rewrite ideal_bind by apply _. rewrite ideal_result.
  destruct (t_entries t !! id) as [e|] eqn:He; [|done]. cbn [fmap option_fmap option_map ok_or].
  pose proof (wf_rows t Hwf id e He) as (_ & Hok & Hrev & _ & (b & _ & Hsize & _) & _).
  rewrite ideal_bind by apply _. rewrite ideal_result.
  pose proof (wf_meta t Hwf) as [? _].
  assert (Hd : decode_summary (t_entries t) (id, e) = Ok (summary_of (t_entries t) id e)).
  { unfold decode_summary, summary_of. rewrite entry_ok_kind by done. cbn.
    unfold entry_ok in Hok. bools.
    match goal with H : between _ (e_byte_size e) _ = true |- _ => apply between_iff in H end.
    unfold revision_limit in *. by rewrite !as_u64_small by (unfold u64_max; lia). }
  rewrite Hd. cbn [s_revision summary_of].
  destruct o as [r|]; cbn [default].
  - destruct (Z.eqb_spec r (e_revision e)); [by rewrite bool_decide_true by done|].
    by rewrite bool_decide_false by done.
  - by rewrite bool_decide_true by done.
Qed.
Lemma summary_runs id o t s t' :
  tables_wf t → runs (db_summary id o) t s t' →
  t' = t ∧ ∃ e, t_entries t !! id = Some e ∧ s = summary_of (t_entries t) id e
                ∧ default (e_revision e) o = e_revision e.
Proof.
  intros Hwf Hr. unfold runs in Hr. rewrite ideal_db_summary in Hr by done.
  destruct (t_entries t !! id) as [e|]; [|done]. case_bool_decide; [|done].
  injection Hr as <- <-. eauto.
Qed.

Lemma ideal_db_get id o t :
  tables_wf t →
  ideal (db_get id o) t =
    (match t_entries t !! id with
     | None => Err (not_found "Clipboard entry does not exist")
     | Some e => if bool_decide (default (e_revision e) o = e_revision e)
                 then Ok (mkStored (summary_of (t_entries t) id e) (e_mime e)
                            (default [] (t_payloads t !! id)))
                 else Err (stale "Clipboard entry revision changed")
     end, t).
Proof.
  intros Hwf. unfold db_get. rewrite ideal_bind by apply _. rewrite ideal_db_summary by done.
  destruct (t_entries t !! id) as [e|] eqn:He; [|done]. case_bool_decide; [|done].
  rewrite ideal_bind by apply _. rewrite ideal_rows, He.
  pose proof (wf_rows t Hwf id e He) as (_ & _ & _ & _ & (b & Hb & Hsize & _) & _).
  rewrite Hb. cbn [mbind option_bind ok_or]. rewrite ideal_bind by apply _. rewrite ideal_result.
  cbn [summary_of s_byte_size]. by rewrite Hsize, Z.eqb_refl.
Qed.

(** The refusal an operation on one entry owes its caller, if any. *)
Definition refusal (expected : Z) (o : option EntryRow) : option BackendError :=
  match o with
  | None => Some (not_found "Clipboard entry does not exist")
  | Some e => if bool_decide (expected = e_revision e) then None
              else Some (stale "Clipboard entry revision changed")
  end.

(** An operation on an entry first checks the revision the caller saw:
    reading, replacing and marking an entry whose revision is another one is
    refused as stale, and one that does not exist as not found; nothing is
    changed, whatever the rest of the request holds. *)
Theorem revision_guards fs id expected mime b value t e :
  tables_wf t → refusal expected (t_entries t !! id) = Some e →
  ideal (db_get id (Some expected)) t = (Err e, t)
  ∧ ideal (replace_body fs id expected mime b) t = (Err e, t)
  ∧ ideal (favorite_body id expected value) t = (Err e, t).
Proof.
  intros Hwf Hr. rewrite ideal_db_get by done. unfold replace_body, favorite_body.
  rewrite !ideal_bind by apply _. rewrite ideal_db_summary by done.
  destruct (t_entries t !! id) as [r|]; cbn in *; [|by injection Hr as <-].
  destruct (bool_decide (expected = e_revision r)); [done|]. by injection Hr as <-.
Qed.

(** ** remove_many *)
Definition current_target (t : Tables) (g : EntryTarget) : Prop :=
  ∃ e, t_entries t !! opaque_id g = Some e ∧ e_revision e = expected_revision g.
Lemma matches_row_iff t g :
  tables_wf t → 0 <= expected_revision g <= u64_max →
  matches_row t g = true ↔ current_target t g.
Proof.
  intros Hwf Hg. unfold matches_row, current_target.
  destruct (t_entries t !! opaque_id g) as [e|] eqn:He; [|naive_solver].
  pose proof (wf_rows t Hwf _ _ He) as (_ & _ & Hrev & _). pose proof (wf_meta t Hwf) as [? _].
  rewrite Z.eqb_eq. unfold as_i64, revision_limit, u64_max, i64_max in *.
  destruct (Z.leb_spec (expected_revision g) 9223372036854775807); [naive_solver|].
  split; [lia|]. intros (e' & [= <-] & ?). lia.
Qed.
Lemma filter_all {A} (P : A → Prop) `{∀ x, Decision (P x)} (l : list A) :
  zlen (filter P l) = zlen l ↔ Forall P l.
Proof.
  induction l as [|x l IH]; [done|]. rewrite filter_cons, Forall_cons.
  pose proof (length_filter P l). unfold zlen in *.
  destruct (decide (P x)); cbn [length]; [|split; [lia|tauto]].
  rewrite !Nat2Z.inj_succ, Z.succ_inj_wd, IH. tauto.
Qed.

(** Deleting many entries is all or nothing: it succeeds exactly when
    every target names an existing entry at its current revision, and then
    removes just those entries; otherwise nothing changes, and the error says
    whether some target does not exist or only its revision is old. *)
Theorem remove_many_all_or_nothing targets t :
  tables_wf t → t_revision t + 1 < revision_limit →
  Forall (λ g, 0 <= expected_revision g <= u64_max) targets →
  (Forall (current_target t) targets →
     ∃ t', runs (remove_many_body targets) t tt t'
           ∧ t_revision t' = t_revision t + 1
           ∧ ∀ id, is_Some (t_entries t' !! id) ↔
                   is_Some (t_entries t !! id) ∧ id ∉ opaque_id <$> targets)
  ∧ (¬ Forall (current_target t) targets →
     ideal (remove_many_body targets) t =
       (Err (if forallb (λ g, entry_exists (opaque_id g) t) targets
             then stale "Clipboard entry revision changed"
             else not_found "Clipboard entry does not exist"), t)).
Proof.
  intros Hwf Hrev Hty.
  assert (Hm : zlen (matching targets t) = zlen targets ↔ Forall (current_target t) targets).
  { unfold matching. rewrite filter_all. clear Hrev. induction Hty as [|g l Hg _ IH]; [done|].
    rewrite !Forall_cons, IH, matches_row_iff by done. done. }
  assert (Hp : zlen (present targets t) = zlen targets ↔
               forallb (λ g, entry_exists (opaque_id g) t) targets = true).
  { unfold present. rewrite filter_all, Forall_forall, forallb_forall. by setoid_rewrite list_elem_of_In. }
  split.
  - intros Hall. exists (set_meta (t_revision t + 1) (t_sequence t)
      (delete_entries (λ id _, memb id (opaque_id <$> targets)) t)).
    split_and!; [|done|].
    + unfold remove_many_body, runs. rewrite ideal_bind, ideal_rows by apply _.
      rewrite (proj2 (Z.eqb_eq _ _) (proj2 Hm Hall)). cbn [negb].
      rewrite ideal_bind, ideal_exec by apply _. unfold delete_entries_stmt.
      unfold bump. rewrite !ideal_bind, ideal_exec by apply _. unfold bump_stmt.
      pose proof (wf_meta t Hwf) as [? ?].
      rewrite (proj2 (meta_ok_iff _ _)) by (cbn; unfold revision_limit in *; lia). done.
    + intros id. cbn [t_entries set_meta]. split.
      * intros [e' He']. apply delete_entries_row in He' as (e & He & Hk & _). unfold memb in Hk.
        bools. by rewrite He.
      * intros [[e He] Hn]. destruct (delete_entries_keep (λ id _, memb id (opaque_id <$> targets)) t id e He)
          as (e' & -> & _); [|done]. unfold memb. by apply bool_decide_eq_false.
  - intros Hno. unfold remove_many_body. rewrite ideal_bind, ideal_rows by apply _.
    destruct (Z.eqb_spec (zlen (matching targets t)) (zlen targets)); [tauto|]. cbn [negb].
    rewrite ideal_bind, ideal_rows by apply _.
    destruct (Z.eqb_spec (zlen (present targets t)) (zlen targets)) as [Heq|Hne]; cbn [negb].
    + by rewrite (proj1 Hp Heq).
    + destruct (forallb _ _) eqn:Hf; [tauto|done].
Qed.

(** ** insert *)
Lemma evicts_survivor t t' id e' :
  evicts t t' → t_entries t' !! id = Some e' →
  ∃ e, t_entries t !! id = Some e ∧ same_row e e' ∧ t_payloads t' !! id = t_payloads t !! id.
Proof.
  intros Hev. revert e'. induction Hev as [t|t1 t2 t3 [p ->] _ IH]; intros e' He'.
  - exists e'. split_and!; [done|by destruct e'|done].
  - apply IH in He' as (e2 & He2 & Hr2 & ->). apply delete_entries_row in He2 as (e1 & He1 & Hp & Hr1 & _).
    exists e1. split_and!; [done|unfold same_row in *; rewrite Hr2, Hr1; by destruct e1|].
    apply option_eq. intros b. rewrite delete_entries_payload, He1. tauto.
Qed.

Lemma candidates_head mime b t id :
  head (candidates mime b t) = Some id →
  ∃ e, t_entries t !! id = Some e ∧ e_mime e = mime ∧ t_payloads t !! id = Some b.
Proof.
  intros Hh. assert (Hin : id ∈ candidates mime b t).
  { destruct (candidates mime b t); [done|]. injection Hh as ->. by left. }
  unfold candidates in Hin. apply list_elem_of_fmap in Hin as ([i e] & -> & Hin).
  rewrite elem_of_order_by, list_elem_of_filter, elem_of_map_to_list in Hin. cbn in *.
  destruct Hin as [(_ & ? & _ & ?) ?]. eauto.
Qed.

(** What a successful insertion of [b] under [mime] tells and leaves. *)
Record inserted (uuid mime : string) (b : bytes) (t : Tables) (s : EntrySummary) (t' : Tables) : Prop := {
  in_allowed : admission (t_policy t) = true ∧ zlen b <= max_entry_bytes (t_policy t)
               ∧ zlen b <= max_total_bytes (t_policy t);
  in_entry : ∃ e, t_entries t' !! s_id s = Some e ∧ s = summary_of (t_entries t') (s_id s) e
                  ∧ e_mime e = mime;
  in_payload : t_payloads t' !! s_id s = Some b;
  in_current : s_current s = true;
  in_identity : match head (candidates mime b t) with
                | Some id => s_id s = id ∧ is_Some (t_entries t !! id)
                | None => s_id s = ("entry-" ++ uuid)%string ∧ t_entries t !! s_id s = None
                end;
  in_others : ∀ i e', i ≠ s_id s → t_entries t' !! i = Some e' →
    ∃ e, t_entries t !! i = Some e ∧ same_row e e' ∧ t_payloads t' !! i = t_payloads t !! i;
  in_again : ∀ id e, head (candidates mime b t) = Some id → t_entries t !! id = Some e →
    e_recency e = max_recency (t_entries t) → t' = t;
}.

(** The tail of an insertion: the row [id], ranked above all others, goes
    through retention and is summarised. *)
Lemma insert_tail p id e t1 t2 u s t' :
  runs (retain p (Some id)) t1 u t2 → runs (db_summary id None) t2 s t' →
  tables_wf t1 → t_policy t1 = p → t_entries t1 !! id = Some e → e_byte_size e <= max_entry_bytes p →
  (∀ i ei, t_entries t1 !! i = Some ei → e_recency ei <= e_recency e) →
  s_id s = id ∧ s_current s = true ∧ t_payloads t' !! id = t_payloads t1 !! id
  ∧ (∃ e', t_entries t' !! id = Some e' ∧ s = summary_of (t_entries t') id e' ∧ same_row e e')
  ∧ evicts t1 t'.
Proof.
  intros Hr Hs Hwf Hp He Hsize Htop. destruct u.
  destruct (retain_ok _ _ _ _ Hr Hwf Hp) as [[Hwf2 _] Hev].
  { intros i ei [= <-]. rewrite He. by intros [= <-]. }
  apply summary_runs in Hs as (-> & e' & He' & -> & _); [|done].
  destruct (evicts_survivor _ _ _ _ Hev He') as (e0 & He0 & Hrow & Hpay).
  rewrite He in He0. injection He0 as <-. split_and!; try done; [|by exists e'].
  cbn. apply bool_decide_eq_true. symmetry. apply (max_recency_top _ _ _ He').
  - destruct (wf_rows _ Hwf2 _ _ He') as (_ & _ & _ & ? & _). lia.
  - intros i ei Hei. destruct (evicts_survivor _ _ _ _ Hev Hei) as (ei0 & Hei0 & -> & _).
    rewrite Hrow; cbn. eauto.
Qed.

Lemma insert_again id e revision recency t t1 t2 t3 t4 u s t' :
  runs bump t revision t1 → runs next_sequence t1 recency t2 →
  update_entry_stmt id (set_rank (as_i64 revision) recency) t2 = Some t3 →
  runs (retain (t_policy t) (Some id)) t3 u t4 → runs (db_summary id None) t4 s t' →
  tables_ok t → t_entries t !! id = Some e →
  s_id s = id ∧ s_current s = true ∧ t_payloads t' !! id = t_payloads t !! id
  ∧ (∃ e', t_entries t' !! id = Some e' ∧ s = summary_of (t_entries t') id e' ∧ e_mime e' = e_mime e)
  ∧ ∀ i e', i ≠ id → t_entries t' !! i = Some e' →
      ∃ e, t_entries t !! i = Some e ∧ same_row e e' ∧ t_payloads t' !! i = t_payloads t !! i.
Proof.
  intros Hb Hs Hu Hr Hsum Hok He. pose proof Hok as [Hwf Hl].
  apply bumped in Hb as (Hwf1 & -> & -> & Hi & _); [|done].
  pose proof (wf_next_sequence _ _ _ Hs Hwf1) as Hwf2.
  apply next_sequence_runs in Hs as (_ & -> & ->). cbn in Hu. rewrite Hi in Hu.
  pose proof (wf_rows t Hwf id e He) as (_ & _ & ? & ? & _).
  destruct (wf_update _ _ _ _ e Hu Hwf2 He) as [Hwf3 ->]; cbn; try done; try lia; auto.
  { right. intros i ei Hei. pose proof (wf_row_below t i ei Hwf Hei). lia. }
  eapply insert_tail in Hr as (Hid & Hc & Hp & (e' & He' & Hse & Hrow) & Hev); [|exact Hsum|done|done| | |].
  2: by cbn; rewrite lookup_insert_eq.
  2: by cbn; apply (limits_each t id).
  2: { cbn. intros i ei. destruct (decide (i = id)) as [->|Hne].
       - rewrite lookup_insert_eq. intros [= <-]. cbn. lia.
       - rewrite lookup_insert_ne by done. intros Hei. pose proof (wf_row_below t i ei Hwf Hei). lia. }
  split_and!; try done.
  - exists e'. split_and!; [done..|]. by rewrite Hrow.
  - intros i ei Hne Hei. destruct (evicts_survivor _ _ _ _ Hev Hei) as (e0 & He0 & ? & ?).
    cbn in He0. rewrite lookup_insert_ne in He0 by done. eauto.
Qed.

Lemma insert_fresh fs uuid mime b c revision recency t t1 t2 t3 t4 t5 u v s t' :
  let id := ("entry-" ++ uuid)%string in
  runs bump t revision t1 → runs next_sequence t1 recency t2 →
  insert_entry_stmt id (new_entry revision recency mime b c) t2 = Some t3 →
  runs (write_content fs id mime b c) t3 v t4 →
  runs (retain (t_policy t) (Some id)) t4 u t5 → runs (db_summary id None) t5 s t' →
  tables_ok t → zlen b <= max_entry_bytes (t_policy t) →
  t_entries t !! id = None ∧ s_id s = id ∧ s_current s = true ∧ t_payloads t' !! id = Some b
  ∧ (∃ e', t_entries t' !! id = Some e' ∧ s = summary_of (t_entries t') id e' ∧ e_mime e' = mime)
  ∧ ∀ i e', i ≠ id → t_entries t' !! i = Some e' →
      ∃ e, t_entries t !! i = Some e ∧ same_row e e' ∧ t_payloads t' !! i = t_payloads t !! i.
Proof.
  intros id Hb Hs Hins Hw Hr Hsum Hok Hsize. pose proof Hok as [Hwf Hl]. destruct v.
  destruct (insert_new_written _ _ _ _ _ _ _ _ _ _ _ _ Hb Hs Hins Hw Hwf)
    as (Hnew & Hwf4 & Hpol & Hpay & (e & He & Hmime & Hsz & Hrec) & Hothers). fold id in Hpay, He, Hothers.
  split; [done|].
  eapply insert_tail in Hr as (Hid & Hc & Hp & (e' & He' & Hse & Hrow) & Hev); [|exact Hsum|done|done|exact He|lia|].
  - split_and!; try done.
    + by rewrite Hp, Hpay, lookup_insert_eq.
    + exists e'. split_and!; [done..|]. by rewrite Hrow.
    + intros i ei Hne Hei. destruct (evicts_survivor _ _ _ _ Hev Hei) as (e0 & He0 & ? & Hpi).
      rewrite (Hothers i Hne) in He0. rewrite Hpay, lookup_insert_ne in Hpi by done. eauto.
  - intros i ei. destruct (decide (i = id)) as [->|Hne]; [intros; by simplify_eq|].
    rewrite (Hothers i Hne). intros Hei. pose proof (wf_row_below t i ei Hwf Hei). lia.
Qed.

Lemma insert_runs fs uuid mime b t s t' :
  tables_ok t → runs (insert_body fs uuid mime b) t s t' → inserted uuid mime b t s t'.
Proof.
  intros Hok Hr. pose proof Hok as [Hwf Hl]. unfold insert_body in Hr. run_inv.
  match goal with H : runs db_policy _ _ _ |- _ => apply db_policy_runs in H as [-> ->]; [|apply Hwf] end.
  destruct (admission _) eqn:Hadm; cbn [negb] in Hr; run_inv.
  match goal with H : allowed_payload _ _ = Ok _ |- _ => apply allowed_payload_Ok in H as [Hb1 Hb2] end.
  destruct (head (candidates _ _ _)) as [id|] eqn:Hh; run_inv.
  - match goal with H : runs (db_summary _ _) _ _ _ |- _ =>
      apply summary_runs in H as (-> & e & He & -> & _); [|done] end.
    destruct (candidates_head _ _ _ _ Hh) as (e0 & He0 & Hmime & Hpay).
    rewrite He in He0. injection He0 as <-.
    destruct (s_current _) eqn:Hc; run_inv.
    + split; try done; cbn [s_id summary_of].
      * by exists e.
      * by rewrite Hh, He.
      * intros i ei Hne Hei. exists ei. split_and!; [done|by destruct ei|done].
    + cbn [s_id summary_of s_current] in *. bools.
      match goal with H : runs bump _ _ _ |- _ => rename H into Hb end.
      match goal with H : runs next_sequence _ _ _ |- _ => rename H into Hs end.
      match goal with H : runs (retain _ _) _ _ _ |- _ => rename H into Hret end.
      match goal with H : runs (db_summary _ None) _ _ _ |- _ => rename H into Hsum end.
      match goal with H : update_entry_stmt _ _ _ = Some _ |- _ => rename H into Hu end.
      destruct (insert_again _ _ _ _ _ _ _ _ _ _ _ _ Hb Hs Hu Hret Hsum Hok He)
        as (Hid & Hc2 & Hp & (e' & He' & Hse & Hm) & Hothers).
      split; rewrite ?Hid; try done.
      * exists e'. by rewrite Hm.
      * by rewrite Hp.
      * by rewrite Hh, He.
      * intros i ei. rewrite Hh. intros [= <-] Hei. rewrite He in Hei. by injection Hei as <-.
  - destruct (max_entries _ =? 0); run_inv.
    match goal with H : runs bump _ _ _ |- _ => rename H into Hb end.
    match goal with H : runs next_sequence _ _ _ |- _ => rename H into Hs end.
    match goal with H : runs (retain _ _) _ _ _ |- _ => rename H into Hret end.
    match goal with H : runs (db_summary _ None) _ _ _ |- _ => rename H into Hsum end.
    match goal with H : runs (write_content _ _ _ _ _) _ _ _ |- _ => rename H into Hw end.
    match goal with H : insert_entry_stmt _ _ _ = Some _ |- _ => rename H into Hins end.
    destruct (insert_fresh _ _ _ _ _ _ _ _ _ _ _ _ _ _ _ _ _ Hb Hs Hins Hw Hret Hsum Hok Hb1)
      as (Hnew & Hid & Hc & Hp & (e' & He' & Hse & Hm) & Hothers).
    split; rewrite ?Hid; try done.
    + by exists e'.
    + by rewrite Hh.
    + intros i ei Hx. by rewrite Hh in Hx.
Qed.

(** C4 A successful insertion stores exactly the bytes and MIME it was given
    as the current entry: re-observed bytes reuse their entry (changing
    nothing when it is already current) instead of being stored twice, new
    bytes get a new entry, no other entry is touched except by eviction, and
    it happens only while admission is open and within the payload limits. *)
Theorem insert_exact fs uuid mime b t s t' :
  tables_ok t → runs (insert_body fs uuid mime b) t s t' → inserted uuid mime b t s t'.
Proof. apply insert_runs. Qed.

(** Reading [id] at the reported revision yields these bytes under this MIME. *)
Definition reads_back (s : EntrySummary) (mime : string) (b : bytes) (t : Tables) : Prop :=
  ideal (db_get (s_id s) (Some (s_revision s))) t = (Ok (mkStored s mime b), t).

(** C5 What was inserted can be read back: [get] at the identifier and
    revision the insertion reported returns the same bytes under the same
    captured MIME, with the reported summary, and changes nothing. *)
Theorem insert_get fs uuid mime b t s t' :
  tables_ok t → runs (insert_body fs uuid mime b) t s t' →
  reads_back s mime b t'.
Proof.
  unfold reads_back. intros Hok Hr. pose proof (insert_body_preserves _ _ _ _ _ _ _ Hr Hok) as [Hwf' _].
  destruct (insert_runs _ _ _ _ _ _ _ Hok Hr) as [_ (e & He & Hs & <-) Hp _ _ _ _].
  rewrite ideal_db_get, He by done. cbn [default].
  assert (Hrev : s_revision s = e_revision e) by by rewrite Hs.
  rewrite bool_decide_true by done. unfold bytes in *. by rewrite Hp, <- Hs.
Qed.

(** A row that forgets the entry it echoes, when that entry is gone. *)
Definition unlink (gone : string → bool) (e : EntryRow) : EntryRow :=
  match e_echo_source_id e with Some s => if gone s then set_echo None e else e | None => e end.
Lemma cleared_unlink id es : cleared id es = unlink (λ s, bool_decide (s = id)) <$> es.
Proof.
  unfold cleared, unlink. apply map_fmap_ext. intros i e _. destruct (e_echo_source_id e) as [s|]; [|by rewrite decide_False].
  case_bool_decide as Hs; [by rewrite decide_True by congruence|by rewrite decide_False by congruence].
Qed.
(** What a replacement of [id] by the row [row] and the bytes [b] leaves: the
    others lose their echo link to [id], and retention removes exactly the rows
    whose bytes, added to those of all rows ranked before, exceed the limit on
    the total, together with the echo links to them. *)
Record rewritten (id : string) (row : EntryRow) (b : bytes) (t t' : Tables) : Prop := {
  rw_entries : let es := <[id := row]> (unlink (λ s, bool_decide (s = id)) <$> t_entries t) in
    let gone := over_budget (max_total_bytes (t_policy t)) id es in
    ∀ i, t_entries t' !! i = if gone i then None else unlink gone <$> es !! i;
  rw_payloads : let es := <[id := row]> (unlink (λ s, bool_decide (s = id)) <$> t_entries t) in
    let gone := over_budget (max_total_bytes (t_policy t)) id es in
    ∀ i, t_payloads t' !! i = if gone i then None else <[id := b]> (t_payloads t) !! i;
  rw_fits : let es := <[id := row]> (unlink (λ s, bool_decide (s = id)) <$> t_entries t) in
    total_bytes es <= max_total_bytes (t_policy t) → t_entries t' = es ∧ t_payloads t' = <[id := b]> (t_payloads t);
}.
Lemma delete_over limit id t :
  let gone := over_budget limit id (t_entries t) in
  (∀ i, t_entries (delete_entries (λ i _, gone i) t) !! i = if gone i then None else unlink gone <$> t_entries t !! i)
  ∧ (∀ i, t_payloads (delete_entries (λ i _, gone i) t) !! i = if gone i then None else t_payloads t !! i).
Proof.
  intros gone.
  assert (Hgone : ∀ i, match t_entries t !! i with Some _ => gone i | None => false end = gone i).
  { intros i. subst gone. unfold over_budget. by destruct (t_entries t !! i). }
  unfold delete_entries. cbn. split; intros i.
  - rewrite lookup_fmap, map_lookup_filter. destruct (t_entries t !! i) as [e|] eqn:He; cbn; [|by destruct (gone i)].
    destruct (gone i); cbn; [done|]. rewrite option_guard_True by done. cbn. f_equal. unfold unlink.
    destruct (e_echo_source_id e); [by rewrite Hgone|done].
  - rewrite map_lookup_filter. destruct (t_payloads t !! i) as [x|]; cbn; [|by destruct (gone i)].
    rewrite Hgone. by destruct (gone i).
Qed.
(** The rewritten row keeps its category, so only the total can be exceeded. *)
Lemma retain_replaced p id t7 u t8 row b t :
  runs (retain p (Some id)) t7 u t8 → tables_ok t → tables_wf t7 → t_policy t = p → t_policy t7 = p →
  t_entries t7 = <[id := row]> (cleared id (t_entries t)) → t_payloads t7 = <[id := b]> (t_payloads t) →
  (∃ e, t_entries t !! id = Some e ∧ e_favorite row = e_favorite e) → e_byte_size row <= max_entry_bytes p →
  rewritten id row b t t8.
Proof.
  intros Hret [Hwf [Hl1 Hl2 Hl3 Hl4]] Hwf7 <- Hp7 He7 Hb7 (e & He & Hfav) Hsize. destruct u.
  pose proof (wf_sizes _ Hwf7) as Hnn. pose proof (wf_policy t Hwf) as Hpr.
  assert (Hrow : ∀ i x, t_entries t7 !! i = Some x →
    ∃ x0, t_entries t !! i = Some x0 ∧ e_favorite x = e_favorite x0 ∧ e_byte_size x <= max_entry_bytes (t_policy t)).
  { intros i x. rewrite He7. intros [[<- <-]|[_ Hx]]%lookup_insert_Some; [by exists e|].
    apply cleared_lookup in Hx as (x0 & Hx0 & Hsame & _). exists x0. rewrite Hsame. cbn. split_and!; [done|done|by apply (Hl1 i)]. }
  assert (Hcount : ∀ f, count f (t_entries t7) <= count f (t_entries t)) by (intros f; apply count_favorites; intros i x Hx; destruct (Hrow i x Hx) as (x0 & ? & ? & _); by exists x0).
  apply retain_over in Hret as ->; [|done|intros i x Hx; by destruct (Hrow i x Hx) as (? & _ & _ & ?)|
    etrans; [apply Hcount|done]..].
  cbn [default]. destruct (delete_over (max_total_bytes (t_policy t)) id t7) as [H1 H2].
  rewrite He7, cleared_unlink, Hb7 in *. split; cbn zeta; [exact H1|exact H2|].
  intros Hfit. rewrite delete_entries_none; [by rewrite He7, Hb7|]. intros i x _.
  by apply over_budget_none.
Qed.

Lemma replace_runs fs id expected mime b t s t' :
  tables_ok t → runs (replace_body fs id expected mime b) t s t' →
  ∃ e e', t_entries t !! id = Some e ∧ e_revision e = expected
    ∧ t_entries t' !! id = Some e' ∧ s = summary_of (t_entries t') id e'
    ∧ t_payloads t' !! id = Some b ∧ e_mime e' = mime
    ∧ e_revision e' = t_revision t + 1 ∧ expected < e_revision e'
    ∧ e_favorite e' = e_favorite e ∧ e_recency e' = e_recency e
    ∧ (∀ i ei, i ≠ id → t_entries t' !! i = Some ei →
        ∃ e0, t_entries t !! i = Some e0 ∧ same_row e0 ei ∧ t_payloads t' !! i = t_payloads t !! i)
    ∧ total_bytes (t_entries t') <= max_total_bytes (t_policy t)
    ∧ ∃ row, same_row row e' ∧ e_byte_size row = zlen b ∧ rewritten id row b t t'.
Proof.
  intros Hok Hr. pose proof Hok as [Hwf Hl].
  apply replace_inv in Hr as (e & t7 & t8 & He & -> & Hb & _ & Hw & Hpol & Hrev & Hpay
    & (e7 & He7 & Hrow7) & Hothers & Hret & Hs & (row & Hes7) & Hps7); [|done].
  assert (Hrowe : row = e7) by (rewrite Hes7, lookup_insert_eq in He7; by injection He7). subst row.
  assert (Hrw : rewritten id e7 b t t8).
  { eapply retain_replaced; [exact Hret|done..| |].
    - exists e. split; [done|]. by rewrite Hrow7.
    - rewrite Hrow7. done. }
  apply retain_ok in Hret as [[Hwf8 Hl8] Hev]; [|done|done|].
  2: { intros i ei [= <-]. rewrite He7. intros [= <-]. rewrite Hrow7. done. }
  apply summary_runs in Hs as (-> & e' & He' & -> & _); [|done].
  destruct (evicts_survivor _ _ _ _ Hev He') as (e7' & H7 & Hrow & Hp). rewrite He7 in H7. injection H7 as <-.
  pose proof (wf_rows t Hwf id e He) as (_ & _ & ? & _). pose proof (wf_meta t Hwf) as [? _].
  assert (Hi : as_i64 (t_revision t + 1) = t_revision t + 1).
  { apply as_i64_small. unfold revision_limit, i64_max in *. lia. }
  exists e, e'. split_and!; try done.
  - by rewrite Hp.
  - by rewrite Hrow, Hrow7.
  - rewrite Hrow, Hrow7. done.
  - rewrite Hrow, Hrow7. cbn. lia.
  - by rewrite Hrow, Hrow7.
  - by rewrite Hrow, Hrow7.
  - intros i ei Hne Hei. destruct (evicts_survivor _ _ _ _ Hev Hei) as (e0 & He0 & Hr0 & Hp0).
    apply Hothers in He0 as (e1 & He1 & Hr1 & Hp1); [|done]. exists e1. split_and!; [done| |congruence].
    unfold same_row in *. rewrite Hr0, Hr1. by destruct e1.
  - destruct (evicts_frame _ _ Hev) as (Hp8 & _). rewrite <- Hpol, <- Hp8. apply Hl8.
  - exists e7. split_and!; [done|by rewrite Hrow7|done].
Qed.
(** C31 A successful replacement rewrites one entry in place: same identifier,
    rank and favorite mark, a new revision, exactly the new bytes and MIME.
    Of the other entries nothing changes but their echo links: those to the
    rewritten entry, and to evicted entries, are cleared.  When the total with
    the new bytes is within the limit of the policy, no entry is evicted; when
    it is not, exactly the entries whose bytes, with those of all entries that
    rank before them, exceed it are removed with their payloads, never the
    rewritten one, and the total is within the limit again. *)
Theorem replace_exact fs id expected mime b t s t' :
  tables_ok t → runs (replace_body fs id expected mime b) t s t' →
  ∃ e e', t_entries t !! id = Some e ∧ e_revision e = expected
    ∧ t_entries t' !! id = Some e' ∧ s = summary_of (t_entries t') id e'
    ∧ t_payloads t' !! id = Some b ∧ e_mime e' = mime
    ∧ e_revision e' = t_revision t + 1 ∧ expected < e_revision e'
    ∧ e_favorite e' = e_favorite e ∧ e_recency e' = e_recency e
    ∧ (∀ i ei, i ≠ id → t_entries t' !! i = Some ei →
        ∃ e0, t_entries t !! i = Some e0 ∧ same_row e0 ei ∧ t_payloads t' !! i = t_payloads t !! i)
    ∧ total_bytes (t_entries t') <= max_total_bytes (t_policy t)
    ∧ ∃ row, same_row row e' ∧ e_byte_size row = zlen b ∧ rewritten id row b t t'.
Proof. apply replace_runs. Qed.

(** ** The change token *)
Definition contents (t : Tables) := (t_entries t, t_payloads t, t_search t).
Definition advances (t t' : Tables) : Prop :=
  (contents t' = contents t ∧ t_revision t <= t_revision t') ∨ t_revision t < t_revision t'.
#[export] Instance advances_refl : Reflexive advances.
Proof. intros t. left. split; [done|lia]. Qed.
#[export] Instance advances_trans : Transitive advances.
Proof. unfold advances. intros t1 t2 t3 [[? ?]|?] [[? ?]|?]; [left; split; [congruence|lia]|right; lia..]. Qed.
Lemma advances_eq t t' : advances t t' → t_revision t' = t_revision t → contents t' = contents t.
Proof. intros [[? _]|?] ?; [done|lia]. Qed.

Lemma retain_rev p o t u t' : runs (retain p o) t u t' → t_revision t' = t_revision t.
Proof.
  destruct u. intros (t1 & t2 & t3 & H1 & H2 & H3 & H4 & _)%retain_inv.
  injection H1 as <-. injection H2 as <-. injection H3 as <-. by injection H4 as <-.
Qed.
Lemma write_content_rev fs id mime b c t u t' :
  runs (write_content fs id mime b c) t u t' → t_revision t' = t_revision t.
Proof. destruct u. intros (_ & _ & _ & -> & _)%write_content_runs. done. Qed.
Lemma summary_rev id o t s t' : runs (db_summary id o) t s t' → t' = t.
Proof. by intros [-> _]%db_summary_runs. Qed.
Lemma update_entry_rev id f t t' : update_entry_stmt id f t = Some t' → t_revision t' = t_revision t.
Proof.
  unfold update_entry_stmt, checked_stmt. destruct (t_entries t !! id); [|by intros [= <-]].
  destruct (entry_ok _); [by intros [= <-]|done].
Qed.
Lemma update_entry_at_rev id r f t t' : update_entry_at_stmt id r f t = Some t' → t_revision t' = t_revision t.
Proof.
  unfold update_entry_at_stmt. destruct (t_entries t !! id); [|by intros [= <-]].
  destruct (_ =? _); [apply update_entry_rev|by intros [= <-]].
Qed.
Lemma insert_entry_rev id e t t' : insert_entry_stmt id e t = Some t' → t_revision t' = t_revision t.
Proof.
  unfold insert_entry_stmt, checked_stmt. destruct (t_entries t !! id); [done|].
  destruct (entry_ok _); [by intros [= <-]|done].
Qed.

(** Collect what every step of a run did to the counter. *)
Ltac revs :=
  repeat match goal with
  | H : runs (retain _ _) _ _ _ |- _ => apply retain_rev in H
  | H : runs (write_content _ _ _ _ _) _ _ _ |- _ => apply write_content_rev in H
  | H : runs (db_summary _ _) _ _ _ |- _ => apply summary_rev in H; subst
  | H : runs bump _ _ _ |- _ => apply bump_runs in H as (_ & ? & _); subst
  | H : runs next_sequence _ _ _ |- _ => apply next_sequence_runs in H as (_ & ? & _); subst
  | H : runs db_policy _ _ _ |- _ => unfold db_policy in H; run_inv
  | H : update_entry_stmt _ _ _ = Some _ |- _ => apply update_entry_rev in H
  | H : update_entry_at_stmt _ _ _ _ = Some _ |- _ => apply update_entry_at_rev in H
  | H : insert_entry_stmt _ _ _ = Some _ |- _ => apply insert_entry_rev in H
  | H : clear_echoes_stmt _ _ = Some _ |- _ => injection H as <-
  | H : delete_payload_stmt _ _ = Some _ |- _ => injection H as <-
  | H : delete_search_stmt _ _ = Some _ |- _ => injection H as <-
  | H : delete_entry_artifacts_stmt _ _ = Some _ |- _ => injection H as <-
  | H : delete_entries_stmt _ _ = Some _ |- _ => injection H as <-
  | H : clear_inline_echoes_stmt _ = Some _ |- _ => injection H as <-
  | H : trim_echoes_stmt _ _ = Some _ |- _ => injection H as <-
  | H : close_admission_stmt _ = Some _ |- _ => injection H as <-
  | H : delete_artifact_stmt _ _ = Some _ |- _ => injection H as <-
  end; cbn in *.

Lemma insert_advances fs uuid mime b t s t' : runs (insert_body fs uuid mime b) t s t' → advances t t'.
Proof.
  intros Hr. unfold insert_body in Hr. run_inv.
  destruct (negb _); run_inv. destruct (head _) as [id|]; run_inv.
  - destruct (s_current _); run_inv; revs; [left; split; [done|lia]|right; cbn; lia].
  - destruct (max_entries _ =? 0); run_inv. revs. right. cbn. lia.
Qed.
Lemma replace_advances fs id r mime b t s t' : runs (replace_body fs id r mime b) t s t' → advances t t'.
Proof. intros Hr. unfold replace_body in Hr. run_inv. revs. right. cbn. lia. Qed.
Lemma favorite_advances id r v t u t' : runs (favorite_body id r v) t u t' → advances t t'.
Proof.
  intros Hr. unfold favorite_body in Hr. run_inv. destruct (bool_decide _); run_inv; [revs; left; split; [done|lia]|].
  destruct (_ || _); run_inv. revs. right. cbn. lia.
Qed.
Lemma apply_policy_advances p t u t' : runs (apply_policy_body p) t u t' → advances t t'.
Proof.
  intros Hr. unfold apply_policy_body in Hr. run_inv. case_decide; run_inv; [revs; left; split; [done|lia]|].
  match goal with H : update_policy_stmt _ _ = Some _ |- _ =>
    unfold update_policy_stmt, checked_stmt in H; destruct (policy_ok _); [injection H as <-|done] end.
  revs. right. cbn. lia.
Qed.
Lemma registry_advances {A} (body : SqlT A) t a t' :
  (∀ u b v, runs body u b v → (contents v, t_revision v) = (contents u, t_revision u)) → runs body t a t' → advances t t'.
Proof. intros Hb Hr. apply Hb in Hr as [= ? ? ? ?]. left. unfold contents. split; [congruence|lia]. Qed.

Lemma call_advances {A} (c : Call A) t t' :
  match c with Transact body => ∀ a, runs body t a t' → advances t t' | _ => True end →
  call_effect c t = Some t' → advances t t'.
Proof.
  destruct c as [e|a|body]; cbn; [done|by intros _ [= <-]|]. unfold runs.
  destruct (ideal body t) as [[a|e] t1]; [|done]. intros Hb [= ->]. by apply (Hb a).
Qed.

(** The change token tells the truth: whenever an operation changes any
    entry, payload or search row, the store revision it leaves is strictly
    larger, and it never falls. *)
Lemma revision_advances o t t' : effect o t = Some t' → advances t t'.
Proof.
  intros He. destruct o; cbn [effect] in He; apply call_advances in He; try done.
  - intros a. apply insert_advances.
  - intros a. apply replace_advances.
  - intros a. apply favorite_advances.
  - unfold remove_many. destruct (bool_decide _); [done|]. intros a Hr. unfold remove_many_body in Hr.
    run_inv. destruct (negb _); run_inv; [destruct (negb _); by run_inv|]. revs. right. cbn. lia.
  - intros a Hr. unfold wipe_body in Hr. run_inv. revs. right. cbn. lia.
  - unfold apply_policy. destruct (valid_policy _); [|done]. intros a. apply apply_policy_advances.
  - unfold register_artifact. destruct (negb (utf8_valid _)); [done|]. destruct (_ || _); [done|].
    intros a. apply registry_advances. intros u b v Hr. unfold register_artifact_body in Hr. run_inv.
    match goal with H : runs (if ?c then _ else _) ?x _ ?w |- _ =>
      assert (w = x) as -> by (destruct c; by run_inv) end.
    destruct (negb _); run_inv. unfold upsert_artifact_stmt, checked_stmt in Hr.
    destruct (_ && _); [|done]. by injection Hr as <-.
  - unfold forget_artifact. destruct (negb _); [done|]. intros a. apply registry_advances.
    intros u b v Hr. run_inv. by revs.
  - unfold register_inline_echo. destruct (_ || _); [done|]. intros a. apply registry_advances.
    intros u b v Hr. run_inv. revs.
    match goal with H : upsert_echo_stmt _ _ _ = Some _ |- _ =>
      unfold upsert_echo_stmt, checked_stmt in H; destruct (_ <=? _); [by injection H as <-|done] end.
  - intros a. apply registry_advances. intros u b v Hr. run_inv. by revs.
  - intros a. apply registry_advances. intros u b v Hr. unfold close_body in Hr. run_inv. by revs.
  - intros a. apply registry_advances. intros u b v Hr. unfold close_body in Hr. run_inv. by revs.
Qed.
End spec.
