(* ===== verification/Query.v ===== *)
(** * Query: searching and paging, [Database::query] of
    [history_store/database.rs], against its reference meaning. *)
From Stdlib Require Import Ascii.
From S2P Require Import Prelude Text Externals Model Classification Content Sql Tables Database Retention Invariant Preservation History HistorySpec.
Local Open Scope Z_scope.

(** ** search_gram *)

(** [BTreeSet<&str>]: sorted by bytes, without duplicates. *)
Fixpoint set_insert (x : string) (l : list string) : list string :=
  match l with
  | [] => [x]
  | y :: l' => if decide (x = y) then l
               else if decide (String.le x y) then x :: l
               else y :: set_insert x l'
  end.
(** [needle.split(|c| !keep(c))]. *)
Fixpoint split_chars (keep : Z → bool) (cur cs : list Z) : list (list Z) :=
  match cs with
  | [] => [reverse cur]
  | c :: cs' => if keep c then split_chars keep (c :: cur) cs'
                else reverse cur :: split_chars keep [] cs'
  end.
(** Every three consecutive characters. *)
Fixpoint windows3 (w : list Z) : list (list Z) :=
  match w with
  | a :: ((b :: c :: _) as r) => [a; b; c] :: windows3 r
  | _ => []
  end.
(** The loop stops once the set holds 32 terms. *)
Fixpoint collect_grams (terms : list string) (grams : list string) : list string :=
  match grams with
  | [] => terms
  | g :: gs => let terms' := set_insert g terms in
               if zlen terms' =? 32 then terms' else collect_grams terms' gs
  end.
Definition quote (t : string) : string := (String "034" (t ++ String "034" EmptyString))%string.
Fixpoint join (sep : string) (l : list string) : string :=
  match l with
  | [] => EmptyString
  | [x] => x
  | x :: l' => (x ++ sep ++ join sep l')%string
  end.

Section query.
Context `{Externals}.

Definition search_terms (needle : string) : list string :=
  collect_grams [] (of_chars <$> mjoin (windows3 <$> split_chars char_is_alphanumeric [] (chars needle))).
Definition fts_query (terms : list string) : string := join " AND " (quote <$> terms).
Definition search_gram (needle : string) : option string :=
  let terms := search_terms needle in
  if bool_decide (terms = []) then None else Some (fts_query terms).

(** ** The statements *)

(** The newest entry, or the source it echoes. *)
Definition current_row (collapse : bool) (t : Tables) : option (string * EntryRow) :=
  '(id, e) ← head (order_by by_recency (map_to_list (t_entries t)));
  let target := if collapse then default id (e_echo_source_id e) else id in
  e' ← t_entries t !! target;
  Some (target, e').
Definition visible (collapse : bool) (e : EntryRow) : bool :=
  negb collapse || bool_decide (e_echo_source_id e = None).
(** The [FROM .. WHERE ..] shared by the page and the count. *)
Definition row_matches (needle : string) (gram : option string) (collapse : bool) (t : Tables)
    (r : string * EntryRow) : bool :=
  if bool_decide (needle = EmptyString) then visible collapse r.2
  else
    match t_search t !! r.1 with
    | None => false
    | Some s =>
        str_contains needle (sc_content s) && visible collapse r.2
        && match gram with
           | Some g => fts_match (sc_indexed_content s) g || negb (sc_indexed_complete s)
           | None => true
           end
    end.
Definition matching_rows (needle : string) (collapse : bool) (t : Tables) : list (string * EntryRow) :=
  order_by by_favorite
    (filter (λ r, row_matches needle (search_gram needle) collapse t r = true)
            (map_to_list (t_entries t))).

Definition set_current (c : bool) (s : EntrySummary) : EntrySummary :=
  mkSummary (s_id s) (s_revision s) (s_kind s) (s_mime s) (s_byte_size s) (s_favorite s) c (s_preview s).

Fixpoint collect_results {A} (l : list (BackendResult A)) : BackendResult (list A) :=
  match l with
  | [] => Ok []
  | r :: l' => x ← r; xs ← collect_results l'; mret (x :: xs)
  end.

(** ** query *)
Definition db_query (q : HistoryQuery) : SqlT HistoryPage :=
  let needle := to_lowercase (trim (q_query q)) in
  let limit := Z.min (q_limit q) MAX_QUERY_LIMIT in
  let offset := Z.min (q_offset q) i64_max in
  let collapse := q_collapse_self_echoes q in
  found ← rows (λ t, decode_summary (t_entries t) <$> current_row collapse t);
  current ← sql_result match found with
                       | None => Ok None
                       | Some r => Some <$> r
                       end;
  let current := set_current true <$> current in
  selected ← rows (λ t, decode_summary (t_entries t) <$>
                          ztake (limit + 1) (zdrop offset (matching_rows needle collapse t)));
  total ← rows (λ t, zlen (matching_rows needle collapse t));
  let has_more := limit <? zlen selected in
  entries ← sql_result (collect_results (ztake limit selected));
  let entries := (λ s, set_current match current with
                                   | Some c => bool_decide (s_id c = s_id s)
                                   | None => false
                                   end s) <$> entries in
  let next_offset := if has_more && (0 <? limit) then checked_add (q_offset q) (zlen entries)
                     else None in
  revision ← db_revision;
  mret (mkPage total revision (q_generation q) current entries has_more next_offset).

#[export] Instance db_query_quiet q : Quiet (db_query q).
Proof. unfold db_query. sql_class. Qed.

(** ** The reference *)

(** The searchable text of an entry, from its own payload. *)
Definition entry_text (t : Tables) (r : string * EntryRow) : string :=
  to_lowercase (e_mime r.2 ++ String "010"
    (default EmptyString (from_utf8 (default [] (t_payloads t !! r.1)))))%string.
(** The catalog a query selects: visible entries whose text contains the
    needle, favorites first and newest first. *)
Definition selection (q : HistoryQuery) (t : Tables) : list (string * EntryRow) :=
  let needle := to_lowercase (trim (q_query q)) in
  order_by by_favorite
    (filter (λ r, (visible (q_collapse_self_echoes q) r.2
                   && (bool_decide (needle = EmptyString) || str_contains needle (entry_text t r)))%bool = true)
            (map_to_list (t_entries t))).
Definition reference_current (q : HistoryQuery) (t : Tables) : option EntrySummary :=
  (λ r, set_current true (summary_of (t_entries t) r.1 r.2)) <$> current_row (q_collapse_self_echoes q) t.
Definition reference_page (q : HistoryQuery) (t : Tables) : HistoryPage :=
  let limit := Z.min (q_limit q) MAX_QUERY_LIMIT in
  let rows := selection q t in
  let page := ztake limit (zdrop (q_offset q) rows) in
  let has_more := q_offset q + limit <? zlen rows in
  mkPage (zlen rows) (t_revision t) (q_generation q) (reference_current q t)
    ((λ r, set_current (bool_decide ((fst <$> current_row (q_collapse_self_echoes q) t) = Some r.1))
                       (summary_of (t_entries t) r.1 r.2)) <$> page)
    has_more (if has_more && (0 <? limit) then Some (q_offset q + zlen page) else None).

(** ** Every gram of a needle is a part of it *)
Lemma set_insert_elem x l y : y ∈ set_insert x l → y = x ∨ y ∈ l.
Proof.
  induction l as [|z l IH]; cbn; [set_solver|]. repeat case_decide; set_solver.
Qed.
Lemma collect_grams_elem grams terms y : y ∈ collect_grams terms grams → y ∈ terms ∨ y ∈ grams.
Proof.
  revert terms. induction grams as [|g gs IH]; intros terms; cbn [collect_grams]; [auto|].
  case_match; [intros Hy|intros Hy%IH; destruct Hy as [Hy|]; [|set_solver]];
    apply set_insert_elem in Hy; set_solver.
Qed.
Lemma windows3_infix w g : g ∈ windows3 w → ∃ a b, w = a ++ g ++ b.
Proof.
  induction w as [|x w IH]; [by intros ?%elem_of_nil|]. cbn.
  destruct w as [|y [|z w]]; [by intros ?%elem_of_nil|by intros ?%elem_of_nil|].
  intros [->|Hg]%elem_of_cons; [by exists [], w|]. destruct (IH Hg) as (a & b & Hw).
  exists (x :: a), b. by rewrite Hw.
Qed.
Lemma split_chars_infix keep cur cs w :
  w ∈ split_chars keep cur cs → ∃ a b, reverse cur ++ cs = a ++ w ++ b.
Proof.
  revert cur. induction cs as [|c cs IH]; intros cur; cbn [split_chars].
  - intros ->%list_elem_of_singleton. exists [], []. done.
  - destruct (keep c).
    + intros (a & b & Hab)%IH. rewrite reverse_cons, <- (assoc_L (++)) in Hab. by exists a, b.
    + intros [->|(a & b & Hab)%IH]%elem_of_cons.
      * by exists [], (c :: cs).
      * exists (reverse cur ++ c :: a), b. cbn in Hab. rewrite Hab, <- (assoc_L (++)). done.
Qed.
Lemma search_terms_part needle g :
  utf8_valid (str_bytes needle) = true → g ∈ search_terms needle → str_contains g needle = true.
Proof.
  intros Hv [Hg|Hg]%collect_grams_elem; [by apply elem_of_nil in Hg|].
  apply list_elem_of_fmap in Hg as (w & -> & Hw). apply list_elem_of_join in Hw as (ws & Hw & Hws).
  apply list_elem_of_fmap in Hws as (word & -> & Hword).
  apply windows3_infix in Hw as (a & b & ->). apply split_chars_infix in Hword as (a' & b' & Heq).
  cbn in Heq. rewrite <- (of_chars_chars needle Hv), Heq. apply str_contains_iff.
  exists (of_chars (a' ++ a)), (of_chars (b ++ b')). by rewrite <- !of_chars_app, <- !(assoc_L (++)).
Qed.

Lemma search_terms_len needle g : g ∈ search_terms needle → zlen (chars g) = 3.
Proof.
  intros [Hg|Hg]%collect_grams_elem; [by apply elem_of_nil in Hg|].
  apply list_elem_of_fmap in Hg as (w & -> & Hw). apply list_elem_of_join in Hw as (ws & Hw & Hws).
  apply list_elem_of_fmap in Hws as (word & -> & Hword).
  assert (Hlen : length w = 3%nat).
  { clear Hword. induction word as [|x [|y [|z word]] IH]; try by apply elem_of_nil in Hw.
    apply elem_of_cons in Hw as [->|Hw]; [done|auto]. }
  assert (Hsc : Forall scalar w).
  { apply windows3_infix in Hw as (a & b & ->). apply split_chars_infix in Hword as (a' & b' & Heq).
    cbn in Heq. pose proof (from_utf8_lossy_scalar (str_bytes needle)) as Hs.
    fold (chars needle) in Hs. rewrite Heq in Hs. rewrite !Forall_app in Hs. tauto. }
  unfold chars, of_chars, from_utf8_lossy. rewrite bytes_str_bytes, encode_chars_decode by done.
  unfold zlen. by rewrite !length_fmap, Hlen.
Qed.

(** The documented behaviour of the trigram index: a conjunction of quoted
    three-character terms selects every document that contains them all. *)
Definition fts_complete : Prop := ∀ doc terms,
  terms ≠ [] → (∀ g, g ∈ terms → zlen (chars g) = 3 ∧ str_contains g doc = true) →
  fts_match doc (fts_query terms) = true.

Lemma gram_complete needle doc g :
  fts_complete → utf8_valid (str_bytes needle) = true → search_gram needle = Some g →
  str_contains needle doc = true → fts_match doc g = true.
Proof.
  intros Hfts Hv Hg Hdoc. unfold search_gram in Hg. case_bool_decide; [done|]. injection Hg as <-.
  apply Hfts; [done|]. intros t Ht. split; [by apply (search_terms_len needle)|].
  apply (str_contains_trans _ needle); [by apply search_terms_part|done].
Qed.

Lemma row_matches_reference needle c t id e :
  fts_complete → utf8_valid (str_bytes needle) = true → tables_wf t → t_entries t !! id = Some e →
  row_matches needle (search_gram needle) c t (id, e) =
    visible c e && (bool_decide (needle = EmptyString) || str_contains needle (entry_text t (id, e))).
Proof.
  intros Hfts Hv Hwf He. unfold row_matches. case_bool_decide as Hn; [by rewrite andb_true_r|].
  pose proof (wf_rows t Hwf id e He) as (_ & _ & _ & _ & (b & Hb & _ & _ & _ & Hs) & _).
  cbn [fst snd]. rewrite Hs. unfold entry_text. cbn [fst snd].
  rewrite Hb. cbn [default]. cbn [orb]. unfold search_row. cbn [sc_content sc_indexed_content sc_indexed_complete].
  set (content := to_lowercase _).
  destruct (str_contains needle content) eqn:Hc; [|by rewrite andb_false_r].
  rewrite andb_true_r. cbn [andb]. destruct (search_gram needle) as [g|] eqn:Hg; [|by rewrite andb_true_r].
  destruct (str_len content <=? 65536); cbn [negb]; [|by rewrite orb_true_r, andb_true_r].
  rewrite (gram_complete needle content g) by done. by rewrite andb_true_r.
Qed.
Lemma matching_reference q t :
  let needle := to_lowercase (trim (q_query q)) in
  fts_complete → utf8_valid (str_bytes needle) = true → tables_wf t →
  matching_rows needle (q_collapse_self_echoes q) t = selection q t.
Proof.
  intros needle Hfts Hv Hwf. unfold matching_rows, selection. f_equal.
  apply filter_ext_elem. intros [id e] He%elem_of_map_to_list.
  by rewrite (row_matches_reference needle).
Qed.

Lemma collect_results_ok {A B} (f : A → BackendResult B) (g : A → B) l :
  (∀ x, x ∈ l → f x = Ok (g x)) → collect_results (f <$> l) = Ok (g <$> l).
Proof.
  induction l as [|x l IH]; intros Hl; [done|]. rewrite !fmap_cons. cbn [collect_results].
  rewrite Hl by by left. cbn. rewrite IH; [done|]. intros; apply Hl; by right.
Qed.
Lemma ztake_fmap {A B} (f : A → B) n l : ztake n (f <$> l) = f <$> ztake n l.
Proof. rewrite !ztake_take. by rewrite fmap_take. Qed.
Lemma ztake_ztake {A} a b (l : list A) : a <= b → ztake a (ztake b l) = ztake a l.
Proof. intros. rewrite !ztake_take, take_take. f_equal. lia. Qed.

(** The stored policy bounds the catalog. *)
Lemma catalog_bound t : tables_ok t → zlen (map_to_list (t_entries t)) <= 110000.
Proof.
  intros [Hwf Hl]. destruct Hl as [_ H1 H2 _]. destruct (wf_policy t Hwf). unfold count in *.
  assert (Hc : ∀ l : list (string * EntryRow), zlen l = zlen (filter (λ r, e_favorite r.2 = false) l)
            + zlen (filter (λ r, e_favorite r.2 = true) l)).
  { induction l as [|[i e] l IH]; [done|]. rewrite !filter_cons, zlen_cons. cbn [snd].
    destruct (e_favorite e); repeat case_decide; try done; rewrite zlen_cons; lia. }
  rewrite Hc. lia.
Qed.
Lemma selection_bound q t : tables_ok t → zlen (selection q t) <= 110000.
Proof.
  intros Hok. etrans; [|by apply catalog_bound]. unfold selection. rewrite zlen_order_by.
  unfold zlen. pose proof (length_filter (λ r, (visible (q_collapse_self_echoes q) r.2
                   && (bool_decide (to_lowercase (trim (q_query q)) = EmptyString)
                       || str_contains (to_lowercase (trim (q_query q))) (entry_text t r)))%bool = true)
            (map_to_list (t_entries t))). lia.
Qed.
Lemma decode_row t id e : tables_wf t → t_entries t !! id = Some e →
  decode_summary (t_entries t) (id, e) = Ok (summary_of (t_entries t) id e).
Proof.
  intros Hwf He. pose proof (ideal_db_summary id None t Hwf) as Hs. rewrite He in Hs. cbn in Hs.
  rewrite bool_decide_true in Hs by done. apply db_summary_runs in Hs as (_ & e' & He' & Hd & _).
  rewrite He in He'. by injection He' as <-.
Qed.
Lemma current_row_elem c t r : current_row c t = Some r → t_entries t !! r.1 = Some r.2.
Proof.
  unfold current_row. destruct (head _) as [[id e]|]; cbn; [|done].
  destruct (t_entries t !! _) eqn:He; [|done]. by intros [= <-].
Qed.
Lemma selection_elem q t r : r ∈ selection q t → t_entries t !! r.1 = Some r.2.
Proof.
  unfold selection. rewrite elem_of_order_by, list_elem_of_filter. destruct r as [id e].
  by intros [_ He%elem_of_map_to_list].
Qed.

Lemma ideal_db_query q t :
  fts_complete → utf8_valid (str_bytes (to_lowercase (trim (q_query q)))) = true →
  0 <= q_offset q <= u64_max → 0 <= q_limit q → tables_ok t →
  ideal (db_query q) t = (Ok (reference_page q t), t).
Proof.
  intros Hfts Hv Hoff Hlim Hok. pose proof Hok as [Hwf Hl].
  pose proof (selection_bound q t Hok) as Hbound.
  unfold db_query. rewrite ideal_bind, ideal_rows by apply _.
  set (found := current_row (q_collapse_self_echoes q) t) in *.
  assert (Hcur : sql_result match decode_summary (t_entries t) <$> found with
                            | None => Ok None | Some r => Some <$> r end
                 = @sql_result Tables _ (Ok ((λ r, summary_of (t_entries t) r.1 r.2) <$> found))).
  { destruct found as [[id e]|] eqn:Hf; [|done]. cbn [fmap option_fmap option_map].
    rewrite (decode_row t id e Hwf) by by apply current_row_elem in Hf. done. }
  rewrite Hcur, ideal_bind, ideal_result by apply _. rewrite ideal_bind, ideal_rows by apply _.
  rewrite ideal_bind, ideal_rows by apply _.
  rewrite !(matching_reference q) by done. set (S := selection q t) in *.
  set (limit := Z.min (q_limit q) MAX_QUERY_LIMIT).
  assert (Hlimit : 0 <= limit <= 200) by (unfold limit, MAX_QUERY_LIMIT; lia).
  assert (Hdrop : zdrop (Z.min (q_offset q) i64_max) S = zdrop (q_offset q) S).
  { destruct (Z.le_gt_cases (q_offset q) i64_max); [by rewrite Z.min_l by done|].
    rewrite !zdrop_all; [done|unfold i64_max in *; lia|unfold i64_max in *; lia]. }
  rewrite Hdrop. set (P := zdrop (q_offset q) S).
  assert (Hp : zlen P = Z.max 0 (zlen S - q_offset q)) by (apply zlen_zdrop; lia).
  rewrite !ztake_fmap, ztake_ztake by lia.
  rewrite (collect_results_ok _ (λ r, summary_of (t_entries t) r.1 r.2)).
  2: { intros [id e] He%ztake_elem_of. apply decode_row; [done|].
       apply (selection_elem q t (id, e)). fold S. rewrite <- (ztake_zdrop (q_offset q) S).
       apply elem_of_app. by right. }
  rewrite ideal_bind, ideal_result by apply _. unfold db_revision.
  rewrite !ideal_bind, ideal_rows, ideal_ret by apply _. rewrite ideal_ret.
  pose proof (wf_meta t Hwf) as [Hm _]. unfold revision_limit in *.
  rewrite as_u64_small by (unfold u64_max; lia).
  unfold reference_page. fold S limit P.
  assert (Hmore : (limit <? zlen (decode_summary (t_entries t) <$> ztake (limit + 1) P))
                  = (q_offset q + limit <? zlen S)).
  { unfold zlen at 1. rewrite length_fmap. fold (zlen (ztake (limit + 1) P)).
    rewrite zlen_ztake by lia. rewrite Hp.
    destruct (Z.ltb_spec (q_offset q + limit) (zlen S)), (Z.ltb_spec limit (Z.min (limit + 1) (Z.max 0 (zlen S - q_offset q)))); try done; lia. }
  rewrite Hmore, <- list_fmap_compose. do 3 f_equal.
  - unfold reference_current. fold found. by rewrite <- option_fmap_compose.
  - apply list_fmap_ext. intros _ [id e] _. cbn [compose fst snd]. f_equal.
    fold found. destruct found as [[id' e']|]; cbn; [|done].
    apply bool_decide_ext. split; congruence.
  - destruct (Z.ltb_spec (q_offset q + limit) (zlen S)); cbn [andb]; [|done].
    destruct (0 <? limit); [|done]. unfold checked_add, zlen. rewrite length_fmap. fold (zlen (ztake limit P)).
    rewrite zlen_ztake by lia. rewrite (proj2 (Z.leb_le _ _)) by (unfold u64_max; lia). done.
Qed.

(** ** Walking the pages *)
Definition with_offset (n : Z) (q : HistoryQuery) : HistoryQuery :=
  mkQuery (q_query q) (q_generation q) n (q_limit q) (q_collapse_self_echoes q).
(** What a client collects that follows [next_offset] until there is none. *)
Fixpoint walk (fuel : nat) (q : HistoryQuery) (t : Tables) : option (list EntrySummary) :=
  match fuel with
  | O => None
  | S fuel' =>
      match fst (ideal (db_query q) t) with
      | Err _ => None
      | Ok page =>
          match p_next_offset page with
          | None => Some (p_entries page)
          | Some n => rest ← walk fuel' (with_offset n q) t; Some (p_entries page ++ rest)
          end
      end
  end.
Definition shown (q : HistoryQuery) (t : Tables) (r : string * EntryRow) : EntrySummary :=
  set_current (bool_decide ((fst <$> current_row (q_collapse_self_echoes q) t) = Some r.1))
    (summary_of (t_entries t) r.1 r.2).

Lemma walk_from q t n fuel :
  fts_complete → utf8_valid (str_bytes (to_lowercase (trim (q_query q)))) = true →
  1 <= q_limit q → tables_ok t → 0 <= n →
  zlen (zdrop n (selection q t)) < Z.of_nat fuel ∧ n <= 110000 →
  walk fuel (with_offset n q) t = Some (shown q t <$> zdrop n (selection q t)).
Proof.
  intros Hfts Hv Hlim Hok. revert n. induction fuel as [|fuel IH]; intros n Hn [Hfuel Hsmall].
  { pose proof (zlen_nonneg (zdrop n (selection q t))). lia. }
  cbn [walk]. rewrite ideal_db_query by (cbn; unfold u64_max; first [done|lia]). cbn [fst].
  unfold reference_page. cbn [p_next_offset p_entries q_offset q_limit with_offset q_collapse_self_echoes].
  change (selection (with_offset n q) t) with (selection q t).
  pose proof (selection_bound q t Hok) as Hb.
  set (S := selection q t) in *. set (limit := Z.min (q_limit q) MAX_QUERY_LIMIT).
  assert (Hl : 1 <= limit <= 200) by (unfold limit, MAX_QUERY_LIMIT; lia).
  rewrite zlen_zdrop in Hfuel by done.
  assert (Hlen : zlen (ztake limit (zdrop n S)) = Z.min limit (Z.max 0 (zlen S - n)))
    by (rewrite zlen_ztake, zlen_zdrop by lia; done).
  destruct (Z.ltb_spec (n + limit) (zlen S)) as [Hmore|Hdone]; cbn [andb].
  - rewrite (proj2 (Z.ltb_lt 0 limit)) by lia.
    set (n' := n + zlen (ztake limit (zdrop n S))).
    change (with_offset n' (with_offset n q)) with (with_offset n' q).
    rewrite IH; [|lia|rewrite zlen_zdrop by lia; lia]. cbn [mbind option_bind]. f_equal.
    trans (shown q t <$> (ztake limit (zdrop n S) ++ zdrop limit (zdrop n S)));
      [|by rewrite ztake_zdrop].
    rewrite fmap_app. f_equal. f_equal. rewrite zdrop_zdrop by lia. unfold n'. f_equal. lia.
  - f_equal. rewrite ztake_all; [done|]. rewrite zlen_zdrop by lia. lia.
Qed.

(** C6 A history page is the reference page: total and rows are exactly the
    visible entries whose lower-cased MIME and text contain the query, in
    favorite-then-recency order, cut to the window; the trigram index never
    hides a match; the current entry, [has_more] and [next_offset] agree with
    the same list. *)
Theorem query_exact q t :
  fts_complete → utf8_valid (str_bytes (to_lowercase (trim (q_query q)))) = true →
  0 <= q_offset q <= u64_max → 0 <= q_limit q → tables_ok t →
  ideal (db_query q) t = (Ok (reference_page q t), t).
Proof. apply ideal_db_query. Qed.

(** C7 Following [next_offset] from the first page terminates, within one
    page per selected entry plus one, and shows every selected entry exactly
    once, in order. *)
Theorem pages_cover q t :
  fts_complete → utf8_valid (str_bytes (to_lowercase (trim (q_query q)))) = true →
  1 <= q_limit q → tables_ok t →
  walk (S (length (selection q t))) (with_offset 0 q) t = Some (shown q t <$> selection q t).
Proof.
  intros Hfts Hv Hlim Hok. rewrite (walk_from q t 0) by (rewrite ?zdrop_0; unfold zlen; first [done|lia]).
  by rewrite zdrop_0.
Qed.
End query.
