(* ===== verification/Store.v ===== *)
(** * Store: the bounded queue in front of the database owner,
    [history_store/mod.rs].

    Callers reserve bytes, submit a job and wait; one worker thread takes jobs
    in order, runs them on the [Database] and releases their bytes.  The
    interleaving of callers and worker is an explicit sequence of events. *)
From Stdlib Require Import Ascii.
From S2P Require Import Prelude Text Externals Model Content Sql Tables Database History Query.
Local Open Scope Z_scope.

Definition QUEUE_CAPACITY : Z := 32.
Definition QUEUE_BYTE_BUDGET : Z := 134217728.
(** [size_of::<EntryTarget>()]: a [String] and a [u64]. *)
Definition ENTRY_TARGET_SIZE : Z := 32.

(** ** The public methods: what they check, what they charge, what they run *)
Inductive Request :=
| RQuery (q : HistoryQuery)
| RGet (id : string) (expected : option Z)
| REntryRevision (id : string)
| RRevision
| RPolicy
| RArtifactGet (path : string)
| RMutate (o : Operation).

Definition validate_id (id : string) : BackendResult unit :=
  ensure (str_len id <=? 128) (invalid_data "Clipboard entry ID is too long").
Definition validate_path (p : string) : BackendResult unit :=
  ensure (str_len p <=? 32768) (invalid_data "Artifact path is too long").
Definition validate_input (mime : string) (b : bytes) : BackendResult unit :=
  ensure (negb ((255 <? str_len mime) || str_contains_char "000"%char mime || (MAX_ENTRY_BYTES <? zlen b)))
    (invalid_data "Clipboard input exceeds storage limits").
Fixpoint validate_all (ids : list string) : BackendResult unit :=
  match ids with
  | [] => Ok tt
  | id :: ids' => _ ← validate_id id; validate_all ids'
  end.

Definition validate (r : Request) : BackendResult unit :=
  match r with
  | RQuery q => ensure (str_len (q_query q) <=? MAX_QUERY_BYTES) (invalid_data "Search query is too long")
  | RGet id _ => validate_id id
  | RArtifactGet path =>
      _ ← validate_path path;
      ensure (utf8_valid (str_bytes path)) (invalid_data "Artifact path must be UTF-8")
  | RMutate (OpInsert _ _ mime b) => validate_input mime b
  | RMutate (OpReplace _ id _ mime b) => _ ← validate_id id; validate_input mime b
  | RMutate (OpFavorite id _ _) => validate_id id
  | RMutate (OpRemove targets) =>
      _ ← ensure (zlen targets <=? 10000) (invalid_data "Too many delete targets");
      validate_all (opaque_id <$> targets)
  | RMutate (OpRegister a) =>
      _ ← validate_path (ar_path a);
      _ ← validate_id (ar_source_entry_id a);
      ensure (str_len (ar_image_identity a) <=? 256) (invalid_data "Artifact identity is too long")
  | RMutate (OpForget path) => validate_path path
  | RMutate (OpEcho a) =>
      _ ← validate_id (ir_source_entry_id a);
      ensure (str_len (ir_image_identity a) <=? 256) (invalid_data "Artifact identity is too long")
  | _ => Ok tt
  end.
(** The bytes [reserve] is asked for. *)
Definition cost (r : Request) : Z :=
  match r with
  | RMutate (OpInsert _ _ _ b) | RMutate (OpReplace _ _ _ _ b) => zlen b
  | RMutate (OpRemove targets) => zsum ((λ g, str_len (opaque_id g) + ENTRY_TARGET_SIZE) <$> targets)
  | RMutate (OpRegister a) =>
      str_len (ar_path a) + str_len (ar_source_entry_id a) + str_len (ar_image_identity a)
  | _ => 0
  end.

Section store.
Context `{Externals}.

(** [f(db)] of the submitted job. *)
Definition work (r : Request) (db : Database Tables) : bool * Database Tables :=
  match r with
  | RQuery q => told (read (db_query q) db)
  | RGet id expected => told (read (db_get id expected) db)
  | REntryRevision id => told (read (db_summary id None) db)
  | RRevision => told (read db_revision db)
  | RPolicy => told (read db_policy db)
  | RArtifactGet path => told (read (artifact_get path) db)
  | RMutate o => perform o db
  end.

(** ** State *)
Record Job := mkJob { job_caller : nat; job_request : Request }.
Record Store := mkStore {
  open : bool;                        (* Submission.sender.is_some() *)
  reserved_bytes : Z;                 (* Submission.bytes *)
  reservations : list Job;            (* granted, not yet submitted *)
  queue : list Job;                   (* in the channel *)
  running : option Job;               (* taken by the worker *)
  database : Database Tables;
  answers : list (Job * bool);        (* sent results, oldest first *)
  stopped : bool;                     (* the worker returned *)
}.
Definition new_store (db : Database Tables) : Store := mkStore true 0 [] [] None db [] false.

Definition with_queue (q : list Job) (s : Store) : Store :=
  mkStore (open s) (reserved_bytes s) (reservations s) q (running s) (database s) (answers s) (stopped s).
Definition with_reservations (b : Z) (l : list Job) (s : Store) : Store :=
  mkStore (open s) b l (queue s) (running s) (database s) (answers s) (stopped s).
Definition with_running (q : list Job) (j : option Job) (s : Store) : Store :=
  mkStore (open s) (reserved_bytes s) (reservations s) q j (database s) (answers s) (stopped s).

(** [reserve]. *)
Definition reserve (j : Job) (s : Store) : BackendResult Store :=
  if negb (open s) then Err (unavailable "History storage is closed")
  else if saturating_sub QUEUE_BYTE_BUDGET (reserved_bytes s) <? cost (job_request j) then
    Err (unavailable "History input byte budget exhausted")
  else Ok (with_reservations (reserved_bytes s + cost (job_request j)) (j :: reservations s) s).

(** [submit]: a rejected job drops its reservation. *)
Definition release (j : Job) (s : Store) : Store :=
  with_reservations (reserved_bytes s - cost (job_request j)) (reservations s) s.
Definition submit (j : Job) (rest : list Job) (s : Store) : BackendResult unit * Store :=
  let s := with_reservations (reserved_bytes s) rest s in
  if open s && (zlen (queue s) <? QUEUE_CAPACITY) then (Ok tt, with_queue (queue s ++ [j]) s)
  else (Err (unavailable "History queue is full or closed"), release j s).

(** The worker: [for job in receiver { job(&mut db) }]. *)
Definition run_job (j : Job) (db : Database Tables) : bool * Database Tables :=
  if blocked db then (false, db) else work (job_request j) db.
Definition execute (j : Job) (s : Store) : Store :=
  let '(ok, db) := run_job j (database s) in
  mkStore (open s) (reserved_bytes s - cost (job_request j)) (reservations s) (queue s) None db
          (answers s ++ [(j, ok)]) (stopped s).

(** ** Events *)
Inductive Event :=
| Reserve (j : Job)                  (* a validated call reserves *)
| Submit (before : list Job) (j : Job) (after : list Job)
| TakeJob
| Execute
| Close
| Stop (checkpoint : BackendResult (option (Z * Z * Z))) (protected : BackendResult unit).

Inductive transition : Store → Event → Store → Prop :=
| t_reserve j s s' :
    validate (job_request j) = Ok tt → reserve j s = Ok s' → transition s (Reserve j) s'
| t_reserve_refused j s e :
    validate (job_request j) = Ok tt → reserve j s = Err e → transition s (Reserve j) s
| t_submit l1 j l2 s :
    reservations s = l1 ++ j :: l2 →
    transition s (Submit l1 j l2) (snd (submit j (l1 ++ l2) s))
| t_take j q s :
    queue s = j :: q → running s = None → stopped s = false →
    transition s TakeJob (with_running q (Some j) s)
| t_execute j s :
    running s = Some j → transition s Execute (execute j s)
| t_close s :
    transition s Close
      (mkStore false (reserved_bytes s) (reservations s) (queue s) (running s) (database s) (answers s) (stopped s))
(* the loop ends once every sender is gone and the channel is empty *)
| t_stop s c p :
    open s = false → queue s = [] → running s = None → stopped s = false →
    transition s (Stop c p)
      (mkStore false (reserved_bytes s) (reservations s) [] None (snd (shutdown c p (database s))) (answers s) true).

Inductive reachable (db : Database Tables) : Store → Prop :=
| r_new : reachable db (new_store db)
| r_step s e s' : reachable db s → transition s e s' → reachable db s'.

(** Every job holding bytes. *)
Definition holders (s : Store) : list Job :=
  reservations s ++ queue s ++ match running s with Some j => [j] | None => [] end.

Record store_inv (s : Store) : Prop := {
  si_bytes : reserved_bytes s = zsum ((λ j, cost (job_request j)) <$> holders s);
  si_budget : reserved_bytes s <= QUEUE_BYTE_BUDGET;
  si_queue : zlen (queue s) <= QUEUE_CAPACITY;
  si_stopped : stopped s = true → open s = false ∧ queue s = [] ∧ running s = None;
}.

Lemma cost_nonneg r : 0 <= cost r.
Proof.
  unfold cost, str_len. repeat case_match; subst; try lia; try apply zlen_nonneg.
  apply zsum_nonneg, Forall_fmap, Forall_forall. intros g _. cbn. unfold ENTRY_TARGET_SIZE. lia.
Qed.

Lemma inv_step s e s' : store_inv s → transition s e s' → store_inv s'.
Proof.
  intros [Hb Hbud Hq Hst] Ht. destruct Ht as [j s s' Hv Hr| |l1 j l2 s Hl|j q s Hqe Hr Hns|j s Hr|s|s c p Ho Hqe Hr Hns].
  - unfold reserve in Hr. destruct (negb _); [done|]. destruct (_ <? _) eqn:Hlt; [done|]. injection Hr as <-.
    bools. unfold saturating_sub, QUEUE_BYTE_BUDGET in *. split; cbn; try done.
    + rewrite Hb. unfold holders. cbn. lia.
    + unfold QUEUE_BYTE_BUDGET. lia.
  - by split.
  - unfold submit. cbn [open with_reservations queue]. destruct (open s && _) eqn:Hc; cbn [snd]; bools.
    + split; cbn; try done.
      * rewrite Hb. unfold holders. rewrite Hl. cbn. rewrite !fmap_app, !zsum_app. cbn. lia.
      * rewrite zlen_app. unfold zlen in *. cbn. lia.
      * intros Hs. destruct (Hst Hs) as [Ho _]. congruence.
    + pose proof (cost_nonneg (job_request j)). split; cbn; try done; [|lia].
      rewrite Hb. unfold holders. rewrite Hl. cbn. rewrite !fmap_app, !zsum_app. cbn. lia.
  - split; cbn; try done.
    + rewrite Hb. unfold holders. rewrite Hqe, Hr. cbn. rewrite !fmap_app, !zsum_app. cbn.
      rewrite ?fmap_app, ?zsum_app. cbn. lia.
    + rewrite Hqe, zlen_cons in Hq. lia.
    + congruence.
  - pose proof (cost_nonneg (job_request j)). unfold execute.
    destruct (run_job _ _) as [ok db]. split; cbn; try done; [|lia|].
    + rewrite Hb. unfold holders. rewrite Hr. cbn. rewrite !fmap_app, !zsum_app. cbn. lia.
    + intros Hs. destruct (Hst Hs) as (? & ? & ?). congruence.
  - split; cbn; try done. intros Hs. by destruct (Hst Hs) as (_ & ? & ?).
  - split; cbn; try done. rewrite Hb. unfold holders. rewrite Hqe, Hr. cbn. done.
Qed.

Lemma new_store_inv db : store_inv (new_store db).
Proof. split; cbn; try done. Qed.
Lemma reachable_inv db s : reachable db s → store_inv s.
Proof. induction 1; [apply new_store_inv|eauto using inv_step]. Qed.

(** The byte accounting of the store queue is exact under every
    interleaving: the counter is the sum of the inputs of the calls that hold
    a reservation, wait in the channel or are executing, it never exceeds the
    128 MiB budget, and never more than 32 jobs wait. *)
Theorem queue_accounting db s :
  reachable db s →
  reserved_bytes s = zsum ((λ j, cost (job_request j)) <$> holders s)
  ∧ 0 <= reserved_bytes s <= QUEUE_BYTE_BUDGET ∧ zlen (queue s) <= QUEUE_CAPACITY.
Proof.
  intros [Hb Hbud Hq _]%reachable_inv. split_and!; try done. rewrite Hb.
  apply zsum_nonneg, Forall_fmap, Forall_forall. intros j _. apply cost_nonneg.
Qed.

(** ** Order *)

(** The jobs the channel accepted, oldest first, along a run. *)
Definition accepted (s : Store) (e : Event) : list Job :=
  match e with
  | Submit _ j _ => if open s && (zlen (queue s) <? QUEUE_CAPACITY) then [j] else []
  | _ => []
  end.
Inductive trace (db : Database Tables) : list Job → Store → Prop :=
| tr_new : trace db [] (new_store db)
| tr_step acc s e s' : trace db acc s → transition s e s' → trace db (acc ++ accepted s e) s'.
Lemma trace_reachable db acc s : trace db acc s → reachable db s.
Proof. induction 1; [apply r_new|by eapply r_step]. Qed.

(** One client at a time. *)
Fixpoint serial (js : list Job) (db : Database Tables) : list (Job * bool) * Database Tables :=
  match js with
  | [] => ([], db)
  | j :: js' =>
      let '(ok, db') := run_job j db in
      let '(log, db'') := serial js' db' in
      ((j, ok) :: log, db'')
  end.
Lemma serial_snoc js j db :
  serial (js ++ [j]) db =
    ((serial js db).1 ++ [(j, (run_job j (serial js db).2).1)], (run_job j (serial js db).2).2).
Proof.
  revert db. induction js as [|x js IH]; intros db; cbn.
  - by destruct (run_job j db).
  - destruct (run_job x db) as [ok db']. rewrite IH. by destruct (serial js db') as [log db''].
Qed.

Definition pending (s : Store) : list Job :=
  match running s with Some j => [j] | None => [] end ++ queue s.

Lemma trace_serial db acc s :
  trace db acc s →
  ∃ done, acc = done ++ pending s ∧ answers s = (serial done db).1
          ∧ (stopped s = false → database s = (serial done db).2).
Proof.
  induction 1 as [|acc s e s' Htr (done & -> & Ha & Hd) Ht]; [by exists []|].
  pose proof (reachable_inv _ _ (trace_reachable _ _ _ Htr)) as [_ _ _ Hst].
  destruct Ht as [j s s' Hv Hr| |l1 j l2 s Hl|j q s Hqe Hr Hns|j s Hr|s|s c p Ho Hqe Hr Hns]; cbn [accepted].
  - exists done. rewrite app_nil_r. unfold reserve in Hr. destruct (negb _); [done|].
    destruct (_ <? _); [done|]. by injection Hr as <-.
  - exists done. by rewrite app_nil_r.
  - exists done. unfold submit. cbn [open with_reservations queue]. destruct (open s && _); cbn [snd].
    + split_and!; [|done|done]. unfold pending. cbn. by rewrite <- !(assoc_L (++)).
    + split_and!; [|done|done]. by rewrite app_nil_r.
  - exists done. rewrite app_nil_r. split_and!; [|done|done]. unfold pending. cbn. by rewrite Hqe, Hr.
  - assert (Hns : stopped s = false).
    { destruct (stopped s); [|done]. destruct (Hst eq_refl) as (_ & _ & ?). congruence. }
    exists (done ++ [j]). unfold execute. rewrite serial_snoc, <- Ha, <- Hd by done.
    destruct (run_job j (database s)) as [ok db']. cbn. unfold pending. cbn. rewrite Hr, app_nil_r.
    split_and!; [by rewrite <- (assoc_L (++))|done|done].
  - exists done. by rewrite app_nil_r.
  - exists done. rewrite app_nil_r. unfold pending in *. rewrite Hqe, Hr. cbn. done.
Qed.

(** C3 The queue is a serial, exactly-once executor: at every moment the jobs
    the channel accepted are, in order, the answered ones followed by those
    in progress and waiting; the answers and the database are those of running
    the answered jobs one at a time; and once the worker has stopped every
    accepted job has been answered (so closing drains before the checkpoint). *)
Theorem queue_serializes db acc s :
  trace db acc s →
  ∃ done, acc = done ++ pending s ∧ answers s = (serial done db).1
          ∧ (stopped s = false → database s = (serial done db).2)
          ∧ (stopped s = true → done = acc).
Proof.
  intros Htr. destruct (trace_serial _ _ _ Htr) as (done & -> & Ha & Hd).
  exists done. split_and!; [done..|]. intros Hs.
  destruct (si_stopped _ (reachable_inv _ _ (trace_reachable _ _ _ Htr)) Hs) as (_ & Hq & Hr).
  unfold pending. by rewrite Hq, Hr, app_nil_r.
Qed.
End store.

(** ** [Inner::shutdown]

    Every caller takes the worker lock; the first joins, and a failure is kept
    for the others. *)
Record Inner := mkInner {
  sender_open : bool;
  worker : option (option (BackendResult unit));   (* what joining yields; [None]: it panicked *)
  shutdown_error : option BackendError;
}.
Definition Inner_shutdown (i : Inner) : BackendResult unit * Inner :=
  match shutdown_error i with
  | Some e => (Err (mkError (kind e) (message e)), mkInner false (worker i) (shutdown_error i))
  | None =>
      let result := match worker i with
                    | Some joined => default (Err (unavailable "History worker failed")) joined
                    | None => Ok tt
                    end in
      (result, mkInner false None (err_of result))
  end.
Definition shutdown_calls (n : nat) (i : Inner) : BackendResult unit * Inner :=
  Nat.iter n (λ r, Inner_shutdown (snd r)) (Inner_shutdown i).

(** Shutting down is idempotent: the sender is gone after the first call,
    and every later caller is told the verdict of the first one, success or the
    same error, without joining again. *)
Theorem shutdown_verdict n i :
  fst (shutdown_calls n i) = fst (Inner_shutdown i) ∧ sender_open (snd (shutdown_calls n i)) = false.
Proof.
  assert (Hgen : ∀ i, (fst (Inner_shutdown (snd (Inner_shutdown i))) = fst (Inner_shutdown i))
                      ∧ snd (Inner_shutdown (snd (Inner_shutdown i))) = snd (Inner_shutdown i)
                      ∧ sender_open (snd (Inner_shutdown i)) = false).
  { intros [o w [e|]]; cbn; [by destruct e|]. destruct w as [[[[]|e]|]|]; cbn; try done; by destruct e. }
  unfold shutdown_calls. induction n as [|n [IH1 IH2]]; [split; [done|apply Hgen]|].
  assert (Hs : snd (Nat.iter n (λ r, Inner_shutdown (snd r)) (Inner_shutdown i)) = snd (Inner_shutdown i)).
  { clear IH1 IH2. induction n as [|n IH]; [done|]. rewrite Nat.iter_succ, IH. apply Hgen. }
  rewrite Nat.iter_succ, Hs. split; apply Hgen.
Qed.
