(* ===== verification/Examples.v ===== *)
(** * Examples: concrete runs of the storage components.

    A small history is built by running the operations of [History.v] on fresh
    tables with the [toy_externals]; each property of the storage components
    with hypotheses is applied to it. *)
From S2P Require Import Prelude Text Externals Model Classification Content Sql Tables Database Invariant Preservation History HistorySpec Query Store.
Local Open Scope Z_scope.
Local Open Scope string_scope.
#[local] Existing Instance toy_externals.

Definition open_policy : StorePolicy := mkPolicy true 3 2 1048576 268435456.
Definition uuid1 : string := "11111111-1111-1111-1111-111111111111".
Definition uuid2 : string := "22222222-2222-2222-2222-222222222222".
Definition uuid3 : string := "33333333-3333-3333-3333-333333333333".
Definition id1 : string := "entry-11111111-1111-1111-1111-111111111111".
Definition id2 : string := "entry-22222222-2222-2222-2222-222222222222".
(** Two texts; the second insertion meets an engine fault the first time. *)
Definition setup : list Operation :=
  [OpPolicy open_policy; OpInsert ∅ uuid1 "text/plain" (str_bytes "hello");
   OpInsert ∅ uuid2 "text/plain" (str_bytes "world")].
Definition sample_db : Database Tables := steps setup (mkDatabase initial_tables None [] false).
Definition sample : Tables := durable sample_db.

Lemma setup_typed : Forall typed setup.
Proof. by repeat constructor. Qed.
Lemma sample_settled : settled sample_db.
Proof. apply settled_steps; [apply setup_typed|apply settled_start, initial_ok]. Qed.
Lemma sample_ok : tables_ok sample.
Proof. apply sample_settled. Qed.
Lemma toy_fts : fts_complete.
Proof. done. Qed.

(** The result of a successful run. *)
Definition run_value {A} (m : SqlT A) (t : Tables) (d : A) : A :=
  match ideal m t with (Ok a, _) => a | _ => d end.
Definition run_tables {A} (m : SqlT A) (t : Tables) : Tables := snd (ideal m t).
Definition no_summary : EntrySummary := mkSummary "" 0 Text "" 0 false false "".

Definition insertion : SqlT EntrySummary := insert_body ∅ uuid3 "text/html" (str_bytes "abc").
Definition inserted_summary : EntrySummary := run_value insertion sample no_summary.
Definition inserted_tables : Tables := run_tables insertion sample.
Lemma insertion_runs : runs insertion sample inserted_summary inserted_tables.
Proof. vm_compute. reflexivity. Qed.
Definition replacement : SqlT EntrySummary := replace_body ∅ id1 2 "text/html" (str_bytes "abc").
Definition replaced_summary : EntrySummary := run_value replacement sample no_summary.
Definition replaced_tables : Tables := run_tables replacement sample.
Lemma replacement_runs : runs replacement sample replaced_summary replaced_tables.
Proof. vm_compute. reflexivity. Qed.

Lemma history_invariant_witness :
  tables_ok (durable (steps (setup ++ [OpFavorite id1 2 true; OpRestart []; OpWipe])
                            (mkDatabase initial_tables None [Succeeds; Succeeds; LosesAck] false))).
Proof. apply history_invariant; [apply initial_ok|by repeat constructor]. Defined.

Lemma operation_atomic_witness :
  healthy sample_db ∧ blocked sample_db = false
  ∧ Atomic (OpInsert ∅ uuid3 "text/html" (str_bytes "abc")) sample_db
      (fst (perform (OpInsert ∅ uuid3 "text/html" (str_bytes "abc")) sample_db))
      (snd (perform (OpInsert ∅ uuid3 "text/html" (str_bytes "abc")) sample_db)).
Proof.
  assert (Hh : healthy sample_db) by (split; vm_compute; reflexivity).
  split; [exact Hh|]. split; [vm_compute; reflexivity|]. by apply operation_atomic.
Defined.

Lemma revision_guards_witness :
  ideal (db_get id1 (Some 7)) sample = (Err (stale "Clipboard entry revision changed"), sample).
Proof.
  apply (revision_guards ∅ id1 7 "" [] true sample (stale "Clipboard entry revision changed")).
  - apply sample_ok.
  - vm_compute. reflexivity.
Defined.

Lemma remove_many_all_or_nothing_witness :
  ∃ t', runs (remove_many_body [mkTarget id1 2]) sample tt t' ∧ t_revision t' = t_revision sample + 1
        ∧ ∀ id, is_Some (t_entries t' !! id) ↔ is_Some (t_entries sample !! id) ∧ id ∉ [id1].
Proof.
  apply (remove_many_all_or_nothing [mkTarget id1 2] sample).
  - apply sample_ok.
  - vm_compute. reflexivity.
  - constructor; [cbn; unfold u64_max; lia|constructor].
  - constructor; [|constructor]. unfold current_target. cbn [opaque_id expected_revision].
    destruct (t_entries sample !! id1) as [e|] eqn:He; [|vm_compute in He; discriminate He].
    exists e. split; [done|]. vm_compute in He. by injection He as <-.
Defined.

Lemma insert_exact_witness :
  s_byte_size inserted_summary = 3
  ∧ inserted uuid3 "text/html" (str_bytes "abc") sample inserted_summary inserted_tables.
Proof. split; [reflexivity|]. apply (insert_exact ∅); [apply sample_ok|apply insertion_runs]. Defined.
Lemma insert_get_witness :
  ideal (db_get (s_id inserted_summary) (Some (s_revision inserted_summary))) inserted_tables
    = (Ok (mkStored inserted_summary "text/html" (str_bytes "abc")), inserted_tables).
Proof. apply (insert_get ∅ uuid3 _ _ sample); [apply sample_ok|apply insertion_runs]. Defined.

Lemma replace_exact_witness :
  ∃ e e', t_entries sample !! id1 = Some e ∧ e_revision e = 2
    ∧ t_entries replaced_tables !! id1 = Some e' ∧ e_mime e' = "text/html"
    ∧ t_payloads replaced_tables !! id1 = Some (str_bytes "abc").
Proof.
  destruct (replace_exact ∅ id1 2 "text/html" (str_bytes "abc") sample replaced_summary replaced_tables)
    as (e & e' & ? & ? & ? & ? & ? & ? & _); [apply sample_ok|apply replacement_runs|].
  exists e, e'. repeat split; assumption.
Defined.


Definition sample_query : HistoryQuery := mkQuery "WOR" 0 0 1 false.
Lemma query_exact_witness :
  p_total (reference_page sample_query sample) = 1
  ∧ ideal (db_query sample_query) sample = (Ok (reference_page sample_query sample), sample).
Proof.
  split; [vm_compute; reflexivity|].
  apply query_exact; [apply toy_fts|reflexivity|done|done|apply sample_ok].
Defined.
Lemma pages_cover_witness :
  length (selection (mkQuery "" 0 0 1 false) sample) = 2%nat
  ∧ walk (S (length (selection (mkQuery "" 0 0 1 false) sample))) (with_offset 0 (mkQuery "" 0 0 1 false)) sample
    = Some (shown (mkQuery "" 0 0 1 false) sample <$> selection (mkQuery "" 0 0 1 false) sample).
Proof.
  split; [vm_compute; reflexivity|].
  apply (pages_cover (mkQuery "" 0 0 1 false) sample); [apply toy_fts|reflexivity|done|apply sample_ok].
Defined.

(** A copied file link to a PNG. *)
Definition image_fs : Fs := {["/a.png" := mkNode Regular 1 2 0 1 0 [x89; x50; x4e; x47] true]}.
Definition link_content : ResolvedContent := resolve image_fs "text/uri-list" (str_bytes "file:///a.png") 100.
Definition link_source : LocalImageSource := mkLocalImage "/a.png" "image/png" (mkImageMetadata 1 1).
Lemma resolve_local_image_witness :
  local_image link_content = Some link_source
  ∧ rc_kind link_content = Image ∧ resolved_mime link_content = "image/png".
Proof.
  assert (Hl : local_image link_content = Some link_source) by (vm_compute; reflexivity).
  destruct (resolve_local_image image_fs "text/uri-list" (str_bytes "file:///a.png") 100 link_source Hl)
    as (_ & Hk & Hm & _).
  split; [exact Hl|]. split; [exact Hk|exact Hm].
Defined.

Lemma entry_details_exact_witness :
  let d := entry_details ∅ (mkStored no_summary "text/plain" (str_bytes "hello")) 4 in
  d_text d = Some "hell" ∧ (d_preview_truncated d = false ↔ zlen (str_bytes "hello") <= Z.min 4 MAX_DETAILS_BYTES).
Proof.
  split; [vm_compute; reflexivity|].
  apply (entry_details_exact ∅ (mkStored no_summary "text/plain" (str_bytes "hello")) 4). done.
Defined.

(** ** The queue *)
Definition job1 : Job := mkJob 1 (RGet id1 None).
Definition store1 : Store := with_reservations 0 [job1] (new_store sample_db).
Definition store2 : Store := snd (submit job1 [] store1).
Definition store3 : Store := with_running [] (Some job1) store2.
Definition store4 : Store := execute job1 store3.
Definition accepted4 : list Job :=
  (((([] ++ accepted (new_store sample_db) (Reserve job1)) ++ accepted store1 (Submit [] job1 []))
    ++ accepted store2 TakeJob) ++ accepted store3 Execute)%list.
Lemma queue_trace : trace sample_db accepted4 store4.
Proof.
  refine (tr_step _ _ store3 Execute store4 _ _); [|apply t_execute; reflexivity].
  refine (tr_step _ _ store2 TakeJob store3 _ _); [|apply t_take; reflexivity].
  refine (tr_step _ _ store1 (Submit [] job1 []) store2 _ _); [|apply (t_submit [] job1 []); reflexivity].
  refine (tr_step _ _ (new_store sample_db) (Reserve job1) store1 _ _); [constructor|].
  apply t_reserve; vm_compute; reflexivity.
Qed.
Lemma queue_accounting_witness :
  0 <= reserved_bytes store4 <= QUEUE_BYTE_BUDGET ∧ zlen (queue store4) <= QUEUE_CAPACITY.
Proof. apply (queue_accounting sample_db store4). apply (trace_reachable _ accepted4), queue_trace. Defined.
Lemma queue_serializes_witness :
  accepted4 = [job1] ∧ ∃ done, accepted4 = (done ++ pending store4)%list ∧ answers store4 = (serial done sample_db).1.
Proof.
  split; [vm_compute; reflexivity|].
  destruct (queue_serializes sample_db accepted4 store4 queue_trace) as (done & H1 & H2 & _).
  exists done. split; assumption.
Defined.
