(* ===== verification/Gate.v ===== *)
(** * Gate: the admission gate of [capture.rs] ([Admission]).

    Captured bytes may be stored only between [resume] and [close]; [fence]
    acknowledges a pause.  [close] takes no lock and is two atomic stores, so
    the gate is modelled one atomic access at a time, with any number of
    concurrent callers. *)
From S2P Require Import Prelude.
Local Open Scope Z_scope.

(** Who holds [submission], and how far it has got. *)
Inductive Holder :=
| Free
| Checking (g : Z)        (* submit: locked, [open] not yet read *)
| SawOpen (g : Z)         (* submit: read [open] = true, generation not yet read *)
| InBody (g : Z)          (* submit: the closure is running *)
| Failing (closed : bool) (* submit: the closure failed; [uncertain] is set; [close] half done? *)
| Resuming                (* resume: locked, [uncertain] read as false *)
| Bumped.                 (* resume: generation incremented *)

Record Admission := mkAdmission {
  open : bool;
  generation : Z;
  uncertain : bool;
  submission : Holder;
  (* history variable: a [fence] was acknowledged after a completed [close]
     and no [resume] has opened the gate since *)
  quiesced : bool;
  (* history variable: some [close] completed with the gate shut since the
     last [resume] *)
  shut : bool;
}.
(** [Admission::default()]. *)
Definition initial_gate : Admission := mkAdmission false 0 false Free false false.

(** One atomic access. *)
Inductive Action :=
| CloseStore                 (* close: open.store(false) *)
| CloseBump                  (* close: generation.fetch_add(1) *)
| FenceOk | FenceErr
| ResumeLock | ResumeErr | ResumeBump | ResumeOpen
| SubmitLock (g : Z)
| SubmitShut                 (* accepts: open is false; return Ok(None) *)
| SubmitSawOpen
| SubmitStale                (* accepts: another generation; return Ok(None) *)
| StartBody (g : Z)
| BodyOk
| BodyErr                    (* the closure failed or panicked: uncertain.store(true) *)
| FailStore                  (* .. close: open.store(false) *)
| FailBump                   (* .. close: generation.fetch_add(1), unlock *)
| MarkUncertain.             (* the worker thread: sink failure, after close and fence *)

Definition act (a : Action) (s : Admission) : option Admission :=
  let '(mkAdmission o g u h q c) := s in
  match a with
  | CloseStore => Some (mkAdmission false g u h q c)
  | CloseBump => Some (mkAdmission o (g + 1) u h q (negb o || c))
  | FenceOk =>
      match h with Free => if u then None else Some (mkAdmission o g u h (q || (c && negb o)) c) | _ => None end
  | FenceErr => match h with Free => if u then Some s else None | _ => None end
  | ResumeLock =>
      match h with Free => if u then None else Some (mkAdmission o g u Resuming q c) | _ => None end
  | ResumeErr => match h with Free => if u then Some s else None | _ => None end
  | ResumeBump => match h with Resuming => Some (mkAdmission o (g + 1) u Bumped q c) | _ => None end
  | ResumeOpen => match h with Bumped => Some (mkAdmission true g u Free false false) | _ => None end
  | SubmitLock x => match h with Free => Some (mkAdmission o g u (Checking x) q c) | _ => None end
  | SubmitShut =>
      match h with Checking _ => if o then None else Some (mkAdmission o g u Free q c) | _ => None end
  | SubmitSawOpen =>
      match h with Checking x => if o then Some (mkAdmission o g u (SawOpen x) q c) else None | _ => None end
  | SubmitStale =>
      match h with SawOpen x => if x =? g then None else Some (mkAdmission o g u Free q c) | _ => None end
  | StartBody y =>
      match h with
      | SawOpen x => if (x =? g) && (x =? y) then Some (mkAdmission o g u (InBody x) q c) else None
      | _ => None
      end
  | BodyOk => match h with InBody _ => Some (mkAdmission o g u Free q c) | _ => None end
  | BodyErr => match h with InBody _ => Some (mkAdmission o g true (Failing false) q c) | _ => None end
  | FailStore => match h with Failing false => Some (mkAdmission false g u (Failing true) q c) | _ => None end
  | FailBump => match h with Failing true => Some (mkAdmission o (g + 1) u Free q (negb o || c)) | _ => None end
  | MarkUncertain =>
      match h with Free | Checking _ => if o then None else Some (mkAdmission o g true h q c) | _ => None end
  end.

Fixpoint acts (l : list Action) (s : Admission) : option Admission :=
  match l with
  | [] => Some s
  | a :: l' => s' ← act a s; acts l' s'
  end.

(** [admit]: the generation is read before [open]. *)
Definition admit_offer (g_read : Z) (open_read : bool) : option Z := if open_read then Some g_read else None.
Definition accepts (s : Admission) (g : Z) : bool := open s && (g =? generation s).

(** ** Invariant *)
Record gate_ok (s : Admission) : Prop := {
  go_quiesced : quiesced s = true →
    open s = false ∧ match submission s with SawOpen _ | InBody _ | Failing _ => False | _ => True end;
  go_uncertain : uncertain s = true →
    match submission s with
    | Failing false => True
    | Resuming | Bumped => False
    | SawOpen _ | InBody _ => False
    | _ => open s = false
    end;
}.

Lemma gate_ok_act a s s' : act a s = Some s' → gate_ok s → gate_ok s'.
Proof.
  destruct s as [o g u h q c]. intros Ha [Hq Hu]. cbn in *.
  destruct a, h as [| | | |[]| |], o, u, q; cbn in Ha; try discriminate Ha;
    repeat case_match; simplify_eq; split; cbn in *; try tauto;
    rewrite ?andb_false_r; intros; try discriminate; naive_solver.
Qed.
Lemma initial_gate_ok : gate_ok initial_gate.
Proof. split; done. Qed.
Lemma gate_ok_acts l s s' : acts l s = Some s' → gate_ok s → gate_ok s'.
Proof.
  revert s. induction l as [|a l IH]; intros s; cbn; [by intros [= <-]|].
  destruct (act a s) as [s1|] eqn:Ha; cbn; [|done]. eauto using gate_ok_act.
Qed.

(** C10 An acknowledged pause is a fence: after a [fence] that follows a
    completed [close] (nothing resumed since), no storage submission is running,
    the gate is shut, and whatever threads do next, no submission starts
    until the gate is resumed. *)
Theorem fence_quiesces l s more s' g :
  acts l initial_gate = Some s → quiesced s = true →
  Forall (λ a, a ≠ ResumeOpen) more → acts more s = Some s' →
  open s' = false ∧ accepts s' g = false
  ∧ match submission s' with SawOpen _ | InBody _ | Failing _ => False | _ => True end
  ∧ act (StartBody g) s' = None.
Proof.
  intros Hl Hq Hmore Hs'. assert (Hok : gate_ok s) by (eapply gate_ok_acts; [exact Hl|apply initial_gate_ok]).
  assert (Hq' : quiesced s' = true).
  { clear Hl Hok. revert s Hq Hs'. induction Hmore as [|a more Ha _ IH]; intros s Hq; cbn; [by intros [= <-]|].
    destruct (act a s) as [s1|] eqn:E; cbn; [|done]. apply IH. destruct s as [o g0 u h q c]. cbn in *.
    destruct a; repeat case_match; simplify_eq; done. }
  pose proof (gate_ok_acts _ _ _ Hs' Hok) as [H1 _]. destruct (H1 Hq') as [Ho Hh].
  split_and!; [done|by unfold accepts; rewrite Ho|done|].
  destruct s' as [o g0 u h q c]; cbn in *. by destruct h.
Qed.

(** An uncertain outcome is final: once a submission failed, no fence or
    resume ever succeeds again, and as soon as that submission has returned the
    gate is shut for good and no other submission runs. *)
Theorem uncertainty_latches l s more s' g :
  acts l initial_gate = Some s → uncertain s = true → acts more s = Some s' →
  uncertain s' = true ∧ act FenceOk s' = None ∧ act ResumeLock s' = None ∧ act (StartBody g) s' = None
  ∧ (submission s' = Free → open s' = false).
Proof.
  intros Hl Hu Hs'. assert (Hok : gate_ok s) by (eapply gate_ok_acts; [exact Hl|apply initial_gate_ok]).
  assert (Hu' : uncertain s' = true).
  { clear Hl Hok. revert s Hu Hs'. induction more as [|a more IH]; intros s Hu; cbn; [by intros [= <-]|].
    destruct (act a s) as [s1|] eqn:E; cbn; [|done]. apply IH. destruct s as [o g0 u h q c]. cbn in *.
    destruct a; repeat case_match; simplify_eq; done. }
  pose proof (gate_ok_acts _ _ _ Hs' Hok) as [_ H2]. specialize (H2 Hu').
  destruct s' as [o g0 u h q c]; cbn in *. subst u. destruct h; cbn; naive_solver.
Qed.

(** A generation is never revived: a submission of an offer taken at one
    generation runs its closure only if neither a [close] nor a [resume]
    completed since the offer was taken. *)
Theorem generation_fresh s more s' s'' :
  acts more s = Some s' →
  act (StartBody (generation s)) s' = Some s'' →
  Forall (λ a, a ≠ CloseBump ∧ a ≠ ResumeBump ∧ a ≠ FailBump) more.
Proof.
  intros Hmore Hst.
  assert (Hge : generation s = generation s').
  { destruct s' as [o g u h q c]. cbn in *. repeat case_match; simplify_eq. bools. congruence. }
  clear Hst. assert (Hmono : ∀ a s1 s2, act a s1 = Some s2 → generation s1 <= generation s2).
  { intros a [o g u h q c] s2. cbn. destruct a; repeat case_match; intros; simplify_eq; cbn; lia. }
  assert (Hmono2 : ∀ m s1 s2, acts m s1 = Some s2 → generation s1 <= generation s2).
  { induction m as [|a m IH]; intros s1 s2; cbn; [by intros [= <-]|].
    destruct (act a s1) as [s3|] eqn:E; cbn; [|done]. intros H3. apply Hmono in E. apply IH in H3. lia. }
  revert s Hmore Hge. induction more as [|a more IH]; intros s Hmore Hge; [done|].
  cbn in Hmore. destruct (act a s) as [s1|] eqn:E; cbn in Hmore; [|done].
  pose proof (Hmono _ _ _ E) as H1. pose proof (Hmono2 _ _ _ Hmore) as H2. constructor; [|apply (IH s1); [done|lia]].
  destruct s as [o g u h q c]. cbn in *.
  split_and!; intros ->; cbn in E; repeat case_match; simplify_eq; cbn in *; lia.
Qed.

(** ** Runs of the three properties *)
Definition pause_run : list Action :=
  [ResumeLock; ResumeBump; ResumeOpen; SubmitLock 1; SubmitSawOpen; StartBody 1; CloseStore; CloseBump; BodyOk; FenceOk].
Definition paused : Admission := default initial_gate (acts pause_run initial_gate).
Lemma fence_quiesces_witness :
  quiesced paused = true ∧ act (StartBody 1) (default initial_gate (acts [SubmitLock 1; SubmitShut] paused)) = None.
Proof.
  split; [reflexivity|].
  apply (fence_quiesces pause_run paused [SubmitLock 1; SubmitShut]); [reflexivity|reflexivity| |reflexivity].
  repeat (constructor; [discriminate|]). constructor.
Defined.
Definition failed_run : list Action := [ResumeLock; ResumeBump; ResumeOpen; SubmitLock 1; SubmitSawOpen; StartBody 1; BodyErr].
Definition failed : Admission := default initial_gate (acts failed_run initial_gate).
Lemma uncertainty_latches_witness :
  uncertain failed = true ∧ act FenceOk (default initial_gate (acts [FailStore; FailBump] failed)) = None.
Proof. split; [reflexivity|]. apply (uncertainty_latches failed_run failed [FailStore; FailBump] _ 1); reflexivity. Defined.
Definition opened : Admission := default initial_gate (acts [ResumeLock; ResumeBump; ResumeOpen] initial_gate).
Lemma generation_fresh_witness :
  Forall (λ a, a ≠ CloseBump ∧ a ≠ ResumeBump ∧ a ≠ FailBump) [SubmitLock 1; SubmitSawOpen].
Proof.
  apply (generation_fresh opened [SubmitLock 1; SubmitSawOpen]
    (default initial_gate (acts [SubmitLock 1; SubmitSawOpen] opened))
    (default initial_gate (acts [SubmitLock 1; SubmitSawOpen; StartBody 1] opened))); reflexivity.
Defined.
