(* ===== verification/Offers.v ===== *)
(** * Offers: what the capture worker reads from the compositor — the MIME
    policy of [capture/policy.rs], the bounded transfer of
    [capture/transfer.rs] and the offer bookkeeping of [capture/wayland.rs]. *)
From Stdlib Require Import Ascii.
From S2P Require Import Prelude Text.
Local Open Scope Z_scope.

(** ** policy.rs *)
Definition MAX_OFFERS : Z := 64.
Definition MAX_SEATS : Z := 16.

Record OfferedMimes := mkOffered {
  choices : list (option string);
  om_count : Z;
  om_bytes : Z;
  rejected : bool;
}.
Definition OfferedMimes_default : OfferedMimes := mkOffered (replicate 6 None) 0 0 false.

Definition sensitive_marker (v : string) : bool :=
  memb v ["application/x-shelllist-sensitive"; "x-kde-passwordManagerHint"].
(** What disqualifies a single value. *)
Definition bad_value (v : string) : bool :=
  sensitive_marker v || bool_decide (v = EmptyString) || (96 <? str_len v)
  || negb (str_forallb (λ c, between 32 c 126) v).

Definition rank (v : string) : option nat :=
  let essence := before_char ";"%char v in
  if memb essence ["text/plain"; "UTF8_STRING"; "STRING"; "TEXT"] then Some 0%nat
  else if starts_with "image/" essence then Some 1%nat
  else if starts_with "x-special/" essence then Some 2%nat
  else if bool_decide (essence = "application/x-gnome-copied-files") then Some 2%nat
  else if bool_decide (essence = "chromium/x-web-custom-data") then Some 3%nat
  else if starts_with "chromium/x-internal" essence then None
  else if starts_with "text/" essence then Some 4%nat
  else if str_contains_char "/"%char essence
          && match essence with
             | String a _ => is_ascii_lowercase (char_z a)
             | EmptyString => false
             end then Some 5%nat
  else None.
Definition parameterized (v : string) : bool := str_contains_char ";"%char v.

Definition add (v : string) (o : OfferedMimes) : OfferedMimes :=
  if rejected o then o
  else
    let count := om_count o + 1 in
    let total := om_bytes o + str_len v in
    let bad := sensitive_marker v || bool_decide (v = EmptyString) || (MAX_OFFERS <? count)
               || (8192 <? total) || (96 <? str_len v)
               || negb (str_forallb (λ c, between 32 c 126) v) in
    if bad then mkOffered (choices o) count total true
    else
      match rank v with
      | None => mkOffered (choices o) count total false
      | Some r =>
          let replace := match default None (choices o !! r) with
                         | None => true
                         | Some previous => parameterized previous && negb (parameterized v)
                         end in
          mkOffered (if replace then <[r := Some v]> (choices o) else choices o) count total false
      end.
Definition adds (vs : list string) : OfferedMimes := foldl (λ o v, add v o) OfferedMimes_default vs.

(** [choices.iter_mut().find_map(Option::take)]. *)
Fixpoint take_first (l : list (option string)) : option (string * list (option string)) :=
  match l with
  | [] => None
  | Some v :: l' => Some (v, None :: l')
  | None :: l' => '(v, l'') ← take_first l'; Some (v, None :: l'')
  end.
Definition next (o : OfferedMimes) : option string * OfferedMimes :=
  if rejected o then (None, o)
  else match take_first (choices o) with
       | Some (v, l) => (Some v, mkOffered l (om_count o) (om_bytes o) (rejected o))
       | None => (None, o)
       end.
(** All that repeated [next] would offer to read. *)
Definition preference (o : OfferedMimes) : list string :=
  if rejected o then [] else omap id (choices o).

(** The choice for rank [r] among the values offered so far: the first one
    without parameters, or else the first one. *)
Definition ranked (r : nat) (vs : list string) : list string := filter (λ v, rank v = Some r) vs.
Definition best (r : nat) (vs : list string) : option string :=
  match head (filter (λ v, parameterized v = false) (ranked r vs)) with
  | Some v => Some v
  | None => head (ranked r vs)
  end.

Lemma rank_lt v r : rank v = Some r → (r < 6)%nat.
Proof. unfold rank. repeat case_match; intros [= <-]; lia. Qed.

Lemma head_snoc {A} (l : list A) x : head (l ++ [x]) = match head l with Some y => Some y | None => Some x end.
Proof. by destruct l. Qed.

Lemma best_snoc r vs v :
  best r (vs ++ [v]) =
    if decide (rank v = Some r) then
      match best r vs with
      | None => Some v
      | Some p => if parameterized p && negb (parameterized v) then Some v else Some p
      end
    else best r vs.
Proof.
  unfold best, ranked. rewrite filter_app, filter_cons, filter_nil.
  destruct (decide (rank v = Some r)) as [Hr|Hr]; [|by rewrite app_nil_r].
  rewrite filter_app, filter_cons, filter_nil, head_snoc.
  set (l := filter (λ v, rank v = Some r) vs).
  assert (Hp : ∀ p, head (filter (λ v, parameterized v = false) l) = Some p → parameterized p = false).
  { intros p Hp. assert (Hin : p ∈ filter (λ v, parameterized v = false) l).
    { destruct (filter _ l); [done|]. injection Hp as ->. by left. }
    by apply list_elem_of_filter in Hin as [? _]. }
  assert (Hn : head (filter (λ v, parameterized v = false) l) = None → ∀ p, head l = Some p → parameterized p = true).
  { intros Hnone p Hhd. destruct l as [|x l']; [done|]. injection Hhd as ->.
    rewrite filter_cons in Hnone. destruct (decide (parameterized p = false)); [done|].
    by destruct (parameterized p). }
  destruct (decide (parameterized v = false)) as [Hv|Hv]; rewrite ?app_nil_r, ?head_snoc.
  - destruct (head (filter _ l)) as [p|] eqn:E.
    + by rewrite (Hp p eq_refl).
    + rewrite Hv. destruct (head l) as [p|] eqn:El; [|done]. by rewrite (Hn eq_refl p eq_refl).
  - apply not_false_iff_true in Hv. rewrite Hv. cbn [negb].
    destruct (head (filter _ l)) as [p|]; [by rewrite andb_false_r|].
    destruct (head l); by rewrite ?andb_false_r.
Qed.

(** Whether the values, taken together, disqualify the offer. *)
Definition disqualified (vs : list string) : bool :=
  existsb bad_value vs || (MAX_OFFERS <? zlen vs) || (8192 <? zsum (str_len <$> vs)).

Lemma str_len_nonneg v : 0 <= str_len v.
Proof. unfold str_len. lia. Qed.
Lemma adds_snoc vs v : adds (vs ++ [v]) = add v (adds vs).
Proof. unfold adds. by rewrite foldl_app. Qed.

Lemma disqualified_snoc vs v :
  disqualified (vs ++ [v]) =
    disqualified vs || bad_value v || (MAX_OFFERS <? zlen vs + 1) || (8192 <? zsum (str_len <$> vs) + str_len v).
Proof.
  unfold disqualified. rewrite existsb_app, zlen_app, fmap_app, zsum_app. cbn [existsb fmap list_fmap zsum].
  change (zlen [v]) with 1. rewrite Z.add_0_r, orb_false_r. pose proof (str_len_nonneg v).
  destruct (existsb bad_value vs), (bad_value v); cbn; try done.
  - by rewrite !orb_true_r.
  - destruct (Z.ltb_spec MAX_OFFERS (zlen vs)), (Z.ltb_spec MAX_OFFERS (zlen vs + 1)),
      (Z.ltb_spec 8192 (zsum (str_len <$> vs))), (Z.ltb_spec 8192 (zsum (str_len <$> vs) + str_len v)); cbn; try done; lia.
Qed.

Lemma adds_spec vs :
  rejected (adds vs) = disqualified vs
  ∧ (disqualified vs = false →
       om_count (adds vs) = zlen vs ∧ om_bytes (adds vs) = zsum (str_len <$> vs)
       ∧ length (choices (adds vs)) = 6%nat
       ∧ ∀ r, (r < 6)%nat → choices (adds vs) !! r = Some (best r vs)).
Proof.
  induction vs as [|v vs [IHr IHc]] using rev_ind.
  { split; [done|]. intros _. split_and!; try done. intros r Hr.
    do 6 (destruct r as [|r]; [done|]). lia. }
  rewrite adds_snoc, disqualified_snoc. unfold add. rewrite IHr.
  destruct (disqualified vs); [by split|]. destruct (IHc eq_refl) as (Hc & Hb & Hl & Hch). cbn [orb].
  rewrite Hc, Hb.
  assert (Hbad : sensitive_marker v || bool_decide (v = EmptyString) || (MAX_OFFERS <? zlen vs + 1)
            || (8192 <? zsum (str_len <$> vs) + str_len v) || (96 <? str_len v)
            || negb (str_forallb (λ c, between 32 c 126) v)
          = bad_value v || (MAX_OFFERS <? zlen vs + 1) || (8192 <? zsum (str_len <$> vs) + str_len v)).
  { unfold bad_value. destruct (sensitive_marker v), (bool_decide _), (_ <? zlen vs + 1), (8192 <? _), (96 <? _), (str_forallb _ v); done. }
  rewrite Hbad. destruct (bad_value v || _ || _); [by split|].
  assert (Hs : zlen vs + 1 = zlen (vs ++ [v])) by by rewrite zlen_app.
  assert (Hz : zsum (str_len <$> vs) + str_len v = zsum (str_len <$> vs ++ [v])).
  { rewrite fmap_app, zsum_app. cbn. lia. }
  destruct (rank v) as [r0|] eqn:Hr0; cbn [rejected om_count om_bytes choices]; (split; [done|]); intros _.
  - split_and!; [done|done|by case_match; rewrite ?length_insert|].
    intros r Hr. rewrite best_snoc, Hr0. rewrite (Hch r0 (rank_lt v r0 Hr0)).
    change (default None (Some (best r0 vs))) with (best r0 vs).
    destruct (decide (r = r0)) as [->|Hne].
    + rewrite decide_True by done. destruct (best r0 vs) as [p|] eqn:Hbest.
      * destruct (parameterized p && _); [rewrite list_lookup_insert_eq by lia; done|by rewrite Hch, Hbest].
      * rewrite list_lookup_insert_eq by lia. done.
    + rewrite decide_False by congruence. case_match; rewrite ?list_lookup_insert_ne by done; by apply Hch.
  - split_and!; [done|done|done|]. intros r Hr. rewrite best_snoc, decide_False by congruence. by apply Hch.
Qed.

(** The MIME policy depends on the whole offer, in any order: one sensitive
    marker, malformed value, or too many or too long values, before or after
    anything else, and nothing is ever read; otherwise [next] proposes, class by
    class in the order plain text, image, special, custom, other text, other,
    the first value without parameters of that class, or its first value. *)
Theorem offered_policy vs :
  (disqualified vs = true → next (adds vs) = (None, adds vs))
  ∧ (disqualified vs = false →
       preference (adds vs) = omap (λ r, best r vs) [0; 1; 2; 3; 4; 5]%nat).
Proof.
  destruct (adds_spec vs) as [Hr Hc]. split; intros Hd.
  - unfold next. by rewrite Hr, Hd.
  - unfold preference. rewrite Hr, Hd. destruct (Hc Hd) as (_ & _ & Hl & Hch).
    assert (Hall : choices (adds vs) = (λ r, best r vs) <$> [0; 1; 2; 3; 4; 5]%nat).
    { apply list_eq. intros i. destruct (decide (i < 6)%nat) as [Hi|Hi].
      - rewrite (Hch i Hi), list_lookup_fmap. do 6 (destruct i as [|i]; [done|]). lia.
      - rewrite !lookup_ge_None_2; [done|cbn; lia|lia]. }
    rewrite Hall. clear. cbn. by repeat case_match.
Qed.

(** Retrying after a blank transfer walks the preferences: each [next]
    yields the most preferred remaining choice and removes it. *)
Theorem next_walks vs :
  match next (adds vs) with
  | (Some v, o) => preference (adds vs) = v :: preference o ∧ v ∈ vs
  | (None, o) => preference (adds vs) = [] ∧ o = adds vs
  end.
Proof.
  assert (Hbest : ∀ r v, best r vs = Some v → v ∈ vs).
  { intros r v. unfold best. assert (Hhead : ∀ l, head l = Some v → v ∈ l) by (by intros [|x l] [= ->]; left).
    case_match eqn:E; [intros [= ->]; apply Hhead in E|intros E2; apply Hhead in E2];
      unfold ranked in *; rewrite !list_elem_of_filter in *; tauto. }
  destruct (adds_spec vs) as [Hr Hc]. unfold next, preference.
  destruct (rejected (adds vs)) eqn:Hrej; [done|]. symmetry in Hr.
  destruct (Hc Hr) as (_ & _ & Hl & Hch).
  assert (Htake : ∀ l, match take_first l with
                       | Some (v, l') => omap id l = v :: omap id l' ∧ Some v ∈ l
                       | None => omap id l = []
                       end).
  { clear. induction l as [|[v|] l IH]; cbn; [done|split; [done|by left]|].
    destruct (take_first l) as [[v l']|]; cbn; [|done]. destruct IH as [-> ?]. split; [done|by right]. }
  specialize (Htake (choices (adds vs))).
  destruct (take_first _) as [[v l']|]; cbn; [|done]. destruct Htake as [-> Hin]. split; [done|].
  apply list_elem_of_lookup in Hin as [r Hr2].
  assert (r < 6)%nat by (rewrite <- Hl; by eapply lookup_lt_Some).
  rewrite (Hch r) in Hr2 by done. injection Hr2 as Hr2. by apply (Hbest r).
Qed.
