(* ===== verification/Wayland.v ===== *)
(** * Wayland: the capture event loop's state, [capture/wayland.rs] ([State])
    with the transfers of [capture/transfer.rs].

    The compositor, the clock, the pipes and the gate are the environment: each
    handler takes what they answer as arguments. *)
From Stdlib Require Import Ascii.
From S2P Require Import Prelude Text Offers.
Local Open Scope Z_scope.

(** ** transfer.rs *)
Definition MAX_TRANSFERS : Z := 4.
Definition TOTAL_BYTES : Z := 134217728.
(** Milliseconds. *)
Definition IDLE : Z := 5000.
Definition TOTAL : Z := 15000.

(** [Budget::reserve]; dropping the [Reservation] subtracts it again. *)
Definition budget_reserve (used n : Z) : option Z :=
  next ← checked_add used n; if next <=? TOTAL_BYTES then Some next else None.

Record Transfer := mkTransfer {
  data : bytes;
  length : Z;
  limit : Z;
  nonblank : bool;
  started : Z;
  progress : Z;
}.
Definition new_transfer (limit now : Z) : Transfer := mkTransfer [] 0 limit false now now.

(** What [source.read] answers. *)
Inductive ReadResult := Chunk (b : bytes) | Eof | Again | Failed.
Inductive Polled := More (t : Transfer) | Reached (t : Transfer) | Dropped.

Definition append (b : bytes) (now : Z) (write_ok : bool) (t : Transfer) : Polled :=
  let len := length t + zlen b in
  if limit t <? len then Dropped
  else if write_ok then
    More (mkTransfer (data t ++ b) len (limit t)
            (nonblank t || existsb (λ x, negb (is_ascii_whitespace (byte_z x))) b) (started t) now)
  else Dropped.
Definition receive (now : Z) (r : ReadResult) (write_ok : bool) (t : Transfer) : Polled :=
  if (IDLE <=? saturating_sub now (progress t)) || (TOTAL <=? saturating_sub now (started t)) then Dropped
  else match r with
       | Eof | Chunk [] => Reached t
       | Chunk b => append b now write_ok t
       | Again => More t
       | Failed => Dropped
       end.
Definition finish (t : Transfer) : option bytes := if nonblank t then Some (data t) else None.

(** Every tick of one transfer. *)
Record Tick := mkTick { tk_now : Z; tk_read : ReadResult; tk_write_ok : bool }.
Fixpoint poll_all (ticks : list Tick) (t : Transfer) : Polled :=
  match ticks with
  | [] => More t
  | k :: ks => match receive (tk_now k) (tk_read k) (tk_write_ok k) t with
               | More t' => poll_all ks t'
               | r => r
               end
  end.
Definition tick_bytes (k : Tick) : bytes := match tk_read k with Chunk b => b | _ => [] end.

Record transfer_ok (t : Transfer) : Prop := {
  to_length : length t = zlen (data t);
  to_limit : length t <= limit t;
  to_blank : nonblank t = existsb (λ x, negb (is_ascii_whitespace (byte_z x))) (data t);
  to_progress : started t <= progress t < started t + TOTAL;
}.
Lemma receive_ok now r w t t' :
  transfer_ok t → started t <= now → (∀ b, r = Chunk b → progress t <= now) →
  (receive now r w t = More t' ∨ receive now r w t = Reached t') →
  transfer_ok t' ∧ limit t' = limit t ∧ started t' = started t
  ∧ now < started t + TOTAL
  ∧ data t' = data t ++ match r with Chunk b => b | _ => [] end.
Proof.
  intros [Hl Hlim Hb Hp] Hnow Hmono. unfold receive.
  destruct ((IDLE <=? _) || _) eqn:Hd; [by intros [?|?]|]. bools. unfold saturating_sub in *.
  assert (Hdl : now < started t + TOTAL) by lia.
  destruct r as [[|x b]| | |]; try (intros [[=]|[=]]; subst; rewrite ?app_nil_r; split_and!; done); try (by intros [?|?]).
  unfold append. destruct (limit t <? _) eqn:Hlen; [by intros [?|?]|]. destruct w; [|by intros [?|?]].
  intros [[= <-]|?]; [|done]. bools. specialize (Hmono _ eq_refl). cbn. split_and!; try done.
  split; cbn; [rewrite zlen_app; lia|lia|by rewrite Hb, existsb_app|lia].
Qed.

(** A transfer is exact or absent: whenever it reaches end of file, in any
    chunking, its data is all the bytes that were read, no longer than the
    limit (an oversized source is dropped, not cut), it is blank exactly when
    they are all ASCII whitespace, and no tick came 15 seconds after the
    start. *)
Theorem transfer_exact ticks lim t0 t :
  0 <= lim → (∀ k, k ∈ ticks → t0 <= tk_now k) →
  StronglySorted (λ a b, tk_now a <= tk_now b) ticks →
  poll_all ticks (new_transfer lim t0) = Reached t →
  ∃ seen, seen `prefix_of` ticks ∧ data t = mbind tick_bytes seen ∧ zlen (data t) <= lim
          ∧ (finish t = None ↔ Forall (λ x, is_ascii_whitespace (byte_z x) = true) (data t))
          ∧ Forall (λ k, tk_now k < t0 + TOTAL) seen.
Proof.
  intros Hlim Hstart Hsort Hrun.
  enough (Hgen : ∀ ticks t1, transfer_ok t1 → (∀ k, k ∈ ticks → progress t1 <= tk_now k) →
            StronglySorted (λ a b, tk_now a <= tk_now b) ticks → poll_all ticks t1 = Reached t →
            ∃ seen, seen `prefix_of` ticks ∧ data t = data t1 ++ mbind tick_bytes seen
                    ∧ transfer_ok t ∧ limit t = limit t1 ∧ Forall (λ k, tk_now k < started t1 + TOTAL) seen).
  { destruct (Hgen ticks (new_transfer lim t0)) as (seen & Hp & Hd & [H1 H2 H3 _] & Hl & Hf); try done.
    - split; cbn; [done|done|done|unfold TOTAL; lia].
    - exists seen. cbn in *. split_and!; [done|done|lia| |done].
      unfold finish. rewrite H3. split.
      + intros Hn. apply Forall_forall. intros x Hx.
        destruct (is_ascii_whitespace (byte_z x)) eqn:E; [done|].
        assert (He : existsb (λ x, negb (is_ascii_whitespace (byte_z x))) (data t) = true).
        { apply existsb_exists. exists x. split; [by apply list_elem_of_In|by rewrite E]. }
        by rewrite He in Hn.
      + intros Hall. destruct (existsb _ _) eqn:E; [|done].
        apply existsb_exists in E as (x & Hx & Hn). rewrite Forall_forall in Hall.
        rewrite (Hall x) in Hn; [done|by apply list_elem_of_In]. }
  clear ticks Hstart Hsort Hrun. intros ticks. induction ticks as [|k ks IH]; intros t1 Hok Hst Hsort Hrun; [done|].
  apply StronglySorted_inv in Hsort as [Hsort Hk]. cbn [poll_all] in Hrun.
  pose proof (Hst k (list_elem_of_here k ks)) as Hk1. pose proof (to_progress _ Hok) as Hpr.
  destruct (receive (tk_now k) (tk_read k) (tk_write_ok k) t1) as [t2|t2|] eqn:E; [| |done].
  - destruct (receive_ok (tk_now k) (tk_read k) (tk_write_ok k) t1 t2 Hok) as (Hok2 & Hl & Hs & Hdl & Hd);
      [lia|by intros|by left|].
    assert (Hpt : progress t2 <= tk_now k).
    { unfold receive in E. destruct (_ || _); [done|]. destruct (tk_read k) as [[|x b]| | |]; simplify_eq; [|done].
      unfold append in E. destruct (_ <? _); [done|]. destruct (tk_write_ok k); [|done]. by simplify_eq. }
    destruct (IH t2 Hok2) as (seen & Hp & Hdt & Hokt & Hlt & Hf); [|done|done|].
    { intros k' Hk'. rewrite Forall_forall in Hk. specialize (Hk k' Hk'). lia. }
    exists (k :: seen). split_and!; [by apply prefix_cons| |done|congruence|].
    + rewrite Hdt, Hd, bind_cons, (assoc_L (++)). done.
    + rewrite Hs in Hf. by constructor.
  - injection Hrun as ->. destruct (receive_ok (tk_now k) (tk_read k) (tk_write_ok k) t1 t Hok) as (Hok2 & Hl & Hs & Hdl & Hd);
      [lia|by intros|by right|].
    exists [k]. split_and!; [by exists ks| |done|done|by constructor].
    rewrite Hd, bind_cons. change (mbind tick_bytes []) with (@nil byte). by rewrite app_nil_r.
Qed.

(** ** wayland.rs *)
Record Pending := mkPending {
  mimes : OfferedMimes;
  seat : Z;
  offered : list string;      (* history variable: the values added *)
}.
Record Receiving := mkReceiving {
  pending : Pending;
  rc_mime : string;
  transfer : Transfer;
  rc_generation : Z;
}.
(** What [finish] hands to the ingest worker. *)
Record Job := mkJob {
  job_bytes : bytes;
  job_mime : string;
  job_generation : Z;
  job_reserved : Z;
  job_offered : list string;  (* history variable *)
}.
Inductive Manager := Ext | Wlr.
#[export] Instance Manager_eq_dec : EqDecision Manager.
Proof. solve_decision. Defined.
Record State := mkState {
  ext : option Z;
  wlr : option Z;
  manager : option Manager;
  seats : gmap Z bool;                   (* whether a device is attached *)
  offers : gmap Z Pending;
  transfers : list Receiving;
  ready : bool;
  skip_initial : bool;
  error : option string;
  (* the session: its transfer limit, byte budget and ingest channel *)
  session_limit : Z;
  budget : Z;
  jobs : list Job;
}.
Definition initial_state (skip : bool) (limit : Z) : State :=
  mkState None None None ∅ ∅ [] false skip None limit 0 [].

Definition set_globals (e w : option Z) (s : State) : State :=
  mkState e w (manager s) (seats s) (offers s) (transfers s) (ready s) (skip_initial s) (error s)
          (session_limit s) (budget s) (jobs s).
Definition set_seats (m : option Manager) (ss : gmap Z bool) (s : State) : State :=
  mkState (ext s) (wlr s) m ss (offers s) (transfers s) (ready s) (skip_initial s) (error s)
          (session_limit s) (budget s) (jobs s).
Definition set_offers (os : gmap Z Pending) (s : State) : State :=
  mkState (ext s) (wlr s) (manager s) (seats s) os (transfers s) (ready s) (skip_initial s) (error s)
          (session_limit s) (budget s) (jobs s).
Definition set_transfers (b : Z) (ts : list Receiving) (s : State) : State :=
  mkState (ext s) (wlr s) (manager s) (seats s) (offers s) ts (ready s) (skip_initial s) (error s)
          (session_limit s) b (jobs s).
Definition set_jobs (b : Z) (js : list Job) (s : State) : State :=
  mkState (ext s) (wlr s) (manager s) (seats s) (offers s) (transfers s) (ready s) (skip_initial s)
          (error s) (session_limit s) b js.
Definition set_status (r : bool) (e : option string) (s : State) : State :=
  mkState (ext s) (wlr s) (manager s) (seats s) (offers s) (transfers s) r (skip_initial s) e
          (session_limit s) (budget s) (jobs s).

Definition add_global (name : Z) (interface : string) (version : Z) (s : State) : State :=
  if bool_decide (interface = "ext_data_control_manager_v1") then set_globals (Some name) (wlr s) s
  else if bool_decide (interface = "zwlr_data_control_manager_v1") && (2 <=? version) then
    set_globals (ext s) (Some name) s
  else if bool_decide (interface = "wl_seat") && (Z.of_nat (size (seats s)) <? MAX_SEATS) then
    set_seats (manager s) (<[name := bool_decide (is_Some (manager s))]> (seats s)) s
  else s.

(** Dropping a transfer returns its reservation. *)
Definition reserved (s : State) (r : Receiving) : Z := session_limit s + 1.
Definition remove_seat (name : Z) (s : State) : State :=
  let kept := filter (λ r, seat (pending r) ≠ name) (transfers s) in
  let gone := filter (λ r, seat (pending r) = name) (transfers s) in
  set_seats (manager s) (delete name (seats s))
    (set_transfers (budget s - zsum (reserved s <$> gone)) kept
       (set_offers (filter (λ kv, seat kv.2 ≠ name) (offers s)) s)).

Definition offer (id st : Z) (s : State) : State :=
  if MAX_OFFERS <=? Z.of_nat (size (offers s)) + zlen (transfers s) then s
  else set_offers (<[id := mkPending OfferedMimes_default st []]> (offers s)) s.
(** [Offer] event: [pending.mimes.add(mime_type)]. *)
Definition add_mime (id : Z) (v : string) (s : State) : State :=
  match offers s !! id with
  | None => s
  | Some p => set_offers (<[id := mkPending (add v (mimes p)) (seat p) (offered p ++ [v])]> (offers s)) s
  end.

(** [admitted] is what the gate's [admit] answers, [piped] whether the pipe and
    the transfer could be set up. *)
Definition start (p : Pending) (admitted : option Z) (piped : bool) (now : Z) (s : State) : State :=
  if MAX_TRANSFERS <=? zlen (transfers s) then s
  else
    match admitted with
    | None => s
    | Some g =>
        match next (mimes p) with
        | (None, _) => s
        | (Some mime, ms) =>
            match budget_reserve (budget s) (session_limit s + 1) with
            | None => s
            | Some used =>
                if piped then
                  set_transfers used
                    (transfers s ++ [mkReceiving (mkPending ms (seat p) (offered p)) mime
                                       (new_transfer (session_limit s) now) g]) s
                else s
            end
        end
    end.

Definition select (id : Z) (admitted : option Z) (piped : bool) (now : Z) (s : State) : State :=
  match offers s !! id with
  | None => s
  | Some p =>
      let s := set_offers (delete id (offers s)) s in
      if skip_initial s && negb (ready s) then s else start p admitted piped now s
  end.
Definition primary_selection (id : Z) (s : State) : State := set_offers (delete id (offers s)) s.

(** What one transfer meets in one call of [receive]. *)
Record Poll := mkPoll {
  pl_accepts : bool;                    (* gate.accepts(generation) *)
  pl_tick : Tick;
  pl_rewind : bool;                     (* finish: rewind succeeded *)
  pl_sent : bool;                       (* the ingest channel had room *)
  pl_admitted : option Z;
  pl_piped : bool;
}.
Definition push_back (r : Receiving) (t : Transfer) (s : State) : State :=
  set_transfers (budget s) (transfers s ++ [mkReceiving (pending r) (rc_mime r) t (rc_generation r)]) s.
Definition drop_one (r : Receiving) (s : State) : State :=
  set_transfers (budget s - reserved s r) (transfers s) s.
Definition finish_one (r : Receiving) (t : Transfer) (k : Poll) (s : State) : State :=
  if negb (nonblank t) then
    start (pending r) (pl_admitted k) (pl_piped k) (tk_now (pl_tick k)) (drop_one r s)
  else if pl_rewind k && pl_sent k then
    set_jobs (budget s)
      (jobs s ++ [mkJob (data t) (rc_mime r) (rc_generation r) (reserved s r) (offered (pending r))]) s
  else drop_one r s.
Definition receive_one (r : Receiving) (k : Poll) (s : State) : State :=
  if negb (pl_accepts k) then drop_one r s
  else match receive (tk_now (pl_tick k)) (tk_read (pl_tick k)) (tk_write_ok (pl_tick k)) (transfer r) with
       | More t => push_back r t s
       | Reached t => finish_one r t k s
       | Dropped => drop_one r s
       end.
(** [for receiving in mem::take(&mut self.transfers)]. *)
Fixpoint receive_each (rs : list Receiving) (poll : Receiving → Poll) (s : State) : State :=
  match rs with
  | [] => s
  | r :: rs' => receive_each rs' poll (receive_one r (poll r) s)
  end.
Definition receive_all (poll : Receiving → Poll) (s : State) : State :=
  receive_each (transfers s) poll (set_transfers (budget s) [] s).

Definition initialize (s : State) : State :=
  let m := match ext s, wlr s with
           | Some _, _ => Some Ext
           | None, Some _ => Some Wlr
           | None, None => None
           end in
  if bool_decide (m = None) || bool_decide (seats s = ∅) then
    set_status (ready s) (Some "Wayland capture requires data-control and a seat") (set_seats m (seats s) s)
  else set_seats m ((λ _, true) <$> seats s) s.

(** [GlobalRemove]. *)
Definition global_remove (name : Z) (s : State) : State :=
  let s := remove_seat name s in
  let s := if ready s && bool_decide (seats s = ∅)
           then set_status (ready s) (Some "Wayland capture has no seats") s else s in
  if bool_decide (ext s = Some name) || bool_decide (wlr s = Some name)
  then set_status (ready s) (Some "Wayland data-control manager disappeared") s else s.
(** [Barrier::Ready]. *)
Definition barrier_ready (s : State) : State :=
  if bool_decide (is_Some (error s)) || bool_decide (seats s = ∅) then
    set_status (ready s) (Some (default "Wayland capture has no seats" (error s))) s
  else set_status true (error s) s.
Definition device_finished (st : Z) (s : State) : State :=
  let s := remove_seat st s in set_status (ready s) (Some "Wayland capture device finished") s.
(** The ingest worker is done with its oldest job. *)
Definition job_done (s : State) : State :=
  match jobs s with
  | [] => s
  | j :: js => set_jobs (budget s - job_reserved j) js s
  end.

(** ** Events and invariant *)
Inductive Event :=
| AddGlobal (name : Z) (interface : string) (version : Z)
| GlobalRemove (name : Z)
| RegistryBarrier
| ReadyBarrier
| DataOffer (id st : Z)
| OfferMime (id : Z) (v : string)
| Selection (id : Z) (admitted : option Z) (piped : bool) (now : Z)
| PrimarySelection (id : Z)
| Finished (st : Z)
| ReceiveTick (poll : Receiving → Poll)
| JobDone.
Definition handle (e : Event) (s : State) : State :=
  match e with
  | AddGlobal n i v => add_global n i v s
  | GlobalRemove n => global_remove n s
  | RegistryBarrier => initialize s
  | ReadyBarrier => barrier_ready s
  | DataOffer id st => offer id st s
  | OfferMime id v => add_mime id v s
  | Selection id adm piped now => select id adm piped now s
  | PrimarySelection id => primary_selection id s
  | Finished st => device_finished st s
  | ReceiveTick poll => receive_all poll s
  | JobDone => job_done s
  end.
Definition handles (es : list Event) (s : State) : State := foldl (λ s e, handle e s) s es.

(** The MIME choices left in an offer are its own values. *)
Definition selectable (p : Pending) : Prop :=
  rejected (mimes p) = disqualified (offered p) ∧ ∀ v, Some v ∈ choices (mimes p) → v ∈ offered p.
Definition chosen (mime : string) (vs : list string) : Prop := disqualified vs = false ∧ mime ∈ vs.
Definition receiving_ok (lim : Z) (r : Receiving) : Prop :=
  selectable (pending r) ∧ chosen (rc_mime r) (offered (pending r))
  ∧ limit (transfer r) = lim ∧ zlen (data (transfer r)) = length (transfer r) ∧ length (transfer r) <= lim.
Definition job_ok (lim : Z) (j : Job) : Prop :=
  chosen (job_mime j) (job_offered j) ∧ zlen (job_bytes j) <= lim ∧ job_reserved j = lim + 1.

(** [rest]: transfers taken out by a [receive] in progress. *)
Record loop_ok (rest : list Receiving) (s : State) : Prop := {
  lo_transfers : zlen (transfers s) + zlen rest <= MAX_TRANSFERS;
  lo_offers : Z.of_nat (size (offers s)) + zlen (transfers s) + zlen rest <= MAX_OFFERS;
  lo_seats : Z.of_nat (size (seats s)) <= MAX_SEATS;
  lo_budget : budget s = (session_limit s + 1) * (zlen (transfers s) + zlen rest + zlen (jobs s));
  lo_total : budget s <= TOTAL_BYTES;
  lo_limit : 0 <= session_limit s;
  lo_pending : map_Forall (λ _ p, mimes p = adds (offered p)) (offers s);
  lo_receiving : Forall (receiving_ok (session_limit s)) (transfers s ++ rest);
  lo_jobs : Forall (job_ok (session_limit s)) (jobs s);
}.

Lemma adds_choices vs v : Some v ∈ choices (adds vs) → v ∈ vs.
Proof.
  revert v. induction vs as [|x vs IH] using rev_ind; intros v.
  - intros Hv. exfalso. cbn in Hv. repeat (apply elem_of_cons in Hv as [?|Hv]; [done|]). by apply elem_of_nil in Hv.
  - rewrite adds_snoc. unfold add. intros Hv. apply elem_of_app.
    destruct (rejected _); [left; auto|]. case_match; [left; auto|].
    destruct (rank x) as [r|]; cbn in Hv; [|left; auto].
    case_match; [|left; auto]. apply list_elem_of_lookup in Hv as [i Hi].
    destruct (decide (i = r)) as [->|Hne].
    + apply list_lookup_insert_Some in Hi as [(_ & [= <-] & _)|(? & _)]; [right; by left|done].
    + rewrite list_lookup_insert_ne in Hi by done. left. apply IH. by apply list_elem_of_lookup_2 in Hi.
Qed.
Lemma adds_selectable p : mimes p = adds (offered p) → selectable p.
Proof.
  intros Hm. split; rewrite Hm; [apply adds_spec|]. intros v. apply adds_choices.
Qed.
Lemma take_first_spec l v l' :
  take_first l = Some (v, l') → Some v ∈ l ∧ ∀ x, Some x ∈ l' → Some x ∈ l.
Proof.
  revert l'. induction l as [|[y|] l IH]; intros l'; cbn; [done| |].
  - intros [= -> <-]. split; [by left|]. intros x [?|?]%elem_of_cons; [done|by right].
  - destruct (take_first l) as [[w l'']|]; cbn; [|done]. intros [= -> <-].
    destruct (IH l'' eq_refl) as [H1 H2]. split; [by right|].
    intros x [?|Hx]%elem_of_cons; [done|right; auto].
Qed.
Lemma next_chosen p mime ms :
  selectable p → next (mimes p) = (Some mime, ms) →
  chosen mime (offered p) ∧ selectable (mkPending ms (seat p) (offered p)).
Proof.
  intros [Hr Hc]. unfold next. destruct (rejected (mimes p)) eqn:Hrej; [done|].
  destruct (take_first _) as [[v l]|] eqn:Ht; [|done]. intros [= <- <-].
  apply take_first_spec in Ht as [H1 H2]. split; [split; [done|auto]|].
  split; cbn; [done|]. auto.
Qed.

Lemma map_size_insert_le {A} (m : gmap Z A) i x : (size (<[i := x]> m) ≤ S (size m))%nat.
Proof. rewrite map_size_insert. destruct (m !! i); cbn; lia. Qed.

Section loop.
Implicit Types (s : State) (rest : list Receiving).

Lemma budget_reserve_Some used n u : budget_reserve used n = Some u → u = used + n ∧ u <= TOTAL_BYTES.
Proof.
  unfold budget_reserve, checked_add. case_match; cbn; [|done]. case_match; [|done].
  intros [= <-]. bools. done.
Qed.

(** Starting takes one free slot. *)
Lemma loop_start p adm piped now rest s :
  loop_ok rest s → selectable p →
  Z.of_nat (size (offers s)) + zlen (transfers s) + zlen rest + 1 <= MAX_OFFERS →
  zlen (transfers s) + zlen rest + 1 <= MAX_TRANSFERS ∨ rest = [] →
  loop_ok rest (start p adm piped now s).
Proof.
  intros Hl Hp Hslot Hrest. pose proof Hl as [H1 H2 H3 H4 H5 H6 H7 H8 H9]. unfold start.
  destruct (_ <=? _) eqn:Hfull; [done|]. destruct adm as [g|]; [|done].
  destruct (next (mimes p)) as [[mime|] ms] eqn:Hn; [|done].
  destruct (budget_reserve _ _) as [used|] eqn:Hb; [|done]. destruct piped; [|done].
  apply budget_reserve_Some in Hb as [-> Hb]. destruct (next_chosen _ _ _ Hp Hn) as [Hc Hs]. bools.
  split; cbn; try done; rewrite ?zlen_app; change (zlen [_]) with 1; try lia.
  - destruct Hrest as [?| ->]; [lia|]. rewrite zlen_nil. lia.
  - rewrite Forall_app in H8. destruct H8. rewrite !Forall_app. split_and!; try done.
    repeat constructor; cbn; try done; try apply Hc; try apply Hs; lia.
Qed.

Lemma loop_drop r rest s : loop_ok (r :: rest) s → loop_ok rest (drop_one r s).
Proof.
  intros [H1 H2 H3 H4 H5 H6 H7 H8 H9]. rewrite zlen_cons in *. split; cbn; try done; unfold reserved; try lia.
  rewrite Forall_app, Forall_cons in *. tauto.
Qed.
Lemma receive_data now rd w lim r t :
  receiving_ok lim r →
  (receive now rd w (transfer r) = More t ∨ receive now rd w (transfer r) = Reached t) →
  limit t = lim ∧ zlen (data t) = length t ∧ length t <= lim.
Proof.
  intros (_ & _ & Hlim & Hd & Hle). unfold receive. destruct (_ || _); [by intros [?|?]|].
  destruct rd as [[|x b]| | |]; try (intros [[=]|[=]]; subst; done); try (by intros [?|?]).
  unfold append. destruct (limit (transfer r) <? _) eqn:Hlen; [by intros [?|?]|].
  destruct w; [|by intros [?|?]]. intros [[= <-]|?]; [|done]. bools. cbn in *. rewrite zlen_app. lia.
Qed.
Lemma loop_receive_one r k rest s : loop_ok (r :: rest) s → loop_ok rest (receive_one r k s).
Proof.
  intros Hl. pose proof Hl as [H1 H2 H3 H4 H5 H6 H7 H8 H9]. rewrite zlen_cons in *.
  rewrite Forall_app, Forall_cons in H8. destruct H8 as (H8 & Hr & H8r).
  pose proof (loop_drop _ _ _ Hl) as Hdrop. unfold receive_one. destruct (negb (pl_accepts k)); [done|].
  destruct (receive _ _ _ _) as [t|t|] eqn:E; [| |done].
  - destruct (receive_data _ _ _ _ _ t Hr (or_introl E)) as (? & ? & ?). destruct Hr as (? & ? & _).
    unfold push_back. split; cbn; try done; rewrite ?zlen_app; change (zlen [_]) with 1; try lia.
    rewrite !Forall_app. split_and!; try done. apply Forall_singleton; by split_and!.
  - destruct (receive_data _ _ _ _ _ t Hr (or_intror E)) as (? & ? & ?). pose proof Hr as (Hsel & Hch & _).
    unfold finish_one. destruct (negb (nonblank t)).
    + apply loop_start; [done|done|cbn; lia|left; cbn; lia].
    + destruct (pl_rewind k && pl_sent k); [|done].
      split; cbn; try done; rewrite ?zlen_app; change (zlen [_]) with 1; try lia.
      * rewrite Forall_app. done.
      * apply Forall_app. split; [done|]. constructor; [|done]. split_and!; [done|cbn; lia|done].
Qed.
Lemma loop_receive_each poll rs s : loop_ok rs s → loop_ok [] (receive_each rs poll s).
Proof. revert s. induction rs as [|r rs IH]; intros s Hl; cbn; [done|]. by apply IH, loop_receive_one. Qed.

Lemma loop_remove_seat name s : loop_ok [] s → loop_ok [] (remove_seat name s).
Proof.
  intros [H1 H2 H3 H4 H5 H6 H7 H8 H9]. rewrite app_nil_r in H8. change (zlen (@nil Receiving)) with 0 in *.
  set (kept := filter (λ r, seat (pending r) ≠ name) (transfers s)).
  set (gone := filter (λ r, seat (pending r) = name) (transfers s)).
  assert (Hlen : zlen kept + zlen gone = zlen (transfers s)).
  { unfold kept, gone. clear. induction (transfers s) as [|r l IH]; [done|]. rewrite !filter_cons, zlen_cons.
    repeat case_decide; try done; rewrite ?zlen_cons; lia. }
  assert (Hsum : zsum (reserved s <$> gone) = (session_limit s + 1) * zlen gone).
  { clearbody gone; clear -gone. induction gone as [|r l IH]; [unfold zlen; cbn; lia|]. rewrite fmap_cons. cbn [zsum]. rewrite zlen_cons, IH. unfold reserved. lia. }
  assert (Hoff : (size (filter (λ kv : Z * Pending, seat kv.2 ≠ name) (offers s)) ≤ size (offers s))%nat).
  { apply map_subseteq_size, map_filter_subseteq. }
  assert (Hseat : (size (delete name (seats s)) ≤ size (seats s))%nat) by apply map_subseteq_size, delete_subseteq.
  pose proof (zlen_nonneg gone). pose proof (zlen_nonneg (jobs s)). unfold remove_seat. fold kept gone.
  split; cbn; rewrite ?Hsum; change (zlen (@nil Receiving)) with 0; try done; try lia; try nia.
  - intros i p [Hi _]%map_lookup_filter_Some. by apply (H7 i).
  - rewrite app_nil_r. by apply Forall_filter_l.
Qed.
Lemma loop_status r e s : loop_ok [] s → loop_ok [] (set_status r e s).
Proof. intros []. by split. Qed.
Lemma loop_delete_offer id s : loop_ok [] s → loop_ok [] (set_offers (delete id (offers s)) s).
Proof.
  intros [H1 H2 H3 H4 H5 H6 H7 H8 H9].
  assert ((size (delete id (offers s)) ≤ size (offers s))%nat) by apply map_subseteq_size, delete_subseteq.
  split; cbn; try done; [lia|]. by apply map_Forall_delete.
Qed.

Lemma loop_handle e s : loop_ok [] s → loop_ok [] (handle e s).
Proof.
  intros Hl. pose proof Hl as [H1 H2 H3 H4 H5 H6 H7 H8 H9]. destruct e; cbn [handle].
  - unfold add_global. destruct (bool_decide _); [by split|]. destruct (_ && _); [by split|].
    destruct (_ && _) eqn:Hc; [|done]. bools. split; cbn; try done.
    pose proof (map_size_insert_le (seats s) name (bool_decide (is_Some (manager s)))). lia.
  - unfold global_remove. pose proof (loop_remove_seat name s Hl) as Hr.
    repeat case_match; repeat apply loop_status; done.
  - unfold initialize. repeat case_match; (split; cbn; try done; by rewrite ?map_size_fmap).
  - unfold barrier_ready. case_match; by apply loop_status.
  - unfold offer. destruct (_ <=? _) eqn:Hc; [done|]. bools. split; cbn; try done.
    + pose proof (map_size_insert_le (offers s) id (mkPending OfferedMimes_default st [])).
      change (zlen (@nil Receiving)) with 0 in *. lia.
    + apply map_Forall_insert_2; done.
  - unfold add_mime. destruct (offers s !! id) as [p|] eqn:Hp; [|done]. split; cbn; try done.
    + rewrite map_size_insert_Some by by rewrite Hp. done.
    + apply map_Forall_insert_2; [|done]. cbn. rewrite adds_snoc. by rewrite <- (H7 id p Hp).
  - unfold select. destruct (offers s !! id) as [p|] eqn:Hp; [|done].
    pose proof (loop_delete_offer id s Hl) as Hd. destruct (_ && _); [done|].
    apply loop_start; [done|by apply adds_selectable, (H7 id)| |by right]. cbn.
    rewrite map_size_delete_Some by done. change (zlen (@nil Receiving)) with 0 in *.
    assert (size (offers s) ≠ 0)%nat by (apply (map_size_ne_0_lookup_2 _ id); by rewrite Hp). lia.
  - by apply loop_delete_offer.
  - unfold device_finished. by apply loop_status, loop_remove_seat.
  - unfold receive_all. apply loop_receive_each. change (zlen (@nil Receiving)) with 0 in *.
    rewrite app_nil_r in H8. split; cbn; try done; change (zlen (@nil Receiving)) with 0; try lia.
  - unfold job_done. destruct (jobs s) as [|j js] eqn:Hj; [done|]. inversion_clear H9 as [|? ? (_ & _ & Hjr) Hjs].
    rewrite zlen_cons in H4. split; cbn; try done; rewrite ?Hjr; lia.
Qed.
End loop.

Lemma initial_loop_ok skip lim : 0 <= lim → loop_ok [] (initial_state skip lim).
Proof.
  intros Hlim. split; cbn; try done; try (unfold zlen; cbn; lia); try (unfold TOTAL_BYTES; lia).
Qed.
Lemma loop_handles es s : loop_ok [] s → loop_ok [] (handles es s).
Proof. revert s. induction es as [|e es IH]; intros s Hl; [done|]. by apply IH, loop_handle. Qed.

(** C38 The capture worker is bounded whatever the compositor sends: at most 16
    seats, 4 running transfers, 64 offers in all, and 128 MiB reserved for
    transfers and jobs together, of which every byte is accounted for: nothing
    leaks and nothing is released twice. *)
Theorem capture_bounded skip lim es :
  0 <= lim →
  let s := handles es (initial_state skip lim) in
  zlen (transfers s) <= MAX_TRANSFERS ∧ Z.of_nat (size (offers s)) + zlen (transfers s) <= MAX_OFFERS
  ∧ Z.of_nat (size (seats s)) <= MAX_SEATS
  ∧ budget s = (session_limit s + 1) * (zlen (transfers s) + zlen (jobs s))
  ∧ budget s <= TOTAL_BYTES
  ∧ Forall (λ r, zlen (data (transfer r)) <= session_limit s) (transfers s).
Proof.
  intros Hlim s. destruct (loop_handles es _ (initial_loop_ok skip lim Hlim)) as [H1 H2 H3 H4 H5 H6 H7 H8 H9].
  fold s in H1, H2, H3, H4, H5, H8. change (zlen (@nil Receiving)) with 0 in *. rewrite app_nil_r in H8.
  split_and!; try done; try lia.
  eapply Forall_impl; [exact H8|]. intros r (_ & _ & _ & Hd & Hle). cbn in *. lia.
Qed.

(** C11 No secret is read or stored: whatever the order of events, the bytes of
    an offer are requested, and a job is handed to storage, only for an offer
    none of whose announced values is a sensitive marker or otherwise
    disqualifying, and only under a MIME type that offer announced. *)
Theorem sensitive_never_read skip lim es :
  0 <= lim →
  let s := handles es (initial_state skip lim) in
  Forall (λ r, disqualified (offered (pending r)) = false ∧ rc_mime r ∈ offered (pending r)) (transfers s)
  ∧ Forall (λ j, disqualified (job_offered j) = false ∧ job_mime j ∈ job_offered j
                 ∧ zlen (job_bytes j) <= session_limit s) (jobs s).
Proof.
  intros Hlim s. destruct (loop_handles es _ (initial_loop_ok skip lim Hlim)) as [_ _ _ _ _ _ _ H8 H9].
  fold s in H8, H9. rewrite app_nil_r in H8. split.
  - eapply Forall_impl; [exact H8|]. intros r (_ & Hc & _). exact Hc.
  - eapply Forall_impl; [exact H9|]. intros j ([? ?] & ? & _). done.
Qed.

(** ** Example runs *)
Definition two_chunks : list Tick :=
  [mkTick 10 (Chunk [x61; x62]) true; mkTick 20 (Chunk [x63]) true; mkTick 30 Eof true].
Definition reached : Transfer := match poll_all two_chunks (new_transfer 4 0) with Reached t => t | _ => new_transfer 4 0 end.
Lemma transfer_exact_witness :
  data reached = [x61; x62; x63] ∧ ∃ seen, seen `prefix_of` two_chunks ∧ data reached = mbind tick_bytes seen ∧ zlen (data reached) <= 4.
Proof.
  split; [reflexivity|].
  destruct (transfer_exact two_chunks 4 0 reached) as (seen & Hp & Hd & Hl & _).
  - lia.
  - intros k Hk. unfold two_chunks in Hk. rewrite !elem_of_cons in Hk.
    destruct Hk as [-> | [-> | [-> | Hk]]]; [cbn; lia..|]. by apply not_elem_of_nil in Hk.
  - unfold two_chunks. repeat constructor; cbn; lia.
  - reflexivity.
  - exists seen. split; [exact Hp|]. split; [exact Hd|exact Hl].
Defined.
Definition copied : list Event :=
  [AddGlobal 1 "wl_seat" 7; AddGlobal 2 "ext_data_control_manager_v1" 1; RegistryBarrier; ReadyBarrier;
   DataOffer 10 1; OfferMime 10 "text/plain"; DataOffer 11 1; OfferMime 11 "text/plain";
   OfferMime 11 "x-kde-passwordManagerHint"; Selection 11 (Some 1) true 0; Selection 10 (Some 1) true 0].
Lemma capture_bounded_witness :
  zlen (transfers (handles copied (initial_state false 64))) = 1
  ∧ budget (handles copied (initial_state false 64)) <= TOTAL_BYTES.
Proof. split; [vm_compute; reflexivity|]. apply (capture_bounded false 64 copied). lia. Defined.
Lemma sensitive_never_read_witness :
  zlen (transfers (handles copied (initial_state false 64))) = 1
  ∧ Forall (λ r, disqualified (offered (pending r)) = false ∧ rc_mime r ∈ offered (pending r))
      (transfers (handles copied (initial_state false 64))).
Proof. split; [vm_compute; reflexivity|]. apply (sensitive_never_read false 64 copied). lia. Defined.
