(* ===== verification/Session.v ===== *)
(** * Session: paste sessions, [session.rs].

    A picker begins a session on the focused window, arms it after a copy and
    says it is hidden; only then is the paste dispatched, once, by a task the
    session owns.  Every method holds the map's lock, so calls are steps; the
    clock, Hyprland and fresh identifiers are arguments. *)
From Stdlib Require Import Ascii.
From S2P Require Import Prelude Text.
Local Open Scope Z_scope.

(** Milliseconds. *)
Definition SESSION_TTL : Z := 300000.

Record Target := mkTarget { address : string; class : string }.
Record SessionView := mkView {
  v_id : string;
  target_available : bool;
  paste_mode : string;
  expires_in_ms : Z;
  v_state : string;
}.
Record Session := mkSession {
  target : option Target;
  owner : option string;
  expires : Z;
  paste_pending : bool;
  hidden : bool;
  paste_task : option nat;
}.
(** Dropping a [Session] aborts its task: [tasks] are the spawned tasks that are
    neither finished nor aborted, with the window each pastes into. *)
Record SessionManager := mkManager {
  sessions : gmap string Session;
  tasks : gmap nat Target;
  next_task : nat;
}.
Definition new_manager : SessionManager := mkManager ∅ ∅ 0.

Definition view (id : string) (available : bool) (st : string) : SessionView :=
  mkView id available (if available then "copy-paste" else "copy-only") SESSION_TTL st.

(** ** Hyprland *)
Definition valid_window_address (a : string) : bool :=
  match strip_prefix "0x" a with
  | Some value => negb (bool_decide (value = EmptyString)) && str_forallb is_ascii_hexdigit value
  | None => false
  end && negb (bool_decide (a = "0x0")).
(** [active_target] on what [hyprctl -j activewindow] parsed to. *)
Definition active_target (parsed : option Target) : option Target :=
  t ← parsed;
  let t := mkTarget (trim (address t)) (class t) in
  if valid_window_address (address t) then Some t else None.

Definition is_terminal (c : string) : bool :=
  memb (to_ascii_lowercase c)
    ["com.mitchellh.ghostty"; "ghostty"; "alacritty"; "kitty"; "foot"; "footclient"; "org.wezfurlong.wezterm";
     "org.gnome.terminal"; "org.gnome.console"; "org.kde.konsole"; "konsole"; "ptyxis"].
(** [hyprland_dispatch]: the Lua form first, then the legacy one. *)
Record Dispatch := mkDispatch { lua : string; legacy_dispatcher : string; legacy_argument : string }.
(** [paste_after_hidden]: the focus dispatch, then the shortcut dispatch. *)
Definition paste_dispatches (t : Target) : Dispatch * Dispatch :=
  let selector := ("address:" ++ address t)%string in
  let modifiers := if is_terminal (class t) then "CTRL SHIFT" else "CTRL" in
  (mkDispatch ("hl.dsp.focus({ window = '" ++ selector ++ "' })") "focuswindow" selector,
   mkDispatch ("hl.dsp.send_shortcut({ mods = '" ++ modifiers ++ "', key = 'V', window = '" ++ selector ++ "' })")
     "sendshortcut" (modifiers ++ ",V," ++ selector))%string.

(** ** The map *)

(** Sessions that leave the map abort their tasks. *)
Definition owned_tasks (ss : gmap string Session) (ts : gmap nat Target) : gmap nat Target :=
  filter (λ kv, existsb (λ s, bool_decide (paste_task s.2 = Some kv.1)) (map_to_list ss) = true) ts.
Definition keep_sessions (P : Session → bool) (m : SessionManager) : SessionManager :=
  let ss := filter (λ kv, P kv.2 = true) (sessions m) in
  mkManager ss (owned_tasks ss (tasks m)) (next_task m).
Definition remove_session (id : string) (m : SessionManager) : SessionManager :=
  let ss := delete id (sessions m) in mkManager ss (owned_tasks ss (tasks m)) (next_task m).

Definition remove_expired (now : Z) (m : SessionManager) : SessionManager :=
  keep_sessions (λ s, now <? expires s) m.

(** [begin]: [now] is read again when the session is inserted. *)
Definition begin (now uuid_now : Z) (uuid : string) (found : option Target) (o : option string)
    (m : SessionManager) : SessionView * SessionManager :=
  let m := remove_expired now m in
  let id := ("session-" ++ uuid)%string in
  let t := active_target found in
  let ss := <[id := mkSession t o (uuid_now + SESSION_TTL) false false None]> (sessions m) in
  (view id (bool_decide (is_Some t)) "active", mkManager ss (owned_tasks ss (tasks m)) (next_task m)).

Definition lookup_session (id : string) (o : option string) (hid : bool) (m : SessionManager) : option Session :=
  s ← sessions m !! id;
  if bool_decide (owner s = o) && bool_decide (hidden s = hid) then Some s else None.
Definition with_session {A} (now : Z) (id : string) (o : option string)
    (use : Session → SessionManager → A * SessionManager) (m : SessionManager) : result string A * SessionManager :=
  match lookup_session id o false m with
  | None => (Err "Paste session is unknown or expired", m)
  | Some s =>
      if expires s <=? now then (Err "Paste session expired", remove_session id m)
      else let '(a, m') := use s m in (Ok a, m')
  end.
Definition put_session (id : string) (s : Session) (m : SessionManager) : SessionManager :=
  mkManager (<[id := s]> (sessions m)) (tasks m) (next_task m).

Definition validate_paste (now : Z) (id : string) (o : option string) : SessionManager → result string bool * SessionManager :=
  with_session now id o (λ s m, (bool_decide (is_Some (target s)), m)).
Definition arm_paste (now : Z) (id : string) (o : option string) (m : SessionManager) : bool * SessionManager :=
  let '(r, m') := with_session now id o (λ s m,
    let armed := bool_decide (is_Some (target s)) in
    (armed, put_session id (mkSession (target s) (owner s) (expires s) armed (hidden s) (paste_task s)) m)) m in
  (match r with Ok b => b | Err _ => false end, m').
Definition hide (now : Z) (id : string) (o : option string) : SessionManager → result string SessionView * SessionManager :=
  with_session now id o (λ s m,
    let available := bool_decide (is_Some (target s)) in
    match target s with
    | Some t =>
        if paste_pending s then
          (view id available "hidden",
           mkManager (<[id := mkSession (target s) (owner s) (expires s) true true (Some (next_task m))]> (sessions m))
                     (<[next_task m := t]> (tasks m)) (S (next_task m)))
        else (view id available "hidden",
              put_session id (mkSession (target s) (owner s) (expires s) (paste_pending s) true (paste_task s)) m)
    | None =>
        (view id available "hidden",
         put_session id (mkSession (target s) (owner s) (expires s) (paste_pending s) true (paste_task s)) m)
    end).
(** One round of [wait]; [None]: sleep and look again. *)
Definition wait_round (now : Z) (id : string) (o : option string) (m : SessionManager)
    : option (result string SessionView) :=
  match lookup_session id o true m with
  | None => Some (Err "Hidden paste session is unknown or cancelled")
  | Some s =>
      if expires s <=? now then Some (Err "Paste session expired")
      else if match paste_task s with Some n => bool_decide (is_Some (tasks m !! n)) | None => false end then None
      else Some (Ok (view id (bool_decide (is_Some (target s))) "finished"))
  end.
Definition end_session (id : string) (o : option string) (m : SessionManager) : SessionView * SessionManager :=
  match sessions m !! id with
  | Some s =>
      if bool_decide (owner s = o)
      then (view id (bool_decide (is_Some (target s))) "ended", remove_session id m)
      else (view id false "ended", m)
  | None => (view id false "ended", m)
  end.
Definition release_owner (o : string) (m : SessionManager) : SessionManager :=
  keep_sessions (λ s, negb (bool_decide (owner s = Some o))) m.
Definition owners (now : Z) (m : SessionManager) : list string * SessionManager :=
  let m := remove_expired now m in
  (omap (λ kv, owner kv.2) (map_to_list (sessions m)), m).

(** ** Steps *)
Inductive Call :=
| Begin (now uuid_now : Z) (uuid : string) (found : option Target) (o : option string)
| Validate (now : Z) (id : string) (o : option string)
| Arm (now : Z) (id : string) (o : option string)
| Hide (now : Z) (id : string) (o : option string)
| End (id : string) (o : option string)
| Release (o : string)
| Owners (now : Z)
| TaskDone (n : nat).
Definition call (c : Call) (m : SessionManager) : SessionManager :=
  match c with
  | Begin now un uuid found o => snd (begin now un uuid found o m)
  | Validate now id o => snd (validate_paste now id o m)
  | Arm now id o => snd (arm_paste now id o m)
  | Hide now id o => snd (hide now id o m)
  | End id o => snd (end_session id o m)
  | Release o => release_owner o m
  | Owners now => snd (owners now m)
  | TaskDone n => mkManager (sessions m) (delete n (tasks m)) (next_task m)
  end.
Definition calls (cs : list Call) (m : SessionManager) : SessionManager := foldl (λ m c, call c m) m cs.

(** ** Invariant *)
Definition owns (m : SessionManager) (n : nat) (t : Target) (id : string) (s : Session) : Prop :=
  sessions m !! id = Some s ∧ paste_task s = Some n ∧ target s = Some t ∧ hidden s = true.
Record manager_ok (m : SessionManager) : Prop := {
  mo_tasks : ∀ n t, tasks m !! n = Some t → ∃ id s, owns m n t id s;
  mo_session : ∀ id s, sessions m !! id = Some s →
    (∀ n, paste_task s = Some n → (n < next_task m)%nat ∧ hidden s = true)
    ∧ ∀ t, target s = Some t → valid_window_address (address t) = true;
  mo_distinct : ∀ i j si sj n, sessions m !! i = Some si → sessions m !! j = Some sj →
    paste_task si = Some n → paste_task sj = Some n → i = j;
}.

Lemma owned_tasks_lookup ss ts n t :
  owned_tasks ss ts !! n = Some t ↔
  ts !! n = Some t ∧ ∃ id s, ss !! id = Some s ∧ paste_task s = Some n.
Proof.
  unfold owned_tasks. rewrite map_lookup_filter_Some. cbn. rewrite existsb_exists.
  setoid_rewrite <- list_elem_of_In. split.
  - intros (? & [id s] & Hin & Hp). split; [done|]. apply elem_of_map_to_list in Hin. bools. eauto.
  - intros (? & id & s & Hs & Hp). split; [done|]. exists (id, s). rewrite elem_of_map_to_list.
    split; [done|]. by apply bool_decide_eq_true.
Qed.

(** Sessions only removed, tasks aborted with them. *)
Lemma ok_restrict ss m :
  ss ⊆ sessions m → manager_ok m → manager_ok (mkManager ss (owned_tasks ss (tasks m)) (next_task m)).
Proof.
  intros Hsub [H1 H2 H3]. split; cbn.
  - intros n t (Ht & id & s & Hs & Hn)%owned_tasks_lookup. exists id, s.
    pose proof (lookup_weaken _ _ _ _ Hs Hsub) as Hm.
    destruct (H1 n t Ht) as (id' & s' & Hs' & Hn' & Htgt & Hh).
    assert (id' = id) as -> by (by eapply H3). rewrite Hm in Hs'. injection Hs' as <-. done.
  - intros id s Hs. apply (H2 id). by eapply lookup_weaken.
  - intros i j si sj n Hi Hj. apply H3; by eapply lookup_weaken.
Qed.
(** One live session changed, its task untouched. *)
Lemma ok_put id s s' m :
  sessions m !! id = Some s → paste_task s' = paste_task s → target s' = target s →
  (hidden s = true → hidden s' = true) → manager_ok m → manager_ok (put_session id s' m).
Proof.
  intros Hs Hp Ht Hh [H1 H2 H3]. split; cbn.
  - intros n t Hn. destruct (H1 n t Hn) as (i & si & Hi & Hpi & Hti & Hhi).
    destruct (decide (i = id)) as [->|Hne].
    + rewrite Hs in Hi. injection Hi as <-. exists id, s'. unfold owns; cbn. rewrite lookup_insert_eq. split_and!; [done|congruence|congruence|auto].
    + exists i, si. unfold owns; cbn. by rewrite lookup_insert_ne.
  - intros i si. destruct (decide (i = id)) as [->|Hne].
    + rewrite lookup_insert_eq. intros [= <-]. destruct (H2 id s Hs) as [Ha Hb]. rewrite Hp, Ht. split; [|done].
      intros n Hn. destruct (Ha n Hn). auto.
    + rewrite lookup_insert_ne by done. apply H2.
  - assert (Hback : ∀ i si n, <[id := s']> (sessions m) !! i = Some si → paste_task si = Some n →
              ∃ si0, sessions m !! i = Some si0 ∧ paste_task si0 = Some n).
    { intros i si n. destruct (decide (i = id)) as [->|Hne].
      - rewrite lookup_insert_eq. intros [= <-] Hn. exists s. by rewrite <- Hp.
      - rewrite lookup_insert_ne by done. eauto. }
    intros i j si sj n Hi Hj Hni Hnj. destruct (Hback _ _ _ Hi Hni) as (? & ? & ?).
    destruct (Hback _ _ _ Hj Hnj) as (? & ? & ?). by eapply H3.
Qed.

Lemma active_target_valid p t : active_target p = Some t → valid_window_address (address t) = true.
Proof.
  unfold active_target. destruct p as [p|]; cbn [mbind option_bind]; [|done].
  destruct (valid_window_address _) eqn:E; [|done]. by intros [= <-].
Qed.

Lemma lookup_session_Some id o hid m s :
  lookup_session id o hid m = Some s ↔ sessions m !! id = Some s ∧ owner s = o ∧ hidden s = hid.
Proof.
  unfold lookup_session. destruct (sessions m !! id) as [s'|]; cbn; [|naive_solver].
  destruct (bool_decide _ && bool_decide _) eqn:E; [bools; naive_solver|].
  split; [done|]. intros ([= <-] & <- & <-). by rewrite !bool_decide_true in E.
Qed.
Lemma ok_with_session {A} now id o (use : Session → SessionManager → A * SessionManager) m :
  manager_ok m →
  (∀ s, sessions m !! id = Some s → owner s = o → hidden s = false → manager_ok (snd (use s m))) →
  manager_ok (snd (with_session now id o use m)).
Proof.
  intros Hok Huse. unfold with_session. destruct (lookup_session id o false m) as [s|] eqn:E; [|done].
  apply lookup_session_Some in E as (Hs & Ho & Hh). destruct (_ <=? _).
  - apply ok_restrict; [apply delete_subseteq|done].
  - specialize (Huse s Hs Ho Hh). by destruct (use s m).
Qed.

Lemma ok_hide now id o m : manager_ok m → manager_ok (snd (hide now id o m)).
Proof.
  intros Hok. apply ok_with_session; [done|]. intros s Hs Ho Hh. pose proof Hok as [H1 H2 H3].
  destruct (H2 id s Hs) as [Hpt Hval].
  assert (Hnone : paste_task s = None).
  { destruct (paste_task s) as [n|]; [|done]. destruct (Hpt n eq_refl). congruence. }
  destruct (target s) as [t|] eqn:Ht; [destruct (paste_pending s)|];
    [|by apply (ok_put id s); cbn; try done; rewrite ?Ht..].
  assert (Hlt : ∀ n t, tasks m !! n = Some t → (n < next_task m)%nat).
  { intros n t' Hn. destruct (H1 n t' Hn) as (i & si & Hi & Hpi & _). by apply (H2 i si Hi). }
  split; cbn.
  - intros n t'. destruct (decide (n = next_task m)) as [->|Hne].
    + rewrite lookup_insert_eq. intros [= <-]. eexists id, _. unfold owns; cbn. by rewrite lookup_insert_eq.
    + rewrite lookup_insert_ne by done. intros Hn. destruct (H1 n t' Hn) as (i & si & Hi & Hpi & Hti & Hhi).
      exists i, si. unfold owns; cbn. rewrite lookup_insert_ne; [done|]. intros <-. congruence.
  - intros i si. destruct (decide (i = id)) as [->|Hne].
    + rewrite lookup_insert_eq. intros [= <-]. cbn. split; [|intros t' [= <-]; by apply Hval]. intros n [= <-]. split; [lia|done].
    + rewrite lookup_insert_ne by done. intros Hi. destruct (H2 i si Hi) as [Ha Hb]. split; [|done].
      intros n Hn. destruct (Ha n Hn). split; [lia|done].
  - assert (Hbnd : ∀ i si n, i ≠ id → sessions m !! i = Some si → paste_task si = Some n → n ≠ next_task m).
    { intros i si n _ Hi Hn. destruct (H2 i si Hi) as [Ha _]. destruct (Ha n Hn). lia. }
    intros i j si sj n. destruct (decide (i = id)) as [->|Hi], (decide (j = id)) as [->|Hj];
      rewrite ?lookup_insert_eq, ?lookup_insert_ne by done; [done| | |apply H3].
    + intros [= <-] Hsj [= <-] Hn. by destruct (Hbnd j sj (next_task m) Hj Hsj Hn).
    + intros Hsi [= <-] Hn [= <-]. by destruct (Hbnd i si (next_task m) Hi Hsi Hn).
Qed.

(** A new session; one it replaces goes with its task. *)
Lemma ok_insert id s0 m :
  manager_ok m → paste_task s0 = None →
  (∀ t, target s0 = Some t → valid_window_address (address t) = true) →
  manager_ok (mkManager (<[id := s0]> (sessions m)) (owned_tasks (<[id := s0]> (sessions m)) (tasks m)) (next_task m)).
Proof.
  intros Hok Hs0 Hval.
  pose proof (ok_restrict (delete id (sessions m)) m (delete_subseteq _ _) Hok) as [H1 H2 H3]. cbn in *.
  assert (Hlook : ∀ i si, i ≠ id → <[id := s0]> (sessions m) !! i = Some si ↔ delete id (sessions m) !! i = Some si).
  { intros i si Hne. by rewrite lookup_insert_ne, lookup_delete_ne by done. }
  assert (Hto : owned_tasks (<[id := s0]> (sessions m)) (tasks m) = owned_tasks (delete id (sessions m)) (tasks m)).
  { apply map_eq. intros n. apply option_eq. intros t. rewrite !owned_tasks_lookup.
    split; intros (Ht & i & si & Hi & Hn); (split; [done|]); exists i, si; (split; [|done]);
      (destruct (decide (i = id)) as [->|Hne]; [|by apply Hlook]).
    - rewrite lookup_insert_eq in Hi. congruence.
    - by rewrite lookup_delete_eq in Hi. }
  rewrite Hto. split; cbn.
  - intros n t Hn. destruct (H1 n t Hn) as (i & si & Hi & Hx). exists i, si. split; [|done]. cbn in *.
    destruct (decide (i = id)) as [->|]; [by rewrite lookup_delete_eq in Hi|]. by apply Hlook.
  - intros i si. destruct (decide (i = id)) as [->|Hne].
    + rewrite lookup_insert_eq. intros [= <-]. rewrite Hs0. split; [done|]. apply Hval.
    + rewrite Hlook by done. apply H2.
  - intros i j si sj n Hi Hj Hni Hnj.
    assert (i ≠ id) by (intros ->; rewrite lookup_insert_eq in Hi; congruence).
    assert (j ≠ id) by (intros ->; rewrite lookup_insert_eq in Hj; congruence).
    apply Hlook in Hi, Hj; [|done..]. by apply (H3 i j si sj n).
Qed.

Lemma ok_call c m : manager_ok m → manager_ok (call c m).
Proof.
  intros Hok. destruct c as [now un uuid found o|now id o|now id o|now id o|id o|o|now|n]; cbn [call].
  - unfold begin. apply ok_insert; [|done|].
    + apply ok_restrict; [apply map_filter_subseteq|done].
    + cbn. intros t Ht. by apply active_target_valid in Ht.
  - unfold validate_paste. apply ok_with_session; [done|]. by intros.
  - unfold arm_paste. pose proof (ok_with_session now id o (λ s m,
      (bool_decide (is_Some (target s)), put_session id (mkSession (target s) (owner s) (expires s)
         (bool_decide (is_Some (target s))) (hidden s) (paste_task s)) m)) m Hok) as Hw.
    destruct (with_session _ _ _ _ _) as [r m']. cbn in *. apply Hw. intros s Hs _ _. by apply (ok_put id s).
  - by apply ok_hide.
  - unfold end_session. destruct (sessions m !! id) as [s|]; [|done]. destruct (bool_decide _); [|done].
    apply ok_restrict; [apply delete_subseteq|done].
  - apply ok_restrict; [apply map_filter_subseteq|done].
  - apply ok_restrict; [apply map_filter_subseteq|done].
  - destruct Hok as [H1 H2 H3]. split; cbn; [|done|done]. intros k t [_ Hk]%lookup_delete_Some.
    destruct (H1 k t Hk) as (i & s & Hi). by exists i, s.
Qed.

Lemma new_manager_ok : manager_ok new_manager.
Proof. split; cbn; intros *; by rewrite lookup_empty. Qed.
Lemma ok_calls cs m : manager_ok m → manager_ok (calls cs m).
Proof. revert m. induction cs as [|c cs IH]; intros m Hok; [done|]. by apply IH, ok_call. Qed.

(** C40 A paste task lives exactly as long as its session allows: after any
    sequence of calls, every running task is owned by one hidden session still
    in the map and pastes into that session's window, whose address is a plain
    hexadecimal number (so it cannot escape the command it is spliced into);
    no session owns two. In particular nothing pastes for an owner that was
    released. *)
Theorem paste_owned cs o n t :
  tasks (call (Release o) (calls cs new_manager)) !! n = Some t →
  ∃ id s, owns (call (Release o) (calls cs new_manager)) n t id s
          ∧ owner s ≠ Some o ∧ valid_window_address (address t) = true
          ∧ ∀ id' s', sessions (call (Release o) (calls cs new_manager)) !! id' = Some s' →
                      paste_task s' = Some n → id' = id.
Proof.
  intros Hn. pose proof (ok_call (Release o) _ (ok_calls cs _ new_manager_ok)) as [H1 H2 H3].
  destruct (H1 n t Hn) as (id & s & Hs & Hp & Ht & Hh). exists id, s. split_and!; try done.
  - cbn in Hs. apply map_lookup_filter_Some in Hs as [_ Hx]. cbn in Hx. by bools.
  - by apply (H2 id s Hs).
  - intros id' s' Hs' Hp'. by apply (H3 id' id s' s n).
Qed.

(** C23 A paste is dispatched at most once per session and only on request: a
    call spawns a task only if it is a [hidden] acknowledgement by the session's
    owner, for a session that is unexpired, not yet hidden, armed by a copy and
    bound to a window; the task pastes there, and the session is hidden
    afterwards, so no later acknowledgement can replay it. *)
Theorem paste_once c m n t :
  manager_ok m → tasks m !! n = None → tasks (call c m) !! n = Some t →
  ∃ now id o s, c = Hide now id o ∧ sessions m !! id = Some s ∧ owner s = o ∧ hidden s = false
    ∧ paste_pending s = true ∧ target s = Some t ∧ now < expires s
    ∧ tasks (call c m) = <[n := t]> (tasks m)
    ∧ ∀ now', fst (hide now' id o (call c m)) = Err "Paste session is unknown or expired".
Proof.
  intros Hok Hn Hc.
  assert (Hown : ∀ ss k x, owned_tasks ss (tasks m) !! k = Some x → tasks m !! k = Some x).
  { by intros ss k x [? _]%owned_tasks_lookup. }
  assert (Hown2 : ∀ ss ss' k x, owned_tasks ss (owned_tasks ss' (tasks m)) !! k = Some x → tasks m !! k = Some x).
  { by intros ss ss' k x [[? _]%owned_tasks_lookup _]%owned_tasks_lookup. }
  destruct c as [now un uuid found o|now id o|now id o|now id o|id o|o|now|k]; cbn [call] in *.
  - apply Hown2 in Hc. congruence.
  - unfold validate_paste, with_session in Hc. destruct (lookup_session _ _ _ _); [|cbn in Hc; congruence].
    destruct (_ <=? _); cbn in Hc; [apply Hown in Hc|]; congruence.
  - unfold arm_paste, with_session in Hc. destruct (lookup_session _ _ _ _); [|cbn in Hc; congruence].
    destruct (_ <=? _); cbn in Hc; [apply Hown in Hc|]; congruence.
  - unfold hide, with_session in *. destruct (lookup_session id o false m) as [s|] eqn:E; [|cbn in Hc; congruence].
    apply lookup_session_Some in E as (Hs & Ho & Hh).
    destruct (Z.leb_spec (expires s) now) as [Hexp|Hexp]; [cbn in Hc; apply Hown in Hc; congruence|].
    destruct (target s) as [t0|] eqn:Ht; [destruct (paste_pending s) eqn:Hp|]; cbn in Hc |- *; try congruence.
    assert (n = next_task m ∧ t0 = t) as [-> ->].
    { destruct (decide (n = next_task m)) as [->|Hne].
      - rewrite lookup_insert_eq in Hc. by injection Hc as ->.
      - rewrite lookup_insert_ne in Hc by done. congruence. }
    exists now, id, o, s. split_and!; try done. intros now'.
    unfold lookup_session. cbn. rewrite lookup_insert_eq. cbn. by rewrite andb_false_r.
  - unfold end_session in Hc. destruct (sessions m !! id); [|cbn in Hc; congruence].
    destruct (bool_decide _); cbn in Hc; [apply Hown in Hc|]; congruence.
  - apply Hown in Hc. congruence.
  - apply Hown in Hc. congruence.
  - cbn in Hc. apply lookup_delete_Some in Hc as [_ Hc]. congruence.
Qed.

(** Sessions of another owner are invisible: whatever the time, to a caller
    that is not its owner a session answers exactly as one that does not exist,
    and the caller's attempt changes nothing. *)
Theorem foreign_sessions_hidden m id s o now :
  sessions m !! id = Some s → owner s ≠ o →
  let absent := mkManager (delete id (sessions m)) (tasks m) (next_task m) in
  validate_paste now id o m = (fst (validate_paste now id o absent), m)
  ∧ arm_paste now id o m = (fst (arm_paste now id o absent), m)
  ∧ hide now id o m = (fst (hide now id o absent), m)
  ∧ end_session id o m = (fst (end_session id o absent), m)
  ∧ wait_round now id o m = wait_round now id o absent.
Proof.
  intros Hs Ho absent.
  assert (H1 : ∀ h, lookup_session id o h m = None).
  { intros h. unfold lookup_session. rewrite Hs. cbn. by rewrite bool_decide_false. }
  assert (H2 : ∀ h, lookup_session id o h absent = None).
  { intros h. unfold lookup_session, absent; cbn. by rewrite lookup_delete_eq. }
  unfold validate_paste, arm_paste, hide, with_session, wait_round, end_session. rewrite !H1, !H2, Hs.
  unfold absent at 1; cbn. rewrite lookup_delete_eq. rewrite bool_decide_false by done. done.
Qed.

(** ** Example calls *)
Definition firefox : Target := mkTarget "0x12ab" "firefox".
Definition started : list Call := [Begin 0 0 "1" (Some firefox) (Some "a"); Begin 0 0 "2" (Some firefox) (Some "b");
  Arm 1 "session-1" (Some "a"); Hide 2 "session-1" (Some "a"); Arm 1 "session-2" (Some "b")].
Lemma paste_owned_witness :
  tasks (call (Release "b") (calls started new_manager)) !! 0%nat = Some firefox
  ∧ valid_window_address (address firefox) = true.
Proof.
  assert (Ht : tasks (call (Release "b") (calls started new_manager)) !! 0%nat = Some firefox) by (vm_compute; reflexivity).
  destruct (paste_owned started "b" 0 firefox Ht) as (id & s & _ & _ & Hv & _). split; [exact Ht|exact Hv].
Defined.
Definition armed : SessionManager := calls started new_manager.
Lemma paste_once_witness :
  ∃ now id o s, Hide 3 "session-2" (Some "b") = Hide now id o ∧ sessions armed !! id = Some s ∧ paste_pending s = true.
Proof.
  destruct (paste_once (Hide 3 "session-2" (Some "b")) armed 1 firefox) as (now & id & o & s & Hc & Hs & _ & _ & Hp & _).
  - apply ok_calls, new_manager_ok.
  - vm_compute. reflexivity.
  - vm_compute. reflexivity.
  - exists now, id, o, s. split; [exact Hc|]. split; [exact Hs|exact Hp].
Defined.
