(* ===== verification/Operations.v ===== *)
(** * Operations: the lifecycle of image operations, [history/operation.rs].

    An operation's work runs in its own task; launching, committing, completing
    and cancelling interleave.  Each locked section or atomic exchange is one
    step. *)
From S2P Require Import Prelude Model.
Local Open Scope Z_scope.

(** ** OperationControl *)
Inductive Phase := EDITING | COMMITTING | CANCELLED | FINISHED.
#[export] Instance Phase_eq_dec : EqDecision Phase.
Proof. solve_decision. Defined.
(** [compare_exchange(EDITING, to)]. *)
Definition exchange (to p : Phase) : option Phase :=
  match p with EDITING => Some to | _ => None end.

(** ** OperationState *)
Record OperationTask := mkTask {
  initial : OperationResult;
  t_action : string;
  files : list string;
}.
Definition TERMINAL_LIMIT : Z := 256.
Definition TERMINAL_TTL : Z := 300000.    (* milliseconds *)

Record OperationState := mkState {
  active : gmap string OperationTask;
  cancelling : gmap string (OperationResult * OperationTask);
  terminal : list (Z * OperationResult);
  phase : gmap string Phase;             (* the [OperationControl] of every launch *)
  events : list OperationResult;         (* broadcast, oldest first *)
  removed : list string;                 (* staged files deleted *)
  committed : list string;               (* history: ids whose [begin_commit] succeeded *)
}.
Definition initial_state : OperationState := mkState ∅ ∅ [] ∅ [] [] [].

Definition prune (now : Z) (l : list (Z * OperationResult)) : list (Z * OperationResult) :=
  (fix go l := match l with
               | [] => []
               | (at_, r) :: l' => if TERMINAL_TTL <=? now - at_ then go l' else l
               end) l.
Definition retain (now : Z) (r : OperationResult) (l : list (Z * OperationResult)) : list (Z * OperationResult) :=
  let l := prune now l in
  let l := if zlen l =? TERMINAL_LIMIT then tail l else l in
  l ++ [(now, r)].

Definition terminal_event (id action st message : string) (warning : option string) : OperationResult :=
  mkOperation id action st message None warning.
Definition cancelled_event (id action : string) : OperationResult :=
  terminal_event id action "cancelled" "Image operation cancelled" None.

(** What the work returned: a completion, or an error message. *)
Record OperationCompletion := mkCompletion { oc_status : string; oc_message : string; oc_warning : option string }.
Definition completion_event (id action : string) (r : result string OperationCompletion) : OperationResult :=
  match r with
  | Ok c => terminal_event id action (oc_status c) (oc_message c) (oc_warning c)
  | Err e => terminal_event id action "failed" e None
  end.

Inductive Step :=
| Launch (uuid action message : string) (fs : list string)
| BeginCommit (id : string)
| Complete (now : Z) (id : string) (r : result string OperationCompletion)
| Cancel (id : string)
| FinishCancel (now : Z) (id : string)
| Status (now : Z) (id : string).

(** [launch]: registration, then the started event. *)
Definition launch (uuid action message : string) (fs : list string) (s : OperationState) : OperationState :=
  let c := completed uuid action message in
  let op := mkOperation (o_id c) (o_action c) "started" (o_message c) (o_path c) (o_warning c) in
  mkState (<[o_id op := mkTask op action fs]> (active s)) (cancelling s) (terminal s)
          (<[o_id op := EDITING]> (phase s)) (events s ++ [op]) (removed s) (committed s).
Definition begin_commit (id : string) (s : OperationState) : bool * OperationState :=
  match (p ← phase s !! id; exchange COMMITTING p) with
  | Some p => (true, mkState (active s) (cancelling s) (terminal s) (<[id := p]> (phase s)) (events s)
                             (removed s) (committed s ++ [id]))
  | None => (false, s)
  end.
(** [complete]: the work is done; claim the task, or find it claimed. *)
Definition complete (now : Z) (id : string) (r : result string OperationCompletion) (s : OperationState)
    : OperationState :=
  match active s !! id with
  | None => mkState (active s) (cancelling s) (terminal s) (<[id := FINISHED]> (phase s)) (events s)
                    (removed s) (committed s)
  | Some task =>
      let event := completion_event id (t_action task) r in
      mkState (delete id (active s)) (cancelling s) (retain now event (terminal s))
              (<[id := FINISHED]> (phase s)) (events s ++ [event]) (removed s ++ files task) (committed s)
  end.
(** [cancel]: the answer, and whether the cleanup task was spawned. *)
Definition cancel (id : string) (s : OperationState) : bool * OperationState :=
  match active s !! id with
  | None => (false, s)
  | Some task =>
      match (p ← phase s !! id; exchange CANCELLED p) with
      | None => (false, s)
      | Some p => (true, mkState (delete id (active s)) (<[id := (initial task, task)]> (cancelling s))
                                 (terminal s) (<[id := p]> (phase s)) (events s) (removed s) (committed s))
      end
  end.
Definition finish_cancel (now : Z) (id : string) (s : OperationState) : OperationState :=
  match cancelling s !! id with
  | None => s
  | Some (_, task) =>
      let event := cancelled_event id (t_action task) in
      mkState (active s) (delete id (cancelling s)) (retain now event (terminal s))
              (<[id := FINISHED]> (phase s)) (events s ++ [event]) (removed s ++ files task) (committed s)
  end.

(** [status], [contains], [active_ids]. *)
Definition status (now : Z) (id : string) (s : OperationState) : option OperationResult * OperationState :=
  let s := mkState (active s) (cancelling s) (prune now (terminal s)) (phase s) (events s) (removed s) (committed s) in
  (match active s !! id with
   | Some t => Some (initial t)
   | None => match cancelling s !! id with
             | Some (r, _) => Some r
             | None => snd <$> head (filter (λ x, o_id x.2 = id) (terminal s))
             end
   end, s).
Definition contains (action : string) (s : OperationState) : bool :=
  existsb (λ kv, bool_decide (t_action kv.2 = action)) (map_to_list (active s))
  || existsb (λ kv, bool_decide (o_action kv.2.1 = action)) (map_to_list (cancelling s)).
Definition active_ids (s : OperationState) : gset string := dom (active s) ∪ dom (cancelling s).

(** A fresh identifier; work that was started and neither ended nor aborted,
    and that reports a cancellation only when it did not commit (the screenshot
    does report one, see [Screenshot.v]); a cleanup that was spawned. *)
Inductive step : OperationState → Step → OperationState → Prop :=
| s_launch uuid action message fs s :
    phase s !! ("operation-" ++ uuid)%string = None →
    step s (Launch uuid action message fs) (launch uuid action message fs s)
| s_begin id s : step s (BeginCommit id) (snd (begin_commit id s))
| s_complete now id r s p :
    phase s !! id = Some p → p ≠ FINISHED →
    (∀ c, r = Ok c → oc_status c ≠ "started" ∧ (id ∈ committed s → oc_status c ≠ "cancelled")) →
    step s (Complete now id r) (complete now id r s)
| s_cancel id s : step s (Cancel id) (snd (cancel id s))
| s_finish now id s : is_Some (cancelling s !! id) → step s (FinishCancel now id) (finish_cancel now id s)
| s_status now id s : step s (Status now id) (snd (status now id s)).
Inductive reachable : OperationState → Prop :=
| r_init : reachable initial_state
| r_step s e s' : reachable s → step s e s' → reachable s'.

(** The terminal events of one operation. *)
Definition ended (id : string) (s : OperationState) : list OperationResult :=
  filter (λ r, o_id r = id ∧ o_status r ≠ "started") (events s).

Record ops_ok (s : OperationState) : Prop := {
  oo_active : ∀ id t, active s !! id = Some t → cancelling s !! id = None ∧ ended id s = []
    ∧ o_id (initial t) = id
    ∧ ((phase s !! id = Some EDITING ∧ id ∉ committed s) ∨ (phase s !! id = Some COMMITTING ∧ id ∈ committed s));
  oo_cancelling : ∀ id x, cancelling s !! id = Some x → ended id s = [] ∧ (id ∉ committed s)
    ∧ o_id x.1 = id
    ∧ (phase s !! id = Some CANCELLED ∨ phase s !! id = Some FINISHED);
  oo_ended : ∀ id, is_Some (phase s !! id) → active s !! id = None → cancelling s !! id = None →
    (∃ r, ended id s = [r] ∧ (o_status r = "cancelled" → id ∉ committed s)) ∧ phase s !! id = Some FINISHED;
  oo_unknown : ∀ id, phase s !! id = None →
    active s !! id = None ∧ cancelling s !! id = None ∧ ended id s = [] ∧ id ∉ committed s;
}.

Lemma ended_app id s l : filter (λ r, o_id r = id ∧ o_status r ≠ "started") (events s ++ l)
  = ended id s ++ filter (λ r, o_id r = id ∧ o_status r ≠ "started") l.
Proof. apply filter_app. Qed.
Lemma ended_one id r : o_id r = id → o_status r ≠ "started" →
  filter (λ r, o_id r = id ∧ o_status r ≠ "started") [r] = [r].
Proof. intros. by rewrite filter_cons_True. Qed.
Lemma ended_other id r : o_id r ≠ id ∨ o_status r = "started" →
  filter (λ r, o_id r = id ∧ o_status r ≠ "started") [r] = [].
Proof. intros Hr. rewrite filter_cons_False; [done|]. naive_solver. Qed.

Lemma completion_event_spec id action r (P : Prop) :
  o_id (completion_event id action r) = id
  ∧ ((∀ c, r = Ok c → oc_status c ≠ "started" ∧ (P → oc_status c ≠ "cancelled")) →
     o_status (completion_event id action r) ≠ "started" ∧ (P → o_status (completion_event id action r) ≠ "cancelled")).
Proof. destruct r as [c|e]; (split; [done|]); intros Hc; [by apply Hc|done]. Qed.

Lemma step_ok s e s' : ops_ok s → step s e s' → ops_ok s'.
Proof.
  intros [Ha Hc He Hu] Hs. destruct Hs as [uuid action message fs s Hn|id s|now id r s p Hp Hpf Hr|id s|now id s Hid|now id s].
  - unfold launch; cbn [completed with_id o_id o_action o_message o_path o_warning].
    set (id := ("operation-" ++ uuid)%string) in *. set (op := mkOperation _ _ _ _ _ _).
    destruct (Hu id Hn) as (U1 & U2 & U3 & U4).
    assert (Hend : ∀ i, filter (λ r, o_id r = i ∧ o_status r ≠ "started") (events s ++ [op]) = ended i s).
    { intros i. rewrite ended_app, ended_other by by right. apply app_nil_r. }
    split; unfold ended; cbn; intros i; rewrite Hend; destruct (decide (i = id)) as [->|Hne];
      rewrite ?lookup_insert_eq, ?lookup_insert_ne by done; auto.
    + intros t [= <-]. split_and!; auto.
    + rewrite U2. done.
    + done.
    + done.
  - unfold begin_commit. destruct (phase s !! id) as [p|] eqn:Hp; cbn; [|by split].
    destruct p; cbn; try by split.
    assert (Hid : is_Some (active s !! id)).
    { destruct (active s !! id) as [t|] eqn:Ht; [done|]. destruct (cancelling s !! id) as [x|] eqn:Hx.
      - destruct (Hc id x Hx) as (_ & _ & _ & [?|?]); congruence.
      - destruct (He id) as [_ ?]; [by rewrite Hp|done|done|congruence]. }
    destruct Hid as [t Ht]. destruct (Ha id t Ht) as (A1 & A2 & A3 & A4).
    split; unfold ended; cbn; intros i; destruct (decide (i = id)) as [->|Hne];
      rewrite ?lookup_insert_eq, ?lookup_insert_ne by done.
    + intros t' Ht'. destruct (Ha id t' Ht') as (? & ? & ? & _). split_and!; auto. right. set_solver.
    + intros t' Ht'. destruct (Ha i t' Ht') as (? & ? & ? & [[? ?]|[? ?]]); split_and!; auto; [left|right]; set_solver.
    + congruence.
    + intros x Hx. destruct (Hc i x Hx) as (? & ? & ? & ?). split_and!; auto. set_solver.
    + congruence.
    + intros H1 H2 H3. destruct (He i H1 H2 H3) as [(r & Hr & Hrc) ?]. split; [|done]. exists r. split; [done|]. set_solver.
    + done.
    + intros Hpi. destruct (Hu i Hpi) as (? & ? & ? & ?). split_and!; auto. set_solver.
  - unfold complete. destruct (active s !! id) as [t|] eqn:Ht.
    + destruct (Ha id t Ht) as (A1 & A2 & A3 & A4).
      destruct (completion_event_spec id (t_action t) r (id ∈ committed s)) as [Eid Est]. specialize (Est Hr) as [E1 E2].
      set (ev := completion_event id (t_action t) r) in *.
      split; unfold ended; cbn; intros i; rewrite ended_app; destruct (decide (i = id)) as [->|Hne];
        rewrite ?lookup_delete_eq, ?lookup_delete_ne, ?lookup_insert_eq, ?lookup_insert_ne by done;
        rewrite ?(ended_one id ev Eid E1); try (rewrite ended_other by (left; congruence); rewrite app_nil_r);
        auto; try (intros; congruence).
      intros _ _ _. split; [|done]. exists ev. rewrite A2. split; [done|]. intros Hcan Hcm. by apply E2.
    + split; unfold ended; cbn; intros i; destruct (decide (i = id)) as [->|Hne];
        rewrite ?lookup_insert_eq, ?lookup_insert_ne by done; auto; try (intros; congruence).
      * intros x Hx. destruct (Hc id x Hx) as (? & ? & ? & _). auto.
      * apply Hc.
      * intros _ _ Hcn. destruct (He id) as [? Hf]; [by rewrite Hp|done|done|]. congruence.
      * apply He.
  - unfold cancel. destruct (active s !! id) as [t|] eqn:Ht; [|by split].
    destruct (Ha id t Ht) as (A1 & A2 & A3 & A4).
    destruct (phase s !! id) as [p|] eqn:Hp; cbn; [|by split]. destruct p; cbn; try by split.
    destruct A4 as [[_ A4]|[? _]]; [|done].
    split; unfold ended; cbn; intros i; destruct (decide (i = id)) as [->|Hne];
      rewrite ?lookup_delete_eq, ?lookup_delete_ne, ?lookup_insert_eq, ?lookup_insert_ne by done;
      auto; try (intros; congruence).
    + intros x [= <-]. split_and!; auto.
    + apply Hc.
    + apply He.
  - unfold finish_cancel. destruct Hid as [[r t] Hx]. rewrite Hx. cbn.
    destruct (Hc id _ Hx) as (C1 & C2 & C3 & C4).
    assert (Hna : active s !! id = None).
    { destruct (active s !! id) as [t'|] eqn:Ht; [|done]. destruct (Ha id t' Ht) as (? & _). congruence. }
    set (ev := cancelled_event id (t_action t)).
    split; unfold ended; cbn; intros i; rewrite ended_app; destruct (decide (i = id)) as [->|Hne];
      rewrite ?lookup_delete_eq, ?lookup_delete_ne, ?lookup_insert_eq, ?lookup_insert_ne by done;
      rewrite ?(ended_one id ev) by done; try (rewrite ended_other by (left; cbn; congruence); rewrite app_nil_r);
      auto; try (intros; congruence).
    intros _ _ _. split; [|done]. exists ev. by rewrite C1.
  - by split.
Qed.
Lemma reachable_ok s : reachable s → ops_ok s.
Proof.
  induction 1 as [|s e s' _ IH Hs]; [|by eapply step_ok].
  split; cbn; intros id; rewrite ?lookup_empty; try done.
  all: try (by intros [? ?]). intros _. split_and!; try done. apply not_elem_of_nil.
Qed.

(** What the work of an operation may return: anything but "started", and
    "cancelled" only when it did not commit. *)
Definition permitted (id : string) (s : OperationState) (r : result string OperationCompletion) : Prop :=
  ∀ c, r = Ok c → oc_status c ≠ "started" ∧ (id ∈ committed s → oc_status c ≠ "cancelled").
(** How an operation ends: gone, its control finished, its staged files
    removed and nobody else's, everything else as it was. *)
Definition ends_with (id : string) (t : OperationTask) (e : OperationResult) (s s' : OperationState) : Prop :=
  active s' = delete id (active s) ∧ cancelling s' = delete id (cancelling s)
  ∧ phase s' = <[id := FINISHED]> (phase s) ∧ events s' = events s ++ [e]
  ∧ removed s' = removed s ++ files t ∧ committed s' = committed s.
Lemma ends_with_ended id t e s s' :
  ends_with id t e s s' → ended id s = [] → o_id e = id → o_status e ≠ "started" → ended id s' = [e].
Proof. intros (_ & _ & _ & He & _) Hn Hid Hst. unfold ended. by rewrite He, ended_app, Hn, ended_one. Qed.
Lemma complete_ends s id t now r :
  ops_ok s → active s !! id = Some t → permitted id s r →
  step s (Complete now id r) (complete now id r s)
  ∧ ends_with id t (completion_event id (t_action t) r) s (complete now id r s)
  ∧ ended id (complete now id r s) = [completion_event id (t_action t) r].
Proof.
  intros [Ha _ _ _] Ht Hr. destruct (Ha id t Ht) as (Hc & Hn & _ & Hp).
  assert (He : ends_with id t (completion_event id (t_action t) r) s (complete now id r s)).
  { unfold complete, ends_with. rewrite Ht. cbn. by rewrite (delete_id (cancelling s)). }
  destruct (completion_event_spec id (t_action t) r (id ∈ committed s)) as [Eid Est]. specialize (Est Hr) as [E1 _].
  split_and!; [destruct Hp as [[Hp _]|[Hp _]]; by eapply s_complete|done|by eapply ends_with_ended].
Qed.
Lemma finish_cancel_ends s id x now :
  ops_ok s → cancelling s !! id = Some x →
  step s (FinishCancel now id) (finish_cancel now id s)
  ∧ ends_with id x.2 (cancelled_event id (t_action x.2)) s (finish_cancel now id s)
  ∧ ended id (finish_cancel now id s) = [cancelled_event id (t_action x.2)].
Proof.
  intros [Ha Hc _ _] Hx. destruct (Hc id x Hx) as (Hn & _). destruct x as [r t]. cbn.
  assert (Hna : active s !! id = None).
  { destruct (active s !! id) as [t'|] eqn:Ht; [|done]. destruct (Ha id t' Ht) as (? & _). congruence. }
  assert (He : ends_with id t (cancelled_event id (t_action t)) s (finish_cancel now id s)).
  { unfold finish_cancel, ends_with. rewrite Hx. cbn. by rewrite (delete_id (active s)). }
  split_and!; [constructor; by rewrite Hx|done|by eapply ends_with_ended].
Qed.
Lemma cancel_answers s id t :
  ops_ok s → active s !! id = Some t →
  (fst (cancel id s) = true ↔ id ∉ committed s)
  ∧ (id ∉ committed s → active (snd (cancel id s)) !! id = None ∧ cancelling (snd (cancel id s)) !! id = Some (initial t, t)).
Proof.
  intros [Ha _ _ _] Ht. unfold cancel. rewrite Ht.
  destruct (Ha id t Ht) as (_ & _ & _ & [[Hp Hcm]|[Hp Hcm]]); rewrite Hp; cbn; [|by split].
  split; [done|]. intros _. by rewrite lookup_delete_eq, lookup_insert_eq.
Qed.

(** C12 Every operation ends exactly once, and a commit is never cancelled.
    In every interleaving of launches, commits, completions and cancellations
    an operation has no terminal event while it is active or being cancelled
    and exactly one afterwards.  An active operation is not stuck: whatever its
    work returns, a completion or an error, its end is a step, which removes it
    and the files it staged, and whose only event carries the status and the
    message of that result, or "failed" and the error.  [cancel] answers true
    for exactly the active operations that did not commit, and moves them to
    the cleanup; the end of the cleanup is again a step, which removes the
    operation and its files with the one event "cancelled".  An operation whose
    [begin_commit] succeeded is never cancelled, nor does its event say so. *)
Theorem one_terminal_event s id :
  reachable s → is_Some (phase s !! id) →
  (is_Some (active s !! id) ∨ is_Some (cancelling s !! id) → ended id s = [])
  ∧ (active s !! id = None → cancelling s !! id = None →
     ∃ r, ended id s = [r] ∧ (id ∈ committed s → o_status r ≠ "cancelled"))
  ∧ (id ∈ committed s → fst (cancel id s) = false)
  ∧ (∀ t, active s !! id = Some t →
       (∀ now r, permitted id s r →
          let e := match r with
                   | Ok c => mkOperation id (t_action t) (oc_status c) (oc_message c) None (oc_warning c)
                   | Err m => mkOperation id (t_action t) "failed" m None None
                   end in
          ∃ s', step s (Complete now id r) s' ∧ ends_with id t e s s' ∧ ended id s' = [e])
       ∧ (fst (cancel id s) = true ↔ id ∉ committed s)
       ∧ (id ∉ committed s → active (snd (cancel id s)) !! id = None
                             ∧ cancelling (snd (cancel id s)) !! id = Some (initial t, t)))
  ∧ (∀ x, cancelling s !! id = Some x → ∀ now,
       let e := mkOperation id (t_action x.2) "cancelled" "Image operation cancelled" None None in
       ∃ s', step s (FinishCancel now id) s' ∧ ends_with id x.2 e s s' ∧ ended id s' = [e]).
Proof.
  intros Hr Hp. pose proof (reachable_ok s Hr) as Hok. destruct Hok as [Ha Hc He Hu] eqn:Heq. clear Heq. split_and!.
  - intros [[t Ht]|[x Hx]]; [by destruct (Ha id t Ht) as (_ & ? & _)|by destruct (Hc id x Hx) as (? & _)].
  - intros H1 H2. destruct (He id Hp H1 H2) as [(r & Hr1 & Hr2) _]. exists r. split; [done|]. tauto.
  - intros Hcm. destruct (active s !! id) as [t|] eqn:Ht; [|unfold cancel; by rewrite Ht].
    destruct (cancel_answers s id t (reachable_ok s Hr) Ht) as [Hb _]. destruct (fst (cancel id s)); [|done]. by apply Hb in Hcm.
  - intros t Ht. split; [|by apply cancel_answers, Ht; apply reachable_ok].
    intros now r Hpr. exists (complete now id r s). by destruct r; apply complete_ends; try apply reachable_ok.
  - intros x Hx now. exists (finish_cancel now id s). by apply finish_cancel_ends; [apply reachable_ok|].
Qed.

(** ** The terminal ring *)
Lemma prune_sublist now l : sublist (prune now l) l.
Proof.
  induction l as [|[t r] l IH]; cbn; [done|]. fold (prune now l).
  destruct (_ <=? _); [by apply sublist_cons|done].
Qed.
Lemma retain_bound now r l : zlen l <= TERMINAL_LIMIT → zlen (retain now r l) <= TERMINAL_LIMIT.
Proof.
  intros Hl. unfold retain. pose proof (sublist_length _ _ (prune_sublist now l)) as Hs.
  assert (Hp : zlen (prune now l) <= TERMINAL_LIMIT) by (unfold zlen in *; lia).
  destruct (Z.eqb_spec (zlen (prune now l)) TERMINAL_LIMIT) as [Heq|Hne]; rewrite zlen_app; change (zlen [_]) with 1; [|lia].
  destruct (prune now l) as [|x l']; cbn [tail]; [unfold zlen, TERMINAL_LIMIT in *; cbn in *; lia|].
  rewrite zlen_cons in Heq. lia.
Qed.
(** The terminal record is bounded: however many operations end, at most
    256 results are kept for [status]. *)
Theorem terminal_bounded s : reachable s → zlen (terminal s) <= TERMINAL_LIMIT.
Proof.
  induction 1 as [|s e s' _ IH Hs]; [done|].
  destruct Hs as [uuid action message fs s Hn|id s|now id r s p Hp Hpf Hr|id s|now id s Hid|now id s]; cbn; try done.
  - unfold begin_commit. by destruct (p ← phase s !! id; exchange COMMITTING p).
  - unfold complete. destruct (active s !! id); cbn; [by apply retain_bound|done].
  - unfold cancel. destruct (active s !! id); [|done]. by destruct (p ← phase s !! id; exchange CANCELLED p).
  - unfold finish_cancel. destruct (cancelling s !! id) as [[r t]|]; cbn; [by apply retain_bound|done].
  - pose proof (sublist_length _ _ (prune_sublist now (terminal s))). unfold zlen in *. lia.
Qed.

(** The ring holds terminal events only, each the one event of its operation. *)
Definition ring_ok (s : OperationState) : Prop := ∀ x, x ∈ terminal s → ended (o_id x.2) s = [x.2].
Lemma elem_of_prune now l x : x ∈ prune now l → x ∈ l.
Proof. intros Hx. eapply elem_of_sublist; [exact Hx|apply prune_sublist]. Qed.
Lemma elem_of_retain now r l x : x ∈ retain now r l → x ∈ l ∨ x = (now, r).
Proof.
  unfold retain. intros [Hx|Hx%list_elem_of_singleton]%elem_of_app; [left|by right].
  apply (elem_of_prune now). destruct (_ =? _); [|done]. destruct (prune now l); [done|]. by right.
Qed.
(** An operation that ends leaves the ring sound: no entry is about it yet. *)
Lemma ends_with_ring id t e now s s' :
  ring_ok s → ended id s = [] → o_id e = id → o_status e ≠ "started" → ends_with id t e s s' →
  terminal s' = retain now e (terminal s) → ring_ok s'.
Proof.
  intros Hr Hn Hid Hst He Ht x Hx. rewrite Ht in Hx. apply elem_of_retain in Hx as [Hx| ->]; cbn.
  - specialize (Hr x Hx). destruct He as (_ & _ & _ & He & _). unfold ended. rewrite He, ended_app, Hr, ended_other; [done|].
    left. congruence.
  - rewrite Hid. by eapply ends_with_ended.
Qed.
Lemma ring_step s e s' : ops_ok s → ring_ok s → step s e s' → ring_ok s'.
Proof.
  intros Hok Hr Hs. destruct Hs as [uuid action message fs s Hn|id s|now id r s p Hp Hpf Hc|id s|now id s [x Hx]|now id s].
  - intros x Hx. unfold ended. cbn. rewrite ended_app, ended_other by by right. rewrite app_nil_r. by apply Hr.
  - unfold begin_commit. by destruct (p ← phase s !! id; exchange COMMITTING p).
  - destruct (active s !! id) as [t|] eqn:Ht; [|unfold complete; by rewrite Ht].
    destruct (oo_active s Hok id t Ht) as (_ & Hn & _).
    destruct (completion_event_spec id (t_action t) r (id ∈ committed s)) as [Hid Est]. specialize (Est Hc) as [Hst _].
    eapply (ends_with_ring id t _ now); [done|done|exact Hid|done|by apply complete_ends|]. unfold complete. by rewrite Ht.
  - unfold cancel. destruct (active s !! id); [|done]. by destruct (p ← phase s !! id; exchange CANCELLED p).
  - destruct (oo_cancelling s Hok id x Hx) as (Hn & _).
    eapply (ends_with_ring id x.2 _ now); [done|done| | |by apply finish_cancel_ends|]; [done|done|].
    unfold finish_cancel. destruct x. by rewrite Hx.
  - intros x Hx. apply Hr. by apply elem_of_prune in Hx.
Qed.
Lemma reachable_ring s : reachable s → ring_ok s.
Proof. induction 1 as [|s e s' Hr IH Hs]; [intros x Hx; by apply elem_of_nil in Hx|]. eapply ring_step; [by apply reachable_ok|done..]. Qed.

(** [prune] keeps what has not expired, and [retain] forgets the oldest entry
    only when [TERMINAL_LIMIT] entries are held. *)
Lemma prune_keeps now l1 at_ e l2 :
  now - at_ < TERMINAL_TTL → ∃ l1', prune now (l1 ++ (at_, e) :: l2) = l1' ++ (at_, e) :: l2.
Proof.
  intros Ht. induction l1 as [|[t r] l1 IH]; cbn.
  - destruct (Z.leb_spec TERMINAL_TTL (now - at_)); [lia|]. by exists [].
  - fold (prune now (l1 ++ (at_, e) :: l2)). destruct (_ <=? _); [done|]. by exists ((t, r) :: l1).
Qed.
Lemma retain_keeps now r l1 at_ e l2 :
  now - at_ < TERMINAL_TTL → zlen l2 + 1 < TERMINAL_LIMIT →
  ∃ l1', retain now r (l1 ++ (at_, e) :: l2) = l1' ++ (at_, e) :: (l2 ++ [(now, r)]).
Proof.
  intros Ht Hl. unfold retain. destruct (prune_keeps now l1 at_ e l2 Ht) as [l1' ->].
  destruct (Z.eqb_spec (zlen (l1' ++ (at_, e) :: l2)) TERMINAL_LIMIT) as [Heq|Hne];
    [|exists l1'; by rewrite <- app_assoc].
  destruct l1' as [|y l1']; cbn in *; [rewrite zlen_cons in Heq; lia|]. exists l1'. by rewrite <- app_assoc.
Qed.

(** The time a step reads, and whether it ends an operation. *)
Definition before (deadline : Z) (e : Step) : Prop :=
  match e with Complete now _ _ | FinishCancel now _ | Status now _ => now < deadline | _ => True end.
Definition ends (e : Step) : bool := match e with Complete _ _ _ | FinishCancel _ _ => true | _ => false end.
Inductive run : OperationState → list Step → OperationState → Prop :=
| run_nil s : run s [] s
| run_step s e s' tr s'' : step s e s' → run s' tr s'' → run s (e :: tr) s''.
Definition cost (e : Step) : Z := if ends e then 1 else 0.
Lemma step_retained s e s' l1 at_ r l2 :
  step s e s' → terminal s = l1 ++ (at_, r) :: l2 → before (at_ + TERMINAL_TTL) e →
  zlen l2 + cost e < TERMINAL_LIMIT →
  ∃ l1' l2', terminal s' = l1' ++ (at_, r) :: l2' ∧ zlen l2' <= zlen l2 + cost e.
Proof.
  unfold cost. intros Hs Ht Hb Hl.
  assert (Hsame : ∀ c, 0 <= c → ∃ l1' l2', terminal s = l1' ++ (at_, r) :: l2' ∧ zlen l2' <= zlen l2 + c).
  { intros c Hc. exists l1, l2. split; [done|lia]. }
  assert (Hret : ∀ now x, now < at_ + TERMINAL_TTL → zlen l2 + 1 < TERMINAL_LIMIT →
    ∃ l1' l2', retain now x (terminal s) = l1' ++ (at_, r) :: l2' ∧ zlen l2' <= zlen l2 + 1).
  { intros now x Hn Hlt. rewrite Ht. destruct (retain_keeps now x l1 at_ r l2) as [l1' ->]; [lia|done|].
    exists l1', (l2 ++ [(now, x)]). split; [done|]. by rewrite zlen_app. }
  destruct Hs as [uuid action message fs s Hn|id s|now id x s p Hp Hpf Hc|id s|now id s Hx|now id s]; cbn [before ends] in *.
  - by apply Hsame.
  - unfold begin_commit. destruct (p ← phase s !! id; exchange COMMITTING p); by apply Hsame.
  - unfold complete. destruct (active s !! id); [by apply Hret|by apply Hsame].
  - unfold cancel. destruct (active s !! id); [|by apply Hsame]. destruct (p ← phase s !! id; exchange CANCELLED p); by apply Hsame.
  - unfold finish_cancel. destruct (cancelling s !! id) as [[y t]|]; [by apply Hret|by apply Hsame].
  - cbn. rewrite Ht. destruct (prune_keeps now l1 at_ r l2) as [l1' ->]; [lia|]. exists l1', l2. split; [done|lia].
Qed.
Definition costs (tr : list Step) : Z := foldr (λ e n, cost e + n) 0 tr.
Lemma costs_nonneg tr : 0 <= costs tr.
Proof. induction tr as [|e tr IH]; [done|]. change (0 <= cost e + costs tr). unfold cost. destruct (ends e); lia. Qed.
Lemma run_retained s tr s' l1 at_ r l2 :
  run s tr s' → terminal s = l1 ++ (at_, r) :: l2 → Forall (before (at_ + TERMINAL_TTL)) tr →
  zlen l2 + costs tr < TERMINAL_LIMIT → (at_, r) ∈ terminal s'.
Proof.
  intros Hrun. revert l1 l2. induction Hrun as [s|s e s' tr s'' Hs _ IH]; intros l1 l2 Ht Hb Hl.
  - rewrite Ht. set_solver.
  - apply Forall_cons in Hb as [Hb Hbs]. change (zlen l2 + (cost e + costs tr) < TERMINAL_LIMIT) in Hl. pose proof (costs_nonneg tr).
    destruct (step_retained s e s' l1 at_ r l2 Hs Ht Hb) as (l1' & l2' & Ht' & Hl'); [lia|].
    eapply IH; [exact Ht'|done|lia].
Qed.

(** While its event is in the ring and has not expired, [status] answers it. *)
Lemma status_retained now s at_ e :
  reachable s → (at_, e) ∈ terminal s → now - at_ < TERMINAL_TTL → o_status e ≠ "started" →
  fst (status now (o_id e) s) = Some e.
Proof.
  intros Hr Hin Ht Hst. destruct (reachable_ok s Hr) as [Ha Hc _ _]. pose proof (reachable_ring s Hr) as Hring.
  pose proof (Hring _ Hin) as Hend. cbn in Hend |- *.
  destruct (active s !! o_id e) as [t|] eqn:Hact; [destruct (Ha _ _ Hact) as (_ & Hn & _); congruence|].
  destruct (cancelling s !! o_id e) as [x|] eqn:Hcan; [destruct (Hc _ _ Hcan) as (Hn & _); congruence|].
  apply list_elem_of_split in Hin as (l1 & l2 & Hl). rewrite Hl. destruct (prune_keeps now l1 at_ e l2 Ht) as [l1' Hp].
  rewrite Hp. assert (Hall : ∀ x, x ∈ l1' → o_id x.2 = o_id e → x.2 = e).
  { intros x Hx Hid. assert (Hxt : x ∈ terminal s) by (apply (elem_of_prune now); rewrite Hl, Hp; set_solver).
    specialize (Hring x Hxt). rewrite Hid, Hend in Hring. by injection Hring. }
  clear Hp. induction l1' as [|x l1' IH]; cbn [app].
  - by rewrite filter_cons_True.
  - rewrite filter_cons. case_decide as Hx; cbn; [by rewrite (Hall x) by (by left || done)|].
    apply IH. intros y Hy. apply Hall. by right.
Qed.

(** ** An example run *)
Definition launched : OperationState := launch "1" "annotate" "Started" ["/tmp/a.png"] initial_state.
Definition operation1 : string := "operation-1".
Definition committing : OperationState := snd (begin_commit operation1 launched).
Definition refused_cancel : OperationState := snd (cancel operation1 committing).
Lemma refused_cancel_reachable : reachable refused_cancel.
Proof.
  apply (r_step committing (Cancel operation1)); [|constructor].
  apply (r_step launched (BeginCommit operation1)); [|constructor].
  apply (r_step initial_state (Launch "1" "annotate" "Started" ["/tmp/a.png"])); [constructor|]. by constructor.
Qed.
Definition failed_event : OperationResult := mkOperation operation1 "annotate" "failed" "disk full" None None.
Lemma one_terminal_event_witness :
  operation1 ∈ committed refused_cancel ∧ fst (cancel operation1 refused_cancel) = false
  ∧ ∃ s', step refused_cancel (Complete 5 operation1 (Err "disk full"%string)) s'
      ∧ ended operation1 s' = [failed_event] ∧ removed s' = ["/tmp/a.png"%string].
Proof.
  assert (Hc : operation1 ∈ committed refused_cancel) by (vm_compute; left).
  destruct (one_terminal_event refused_cancel operation1) as (_ & _ & H3 & H4 & _);
    [apply refused_cancel_reachable|vm_compute; eexists; reflexivity|].
  split; [exact Hc|]. split; [apply H3, Hc|].
  destruct (H4 (mkTask (mkOperation operation1 "annotate" "started" "Started" None None) "annotate" ["/tmp/a.png"%string])) as [Hd _];
    [vm_compute; reflexivity|].
  destruct (Hd 5 (Err "disk full"%string)) as (s' & Hs & (_ & _ & _ & _ & Hf & _) & He); [intros c [=]|].
  exists s'. split; [exact Hs|]. split; [exact He|]. rewrite Hf. vm_compute. reflexivity.
Defined.
Lemma terminal_bounded_witness : zlen (terminal refused_cancel) <= TERMINAL_LIMIT.
Proof. apply terminal_bounded, refused_cancel_reachable. Defined.
