(* ===== verification/Drain.v ===== *)
(** * Drain: the operation gate of [history.rs], and [Operations::stop].

    Launching, wiping, cleaning up and shutting down hold one gate; wiping,
    cleaning up and shutting down first drain the image operations: those that
    are still editing are cancelled, those that are committing are waited for.
    Cancellation by clients and the operations themselves need no gate and
    interleave with everything. *)
From S2P Require Import Prelude Model Operations.
Local Open Scope Z_scope.

(** ** Requests that take the gate *)
Inductive Kind :=
| Drains                                 (* mutate: Wipe and Cleanup *)
| ShutsDown
| Launches (uuid action message : string) (files : list string)   (* Annotate, interactive_screenshot *)
| Mutates.                               (* every other mutation, capture_screenshot *)
Inductive Phase :=
| Queued
| Holding
| Stopping (todo : list string)          (* stop: between two operations *)
| Cancelling (id : string) (todo : list string)   (* cancel answered true once its cleanup ends *)
| Waiting (id : string) (todo : list string)      (* control.wait() *)
| Returned.
Record Request := mkRequest { r_kind : Kind; r_phase : Phase }.
Record State := mkGated {
  ops : OperationState;
  gate : option nat;
  closed : bool;
  shut : bool;                           (* history: the store was told to shut down *)
  requests : gmap nat Request;
}.
Definition initial : State := mkGated initial_state None false false ∅.
Definition set_request (i : nat) (k : Kind) (p : Phase) (s : State) : State :=
  mkGated (ops s) (gate s) (closed s) (shut s) (<[i := mkRequest k p]> (requests s)).
Definition set_ops (o : OperationState) (s : State) : State := mkGated o (gate s) (closed s) (shut s) (requests s).
Definition set_gate (g : option nat) (s : State) : State := mkGated (ops s) g (closed s) (shut s) (requests s).
Definition set_flags (c d : bool) (s : State) : State := mkGated (ops s) (gate s) c d (requests s).
(** The snapshot [stop] works on. *)
Definition snapshot (o : OperationState) : list string :=
  (map_to_list (active o)).*1 ++ (map_to_list (cancelling o)).*1.
(** [shutdown]: the backend is closed before the operations are drained. *)
Definition begin_shutdown (i : nat) (s : State) : State :=
  set_request i ShutsDown (Stopping (snapshot (ops s))) (set_flags true (shut s) s).
(** What a drained request does to the flags: the store is told to shut down. *)
Definition effect (k : Kind) (s : State) : State :=
  set_flags (closed s) (match k with ShutsDown => true | _ => shut s end) s.
(** The request returns and drops the gate. *)
Definition return_ (i : nat) (k : Kind) (s : State) : State := set_request i k Returned (set_gate None s).

Inductive Event :=
| Arrive (i : nat) (k : Kind)
| Acquire (i : nat)
| Begin (i : nat)
| CancelNext (i : nat)
| CancelEnds (i : nat)
| CancelFails (i : nat)                  (* the cleanup task is lost: the request fails *)
| Finished (i : nat)
| Effect (i : nat)                       (* the wipe, the clean-up, the store's shutdown *)
| Operation (e : Step).

Inductive step : State → Event → State → Prop :=
| g_arrive i k s : requests s !! i = None → step s (Arrive i k) (set_request i k Queued s)
| g_acquire i k s :
    requests s !! i = Some (mkRequest k Queued) → gate s = None →
    step s (Acquire i) (set_request i k Holding (set_gate (Some i) s))
| g_drain i s :
    requests s !! i = Some (mkRequest Drains Holding) →
    step s (Begin i) (set_request i Drains (Stopping (snapshot (ops s))) s)
| g_shutdown i s :
    requests s !! i = Some (mkRequest ShutsDown Holding) →
    step s (Begin i) (begin_shutdown i s)
| g_launch i uuid action message files s :
    let k := Launches uuid action message files in
    requests s !! i = Some (mkRequest k Holding) → closed s = false →
    phase (ops s) !! ("operation-" ++ uuid)%string = None →
    step s (Begin i) (return_ i k (set_ops (launch uuid action message files (ops s)) s))
| g_refused i k s :                      (* ensure_running, or staging failed *)
    requests s !! i = Some (mkRequest k Holding) → step s (Begin i) (return_ i k s)
| g_cancel i k id l s b o :
    requests s !! i = Some (mkRequest k (Stopping (id :: l))) → cancel id (ops s) = (b, o) →
    step s (CancelNext i) (set_request i k (if b : bool then Cancelling id l else Waiting id l) (set_ops o s))
| g_cancelled i k id l s :
    requests s !! i = Some (mkRequest k (Cancelling id l)) → cancelling (ops s) !! id = None →
    step s (CancelEnds i) (set_request i k (Stopping l) s)
| g_lost i k id l s :
    requests s !! i = Some (mkRequest k (Cancelling id l)) → step s (CancelFails i) (return_ i k s)
| g_finished i k id l s :
    requests s !! i = Some (mkRequest k (Waiting id l)) → phase (ops s) !! id = Some FINISHED →
    step s (Finished i) (set_request i k (Stopping l) s)
| g_effect i k s :
    requests s !! i = Some (mkRequest k (Stopping [])) →
    step s (Effect i) (return_ i k (effect k s))
| g_operation e s o :
    Operations.step (ops s) e o → (match e with Launch _ _ _ _ => False | _ => True end) →
    step s (Operation e) (set_ops o s).
Inductive reachable : State → Prop :=
| reachable_initial : reachable initial
| reachable_event s e s' : reachable s → step s e s' → reachable s'.

(** ** Nothing runs, and nothing can commit any more *)
Definition quiescent (o : OperationState) : Prop :=
  ∀ id p, phase o !! id = Some p → p = CANCELLED ∨ p = Operations.FINISHED.
Definition todo (p : Phase) : option (list string) :=
  match p with
  | Stopping l | Cancelling _ l => Some l
  | Waiting id l => Some (id :: l)
  | _ => None
  end.
Definition holds (p : Phase) : bool := match p with Queued | Returned => false | _ => true end.

Record sound (s : State) : Prop := {
  sg_ops : Operations.reachable (ops s);
  sg_gate : ∀ i k p, requests s !! i = Some (mkRequest k p) → holds p = true → gate s = Some i;
  sg_todo : ∀ i k p l, requests s !! i = Some (mkRequest k p) → todo p = Some l →
    ∀ id, is_Some (active (ops s) !! id) → id ∈ l;
  sg_closing : ∀ i p, requests s !! i = Some (mkRequest ShutsDown p) → is_Some (todo p) → closed s = true;
  sg_shut : shut s = true → closed s = true ∧ quiescent (ops s);
}.

(** An operation's own steps activate nothing. *)
Lemma operation_fewer o e o' :
  Operations.step o e o' → (match e with Launch _ _ _ _ => False | _ => True end) →
  (∀ id, is_Some (active o' !! id) → is_Some (active o !! id)) ∧ (quiescent o → quiescent o').
Proof.
  intros Hs He. unfold quiescent. destruct Hs as [uuid a m fs s Hn|id s|now id r s p Hp Hpf Hr|id s|now id s Hid|now id s]; [done|..]; cbn.
  - unfold begin_commit. destruct (phase s !! id) as [p|] eqn:Hp; cbn; [|done]. destruct p; cbn; try done. split; [done|].
    intros Hq i q. destruct (decide (i = id)) as [->|Hne]; [|rewrite lookup_insert_ne by done; apply Hq].
    destruct (Hq id _ Hp); done.
  - unfold complete. assert (Hph : ∀ i q, (∀ i q, phase s !! i = Some q → q = CANCELLED ∨ q = FINISHED) →
      <[id := FINISHED]> (phase s) !! i = Some q → q = CANCELLED ∨ q = FINISHED).
    { intros i q Hq. destruct (decide (i = id)) as [->|Hne]; [rewrite lookup_insert_eq; intros [= <-]; by right|].
      rewrite lookup_insert_ne by done. apply Hq. }
    destruct (active s !! id) as [t|] eqn:Ht; cbn; (split; [|eauto]); intros i; [|done].
    intros Hi. destruct (decide (i = id)) as [->|Hne]; [by rewrite Ht|by rewrite lookup_delete_ne in Hi].
  - unfold cancel. destruct (active s !! id) as [t|] eqn:Ht; [|done].
    destruct (phase s !! id) as [p|] eqn:Hp; cbn; [|done]. destruct p; cbn; try done. split.
    + intros i Hi. destruct (decide (i = id)) as [->|Hne]; [by rewrite Ht|by rewrite lookup_delete_ne in Hi].
    + intros Hq i q. destruct (decide (i = id)) as [->|Hne]; [|rewrite lookup_insert_ne by done; apply Hq].
      destruct (Hq id _ Hp); done.
  - unfold finish_cancel. destruct (cancelling s !! id) as [[r t]|]; cbn; [|done]. split; [done|].
    intros Hq i q. destruct (decide (i = id)) as [->|Hne]; [rewrite lookup_insert_eq; intros [= <-]; by right|].
    rewrite lookup_insert_ne by done. apply Hq.
  - done.
Qed.
(** With no operation active, none is editing or committing. *)
Lemma inactive_quiescent o : Operations.reachable o → (∀ id, active o !! id = None) → quiescent o.
Proof.
  intros Hr Ha id p Hp. destruct (reachable_ok o Hr) as [_ Hc He _].
  destruct (cancelling o !! id) as [x|] eqn:Hx.
  - destruct (Hc id x Hx) as (_ & _ & _ & [?|?]); [left|right]; congruence.
  - destruct (He id) as [_ ?]; [by rewrite Hp|by apply Ha|done|right; congruence].
Qed.
Lemma finished_inactive o id : Operations.reachable o → phase o !! id = Some FINISHED → active o !! id = None.
Proof.
  intros Hr Hp. destruct (reachable_ok o Hr) as [Ha _ _ _]. destruct (active o !! id) as [t|] eqn:Ht; [|done].
  destruct (Ha id t Ht) as (_ & _ & _ & [[? _]|[? _]]); congruence.
Qed.
Lemma cancel_inactive o id b o' : cancel id o = (b, o') → b = true → active o' !! id = None.
Proof.
  unfold cancel. destruct (active o !! id); [|by intros [= <- <-]].
  destruct (p ← phase o !! id; exchange CANCELLED p); [|by intros [= <- <-]].
  intros [= <- <-] _. cbn. apply lookup_delete_eq.
Qed.
Lemma elem_of_snapshot o id : is_Some (active o !! id) → id ∈ snapshot o.
Proof.
  intros [t Ht]. apply elem_of_app. left. apply list_elem_of_fmap. exists (id, t). split; [done|]. by apply elem_of_map_to_list.
Qed.

Lemma moved i j k p q x (m : gmap nat Request) :
  <[i := mkRequest k p]> m !! j = Some (mkRequest q x) →
  (j = i ∧ q = k ∧ x = p) ∨ (j ≠ i ∧ m !! j = Some (mkRequest q x)).
Proof. intros [[-> [= -> ->]]|[Hne Hj]]%lookup_insert_Some; auto. Qed.
(** One request moves while it keeps the gate. *)
Lemma sound_move s i k p p' :
  sound s → requests s !! i = Some (mkRequest k p) →
  (holds p' = true → gate s = Some i) →
  (∀ l, todo p' = Some l → ∀ id, is_Some (active (ops s) !! id) → id ∈ l) →
  (k = ShutsDown → is_Some (todo p') → closed s = true) →
  sound (set_request i k p' s).
Proof.
  intros [A B C D E] Hi Hh Ht Hc. split; cbn; [done|..|done].
  - intros j q x [(->&->&->)|[Hne Hj]]%moved Hx; [by apply Hh|by eapply B].
  - intros j q x l [(->&->&->)|[Hne Hj]]%moved Hx; [by apply Ht|by eapply C].
  - intros j x [(->&Hk&->)|[Hne Hj]]%moved Hx; [by apply Hc|by eapply D].
Qed.
Lemma sound_release s i k p :
  sound s → requests s !! i = Some (mkRequest k p) → holds p = true → sound (return_ i k s).
Proof.
  intros [A B C D E] Hi Hp. pose proof (B i k p Hi Hp) as Hg.
  split; cbn; [done|..|done].
  - intros j q x [(->&->&->)|[Hne Hj]]%moved Hx; [done|].
    rewrite (B j q x Hj Hx) in Hg. congruence.
  - intros j q x l [(->&->&->)|[Hne Hj]]%moved Hx; [done|by eapply C].
  - intros j x [(->&Hk&->)|[Hne Hj]]%moved Hx; [by destruct Hx|by eapply D].
Qed.
Lemma sound_ops s o :
  sound s → Operations.reachable o → (∀ id, is_Some (active o !! id) → is_Some (active (ops s) !! id)) →
  (quiescent (ops s) → quiescent o) → sound (set_ops o s).
Proof.
  intros [A B C D E] Hr Hact Hq. split; cbn; try done.
  - intros i k p l Hi Hl id Hid. eapply C; eauto.
  - intros Hs. destruct (E Hs). auto.
Qed.
Lemma drain_step s e s' : step s e s' → sound s → sound s'.
Proof.
  intros Hst Hs. pose proof Hs as [A B C D E].
  destruct Hst as [i k s Hi|i k s Hi Hg|i s Hi|i s Hi|i uuid action message files s k Hi Hcl Hph|i k s Hi|i k id l s b o Hi Hcan
                  |i k id l s Hi Hnc|i k id l s Hi|i k id l s Hi Hf|i k s Hi|e s o Hop He].
  - split; cbn; [done|..|done].
    + intros j q x [(->&->&->)|[Hne Hj]]%moved Hx; [done|by eapply B].
    + intros j q x l [(->&->&->)|[Hne Hj]]%moved Hx; [done|by eapply C].
    + intros j x [(->&Hk&->)|[Hne Hj]]%moved Hx; [by destruct Hx|by eapply D].
  - assert (Hg' : sound (set_gate (Some i) s)).
    { split; cbn; try done. intros j q x Hj Hx. rewrite (B j q x Hj Hx) in Hg. done. }
    apply (sound_move _ i k Queued); try done. by intros _ [? ?].
  - apply (sound_move s i Drains Holding); try done; [intros _; by eapply B|]. intros l [= <-] id. apply elem_of_snapshot.
  - assert (Hc : sound (set_flags true (shut s) s)).
    { split; cbn; try done. intros Hsh. split; [done|]. by apply E. }
    apply (sound_move _ i ShutsDown Holding); try done; [intros _; by eapply B|]. intros l [= <-] id. apply elem_of_snapshot.
  - assert (Hrel : sound (return_ i k s)) by exact (sound_release s i k Holding Hs Hi eq_refl).
    assert (Hlone : ∀ j q x, requests (return_ i k s) !! j = Some (mkRequest q x) → holds x = false).
    { intros j q x [(->&->&->)|[Hne Hj]]%moved; [done|]. destruct (holds x) eqn:Hx; [|done].
      pose proof (B j q x Hj Hx). pose proof (B i k Holding Hi eq_refl). congruence. }
    destruct Hrel as [A' B' C' D' E']. split; cbn.
    + apply (Operations.r_step (ops s) (Launch uuid action message files)); [done|by constructor].
    + intros j q x Hj Hx. pose proof (Hlone j q x Hj). congruence.
    + intros j q x l Hj Hx. pose proof (Hlone j q x Hj). by destruct x.
    + intros j x Hj Hx. pose proof (Hlone j _ x Hj). destruct x; try done; by destruct Hx.
    + intros Hsh. destruct (E Hsh). congruence.
  - by eapply sound_release.
  - assert (Hop : Operations.step (ops s) (Operations.Cancel id) o).
    { pose proof (s_cancel id (ops s)) as H. by rewrite Hcan in H. }
    destruct (operation_fewer _ _ _ Hop I) as [Hact Hq].
    assert (Hs' : sound (set_ops o s)) by (apply sound_ops; [done|by eapply Operations.r_step|done|done]).
    pose proof (B i k _ Hi eq_refl) as Hg. apply (sound_move _ i k (Stopping (id :: l))); [done|done|done|..].
    + intros m Hm x Hx. pose proof (C i k _ _ Hi eq_refl x (Hact x Hx)) as Hin.
      destruct b; cbn in Hm; injection Hm as <-; [|done]. apply elem_of_cons in Hin as [->|?]; [|done].
      cbn in Hx. rewrite (cancel_inactive _ _ _ _ Hcan eq_refl) in Hx. by destruct Hx.
    + intros -> _. by apply (D i (Stopping (id :: l))).
  - pose proof (B i k _ Hi eq_refl) as Hg. apply (sound_move s i k (Cancelling id l)); [done|done|done|..].
    + intros m [= <-] x Hx. by apply (C i k _ _ Hi eq_refl x).
    + intros -> _. by apply (D i (Cancelling id l)).
  - by eapply sound_release.
  - pose proof (B i k _ Hi eq_refl) as Hg. apply (sound_move s i k (Waiting id l)); [done|done|done|..].
    + intros m [= <-] x Hx. pose proof (C i k _ _ Hi eq_refl x Hx) as [->|?]%elem_of_cons; [|done].
      rewrite (finished_inactive (ops s) id) in Hx by done. by destruct Hx.
    + intros -> _. by apply (D i (Waiting id l)).
  - assert (Hq : quiescent (ops s)).
    { apply inactive_quiescent; [done|]. intros id. destruct (active (ops s) !! id) eqn:Hid; [|done].
      pose proof (C i k _ _ Hi eq_refl id) as Hin. rewrite Hid in Hin. by apply elem_of_nil in Hin; [|eauto]. }
    set (d := match k with ShutsDown => true | _ => shut s end).
    assert (Hs' : sound (set_flags (closed s) d s)).
    { split; cbn; try done. intros Hd. split; [|done]. destruct k; subst d; try (by apply E).
      by apply (D i (Stopping [])). }
    by apply (sound_release _ i k (Stopping [])).
  - destruct (operation_fewer _ _ _ Hop He) as [Hact Hq]. apply sound_ops; [done|by eapply Operations.r_step|done|done].
Qed.
Lemma reachable_gated s : reachable s → sound s.
Proof.
  induction 1 as [|s e s' _ IH Hs]; [|by eapply drain_step]. split; cbn; try done; [constructor|..];
    intros *; by rewrite lookup_empty.
Qed.

(** C14 Wiping excludes the image operations, and a shutdown is final.  However
    launches, commits, completions and cancellations interleave with requests:
    when the history is wiped, cleaned up or told to shut down, no operation is
    editing or committing, and none can begin to commit or be launched before
    that request returns; and once the store was told to shut down, no operation
    ever runs or commits again. *)
Theorem wipe_excludes_operations s e s' :
  reachable s → step s e s' →
  (∀ i, e = Effect i → quiescent (ops s) ∧ gate s = Some i ∧ ∀ id, fst (begin_commit id (ops s)) = false)
  ∧ (∀ i k p, requests s !! i = Some (mkRequest k p) → holds p = true →
       requests s' !! i = Some (mkRequest k p) → ∀ id, active (ops s) !! id = None → active (ops s') !! id = None)
  ∧ (shut s = true → shut s' = true ∧ quiescent (ops s') ∧ ∀ id, active (ops s') !! id = None).
Proof.
  intros Hr Hst. pose proof (reachable_gated s Hr) as Hs.
  assert (Hquiet : ∀ o id, quiescent o → fst (begin_commit id o) = false).
  { intros o id Hq. unfold begin_commit. destruct (phase o !! id) as [p|] eqn:Hp; cbn; [|done].
    by destruct (Hq id p Hp) as [->| ->]. }
  split_and!.
  - intros i ->. inversion Hst as [| | | | | | | | | |i' k s0 Hi|]; subst.
    assert (Hq : quiescent (ops s)).
    { apply inactive_quiescent; [apply Hs|]. intros id. destruct (active (ops s) !! id) eqn:Hid; [|done].
      pose proof (sg_todo s Hs i k _ _ Hi eq_refl id) as Hin. rewrite Hid in Hin. by apply elem_of_nil in Hin; [|eauto]. }
    split_and!; [done|by apply (sg_gate s Hs i k _ Hi)|auto].
  - intros i k p Hi Hp Hi' id Hid. pose proof (sg_gate s Hs i k p Hi Hp) as Hg.
    destruct Hst as [| | | |j uuid action message files s k' Hj Hcl Hph| |j k' x l s b o Hj Hcan| | | | |ev s o Hop He]; cbn in *; try done.
    + assert (Hgj : gate s = Some j) by by apply (sg_gate s Hs j k' Holding). rewrite Hg in Hgj. injection Hgj as <-.
      rewrite lookup_insert_eq in Hi'. injection Hi' as Heq. by subst p.
    + assert (Hop : Operations.step (ops s) (Operations.Cancel x) o).
      { pose proof (s_cancel x (ops s)) as H. by rewrite Hcan in H. }
      destruct (active o !! id) eqn:Ho; [|done]. destruct (operation_fewer _ _ _ Hop I) as [Hact _].
      destruct (Hact id) as [t Ht]; [by rewrite Ho|congruence].
    + destruct (active o !! id) eqn:Ho; [|done]. destruct (operation_fewer _ _ _ Hop He) as [Hact _].
      destruct (Hact id) as [t Ht]; [by rewrite Ho|congruence].
  - intros Hsh. pose proof (drain_step _ _ _ Hst Hs) as Hs'.
    assert (Hsh' : shut s' = true). { destruct Hst; cbn; try done. by destruct k. }
    split; [done|]. destruct (sg_shut s' Hs' Hsh') as [_ Hq]. split; [done|]. intros id.
    destruct (active (ops s') !! id) as [t|] eqn:Ht; [|done].
    destruct (reachable_ok _ (sg_ops s' Hs')) as [Ha _ _ _].
    destruct (Ha id t Ht) as (_ & _ & _ & [[Hp _]|[Hp _]]); destruct (Hq id _ Hp); done.
Qed.

(** ** A run: an operation starts, a wipe arrives and cancels it *)
Definition annotation : Kind := Launches "1" "annotate" "Started" ["/tmp/a.png"].
Definition at_launch : State := set_request 0 annotation Holding (set_gate (Some 0%nat) (set_request 0 annotation Queued initial)).
Definition editing : State := return_ 0 annotation (set_ops launched at_launch).
Definition at_wipe : State := set_request 1 Drains Holding (set_gate (Some 1%nat) (set_request 1 Drains Queued editing)).
Definition draining : State := set_request 1 Drains (Stopping [operation1]) at_wipe.
Definition cancelling1 : State :=
  set_request 1 Drains (Cancelling operation1 []) (set_ops (snd (cancel operation1 (ops draining))) draining).
Definition cleaned1 : State := set_ops (finish_cancel 5 operation1 (ops cancelling1)) cancelling1.
Definition drained : State := set_request 1 Drains (Stopping []) cleaned1.
Definition wiped : State := return_ 1 Drains (effect Drains drained).
Lemma editing_reachable : reachable editing.
Proof.
  apply (reachable_event at_launch (Begin 0)).
  - apply (reachable_event (set_request 0 annotation Queued initial) (Acquire 0)).
    + apply (reachable_event initial (Arrive 0 annotation)); [constructor|]. by apply g_arrive.
    + by apply g_acquire.
  - by apply (g_launch 0 "1" "annotate" "Started" ["/tmp/a.png"]).
Qed.
Lemma drained_reachable : reachable drained.
Proof.
  apply (reachable_event cleaned1 (CancelEnds 1)); [|by apply (g_cancelled 1 Drains operation1 [])].
  apply (reachable_event cancelling1 (Operation (FinishCancel 5 operation1))).
  2: { apply g_operation; [|done]. apply s_finish. vm_compute. eexists. reflexivity. }
  apply (reachable_event draining (CancelNext 1)); [|by apply (g_cancel 1 Drains operation1 [] draining true)].
  apply (reachable_event at_wipe (Begin 1)); [|by apply (g_drain 1 at_wipe)].
  apply (reachable_event (set_request 1 Drains Queued editing) (Acquire 1)); [|by apply g_acquire].
  apply (reachable_event editing (Arrive 1 Drains)); [apply editing_reachable|by apply g_arrive].
Qed.
Lemma wipe_excludes_operations_witness :
  map o_status (events (ops drained)) = ["started"; "cancelled"]%string
  ∧ quiescent (ops drained) ∧ gate drained = Some 1%nat ∧ fst (begin_commit operation1 (ops drained)) = false.
Proof.
  split; [vm_compute; reflexivity|].
  assert (Hst : step drained (Effect 1) wiped) by (apply (g_effect 1 Drains drained); vm_compute; reflexivity).
  destruct (wipe_excludes_operations drained (Effect 1) wiped drained_reachable Hst) as [H _].
  destruct (H 1%nat eq_refl) as (Hq & Hg & Hc). split; [exact Hq|]. split; [exact Hg|apply Hc].
Defined.
