(* ===== verification/Worker.v ===== *)
(** * Worker: the capture controller and its threads, [capture/worker.rs].

    A controller runs at most one worker: a capture thread that connects,
    resumes the gate, runs the Wayland session and closes the gate again, and an
    ingest thread that submits finished transfers through the gate.  Pausing
    stops the worker and waits for both threads.  Every atomic access, channel
    operation and sink call is one step, and all threads, the pending controller
    call and the detached shutdown task interleave freely.

    The Wayland session is [Wayland.v]; here it offers, queues and drops
    transfers at will, and ends when it fails or sees the stop.  A sink call may
    fail with or without its effect, and the foreign code a capture thread runs
    may panic. *)
From S2P Require Import Prelude Selection Gate.
Local Open Scope Z_scope.

(** ** The threads *)

(** Where the capture thread is, in [Session::run] and [reconnect]. *)
Inductive Capture :=
| Starting                                   (* run: spawning the ingest thread *)
| Top                                        (* while !stop *)
| Readying | Admitting | Opening | Running   (* ready, set_admission(true), resume, wayland::run *)
| Closing (r : result string unit) | Bumping (r : result string unit)
| Fencing (r : result string unit)
| Disabling (r fence : result string unit)   (* set_admission(false) *)
| Parked
| Exiting                                    (* set_admission(false) after the loop *)
| Dropping                                   (* drop(self): the channel disconnects *)
| Joining | Done
| Panicked.

Inductive Ingest :=
| NotSpawned
| Waiting                                    (* incoming.recv() *)
| Submitting (g : Z)                         (* submit: before the lock *)
| Locked (g : Z)                             (* submit: holding [submission] *)
| Finished.
#[export] Instance Ingest_eq_dec : EqDecision Ingest.
Proof. solve_decision. Defined.

(** [Control]: what the controller shares with the threads. *)
Record Control := mkControl {
  gate : Admission;
  stop : bool;
  status : result string bool;
}.
(** [Session], with the threads that run it and the [Worker] that owns it. *)
Record Worker := mkWorker {
  control : Control;
  limit : Z;
  skip_initial : bool;
  ready : option (result string unit);       (* what was sent on [ready], once *)
  backoff : Z;                               (* milliseconds *)
  connected : bool;                          (* a sender of [jobs] is alive *)
  jobs : list Z;                             (* generations of the queued jobs *)
  reading : option Z;                        (* admit: the generation is read *)
  transfers : list Z;                        (* generations of the transfers *)
  capture : Capture;
  ingest : Ingest;
}.
Definition JOBS : Z := 1.
Definition BACKOFF_MIN : Z := 250.
Definition BACKOFF_MAX : Z := 10000.

(** [Worker::start] and [Session::new]. *)
Definition new_worker (limit : Z) (skip_initial : bool) : Worker :=
  mkWorker (mkControl initial_gate false (Err "Capture is starting"%string)) limit skip_initial None
           BACKOFF_MIN true [] None [] Starting NotSpawned.

Definition set_capture (p : Capture) (w : Worker) : Worker :=
  mkWorker (control w) (limit w) (skip_initial w) (ready w) (backoff w) (connected w) (jobs w) (reading w) (transfers w) p (ingest w).
Definition set_ingest (j : list Z) (q : Ingest) (w : Worker) : Worker :=
  mkWorker (control w) (limit w) (skip_initial w) (ready w) (backoff w) (connected w) j (reading w) (transfers w) (capture w) q.
Definition set_control (c : Control) (w : Worker) : Worker :=
  mkWorker c (limit w) (skip_initial w) (ready w) (backoff w) (connected w) (jobs w) (reading w) (transfers w) (capture w) (ingest w).
Definition set_gate (g : Admission) (w : Worker) : Worker :=
  set_control (mkControl g (stop (control w)) (status (control w))) w.
Definition set_transfers (r : option Z) (t : list Z) (w : Worker) : Worker :=
  mkWorker (control w) (limit w) (skip_initial w) (ready w) (backoff w) (connected w) (jobs w) r t (capture w) (ingest w).

(** [Session::report]. *)
Definition report (r : result string unit) (w : Worker) : Worker :=
  mkWorker (mkControl (gate (control w)) (stop (control w)) ((λ _, false) <$> r)) (limit w) (skip_initial w)
           (match ready w with None => Some r | sent => sent end)
           (backoff w) (connected w) (jobs w) (reading w) (transfers w) (capture w) (ingest w).
(** [Session::stopped]. *)
Definition stopped (w : Worker) : bool := stop (control w) || negb (open (gate (control w))).
(** [control.gate.uncertain.store(true)]. *)
Definition mark_uncertain (w : Worker) : Worker :=
  let '(mkAdmission o g _ h q c) := gate (control w) in set_gate (mkAdmission o g true h q c) w.
Definition on_gate (a : Action) (w : Worker) : option Worker := g ← act a (gate (control w)); Some (set_gate g w).

(** [gate.fence()] of a thread that found the lock free. *)
Definition fence_result (g : Admission) : result string unit :=
  if uncertain g then Err "Capture submission outcome is uncertain; engine recovery is required"%string else Ok tt.

(** ** Steps of a worker

    [adm] is the admission flag of the storage owner.  A successful
    [set_admission] sets it; a failed one may have. *)
Inductive CaptureEvent :=
| Spawned (ok : bool)
| LoopTop
| SinkReady (r : result string unit)
| SinkAdmit (r : result string unit) (took : bool)
| Resume (a : Action)
| AdmitGeneration | AdmitOpen               (* State::start: gate.admit() *)
| SendJob (t1 : list Z) (g : Z) (t2 : list Z)    (* State::finish: try_send *)
| DropTransfer (t1 : list Z) (g : Z) (t2 : list Z)
| ReportReady                               (* Barrier::Ready *)
| RunEnds (r : result string unit)
| CloseGate
| BumpGate
| FenceGate
| SinkClose (r : result string unit) (took : bool)
| Unpark
| DropSession
| JoinIngest
| Panic.

Definition admission_after (want : bool) (r : result string unit) (took adm : bool) : bool :=
  if is_ok r || took then want else adm.

(** The end of one round of [reconnect]. *)
Definition end_round (r fence closed : result string unit) (w : Worker) : Worker :=
  match (_ ← fence; closed) with
  | Err e => set_capture Exiting (report (Err e) (mark_uncertain w))
  | Ok _ =>
      let w := match r with Err e => report (Err e) w | Ok _ => w end in
      mkWorker (control w) (limit w) true (ready w) (backoff w) (connected w) (jobs w) (reading w) (transfers w)
               Parked (ingest w)
  end.
(** After the loop. *)
Definition end_loop (closed : result string unit) (w : Worker) : Worker :=
  set_capture Dropping
    match closed with Err e => report (Err e) (mark_uncertain w) | Ok _ => w end.

Definition capture_step (e : CaptureEvent) (w : Worker) (adm : bool) : option (Worker * bool) :=
  match capture w, e with
  | Starting, Spawned true => Some (set_capture Top (set_ingest (jobs w) Waiting w), adm)
  | Starting, Spawned false =>
      Some (set_capture Done (report (Err "Could not start capture ingest worker"%string) w), adm)
  | Top, LoopTop => Some (set_capture (if stop (control w) then Exiting else Readying) w, adm)
  | Readying, SinkReady r => Some (set_capture (match r with Ok _ => Admitting | Err _ => Closing r end) w, adm)
  | Admitting, SinkAdmit r took =>
      Some (set_capture (match r with Ok _ => Opening | Err _ => Closing r end) w, admission_after true r took adm)
  | Opening, Resume a =>
      match a with
      | ResumeLock | ResumeBump => w' ← on_gate a w; Some (w', adm)
      | ResumeOpen => w' ← on_gate a w; Some (set_capture Running w', adm)
      | ResumeErr => w' ← on_gate a w; Some (set_capture (Closing (fence_result (gate (control w)))) w', adm)
      | _ => None
      end
  | Running, AdmitGeneration => Some (set_transfers (Some (generation (gate (control w)))) (transfers w) w, adm)
  | Running, AdmitOpen =>
      g ← reading w;
      Some (set_transfers None (if open (gate (control w)) then transfers w ++ [g] else transfers w) w, adm)
  | Running, SendJob t1 g t2 =>
      if bool_decide (transfers w = t1 ++ g :: t2) then
        Some (set_transfers (reading w) (t1 ++ t2)
                (if (zlen (jobs w) <? JOBS) && negb (bool_decide (ingest w = Finished))
                 then set_ingest (jobs w ++ [g]) (ingest w) w else w), adm)
      else None
  | Running, DropTransfer t1 g t2 =>
      if bool_decide (transfers w = t1 ++ g :: t2) then Some (set_transfers (reading w) (t1 ++ t2) w, adm) else None
  | Running, ReportReady => Some (report (Ok tt) w, adm)
  | Running, RunEnds r =>
      match r with
      | Ok _ => if stopped w then Some (set_capture (Closing r) (set_transfers None [] w), adm) else None
      | Err _ => Some (set_capture (Closing r) (set_transfers None [] w), adm)
      end
  | Closing r, CloseGate => w' ← on_gate CloseStore w; Some (set_capture (Bumping r) w', adm)
  | Bumping r, BumpGate => w' ← on_gate CloseBump w; Some (set_capture (Fencing r) w', adm)
  | Fencing r, FenceGate =>
      w' ← on_gate (if uncertain (gate (control w)) then FenceErr else FenceOk) w;
      Some (set_capture (Disabling r (fence_result (gate (control w)))) w', adm)
  | Disabling r f, SinkClose closed took => Some (end_round r f closed w, admission_after false closed took adm)
  | Parked, Unpark =>
      Some (mkWorker (control w) (limit w) (skip_initial w) (ready w) (Z.min (2 * backoff w) BACKOFF_MAX)
                     (connected w) (jobs w) (reading w) (transfers w) Top (ingest w), adm)
  | Exiting, SinkClose closed took => Some (end_loop closed w, admission_after false closed took adm)
  | Dropping, DropSession =>
      Some (mkWorker (control w) (limit w) (skip_initial w) (ready w) (backoff w) false (jobs w) (reading w)
                     (transfers w) Joining (ingest w), adm)
  | Joining, JoinIngest => if bool_decide (ingest w = Finished) then Some (set_capture Done w, adm) else None
  | (Readying | Admitting | Running | Disabling _ _ | Exiting), Panic =>
      Some (mkWorker (control w) (limit w) (skip_initial w) (ready w) (backoff w) false (jobs w) (reading w)
                     (transfers w) Panicked (ingest w), adm)
  | _, _ => None
  end.

(** The ingest thread: [recv], and the accesses of [gate.submit]. *)
Inductive IngestEvent := Recv | Hangup | Submit (a : Action).
Definition ingest_step (e : IngestEvent) (w : Worker) : option Worker :=
  match ingest w, e with
  | Waiting, Recv => match jobs w with g :: l => Some (set_ingest l (Submitting g) w) | [] => None end
  | Waiting, Hangup =>
      match jobs w with
      | [] => if connected w then None else Some (set_ingest [] Finished w)
      | _ => None
      end
  | Submitting g, Submit (SubmitLock x) =>
      if x =? g then w' ← on_gate (SubmitLock g) w; Some (set_ingest (jobs w) (Locked g) w') else None
  | Locked g, Submit a =>
      match a with
      | SubmitSawOpen | StartBody _ | BodyErr | FailStore => on_gate a w
      | SubmitShut | SubmitStale | BodyOk => w' ← on_gate a w; Some (set_ingest (jobs w) Waiting w')
      | FailBump => w' ← on_gate a w; Some (set_ingest [] Finished w')
      | _ => None
      end
  | _, _ => None
  end.

(** [Worker::close], one access at a time. *)
Inductive CloseAccess := StoreStop | StoreShut | BumpGeneration.
Definition close_step (a : CloseAccess) (w : Worker) : option Worker :=
  match a with
  | StoreStop => Some (set_control (mkControl (gate (control w)) true (status (control w))) w)
  | StoreShut => on_gate CloseStore w
  | BumpGeneration => on_gate CloseBump w
  end.
(** [Worker::state]. *)
Definition thread_finished (w : Worker) : bool := match capture w with Done | Panicked => true | _ => false end.
Definition worker_state (w : Worker) : result string bool :=
  if thread_finished w then Err "Capture worker exited"%string
  else if negb (open (gate (control w))) then Err "Capture is unavailable or transitioning"%string
  else status (control w).

(** ** The controller *)
Inductive Request := SetPaused (paused : bool) (max_bytes : Z) | Shutdown | IsPaused.
Inductive Answer := Acknowledged (r : result string unit) | Paused (r : result string bool).

Record Runtime := mkRuntime {
  worker : option nat;                       (* index in [workers] *)
  attached : bool;
  terminal_error : option string;
}.
(** The call that holds the runtime lock. *)
Inductive Call :=
| Idle
| Stopping (q : Request) (i : nat) (next : CloseAccess)   (* worker.close() *)
| Awaiting (q : Request) (i : nat)                        (* timeout(worker.finish()) *)
| AwaitingReady (q : Request) (i : nat).                  (* timeout(ready) *)

Record System := mkSystem {
  workers : list Worker;                     (* every worker ever started, oldest first *)
  runtime : Runtime;
  call : Call;
  admission : bool;                          (* the storage owner's flag *)
  answers : list (Request * Answer);         (* newest first *)
  bodies : list (nat * Z);                   (* submissions that started, newest first *)
}.
Definition initial_system : System := mkSystem [] (mkRuntime None false None) Idle false [] [].

Definition with_workers (ws : list Worker) (s : System) : System :=
  mkSystem ws (runtime s) (call s) (admission s) (answers s) (bodies s).
Definition with_runtime (rt : Runtime) (c : Call) (s : System) : System :=
  mkSystem (workers s) rt c (admission s) (answers s) (bodies s).
Definition answer (q : Request) (a : Answer) (s : System) : System :=
  mkSystem (workers s) (runtime s) Idle (admission s) ((q, a) :: answers s) (bodies s).
Definition refuse (q : Request) (e : string) : System → System :=
  answer q (match q with IsPaused => Paused (Err e) | _ => Acknowledged (Err e) end).
Definition set_terminal (e : option string) (s : System) : System :=
  with_runtime (mkRuntime (worker (runtime s)) (attached (runtime s)) e) (call s) s.

(** [set_paused] and [shutdown] once [runtime.stop()] has returned [r];
    [spawned] is what [Worker::start]'s spawn answers. *)
Definition after_stop (q : Request) (r : result string unit) (spawned : bool) (s : System) : System :=
  let rt := runtime s in
  match q with
  | IsPaused => s
  | Shutdown => answer q (Acknowledged r) (set_terminal (Some "Capture owner has shut down"%string) s)
  | SetPaused paused max_bytes =>
      match r with
      | Err e => refuse q e s
      | Ok _ =>
          if (paused : bool) then
            answer q (Acknowledged (Ok tt)) (with_runtime (mkRuntime (worker rt) true (terminal_error rt)) (call s) s)
          else if effective_limit max_bytes =? 0 then refuse q "Capture byte limit must be positive" s
          else if negb spawned then refuse q "Could not start capture worker" s
          else
            let i := length (workers s) in
            with_runtime (mkRuntime (Some i) true (terminal_error rt)) (AwaitingReady q i)
              (with_workers (workers s ++ [new_worker (effective_limit max_bytes) (attached rt)]) s)
      end
  end.
(** [Runtime::stop], up to its first await. *)
Definition begin_stop (q : Request) (spawned : bool) (s : System) : System :=
  let rt := runtime s in
  match terminal_error rt, worker rt with
  | Some e, _ => after_stop q (Err e) spawned s
  | None, None => after_stop q (Ok tt) spawned s
  | None, Some i =>
      with_runtime (mkRuntime None (attached rt) (Some "Capture shutdown is not yet verified"%string))
                   (Stopping q i StoreStop) s
  end.
Definition same_limit (s : System) (max_bytes : Z) : option Worker :=
  i ← worker (runtime s);
  w ← workers s !! i;
  if limit w =? effective_limit max_bytes then Some w else None.
(** A caller takes the lock. *)
Definition begin_call (q : Request) (spawned : bool) (s : System) : System :=
  match q with
  | Shutdown => begin_stop q spawned s
  | SetPaused paused max_bytes =>
      match terminal_error (runtime s) with
      | Some e => refuse q e s
      | None =>
          match (if paused then None else same_limit s max_bytes) with
          | Some w => answer q (Acknowledged ((λ _, tt) <$> worker_state w)) s
          | None => begin_stop q spawned s
          end
      end
  | IsPaused =>
      match terminal_error (runtime s) with
      | Some e => refuse q e s
      | None =>
          match worker (runtime s) ≫= (workers s !!.) with
          | None => answer q (Paused (Ok true)) s
          | Some w => answer q (Paused (worker_state w)) s
          end
      end
  end.
(** The awaited shutdown resolves. *)
Definition resolve_stop (q : Request) (r : result string unit) (spawned : bool) (s : System) : System :=
  let rt := runtime s in
  after_stop q r spawned (with_runtime (mkRuntime (worker rt) (attached rt) (err_of r)) Idle s).

Inductive Event :=
| OnCapture (i : nat) (e : CaptureEvent)
| OnIngest (i : nat) (e : IngestEvent)
| OnClose (i : nat) (a : CloseAccess)      (* finish and Drop close again, at any time *)
| Begin (q : Request) (spawned : bool)
| CloseNext
| FinishJoined (spawned : bool)            (* worker.finish() returned in time *)
| FinishFailed (e : string)                (* timeout, or the blocking task failed *)
| ReadyResolved | ReadyFailed (e : string)
| Abandon                                  (* the caller's future is dropped *)
| PolicyClosed.                            (* someone else closes admission *)

Definition update_worker (i : nat) (w : Worker) (s : System) : System := with_workers (<[i := w]> (workers s)) s.

Definition step (e : Event) (s : System) : option System :=
  match e with
  | OnCapture i ce =>
      w ← workers s !! i;
      '(w', adm) ← capture_step ce w (admission s);
      let s := update_worker i w' s in
      Some (mkSystem (workers s) (runtime s) (call s) adm (answers s) (bodies s))
  | OnIngest i ie =>
      w ← workers s !! i;
      w' ← ingest_step ie w;
      let s := update_worker i w' s in
      Some (mkSystem (workers s) (runtime s) (call s) (admission s) (answers s)
                     (match ie with Submit (StartBody g) => (i, g) :: bodies s | _ => bodies s end))
  | OnClose i a => w ← workers s !! i; w' ← close_step a w; Some (update_worker i w' s)
  | Begin q spawned => match call s with Idle => Some (begin_call q spawned s) | _ => None end
  | CloseNext =>
      match call s with
      | Stopping q i a =>
          w ← workers s !! i;
          w' ← close_step a w;
          Some (with_runtime (runtime s)
                  match a with
                  | StoreStop => Stopping q i StoreShut
                  | StoreShut => Stopping q i BumpGeneration
                  | BumpGeneration => Awaiting q i
                  end (update_worker i w' s))
      | _ => None
      end
  | FinishJoined spawned =>
      match call s with
      | Awaiting q i =>
          w ← workers s !! i;
          match capture w with
          | Done =>
              w' ← on_gate (if uncertain (gate (control w)) then FenceErr else FenceOk) w;
              Some (resolve_stop q (fence_result (gate (control w))) spawned (update_worker i w' s))
          | Panicked => Some (resolve_stop q (Err "Capture worker panicked"%string) spawned s)
          | _ => None
          end
      | _ => None
      end
  | FinishFailed e => match call s with Awaiting q i => Some (resolve_stop q (Err e) false s) | _ => None end
  | ReadyResolved =>
      match call s with
      | AwaitingReady q i => w ← workers s !! i; r ← ready w; Some (answer q (Acknowledged r) s)
      | _ => None
      end
  | ReadyFailed e => match call s with AwaitingReady q i => Some (refuse q e s) | _ => None end
  | Abandon =>
      match call s with
      | Awaiting _ _ | AwaitingReady _ _ => Some (with_runtime (runtime s) Idle s)
      | _ => None
      end
  | PolicyClosed => Some (mkSystem (workers s) (runtime s) (call s) false (answers s) (bodies s))
  end.
Fixpoint run (l : list Event) (s : System) : option System :=
  match l with
  | [] => Some s
  | e :: l' => s' ← step e s; run l' s'
  end.
Inductive reachable : System → Prop :=
| reachable_init : reachable initial_system
| reachable_step e s s' : reachable s → step e s = Some s' → reachable s'.

(** ** Invariants *)
Definition in_body (h : Holder) : bool := match h with SawOpen _ | InBody _ | Failing _ => true | _ => false end.
Definition in_submit (h : Holder) : bool := match h with Checking _ => true | h => in_body h end.
Definition may_open (p : Capture) : bool := match p with Running | Closing _ | Panicked => true | _ => false end.
Definition before_fence (p : Capture) : bool :=
  match p with Running | Closing _ | Bumping _ | Fencing _ | Panicked => true | _ => false end.
Definition may_admit (p : Capture) : bool :=
  match p with
  | Opening | Running | Closing _ | Bumping _ | Fencing _ | Disabling _ _ | Panicked => true
  | _ => false
  end.

Record worker_ok (w : Worker) : Prop := {
  wo_gate : ∃ l, acts l initial_gate = Some (gate (control w));
  wo_open : open (gate (control w)) = true → may_open (capture w) = true;
  wo_resuming : match submission (gate (control w)) with Resuming | Bumped => capture w = Opening | _ => True end;
  wo_body : in_body (submission (gate (control w))) = true →
    before_fence (capture w) = true ∨ uncertain (gate (control w)) = true;
  wo_ingest : in_submit (submission (gate (control w))) = match ingest w with Locked _ => true | _ => false end;
  wo_failing : match submission (gate (control w)) with Failing _ => uncertain (gate (control w)) = true | _ => True end;
  wo_starting : capture w = Starting → ingest w = NotSpawned;
  wo_done : capture w = Done → ingest w = NotSpawned ∨ ingest w = Finished;
  wo_unspawned : ingest w = NotSpawned → match capture w with Starting | Done => True | _ => False end;
}.
(** Who may have left the owner's admission open. *)
Definition admits (w : Worker) : bool := may_admit (capture w) || uncertain (gate (control w)).

Lemma acts_app l1 l2 s : acts (l1 ++ l2) s = (s' ← acts l1 s; acts l2 s').
Proof. revert s. induction l1 as [|a l1 IH]; intros s; cbn; [done|]. by destruct (act a s); cbn. Qed.
Lemma acts_snoc l s s1 a s2 : acts l s = Some s1 → act a s1 = Some s2 → acts (l ++ [a]) s = Some s2.
Proof. intros H1 H2. rewrite acts_app, H1. cbn. by rewrite H2. Qed.

Lemma new_worker_ok n b : worker_ok (new_worker n b).
Proof. split; cbn; try done. by exists []. Qed.

(** The gate of a worker after one legal access. *)
Lemma on_gate_inv a w w' : on_gate a w = Some w' →
  ∃ g, act a (gate (control w)) = Some g ∧ w' = set_gate g w.
Proof. unfold on_gate. destruct (act a _) as [g|]; cbn; [|done]. intros [= <-]. eauto. Qed.

Ltac worker_cases w :=
  destruct w as [[[o g u h q c] st ss] n b rd bo cn js rg ts p i]; cbn in *.
Ltac gate_act :=
  repeat match goal with
         | H : on_gate _ _ = Some _ |- _ => apply on_gate_inv in H as (? & ? & ->)
         | H : (_ ≫= _) = Some _ |- _ => apply bind_Some in H as (? & ? & H)
         | H : Some _ = Some _ |- _ => injection H as H; subst
         | H : (_, _) = (_, _) |- _ => injection H as ? ?; subst
         end.

(** The gate of a worker goes one legal access further. *)
Lemma gate_more w w' a : worker_ok w → act a (gate (control w)) = Some (gate (control w')) →
  ∃ l, acts l initial_gate = Some (gate (control w')).
Proof. intros [[l Hl] ? ? ? ? ? ? ? ?] Ha. exists (l ++ [a]). by eapply acts_snoc. Qed.

Lemma same_ok w w' :
  worker_ok w → gate (control w') = gate (control w) → capture w' = capture w → ingest w' = ingest w → worker_ok w'.
Proof. intros [H1 H2 H3 H4 H5 H6 H7 H8 H9] Hg Hc Hi. by split; rewrite ?Hg, ?Hc, ?Hi. Qed.
Lemma report_ok r w : worker_ok w → worker_ok (report r w).
Proof. intros Hok. by apply (same_ok w). Qed.

(** After the fence a thread may mark the gate: [Gate]'s guard always holds. *)
Lemma mark_uncertain_ok w :
  worker_ok w → before_fence (capture w) = false → capture w ≠ Opening → worker_ok (mark_uncertain w).
Proof.
  intros Hok Hb Hp. pose proof Hok as [[l Hl] H2 H3 H4 H5 H6 H7 H8 H9]. worker_cases w.
  assert (Ho : o = false) by (destruct o; [|done]; specialize (H2 eq_refl); by destruct p). subst o.
  split; cbn; try done; try tauto; [|destruct h; done].
  destruct u; [by eexists|].
  destruct h; try (by destruct (H4 eq_refl); congruence); try congruence;
    eexists (l ++ [MarkUncertain]); (eapply acts_snoc; [exact Hl|done]).
Qed.

(** A step of the capture thread that leaves the gate and the ingest thread
    alone. *)
Lemma move_ok w w' :
  worker_ok w → gate (control w') = gate (control w) → ingest w' = ingest w →
  (open (gate (control w)) = true → may_open (capture w') = true) → capture w ≠ Opening →
  (before_fence (capture w) = true → before_fence (capture w') = true) → capture w' ≠ Starting →
  (capture w' = Done → ingest w = NotSpawned ∨ ingest w = Finished) →
  (ingest w = NotSpawned → capture w' = Done) → worker_ok w'.
Proof.
  intros Hok Hg Hi Ho Hr Hb Hst Hd Hn. pose proof Hok as [H1 H2 H3 H4 H5 H6 H7 H8 H9].
  split; rewrite ?Hg, ?Hi; try done.
  - by destruct (submission _).
  - intros Hh. destruct (H4 Hh); auto.
  - intros ->%Hn. done.
Qed.
(** One access of the capture thread to the gate: it holds no submission. *)
Lemma access_ok w a g p :
  worker_ok w → act a (gate (control w)) = Some g →
  (open g = true → may_open p = true) →
  match submission g with Resuming | Bumped => p = Opening | _ => True end →
  (in_body (submission g) = true → before_fence p = true ∨ uncertain g = true) →
  in_submit (submission g) = in_submit (submission (gate (control w))) →
  match submission g with Failing _ => uncertain g = true | _ => True end →
  match p with Starting | Done => False | _ => True end →
  ingest w ≠ NotSpawned → worker_ok (set_capture p (set_gate g w)).
Proof.
  intros Hok Ha Ho Hr Hb Hs Hf Hp Hn. pose proof Hok as [H1 H2 H3 H4 H5 H6 H7 H8 H9].
  split; cbn; try done.
  - by apply (gate_more w (set_gate g w) a).
  - by rewrite Hs.
  - by intros ->.
  - by intros ->.
Qed.
Lemma spawned w : worker_ok w → match capture w with Starting | Done => False | _ => True end → ingest w ≠ NotSpawned.
Proof. intros [H1 H2 H3 H4 H5 H6 H7 H8 H9] Hp Hi. specialize (H9 Hi). by destruct (capture w). Qed.
Lemma shut w : worker_ok w → may_open (capture w) = false → open (gate (control w)) = false.
Proof. intros [H1 H2 H3 H4 H5 H6 H7 H8 H9] Hp. destruct (open _) eqn:Ho; [|done]. rewrite H2 in Hp by done. done. Qed.

Lemma set_capture_opening g w : capture w = Opening → set_capture Opening (set_gate g w) = set_gate g w.
Proof. destruct w. by intros [= ->]. Qed.
(** The accesses of the capture thread: [resume], [close] and [fence]. *)
Lemma resume_ok w a g p :
  worker_ok w → capture w = Opening → act a (gate (control w)) = Some g →
  match a, p with
  | (ResumeLock | ResumeBump), Opening | ResumeOpen, Running | ResumeErr, Closing _ => True
  | _, _ => False
  end → worker_ok (set_capture p (set_gate g w)).
Proof.
  intros Hok Hc Ha Hp. pose proof (shut w Hok) as Hs. pose proof (spawned w Hok) as Hn. rewrite Hc in Hs, Hn.
  specialize (Hs eq_refl). pose proof (wo_failing w Hok) as Hf. pose proof (wo_body w Hok) as Hb. rewrite Hc in Hb.
  apply (access_ok w a); try done; try (by destruct a, p); try (by apply Hn);
    destruct (gate (control w)) as [o gn u h q c], a, p; cbn in *; try done; repeat case_match; simplify_eq; cbn; auto.
Qed.
Lemma worker_close_ok w a g p :
  worker_ok w → act a (gate (control w)) = Some g →
  match capture w, a, p with
  | Closing _, CloseStore, Bumping _ | Bumping _, CloseBump, Fencing _
  | Fencing _, (FenceOk | FenceErr), Disabling _ _ => True
  | _, _, _ => False
  end → worker_ok (set_capture p (set_gate g w)).
Proof.
  intros Hok Ha Hp. pose proof (shut w Hok) as Hs.
  assert (Hn : ingest w ≠ NotSpawned) by (apply spawned; [done|]; by destruct (capture w)).
  pose proof (wo_failing w Hok) as Hf. pose proof (wo_body w Hok) as Hb. pose proof (wo_resuming w Hok) as Hr.
  destruct (capture w) eqn:Hc; try done; destruct a; try done; destruct p; try done;
    (eapply access_ok; [done|exact Ha|..]); try done;
    destruct (gate (control w)) as [o gn u h q c]; cbn in *; repeat case_match; simplify_eq; cbn in *; auto;
    by rewrite Hs in *.
Qed.
Lemma end_round_ok r f closed w r' f' :
  worker_ok w → capture w = Disabling r' f' → worker_ok (end_round r f closed w).
Proof.
  intros Hok Hc. unfold end_round. pose proof (shut w Hok) as Hs. pose proof (spawned w Hok) as Hn. rewrite Hc in Hs, Hn.
  specialize (Hs eq_refl). specialize (Hn I).
  assert (Hm : worker_ok (mark_uncertain w)) by (apply mark_uncertain_ok; rewrite ?Hc; done).
  destruct (_ ← f; closed) as [[]|e] eqn:Hx.
  - apply (move_ok w); [done|by destruct r..| | | | | |]; destruct r; cbn; rewrite ?Hc; try done; congruence.
  - apply (move_ok (report (Err e) (mark_uncertain w))); [by apply report_ok|..];
      unfold mark_uncertain; destruct (gate (control w)); cbn in *; rewrite ?Hc; try done; congruence.
Qed.
Lemma end_loop_ok closed w : worker_ok w → capture w = Exiting → worker_ok (end_loop closed w).
Proof.
  intros Hok Hc. unfold end_loop. pose proof (shut w Hok) as Hs. pose proof (spawned w Hok) as Hn. rewrite Hc in Hs, Hn.
  specialize (Hs eq_refl). specialize (Hn I).
  assert (Hm : worker_ok (mark_uncertain w)) by (apply mark_uncertain_ok; rewrite ?Hc; done).
  destruct closed as [[]|e].
  - apply (move_ok w); try done; rewrite ?Hc; cbn; congruence.
  - apply (move_ok (report (Err e) (mark_uncertain w))); [by apply report_ok|..];
      unfold mark_uncertain; destruct (gate (control w)); cbn in *; rewrite ?Hc; try done; congruence.
Qed.

Lemma spawned_ok ok w : worker_ok w → capture w = Starting →
  worker_ok (if ok : bool then set_capture Top (set_ingest (jobs w) Waiting w)
             else set_capture Done (report (Err "Could not start capture ingest worker"%string) w)).
Proof.
  intros Hok Hc. pose proof Hok as [H1 H2 H3 H4 H5 H6 H7 H8 H9].
  pose proof (shut w Hok) as Hsh. rewrite Hc in *. specialize (H7 eq_refl). specialize (Hsh eq_refl). rewrite H7 in *.
  destruct ok; (split; cbn; rewrite ?Hsh, ?H7; try done; [by destruct (submission _)|auto..]).
Qed.
Lemma running_ok r w : worker_ok w → capture w = Running → worker_ok (set_capture (Closing r) (set_transfers None [] w)).
Proof.
  intros Hok Hc. pose proof (spawned w Hok) as Hn. rewrite Hc in Hn.
  apply (move_ok w); cbn; rewrite ?Hc; try done. intros Hi. by specialize (Hn I).
Qed.
Lemma capture_step_worker e w adm w' adm' :
  capture_step e w adm = Some (w', adm') → worker_ok w → worker_ok w'.
Proof.
  intros Hs Hok. unfold capture_step in Hs.
  pose proof (spawned w Hok) as Hsp. pose proof (shut w Hok) as Hsh.
  destruct (capture w) eqn:Hp, e; try discriminate Hs; cbn in Hsp, Hsh; try specialize (Hsp I); try specialize (Hsh eq_refl);
    try (injection Hs as <- _; apply (move_ok w); cbn; rewrite ?Hp; try done; try congruence; fail);
    try (injection Hs as <- _; repeat case_match; apply (move_ok w); cbn; rewrite ?Hp; try done; try congruence; fail).
  - pose proof (spawned_ok ok w Hok Hp). destruct ok; by injection Hs as <- _.
  - destruct a; try discriminate Hs; gate_act;
      match goal with H : act ?a _ = Some ?g |- _ =>
        first [ by apply (resume_ok w a g) | rewrite <- (set_capture_opening g w Hp); by apply (resume_ok w a g) ]
      end.
  - gate_act. by apply (same_ok w).
  - case_bool_decide; [|done]. injection Hs as <- _. by case_match; apply (same_ok w).
  - case_bool_decide; [|done]. injection Hs as <- _. by apply (same_ok w).
  - destruct r; [destruct (stopped w); [|done]|]; injection Hs as <- _; by apply running_ok.
  - gate_act. eapply worker_close_ok; [done..|]. by rewrite Hp.
  - gate_act. eapply worker_close_ok; [done..|]. by rewrite Hp.
  - gate_act. eapply worker_close_ok; [done..|]. rewrite Hp. by destruct (uncertain _).
  - injection Hs as <- _. by eapply end_round_ok.
  - injection Hs as <- _. by apply end_loop_ok.
  - case_bool_decide as Hi; [|done]. injection Hs as <- _.
    apply (move_ok w); cbn; rewrite ?Hp; try done; try congruence. by right.
Qed.
(** The owner's admission is open only while a worker may have opened it, or
    where its closing failed. *)
Lemma act_uncertain a g g' : act a g = Some g' → uncertain g = true → uncertain g' = true.
Proof. destruct g as [o gn u h q c]. cbn. intros Ha ->. destruct a; repeat case_match; by simplify_eq. Qed.
Lemma end_round_admits r f closed w adm took :
  admission_after false closed took adm = true → admits (end_round r f closed w) = true.
Proof.
  unfold end_round, admits. destruct f, closed, took; cbn; intros; try done; unfold mark_uncertain; by destruct (gate (control w)).
Qed.
Lemma end_loop_admits closed w adm took :
  admission_after false closed took adm = true → admits (end_loop closed w) = true.
Proof. unfold end_loop, admits. destruct closed, took; cbn; intros; try done; unfold mark_uncertain; by destruct (gate (control w)). Qed.
Lemma capture_step_admission e w adm w' adm' :
  capture_step e w adm = Some (w', adm') → (adm = true → admits w = true) → adm' = true → admits w' = true.
Proof.
  intros Hs Hadm. unfold capture_step in Hs. unfold admits in Hadm.
  destruct (capture w) eqn:Hp, e; try discriminate Hs; cbn in Hadm;
    try (injection Hs as <- <-; eauto using end_round_admits, end_loop_admits; fail);
    unfold admits; repeat case_match; try discriminate Hs; gate_act; cbn; rewrite ?Hp; try done; auto.
Qed.
(** An access by another thread: it never opens the gate. *)
Lemma other_access_ok w a g j q :
  worker_ok w → act a (gate (control w)) = Some g →
  (open g = true → open (gate (control w)) = true) →
  match submission g with Resuming | Bumped => submission (gate (control w)) = submission g | _ => True end →
  (in_body (submission g) = true →
     in_body (submission (gate (control w))) = true ∨ open (gate (control w)) = true ∨ uncertain g = true) →
  in_submit (submission g) = match q with Locked _ => true | _ => false end →
  match submission g with Failing _ => uncertain g = true | _ => True end →
  q = ingest w ∨ (q ≠ NotSpawned ∧ capture w ≠ Starting ∧ capture w ≠ Done) →
  worker_ok (set_ingest j q (set_gate g w)) ∧ (admits w = true → admits (set_ingest j q (set_gate g w)) = true).
Proof.
  intros Hok Ha Ho Hr Hb Hs Hf Hq. pose proof Hok as [H1 H2 H3 H4 H5 H6 H7 H8 H9].
  pose proof (act_uncertain _ _ _ Ha) as Hu. split.
  - split; cbn; try done; auto.
    + by apply (gate_more w (set_gate g w) a).
    + destruct (submission g); try done; by rewrite Hr in H3.
    + intros Hh. destruct (Hb Hh) as [Hw|[Hw|Hw]]; [|..|by right].
      * destruct (H4 Hw); auto.
      * left. apply H2 in Hw. by destruct (capture w).
    + destruct Hq as [->|(? & ? & ?)]; tauto.
    + destruct Hq as [->|(? & ? & ?)]; tauto.
    + destruct Hq as [->|(? & ? & ?)]; tauto.
  - unfold admits. cbn. intros [->|Hw]%orb_true_iff; [done|]. rewrite (Hu Hw). apply orb_true_r.
Qed.
Lemma close_access_ok a w w' :
  on_gate a w = Some w' → match a with CloseStore | CloseBump | FenceOk | FenceErr => True | _ => False end →
  worker_ok w → worker_ok w' ∧ (admits w = true → admits w' = true).
Proof.
  intros (g & Ha & ->)%on_gate_inv Hac Hok.
  replace (set_gate g w) with (set_ingest (jobs w) (ingest w) (set_gate g w)) by (by destruct w).
  pose proof (wo_ingest w Hok) as Hi. pose proof (wo_failing w Hok) as Hf.
  apply (other_access_ok w a); try done; try (by left);
    destruct (gate (control w)) as [o gn u h q c], a; cbn in *; try done; repeat case_match; simplify_eq; cbn in *;
    by auto.
Qed.
Lemma close_step_ok a w w' :
  close_step a w = Some w' → worker_ok w → worker_ok w' ∧ (admits w = true → admits w' = true).
Proof.
  intros Hs Hok. destruct a; cbn in Hs; [|by apply (close_access_ok _ _ _ Hs)..].
  injection Hs as <-. split; [by apply (same_ok w)|done].
Qed.
Lemma requeue_ok j q w :
  worker_ok w → capture w ≠ Starting → capture w ≠ Done → q ≠ NotSpawned →
  match ingest w, q with Locked _, _ | _, Locked _ => False | _, _ => True end → worker_ok (set_ingest j q w).
Proof.
  intros [H1 H2 H3 H4 H5 H6 H7 H8 H9] Hs Hd Hn Hq. split; cbn; try done. rewrite H5. by destruct (ingest w), q.
Qed.
Lemma ingest_step_ok e w w' :
  ingest_step e w = Some w' → worker_ok w → worker_ok w' ∧ (admits w = true → admits w' = true).
Proof.
  intros Hs Hok. pose proof (wo_ingest w Hok) as Hi. pose proof (wo_failing w Hok) as Hf.
  assert (Hlive : ingest w ≠ NotSpawned → ingest w ≠ Finished → capture w ≠ Starting ∧ capture w ≠ Done).
  { intros H1 H2. split; intros Hc; [by apply (wo_starting w Hok) in Hc|].
    by destruct (wo_done w Hok Hc). }
  unfold ingest_step in Hs. destruct (ingest w) as [| |x|x|] eqn:Hq, e as [| |a]; try discriminate Hs;
    destruct Hlive as [Hst Hd]; try done.
  - destruct (jobs w) as [|g l]; [done|]. injection Hs as <-. split; [|done].
    apply requeue_ok; try done. by rewrite Hq.
  - destruct (jobs w) as [|g l]; [|done]. destruct (connected w); [done|]. injection Hs as <-. split; [|done].
    apply requeue_ok; try done. by rewrite Hq.
  - destruct a; try discriminate Hs. destruct (Z.eqb_spec g x) as [->|]; [|done]. gate_act.
    apply (other_access_ok w (SubmitLock x)); try done; try (by right);
      destruct (gate (control w)) as [o gn u h q c]; cbn in *; try done; repeat case_match; by simplify_eq.
  - assert (Hg : ∃ a g j q, act a (gate (control w)) = Some g ∧ w' = set_ingest j q (set_gate g w)
        ∧ match a with
          | SubmitSawOpen | StartBody _ | BodyErr | FailStore => q = Locked x
          | SubmitShut | SubmitStale | BodyOk => q = Waiting
          | FailBump => q = Finished
          | _ => False
          end).
    { destruct a; try discriminate Hs; gate_act;
        match goal with H : act ?a _ = Some ?g |- _ =>
          first [ by exists a, g, (jobs w), (Locked x); split_and!; [|destruct w; cbn in *; congruence|]
                | by eexists a, g, _, _ ] end. }
    clear Hs. destruct Hg as (a' & g & j & q & Ha & -> & Hc).
    apply (other_access_ok w a'); try done;
      try (destruct (gate (control w)) as [o gn u h q' c], a'; cbn in *; try done; repeat case_match; simplify_eq;
           cbn in *; by auto).
Qed.

(** *** The whole system *)
Definition certain (w : Worker) : Prop := uncertain (gate (control w)) = false.
Definition finished (w : Worker) : Prop := capture w = Done ∧ certain w.
Definition stopping (c : Call) : option nat := match c with Stopping _ i _ | Awaiting _ i => Some i | _ => None end.

Record sys_ok (s : System) : Prop := {
  so_workers : ∀ i w, workers s !! i = Some w → worker_ok w;
  so_old : ∀ i w, workers s !! i = Some w → (S i < length (workers s))%nat → finished w;
  so_quiet : terminal_error (runtime s) = None → worker (runtime s) = None →
    ∀ i w, workers s !! i = Some w → finished w;
  so_current : ∀ i, worker (runtime s) = Some i → S i = length (workers s);
  so_stopping : ∀ i, stopping (call s) = Some i → S i = length (workers s) ∧ worker (runtime s) = None
    ∧ is_Some (terminal_error (runtime s));
  so_admission : admission s = true → ∃ i w, workers s !! i = Some w ∧ S i = length (workers s) ∧ admits w = true;
}.

Lemma finished_capture e w adm : finished w → capture_step e w adm = None.
Proof. intros [Hd _]. unfold capture_step. rewrite Hd. by destruct e. Qed.
Lemma finished_ingest e w : worker_ok w → finished w → ingest_step e w = None.
Proof. intros Hok [Hd _]. unfold ingest_step. destruct (wo_done w Hok Hd) as [-> | ->]; by destruct e. Qed.
Lemma finished_admits w : finished w → admits w = false.
Proof. intros [Hd Hc]. unfold admits. by rewrite Hd, Hc. Qed.
Lemma finished_access a w w' :
  on_gate a w = Some w' → match a with CloseStore | CloseBump | FenceOk | FenceErr => True | _ => False end →
  finished w → finished w'.
Proof.
  intros (g & Ha & ->)%on_gate_inv Hac [Hd Hc]. split; [done|]. unfold certain in *. cbn.
  destruct (gate (control w)) as [o gn u h q c], a; cbn in *; try done; repeat case_match; by simplify_eq.
Qed.
Lemma finished_close a w w' : close_step a w = Some w' → finished w → finished w'.
Proof.
  destruct a; cbn; intros Hs Hf; [|by apply (finished_access _ _ _ Hs)..].
  by injection Hs as <-.
Qed.

(** One worker moves. *)
Lemma update_ok s i w w' adm bs :
  sys_ok s → workers s !! i = Some w → worker_ok w' → (finished w → finished w') →
  (adm = true → (S i = length (workers s) ∧ admits w' = true)
                ∨ (admission s = true ∧ (admits w = true → admits w' = true))) →
  sys_ok (mkSystem (<[i := w']> (workers s)) (runtime s) (call s) adm (answers s) bs).
Proof.
  intros [H1 H2 H3 H6 H4 H5] Hi Hw Hf Ha. pose proof (lookup_lt_Some _ _ _ Hi) as Hlt.
  split; cbn; rewrite ?length_insert; try done.
  - intros j v [(-> & <- & _)|[Hne Hj]]%list_lookup_insert_Some; eauto.
  - intros j v [(-> & <- & _)|[Hne Hj]]%list_lookup_insert_Some Hl; eauto.
  - intros Ht Hr j v [(-> & <- & _)|[Hne Hj]]%list_lookup_insert_Some; eauto.
  - intros Hadm. destruct (Ha Hadm) as [[Hl Had]|[Hs Had]].
    + exists i, w'. by rewrite list_lookup_insert_eq.
    + destruct (H5 Hs) as (j & v & Hj & Hl & Hv). destruct (decide (i = j)) as [->|Hne].
      * rewrite Hi in Hj. injection Hj as ->. exists j, w'. rewrite list_lookup_insert_eq by done. auto.
      * exists j, v. by rewrite list_lookup_insert_ne.
Qed.

(** Calls: an answer leaves the workers alone; a worker starts only when all
    others have finished. *)
Lemma answer_ok q a s rt :
  sys_ok s → (∀ i, worker rt = Some i → worker (runtime s) = Some i) →
  (terminal_error rt = None → worker rt = None → ∀ i w, workers s !! i = Some w → finished w) →
  sys_ok (answer q a (with_runtime rt (call s) s)).
Proof. intros [H1 H2 H3 H6 H4 H5] Hw Hq. split; try done. intros i Hi. by apply H6, Hw. Qed.
Lemma answer_same q a s : sys_ok s → sys_ok (answer q a s).
Proof. intros [H1 H2 H3 H6 H4 H5]. by split. Qed.
Lemma worker_start_ok q n b rt s :
  sys_ok s → worker rt = Some (length (workers s)) → (∀ i w, workers s !! i = Some w → finished w) →
  sys_ok (with_runtime rt (AwaitingReady q (length (workers s))) (with_workers (workers s ++ [new_worker n b]) s)).
Proof.
  intros [H1 H2 H3 H6 H4 H5] Hr Hf. split; cbn; rewrite ?length_app; cbn; try done.
  - intros i w [?|[-> <-]]%lookup_snoc_Some; [naive_solver|apply new_worker_ok].
  - intros i w [[? ?]|[-> <-]]%lookup_snoc_Some Hl; [eauto|lia].
  - intros _ Hw. congruence.
  - intros i. rewrite Hr. intros [= <-]. lia.
  - intros (i & w & Hi & _ & Ha)%H5. rewrite (finished_admits w) in Ha by eauto. done.
Qed.
Lemma after_stop_ok q r spawned s :
  sys_ok s → (is_ok r = true → ∀ i w, workers s !! i = Some w → finished w) →
  sys_ok (after_stop q r spawned s).
Proof.
  intros Hok Hf. destruct q as [[] m| |]; cbn.
  - destruct r as [[]|e]; [|by apply answer_same]. apply answer_ok; [done..|]. intros _ _. by apply Hf.
  - destruct r as [[]|e]; [|by apply answer_same]. destruct (_ =? 0); [by apply answer_same|].
    destruct spawned; cbn; [|by apply answer_same]. by apply worker_start_ok, Hf.
  - by apply answer_ok.
  - done.
Qed.
Lemma begin_stop_ok q spawned s : sys_ok s → call s = Idle → sys_ok (begin_stop q spawned s).
Proof.
  intros Hok Hc. unfold begin_stop. destruct (terminal_error (runtime s)) as [e|] eqn:Ht; [by apply after_stop_ok|].
  destruct (worker (runtime s)) as [i|] eqn:Hw; [|apply after_stop_ok; [done|]; intros _; by apply so_quiet].
  destruct Hok as [H1 H2 H3 H6 H4 H5]. split; try done. cbn. intros j [= ->]. auto.
Qed.
Lemma begin_call_ok q spawned s : sys_ok s → call s = Idle → sys_ok (begin_call q spawned s).
Proof.
  intros Hok Hc. pose proof (begin_stop_ok q spawned s Hok Hc). destruct q as [p m| |]; cbn; [|done|].
  - destruct (terminal_error _); [by apply answer_same|]. destruct (if p then _ else _); [by apply answer_same|done].
  - destruct (terminal_error _); [by apply answer_same|]. destruct (worker _ ≫= _); by apply answer_same.
Qed.
(** The awaited shutdown resolves: an [Ok] means the last worker is finished. *)
Lemma resolve_stop_ok q r spawned s i :
  sys_ok s → stopping (call s) = Some i → (is_ok r = true → ∀ w, workers s !! i = Some w → finished w) →
  sys_ok (resolve_stop q r spawned s).
Proof.
  intros Hok Hst Hf. destruct (so_stopping s Hok i Hst) as (Hi & Hw & _).
  assert (Hall : is_ok r = true → ∀ j w, workers s !! j = Some w → finished w).
  { intros Hr j w Hj. pose proof (lookup_lt_Some _ _ _ Hj). destruct (decide (j = i)) as [->|]; [by apply Hf|].
    apply (so_old s Hok j); [done|lia]. }
  apply after_stop_ok; [|exact Hall]. destruct Hok as [H1 H2 H3 H6 H4 H5]. split; try done; cbn.
  intros Ht _. apply Hall. by destruct r.
Qed.

Lemma system_step_ok e s s' : step e s = Some s' → sys_ok s → sys_ok s'.
Proof.
  intros Hs Hok. destruct e as [i ce|i ie|i a|q sp| |sp|e| |e| |]; cbn in Hs.
  - destruct (workers s !! i) as [w|] eqn:Hi; cbn in Hs; [|done].
    destruct (capture_step ce w (admission s)) as [[w' adm]|] eqn:Hc; cbn in Hs; [|done]. injection Hs as <-.
    pose proof (so_workers s Hok i w Hi) as Hw.
    assert (Hnf : ¬ finished w) by (intros Hf; by rewrite finished_capture in Hc).
    assert (Hl : S i = length (workers s)).
    { pose proof (lookup_lt_Some _ _ _ Hi). destruct (decide (S i < length (workers s))%nat); [|lia].
      by destruct Hnf; apply (so_old s Hok i). }
    apply (update_ok s i w); try done; [by eapply capture_step_worker|].
    intros Ha. left. split; [done|]. eapply capture_step_admission; [exact Hc| |done].
    intros (j & v & Hj & Hlj & Hv)%(so_admission s Hok). assert (j = i) as -> by lia. congruence.
  - destruct (workers s !! i) as [w|] eqn:Hi; cbn in Hs; [|done].
    destruct (ingest_step ie w) as [w'|] eqn:Hc; cbn in Hs; [|done]. injection Hs as <-.
    pose proof (so_workers s Hok i w Hi) as Hw. destruct (ingest_step_ok _ _ _ Hc Hw) as [Hw' Ha].
    apply (update_ok s i w); try done; [|by right]. intros Hf. by rewrite finished_ingest in Hc.
  - destruct (workers s !! i) as [w|] eqn:Hi; cbn in Hs; [|done].
    destruct (close_step a w) as [w'|] eqn:Hc; cbn in Hs; [|done]. injection Hs as <-.
    destruct (close_step_ok _ _ _ Hc (so_workers s Hok i w Hi)) as [Hw' Ha].
    apply (update_ok s i w); try done; [|by right]. by apply (finished_close a).
  - destruct (call s) eqn:Hc; try done. injection Hs as <-. by apply begin_call_ok.
  - destruct (call s) as [|q i a| |] eqn:Hc; try done.
    destruct (workers s !! i) as [w|] eqn:Hi; cbn in Hs; [|done].
    destruct (close_step a w) as [w'|] eqn:Hcl; cbn in Hs; [|done]. injection Hs as <-.
    destruct (close_step_ok _ _ _ Hcl (so_workers s Hok i w Hi)) as [Hw' Ha].
    assert (Hu : sys_ok (update_worker i w' s)).
    { apply (update_ok s i w); try done; [|by right]. by apply (finished_close a). }
    assert (Hst : stopping (call s) = Some i) by (by rewrite Hc).
    destruct (so_stopping s Hok i Hst) as (Hl & Hr & Ht). destruct Hu as [H1 H2 H3 H6 H4 H5].
    split; try done. cbn. rewrite length_insert. intros j Hj. by destruct a; injection Hj as <-.
  - destruct (call s) as [| |q i|] eqn:Hc; try done.
    assert (Hst : stopping (call s) = Some i) by (by rewrite Hc).
    destruct (workers s !! i) as [w|] eqn:Hi; cbn in Hs; [|done].
    destruct (capture w) eqn:Hp; try done.
    + destruct (on_gate _ w) as [w'|] eqn:Hg; cbn in Hs; [|done]. injection Hs as <-.
      assert (Hac : match (if uncertain (gate (control w)) then FenceErr else FenceOk) with
        CloseStore | CloseBump | FenceOk | FenceErr => True | _ => False end) by (by destruct (uncertain _)).
      destruct (close_access_ok _ _ _ Hg Hac (so_workers s Hok i w Hi)) as [Hw' Ha].
      apply (resolve_stop_ok q _ sp _ i); [|done|].
      * apply (update_ok s i w); try done; [|by right]. by eapply finished_access.
      * intros Hr v. cbn. rewrite list_lookup_insert_eq by (by eapply lookup_lt_Some). intros [= <-].
        eapply finished_access; [exact Hg|done|]. split; [done|]. unfold certain, fence_result in *.
        by destruct (uncertain _).
    + injection Hs as <-. by apply (resolve_stop_ok q _ sp _ i).
  - destruct (call s) as [| |q i|] eqn:Hc; try done. injection Hs as <-.
    apply (resolve_stop_ok q _ false _ i); try done. by rewrite Hc.
  - destruct (call s) as [| | |q i] eqn:Hc; try done. destruct (workers s !! i) as [w|]; cbn in Hs; [|done].
    destruct (ready w); cbn in Hs; [|done]. injection Hs as <-. by apply answer_same.
  - destruct (call s) as [| | |q i] eqn:Hc; try done. injection Hs as <-. by apply answer_same.
  - destruct (call s); try done; injection Hs as <-; destruct Hok as [H1 H2 H3 H6 H4 H5]; by split.
  - injection Hs as <-. destruct Hok as [H1 H2 H3 H6 H4 H5]. by split.
Qed.
Lemma system_reachable_ok s : reachable s → sys_ok s.
Proof. induction 1 as [|e s s' _ IH Hs]; [by split|by eapply system_step_ok]. Qed.
