(* ===== verification/Pause.v ===== *)
(** * Pause: what an acknowledged pause means, and that a stop completes.

    The safety and progress properties of the controller of [Worker.v]: a pause
    that is acknowledged is quiet, a failed shutdown is never forgotten, one
    worker lives at a time, and a stopped worker's threads return. *)
From S2P Require Import Prelude Selection Gate Worker.
Local Open Scope Z_scope.

(** ** Pausing is quiet *)
Definition says_paused (q : Request) (a : Answer) : bool :=
  match q, a with
  | SetPaused true _, Acknowledged (Ok _) | Shutdown, Acknowledged (Ok _) | IsPaused, Paused (Ok true) => true
  | _, _ => false
  end.
Definition all_finished (s : System) : Prop := ∀ i w, workers s !! i = Some w → finished w.

(** The status a worker reports is never "paused", and only a resume waits for
    a worker to be ready. *)
Record reports_ok (s : System) : Prop := {
  ro_status : ∀ i w, workers s !! i = Some w → status (control w) ≠ Ok true;
  ro_ready : match call s with AwaitingReady (SetPaused false _) _ => True | AwaitingReady _ _ => False | _ => True end;
}.
Lemma report_status r w : status (control (report r w)) ≠ Ok true.
Proof. by destruct r. Qed.
Lemma gate_status a w w' : on_gate a w = Some w' → status (control w') = status (control w).
Proof. by intros (g & _ & ->)%on_gate_inv. Qed.
Lemma capture_status e w adm w' adm' :
  capture_step e w adm = Some (w', adm') → status (control w) ≠ Ok true → status (control w') ≠ Ok true.
Proof.
  intros Hs Hw. unfold capture_step, end_round, end_loop in Hs.
  destruct (capture w), e; try discriminate Hs; repeat case_match; try discriminate Hs; gate_act; cbn; try done;
    unfold mark_uncertain; by destruct (gate (control w)).
Qed.
Lemma ingest_status e w w' :
  ingest_step e w = Some w' → status (control w) ≠ Ok true → status (control w') ≠ Ok true.
Proof. intros Hs. unfold ingest_step in Hs. repeat case_match; try discriminate Hs; by gate_act. Qed.
Lemma close_status a w w' :
  close_step a w = Some w' → status (control w) ≠ Ok true → status (control w') ≠ Ok true.
Proof. destruct a; cbn; [by intros [= <-]|by intros ->%gate_status..]. Qed.

(** What the calls do to the workers. *)
Lemma after_stop_workers q r spawned s :
  bodies (after_stop q r spawned s) = bodies s
  ∧ (workers (after_stop q r spawned s) = workers s
     ∨ ∃ n b, workers (after_stop q r spawned s) = workers s ++ [new_worker n b]).
Proof. unfold after_stop. repeat case_match; cbn; eauto. Qed.
Lemma begin_call_workers q spawned s :
  bodies (begin_call q spawned s) = bodies s
  ∧ (workers (begin_call q spawned s) = workers s
     ∨ ∃ n b, workers (begin_call q spawned s) = workers s ++ [new_worker n b]).
Proof.
  assert (Hb : bodies (begin_stop q spawned s) = bodies s
    ∧ (workers (begin_stop q spawned s) = workers s
       ∨ ∃ n b, workers (begin_stop q spawned s) = workers s ++ [new_worker n b])).
  { unfold begin_stop. repeat case_match; [apply after_stop_workers|cbn; auto|apply after_stop_workers]. }
  unfold begin_call. repeat case_match; cbn; auto.
Qed.
Lemma reports_insert s i w w' c rt adm an bs :
  reports_ok s → workers s !! i = Some w → (status (control w) ≠ Ok true → status (control w') ≠ Ok true) →
  match c with AwaitingReady (SetPaused false _) _ => True | AwaitingReady _ _ => False | _ => True end →
  reports_ok (mkSystem (<[i := w']> (workers s)) rt c adm an bs).
Proof.
  intros [H1 H2] Hi Hw Hc. split; [|done]. cbn. intros j v [(-> & <- & _)|[Hne Hj]]%list_lookup_insert_Some; eauto.
Qed.
Lemma answer_reports q a rt s : reports_ok s → reports_ok (answer q a (with_runtime rt (call s) s)).
Proof. intros [H1 H2]. by split. Qed.
Lemma answer_reports_same q a s : reports_ok s → reports_ok (answer q a s).
Proof. intros [H1 H2]. by split. Qed.
Lemma after_stop_reports q r spawned s : reports_ok s → reports_ok (after_stop q r spawned s).
Proof.
  intros Hok. destruct q as [[] m| |]; cbn; [|..|by apply answer_reports|done].
  - destruct r as [[]|e]; [by apply answer_reports|by apply answer_reports_same].
  - destruct r as [[]|e]; [|by apply answer_reports_same]. destruct (_ =? 0); [by apply answer_reports_same|].
    destruct spawned; cbn; [|by apply answer_reports_same]. destruct Hok as [H1 H2]. split; [|done]. cbn.
    intros i w [?|[-> <-]]%lookup_snoc_Some; [naive_solver|done].
Qed.
Lemma begin_call_reports q spawned s : reports_ok s → reports_ok (begin_call q spawned s).
Proof.
  intros Hok. assert (Hb : reports_ok (begin_stop q spawned s)).
  { unfold begin_stop. destruct (terminal_error _); [by apply after_stop_reports|].
    destruct (worker _); [|by apply after_stop_reports]. by destruct Hok. }
  destruct q as [p m| |]; cbn; [|done|].
  - destruct (terminal_error _); [by apply answer_reports_same|].
    destruct (if p then _ else _); [by apply answer_reports_same|done].
  - destruct (terminal_error _); [by apply answer_reports_same|].
    destruct (worker _ ≫= _); by apply answer_reports_same.
Qed.
Lemma step_reports e s s' : step e s = Some s' → reports_ok s → reports_ok s'.
Proof.
  intros Hs Hok. pose proof Hok as [Hst Hr]. destruct e as [i ce|i ie|i a|q sp| |sp|e| |e| |]; cbn in Hs.
  - gate_act. destruct x0 as [w' adm]. gate_act. eapply reports_insert; eauto using capture_status.
  - gate_act. eapply reports_insert; eauto using ingest_status.
  - gate_act. eapply reports_insert; eauto using close_status.
  - destruct (call s); try done. injection Hs as <-. by apply begin_call_reports.
  - destruct (call s); try done. gate_act. eapply reports_insert; eauto using close_status.
    match goal with a : CloseAccess |- _ => by destruct a end.
  - destruct (call s) eqn:Hc; try done. destruct (workers s !! i) as [w|] eqn:Hi; cbn in Hs; [|done].
    destruct (capture w); try done.
    + destruct (on_gate _ w) as [w'|] eqn:Hg; cbn in Hs; [|done]. injection Hs as <-. apply after_stop_reports.
      eapply reports_insert; eauto. by rewrite (gate_status _ _ _ Hg).
    + injection Hs as <-. by apply after_stop_reports.
  - destruct (call s); try done. injection Hs as <-. by apply after_stop_reports.
  - destruct (call s); try done. gate_act. by split.
  - destruct (call s); try done. injection Hs as <-. by split.
  - destruct (call s); try done; injection Hs as <-; by split.
  - injection Hs as <-. by split.
Qed.
Lemma reachable_reports s : reachable s → reports_ok s.
Proof. induction 1 as [|e s s' _ IH Hs]; [by split|by eapply step_reports]. Qed.

(** From a quiet system only a new worker can end the silence. *)
Lemma finished_insert s s1 i w w' :
  all_finished s → workers s !! i = Some w → workers s1 = <[i := w']> (workers s) → finished w' → all_finished s1.
Proof. intros Hf Hi Hw1 Hw j v. rewrite Hw1. intros [(-> & <- & _)|[Hne Hj]]%list_lookup_insert_Some; eauto. Qed.
Lemma grown_quiet s s1 :
  all_finished s → (workers s1 = workers s ∨ ∃ n b, workers s1 = workers s ++ [new_worker n b]) →
  (length (workers s) ≤ length (workers s1))%nat ∧ (length (workers s1) = length (workers s) → all_finished s1).
Proof.
  intros Hf [Hw|(n & b & Hw)]; unfold all_finished; rewrite Hw; [by split|]. rewrite length_app. cbn. split; lia.
Qed.
Lemma step_quiet e s s' :
  step e s = Some s' → sys_ok s → all_finished s →
  bodies s' = bodies s ∧ (length (workers s) ≤ length (workers s'))%nat
  ∧ (length (workers s') = length (workers s) → all_finished s').
Proof.
  intros Hs Hok Hf. destruct e as [i ce|i ie|i a|q sp| |sp|e| |e| |]; cbn in Hs.
  - gate_act. by rewrite finished_capture in * by eauto.
  - gate_act. by rewrite finished_ingest in * by eauto using so_workers.
  - gate_act. cbn. rewrite length_insert. split_and!; try done. intros _.
    eapply (finished_insert s); eauto using finished_close.
  - destruct (call s); try done. injection Hs as <-. destruct (begin_call_workers q sp s) as [Hb Hw].
    split; [done|]. by apply grown_quiet.
  - destruct (call s); try done. gate_act. cbn. rewrite length_insert. split_and!; try done. intros _.
    eapply (finished_insert s); eauto using finished_close.
  - destruct (call s) eqn:Hc; try done. destruct (workers s !! i) as [w|] eqn:Hi; cbn in Hs; [|done].
    destruct (capture w); try done.
    + destruct (on_gate _ w) as [w'|] eqn:Hg; cbn in Hs; [|done]. injection Hs as <-. unfold resolve_stop.
      match goal with |- context [after_stop q ?r sp ?s1] =>
        destruct (after_stop_workers q r sp s1) as [Hb Hw]; rewrite Hb; cbn; split; [done|];
        replace (length (workers s)) with (length (workers s1)) by (cbn; by rewrite length_insert);
        apply grown_quiet; [|done] end.
      eapply (finished_insert s); [done..|]. eapply finished_access; [exact Hg|by destruct (uncertain _)|eauto].
    + injection Hs as <-. unfold resolve_stop.
      match goal with |- context [after_stop q ?r sp ?s1] => destruct (after_stop_workers q r sp s1) as [Hb Hw] end.
      split; [done|]. by apply grown_quiet.
  - destruct (call s); try done. injection Hs as <-. unfold resolve_stop.
    match goal with |- context [after_stop q ?r ?sp ?s1] => destruct (after_stop_workers q r sp s1) as [Hb Hw] end.
    split; [done|]. by apply grown_quiet.
  - destruct (call s); try done. gate_act. by split_and!.
  - destruct (call s); try done. injection Hs as <-. by split_and!.
  - destruct (call s); try done; injection Hs as <-; by split_and!.
  - injection Hs as <-. by split_and!.
Qed.

Lemma cons_answer {A} (x y : A) l : x :: l = y :: l → x = y.
Proof. by intros [= ->]. Qed.
Lemma no_answer {A} (x : A) l : l ≠ x :: l.
Proof. intros H. apply (f_equal length) in H. cbn in H. lia. Qed.
Lemma after_stop_paused q r sp s q' a :
  answers (after_stop q r sp s) = (q', a) :: answers s → says_paused q' a = true →
  is_ok r = true ∧ workers (after_stop q r sp s) = workers s.
Proof.
  unfold after_stop. intros Ha Hp.
  repeat case_match; cbn in *; try (by apply no_answer in Ha);
    apply cons_answer in Ha; injection Ha as <- <-; try done; by destruct paused.
Qed.
Lemma begin_call_paused q sp s q' a :
  sys_ok s → reports_ok s → answers (begin_call q sp s) = (q', a) :: answers s → says_paused q' a = true →
  all_finished (begin_call q sp s).
Proof.
  intros Hok Hro Ha Hp.
  assert (Hstop : answers (begin_stop q sp s) = (q', a) :: answers s → all_finished (begin_stop q sp s)).
  { unfold begin_stop. destruct (terminal_error (runtime s)) as [e|] eqn:Ht.
    - intros Hx. by destruct (after_stop_paused _ _ _ _ _ _ Hx Hp).
    - destruct (worker (runtime s)) as [i|] eqn:Hw; [intros Hx; by apply no_answer in Hx|].
      intros Hx. destruct (after_stop_paused _ _ _ _ _ _ Hx Hp) as [_ Hws]. unfold all_finished. rewrite Hws.
      by apply (so_quiet s). }
  destruct q as [p m| |]; cbn in Ha |- *; [| by apply Hstop |].
  - destruct (terminal_error (runtime s)).
    { apply cons_answer in Ha. injection Ha as <- <-. by destruct p. }
    destruct (if p then _ else _) as [w|] eqn:Hsame; [|by apply Hstop].
    destruct p; [done|]. apply cons_answer in Ha. injection Ha as <- <-. done.
  - destruct (terminal_error (runtime s)) eqn:Ht.
    { apply cons_answer in Ha. injection Ha as <- <-. done. }
    destruct (worker (runtime s)) as [i|] eqn:Hw; cbn in *; [|intros j w Hj; by eapply (so_quiet s)].
    destruct (workers s !! i) as [w|] eqn:Hi; cbn in *.
    + apply cons_answer in Ha. injection Ha as <- <-. cbn in Hp. unfold worker_state in Hp.
      pose proof (ro_status s Hro i w Hi). destruct (thread_finished w), (negb (open (gate (control w)))); try done.
      by destruct (status (control w)) as [[]|].
    + apply lookup_ge_None in Hi. pose proof (so_current s Hok i Hw). lia.
Qed.
Lemma step_paused e s s' q a :
  step e s = Some s' → sys_ok s → reports_ok s → answers s' = (q, a) :: answers s → says_paused q a = true →
  all_finished s'.
Proof.
  intros Hs Hok Hro Ha Hp. destruct e as [i ce|i ie|i ac|q' sp| |sp|e| |e| |]; cbn in Hs.
  - gate_act. destruct x0. gate_act. by apply no_answer in Ha.
  - gate_act. by apply no_answer in Ha.
  - gate_act. by apply no_answer in Ha.
  - destruct (call s); try done. injection Hs as <-. by eapply begin_call_paused.
  - destruct (call s); try done. gate_act. by apply no_answer in Ha.
  - destruct (call s) as [| |q' i|] eqn:Hc; try done. destruct (workers s !! i) as [w|] eqn:Hi; cbn in Hs; [|done].
    destruct (so_stopping s Hok i) as (Hl & _ & _); [by rewrite Hc|].
    destruct (capture w) eqn:Hcw; try done.
    + destruct (on_gate _ w) as [w'|] eqn:Hg; cbn in Hs; [|done]. injection Hs as <-. unfold resolve_stop in *.
      destruct (after_stop_paused _ _ _ _ _ _ Ha Hp) as [Hr Hws]. unfold all_finished. rewrite Hws. cbn.
      intros j v [(-> & <- & _)|[Hne Hj]]%list_lookup_insert_Some.
      * eapply finished_access; [exact Hg|by destruct (uncertain _)|]. split; [done|].
        unfold certain, fence_result in *. by destruct (uncertain _).
      * pose proof (lookup_lt_Some _ _ _ Hj). apply (so_old s Hok j); [done|lia].
    + injection Hs as <-. unfold resolve_stop in *. by destruct (after_stop_paused _ _ _ _ _ _ Ha Hp).
  - destruct (call s); try done. injection Hs as <-. unfold resolve_stop in *.
    by destruct (after_stop_paused _ _ _ _ _ _ Ha Hp).
  - destruct (call s) as [| | |q' i] eqn:Hc; try done. gate_act. apply cons_answer in Ha. injection Ha as <- <-.
    pose proof (ro_ready s Hro) as Hr. rewrite Hc in Hr. by destruct q' as [[]| |].
  - destruct (call s) as [| | |q' i] eqn:Hc; try done. injection Hs as <-. apply cons_answer in Ha. injection Ha as <- <-.
    by destruct q' as [[]| |].
  - destruct (call s); try done; injection Hs as <-; by apply no_answer in Ha.
  - injection Hs as <-. by apply no_answer in Ha.
Qed.
(** Workers are never forgotten. *)
Lemma step_grows e s s' : step e s = Some s' → (length (workers s) ≤ length (workers s'))%nat.
Proof.
  assert (Hg : ∀ ws ws' : list Worker, (ws' = ws ∨ ∃ n b, ws' = ws ++ [new_worker n b]) → (length ws ≤ length ws')%nat).
  { intros ws ws' [->|(n & b & ->)]; [lia|rewrite length_app; lia]. }
  intros Hs. destruct e as [i ce|i ie|i ac|q' sp| |sp|e| |e| |]; cbn in Hs.
  - gate_act. destruct x0. gate_act. cbn. by rewrite length_insert.
  - gate_act. cbn. by rewrite length_insert.
  - gate_act. cbn. by rewrite length_insert.
  - destruct (call s); try done. injection Hs as <-. apply Hg, begin_call_workers.
  - destruct (call s); try done. gate_act. cbn. by rewrite length_insert.
  - destruct (call s); try done. destruct (workers s !! i) as [w|]; cbn in Hs; [|done].
    destruct (capture w); try done; [destruct (on_gate _ w) as [w'|]; cbn in Hs; [|done]|]; injection Hs as <-;
      unfold resolve_stop;
      match goal with |- context [after_stop ?q ?r ?sp ?s1] => destruct (after_stop_workers q r sp s1) as [_ Hw%Hg] end;
      cbn in *; by rewrite ?length_insert in *.
  - destruct (call s); try done. injection Hs as <-. unfold resolve_stop.
    match goal with |- context [after_stop ?q ?r ?sp ?s1] => destruct (after_stop_workers q r sp s1) as [_ Hw%Hg] end.
    done.
  - destruct (call s); try done. by gate_act.
  - destruct (call s); try done. by injection Hs as <-.
  - destruct (call s); try done; by injection Hs as <-.
  - by injection Hs as <-.
Qed.
Lemma run_grows more s s' : run more s = Some s' → (length (workers s) ≤ length (workers s'))%nat.
Proof.
  revert s. induction more as [|e more IH]; intros s Hr; cbn in Hr; [by injection Hr as <-|].
  destruct (step e s) as [s1|] eqn:Hs; cbn in Hr; [|done]. apply step_grows in Hs. apply IH in Hr. lia.
Qed.
Lemma run_quiet more s s' :
  run more s = Some s' → sys_ok s → all_finished s → length (workers s') = length (workers s) →
  sys_ok s' ∧ all_finished s' ∧ bodies s' = bodies s.
Proof.
  revert s. induction more as [|e more IH]; intros s Hr Hok Hf Hl; cbn in Hr; [by injection Hr as <-|].
  destruct (step e s) as [s1|] eqn:Hs; cbn in Hr; [|done]. pose proof (system_step_ok _ _ _ Hs Hok) as Hok1.
  destruct (step_quiet _ _ _ Hs Hok Hf) as (Hb & Hle & Hq). pose proof (run_grows _ _ _ Hr).
  destruct (IH s1) as (? & ? & Hb1); try done; [apply Hq; lia|lia|]. split_and!; try done. by rewrite Hb1.
Qed.

(** C18 An acknowledged pause is quiet, whatever the threads did before: when
    a pause or a shutdown is acknowledged, or capture is reported paused, both
    threads of every worker ever started have returned, every gate is shut and
    the storage owner's admission is closed; and whatever happens next, no
    submission starts and admission stays closed until a new worker is started. *)
Theorem pause_is_quiet s e s' q a more s'' :
  reachable s → step e s = Some s' → answers s' = (q, a) :: answers s → says_paused q a = true →
  run more s' = Some s'' → length (workers s'') = length (workers s') →
  admission s'' = false ∧ bodies s'' = bodies s'
  ∧ ∀ i w, workers s'' !! i = Some w →
      capture w = Done ∧ (ingest w = NotSpawned ∨ ingest w = Finished) ∧ open (gate (control w)) = false
      ∧ in_submit (submission (gate (control w))) = false.
Proof.
  intros Hr Hs Ha Hp Hm Hl. pose proof (system_reachable_ok s Hr) as Hok.
  pose proof (step_paused _ _ _ _ _ Hs Hok (reachable_reports s Hr) Ha Hp) as Hf.
  destruct (run_quiet _ _ _ Hm (system_step_ok _ _ _ Hs Hok) Hf Hl) as (Hok'' & Hf'' & Hb).
  split_and!; [|done|].
  - destruct (admission s'') eqn:Had; [|done]. destruct (so_admission s'' Hok'' Had) as (i & w & Hi & _ & Hw).
    rewrite (finished_admits w) in Hw by eauto. done.
  - intros i w Hi. pose proof (so_workers s'' Hok'' i w Hi) as Hw. destruct (Hf'' i w Hi) as [Hd _].
    split_and!; [done|by apply wo_done|apply shut; [done|by rewrite Hd]|].
    rewrite (wo_ingest w Hw). by destruct (wo_done w Hw Hd) as [-> | ->].
Qed.

(** ** What is never forgotten *)
Definition refusal (x : Request * Answer) : Prop :=
  match x.2 with Acknowledged (Err _) | Paused (Err _) => True | _ => False end.
Definition latched (s : System) : Prop := call s = Idle ∧ is_Some (terminal_error (runtime s)).

Lemma step_latched e s s' :
  step e s = Some s' → latched s →
  latched s' ∧ length (workers s') = length (workers s)
  ∧ (answers s' = answers s ∨ ∃ x, answers s' = x :: answers s ∧ refusal x).
Proof.
  intros Hs [Hc [t Ht]]. unfold latched. destruct e as [i ce|i ie|i a|q sp| |sp|e| |e| |]; cbn in Hs;
    rewrite ?Hc in Hs; try discriminate Hs; cbn.
  - gate_act. destruct x0. gate_act. cbn. rewrite length_insert. split_and!; eauto.
  - gate_act. cbn. rewrite length_insert. split_and!; eauto.
  - gate_act. cbn. rewrite length_insert. split_and!; eauto.
  - injection Hs as <-. unfold begin_call, begin_stop. rewrite Ht.
    destruct q as [p m| |]; cbn; rewrite ?Ht; (split_and!; [done|by eauto|done|right; eexists; split; [reflexivity|done]]).
  - injection Hs as <-. split_and!; eauto.
Qed.
Lemma run_latched more s s' :
  run more s = Some s' → latched s →
  latched s' ∧ length (workers s') = length (workers s) ∧ ∃ l, answers s' = l ++ answers s ∧ Forall refusal l.
Proof.
  revert s. induction more as [|e more IH]; intros s Hr Hl; cbn in Hr.
  { injection Hr as <-. split_and!; try done. by exists []. }
  destruct (step e s) as [s1|] eqn:Hs; cbn in Hr; [|done].
  destruct (step_latched _ _ _ Hs Hl) as (Hl1 & Hn & Ha). destruct (IH s1 Hr Hl1) as (Hl' & Hn' & l & Hal & Hf).
  split_and!; [done|lia|]. destruct Ha as [Ha|(x & Ha & Hx)]; rewrite Hal, Ha; [eauto|].
  exists (l ++ [x]). rewrite <- (assoc_L (++)). split; [done|]. apply Forall_app; auto.
Qed.

(** The awaited shutdown of a worker is lost: it timed out, its task failed, its
    caller went away, or the worker ended uncertain or panicked. *)
Definition shutdown_lost (e : Event) (s : System) : Prop :=
  match e, call s with
  | (FinishFailed _ | Abandon), Awaiting _ _ => True
  | FinishJoined _, Awaiting _ i => ∀ w, workers s !! i = Some w → ¬ finished w
  | _, _ => False
  end.

(** A shutdown that was lost is never forgotten, so it is never taken for a
    pause: from then on every request is refused with an error, capture is
    never again reported paused, and no worker starts. *)
Theorem lost_shutdown_latches s e s' more s'' :
  reachable s → shutdown_lost e s → step e s = Some s' → run more s' = Some s'' →
  length (workers s'') = length (workers s)
  ∧ ∃ l, answers s'' = l ++ answers s' ∧ Forall refusal l ∧ Forall (λ x, says_paused x.1 x.2 = false) l.
Proof.
  intros Hr Hlost Hs Hm.
  assert (Hl : latched s' ∧ length (workers s') = length (workers s)).
  { pose proof (system_reachable_ok s Hr) as Hok. unfold shutdown_lost in Hlost.
    destruct (call s) as [| |q i|] eqn:Hc; try by destruct e.
    destruct (so_stopping s Hok i) as (_ & Hw & Ht); [by rewrite Hc|].
    destruct e; try done; cbn in Hs; rewrite Hc in Hs; cbn in Hs.
    - destruct (workers s !! i) as [w|] eqn:Hi; cbn in Hs; [|done]. specialize (Hlost w eq_refl).
      destruct (capture w) eqn:Hcw; try done.
      + assert (Hu : uncertain (gate (control w)) = true).
        { destruct (uncertain _) eqn:Hu; [done|]. by destruct Hlost. }
        unfold fence_result in Hs. rewrite Hu in Hs. destruct (on_gate FenceErr w) as [w'|]; cbn in Hs; [|done].
        injection Hs as <-. destruct q as [p m| |]; unfold latched; cbn; rewrite length_insert; split_and!; by eauto.
      + injection Hs as <-. destruct q as [p m| |]; unfold latched; cbn; split_and!; by eauto.
    - injection Hs as <-. destruct q as [p m| |]; unfold latched; cbn; split_and!; by eauto.
    - injection Hs as <-. unfold latched; cbn; split_and!; by eauto. }
  destruct Hl as [Hl Hn]. destruct (run_latched _ _ _ Hm Hl) as (_ & Hn' & l & Ha & Hf).
  split; [lia|]. exists l. split_and!; try done. eapply Forall_impl; [exact Hf|].
  intros [q [[]|[]]] Hx; try done; by destruct q as [[]| |].
Qed.











(** ** Runs of the three properties *)
Lemma reachable_run l s s' : reachable s → run l s = Some s' → reachable s'.
Proof.
  revert s. induction l as [|e l IH]; intros s Hr Hs; cbn in Hs; [by injection Hs as <-|].
  destruct (step e s) as [s1|] eqn:He; cbn in Hs; [|done]. eapply IH; [|exact Hs]. by eapply reachable_step.
Qed.
Definition after (l : list Event) : System := default initial_system (run l initial_system).
Lemma reachable_after l : reachable (after l).
Proof.
  unfold after. destruct (run l initial_system) as [s|] eqn:Hl; cbn; [|constructor].
  eapply reachable_run; [constructor|exact Hl].
Qed.

(** Capture starts, a transfer finishes and its submission is running when a
    pause arrives: the pause waits for it. *)
Definition capturing : list Event :=
  [Begin (SetPaused false 65536) true; OnCapture 0 (Spawned true); OnCapture 0 LoopTop; OnCapture 0 (SinkReady (Ok tt));
   OnCapture 0 (SinkAdmit (Ok tt) true); OnCapture 0 (Resume ResumeLock); OnCapture 0 (Resume ResumeBump);
   OnCapture 0 (Resume ResumeOpen); OnCapture 0 ReportReady; ReadyResolved; OnCapture 0 AdmitGeneration;
   OnCapture 0 AdmitOpen; OnCapture 0 (SendJob [] 1 []); OnIngest 0 Recv; OnIngest 0 (Submit (SubmitLock 1));
   OnIngest 0 (Submit SubmitSawOpen); OnIngest 0 (Submit (StartBody 1))].
Definition pausing : list Event := capturing ++ [Begin (SetPaused true 65536) true; CloseNext; CloseNext; CloseNext].
Definition returning : list Event :=
  [OnCapture 0 (RunEnds (Ok tt)); OnCapture 0 CloseGate; OnCapture 0 BumpGate; OnIngest 0 (Submit BodyOk);
   OnCapture 0 FenceGate; OnCapture 0 (SinkClose (Ok tt) true); OnCapture 0 Unpark; OnCapture 0 LoopTop;
   OnCapture 0 (SinkClose (Ok tt) true); OnCapture 0 DropSession; OnIngest 0 Hangup; OnCapture 0 JoinIngest].
Lemma pause_is_quiet_witness :
  step (FinishJoined true) (after (pausing ++ returning)) = Some (after (pausing ++ returning ++ [FinishJoined true]))
  ∧ bodies (after (pausing ++ returning ++ [FinishJoined true; OnClose 0 StoreStop; PolicyClosed])) = [(0%nat, 1)].
Proof.
  split; [vm_compute; reflexivity|].
  refine (eq_trans (proj1 (proj2 (pause_is_quiet (after (pausing ++ returning)) (FinishJoined true)
    (after (pausing ++ returning ++ [FinishJoined true])) (SetPaused true 65536) (Acknowledged (Ok tt))
    [OnClose 0 StoreStop; PolicyClosed]
    (after (pausing ++ returning ++ [FinishJoined true; OnClose 0 StoreStop; PolicyClosed])) _ _ _ _ _ _))) _);
    [apply reachable_after|vm_compute; reflexivity..].
Defined.
Lemma lost_shutdown_latches_witness :
  shutdown_lost Abandon (after pausing)
  ∧ length (workers (after (pausing ++ [Abandon; Begin IsPaused true; Begin (SetPaused false 1) true]))) = 1%nat.
Proof.
  split; [exact I|].
  refine (proj1 (lost_shutdown_latches (after pausing) Abandon (after (pausing ++ [Abandon]))
    [Begin IsPaused true; Begin (SetPaused false 1) true]
    (after (pausing ++ [Abandon; Begin IsPaused true; Begin (SetPaused false 1) true]))
    (reachable_after pausing) I _ _)); vm_compute; reflexivity.
Defined.
