(* ===== verification/Backend.v ===== *)
(** * Backend: what the operations of [HistoryBackend] act on.

    A [World] is the store's owner behind its queue, the disk, the Wayland
    selection, the active generated file and the shutdown flag.  Operations of
    the backend run one at a time under its transaction lock, but the queue of
    the store is shared: before each call other clients may run database
    operations, and the call may be refused.  File-system calls may fail.  The
    environment of the process and what it draws (identifiers, times, inodes)
    are [Env]. *)
From Stdlib Require Import Ascii.
From S2P Require Import Prelude Text Externals Model Classification Selection Content Sql Tables Database History Query Store.
Local Open Scope Z_scope.

Record Env := mkEnv {
  home : option string;                  (* $HOME *)
  xdg_runtime : string;                  (* $XDG_RUNTIME_DIR, or the temporary directory *)
  xdg_cache : option string;             (* $XDG_CACHE_HOME, or $HOME/.cache *)
  euid : Z;
  new_uuid : nat → string;
  unix_time : nat → Z;
  new_inode : nat → Z;
  device : Z;
  checkpoint : BackendResult (option (Z * Z * Z));
  protected : BackendResult unit;
}.

(** What happens to the queue before one call of the store. *)
Record Turn := mkTurn {
  others : list Operation;
  refusal : option string;               (* full, budget exhausted, closed *)
}.
(** What a file-system call does: succeed, or fail; a recursive removal that
    fails may have removed all that does not survive. *)
Inductive IoOutcome := IoSucceeds | IoFails (survives : string → bool).

Record World := mkWorld {
  w_db : Database Tables;
  w_turns : list Turn;
  w_store : option (BackendResult unit); (* the verdict, once the store has shut down *)
  w_disk : Fs;
  w_io : list IoOutcome;
  w_clipboard : Clipboard;
  w_active : option string;              (* active_artifact *)
  w_closed : bool;
  w_ticks : nat;
  w_seen : list Tables;                  (* history variable: the tables calls ran on, newest first *)
}.

Definition Backend (A : Type) : Type := World → BackendResult A * World.
#[export] Instance Backend_ret : MRet Backend := λ A a w, (Ok a, w).
#[export] Instance Backend_bind : MBind Backend :=
  λ A C f m w, match m w with (Ok a, w1) => f a w1 | (Err e, w1) => (Err e, w1) end.
Definition lift {A} (r : BackendResult A) : Backend A := λ w, (r, w).
(** [match m { Ok(_) => .., Err(error) => .. }]: the error is a value. *)
Definition attempt {A} (m : Backend A) : Backend (BackendResult A) := λ w, let '(r, w1) := m w in (Ok r, w1).

Definition set_disk (fs : Fs) (w : World) : World :=
  mkWorld (w_db w) (w_turns w) (w_store w) fs (w_io w) (w_clipboard w) (w_active w) (w_closed w) (w_ticks w) (w_seen w).
Definition set_io (l : list IoOutcome) (w : World) : World :=
  mkWorld (w_db w) (w_turns w) (w_store w) (w_disk w) l (w_clipboard w) (w_active w) (w_closed w) (w_ticks w) (w_seen w).
Definition set_store (db : Database Tables) (l : list Turn) (seen : list Tables) (w : World) : World :=
  mkWorld db l (w_store w) (w_disk w) (w_io w) (w_clipboard w) (w_active w) (w_closed w) (w_ticks w) seen.

Definition get_disk : Backend Fs := λ w, (Ok (w_disk w), w).
Definition get_active : Backend (option string) := λ w, (Ok (w_active w), w).
Definition set_active (p : option string) : Backend unit := λ w,
  (Ok tt, mkWorld (w_db w) (w_turns w) (w_store w) (w_disk w) (w_io w) (w_clipboard w) p (w_closed w) (w_ticks w) (w_seen w)).
Definition set_closed : Backend unit := λ w,
  (Ok tt, mkWorld (w_db w) (w_turns w) (w_store w) (w_disk w) (w_io w) (w_clipboard w) (w_active w) true (w_ticks w) (w_seen w)).
(** A fresh draw of the environment. *)
Definition tick : Backend nat := λ w,
  (Ok (w_ticks w), mkWorld (w_db w) (w_turns w) (w_store w) (w_disk w) (w_io w) (w_clipboard w) (w_active w) (w_closed w)
                           (S (w_ticks w)) (w_seen w)).
Definition ensure_running : Backend unit := λ w,
  (if w_closed w then Err (unavailable "Clipboard backend is shut down") else Ok tt, w).
Definition on_clipboard (p : Publishing) : Backend unit := λ w,
  let '(r, c) := p (w_clipboard w) in
  (r, mkWorld (w_db w) (w_turns w) (w_store w) (w_disk w) (w_io w) c (w_active w) (w_closed w) (w_ticks w) (w_seen w)).

(** ** Files *)
Inductive IoError := IoNotFound | IoOther (message : string).
Definition io_message (e : IoError) : string :=
  match e with IoNotFound => "No such file or directory" | IoOther m => m end.
Definition io_error (e : IoError) : BackendError := operation_error (io_message e).
Definition Io (A : Type) : Type := World → result IoError A * World.
(** One call: consult the schedule, then the disk. *)
Definition io_call {A} (f : Fs → result IoError (A * Fs)) (failed : (string → bool) → Fs → Fs) : Io A := λ w,
  let w1 := set_io (tail (w_io w)) w in
  match w_io w with
  | IoFails survives :: _ => (Err (IoOther "Input/output error"), set_disk (failed survives (w_disk w)) w1)
  | _ => match f (w_disk w) with
         | Ok (a, fs) => (Ok a, set_disk fs w1)
         | Err e => (Err e, w1)
         end
  end.
Definition io {A} (m : Io A) : Backend A := λ w, let '(r, w1) := m w in (map_err io_error r, w1).
(** [.ok()] of a call. *)
Definition io_ok {A} (m : Io A) : Backend (option A) := λ w, let '(r, w1) := m w in (Ok (ok_of r), w1).
Definition unchanged (survives : string → bool) (fs : Fs) : Fs := fs.

Definition symlink_metadata (p : string) : Io Node :=
  io_call (λ fs, n ← ok_or (fs !! p) IoNotFound; Ok (n, fs)) unchanged.
Definition remove_file (p : string) : Io unit :=
  io_call (λ fs, n ← ok_or (fs !! p) IoNotFound;
                 if decide (node_kind n = Directory) then Err (IoOther "Is a directory") else Ok (tt, delete p fs))
          unchanged.
(** The directories a path leads through, and the path itself. *)
Fixpoint path_prefixes (prefix : string) (l : list string) : list string :=
  match l with
  | [] => []
  | x :: l' => let p := (prefix ++ "/" ++ x)%string in p :: path_prefixes p l'
  end.
Definition ancestors (p : string) : list string := path_prefixes EmptyString (tail (split_char "/"%char p)).
(** [canonicalize(p) == p] of a normal absolute path: no link on the way. *)
Definition is_canonical (fs : Fs) (p : string) : bool :=
  path_is_absolute p
  && forallb (λ d, match fs !! d with
                   | Some n => bool_decide (node_kind n = Directory) || (bool_decide (d = p) && is_file n)
                   | None => false
                   end) (ancestors p).
Definition canonicalize_is (p : string) : Io bool := io_call (λ fs, Ok (is_canonical fs p, fs)) unchanged.
Definition is_below (dir p : string) : bool := starts_with (dir ++ "/") p.
Definition remove_dir_all (dir : string) : Io unit :=
  io_call (λ fs, n ← ok_or (fs !! dir) IoNotFound;
                 match node_kind n with
                 | Directory => Ok (tt, filter (λ kv, kv.1 ≠ dir ∧ is_below dir kv.1 = false) fs)
                 | Symlink => Ok (tt, delete dir fs)
                 | _ => Err (IoOther "Not a directory")
                 end)
          (λ survives fs, match node_kind <$> fs !! dir with
                          | Some Directory => filter (λ kv, (kv.1 ≠ dir ∧ is_below dir kv.1 = false) ∨ survives kv.1 = true) fs
                          | _ => fs
                          end).

Section with_env.
Context `{Externals} (env : Env).

Definition new_node (k : FileKind) (mode : Z) (t : nat) : Node :=
  mkNode k (device env) (new_inode env t) (euid env) 1 mode [] true.
(** [create_dir_all]: make what is missing on the way. *)
Fixpoint make_dirs (mode : Z) (t : nat) (l : list string) (fs : Fs) : result IoError Fs :=
  match l with
  | [] => Ok fs
  | d :: l' =>
      match fs !! d with
      | None => make_dirs mode (S t) l' (<[d := new_node Directory mode t]> fs)
      | Some n =>
          match node_kind n with
          | Directory => make_dirs mode t l' fs
          | Symlink => if node_resolves n then make_dirs mode t l' fs else Err (IoOther "File exists")
          | _ => Err (IoOther "Not a directory")
          end
      end
  end.
Definition create_dir_all (p : string) (t : nat) : Io unit :=
  io_call (λ fs, fs1 ← make_dirs 493 t (ancestors p ++ [p]) fs; Ok (tt, fs1)) unchanged.
(** [set_permissions] follows links. *)
Definition set_mode (mode : Z) (n : Node) : Node :=
  mkNode (node_kind n) (node_device n) (node_inode n) (node_owner n) (node_links n) mode (node_bytes n) (node_resolves n).
Definition set_permissions (p : string) (mode : Z) : Io unit :=
  io_call (λ fs, n ← ok_or (fs !! p) IoNotFound;
                 if decide (node_kind n = Symlink) then Ok (tt, fs) else Ok (tt, <[p := set_mode mode n]> fs)) unchanged.
Definition private_directory (p : string) : Backend string :=
  t ← tick;
  _ ← io (create_dir_all p t);
  _ ← io (set_permissions p 448);
  mret p.
Definition runtime_directory (child : string) : Backend string :=
  private_directory (xdg_runtime env ++ "/" ++ child)%string.
Definition unique_path (directory extension : string) : Backend string :=
  t ← tick; mret (directory ++ "/clipboard-" ++ new_uuid env t ++ "." ++ extension)%string.
(** [private_file]: [create_new] never opens an existing path. *)
Definition private_file (p : string) : Backend unit :=
  t ← tick;
  io (io_call (λ fs, match fs !! p with
                     | Some _ => Err (IoOther "File exists")
                     | None => Ok (tt, <[p := new_node Regular 384 t]> fs)
                     end) unchanged).
Definition set_bytes (b : bytes) (n : Node) : Node :=
  mkNode (node_kind n) (node_device n) (node_inode n) (node_owner n) (node_links n) (node_mode n) b (node_resolves n).
Definition write_all (p : string) (b : bytes) : Io unit :=
  io_call (λ fs, Ok (tt, alter (set_bytes b) p fs)) unchanged.
Definition sync_all : Io unit := io_call (λ fs, Ok (tt, fs)) unchanged.
Definition write_private (p : string) (b : bytes) : Backend unit :=
  _ ← private_file p;
  r ← attempt (_ ← io (write_all p b); io sync_all);
  match r with
  | Ok _ => mret tt
  | Err e => _ ← io_ok (remove_file p); lift (Err e)
  end.
Definition completed_now (action message : string) : Backend OperationResult :=
  t ← tick; mret (completed (new_uuid env t) action message).
Definition now : Backend Z := t ← tick; mret (unix_time env t).

(** ** The store's client methods

    [validate], [reserve], [submit]: checks, then the queue, then the owner. *)
Definition client {A} (v : BackendResult unit) (run : Database Tables → BackendResult A * Database Tables) : Backend A := λ w,
  match v with
  | Err e => (Err e, w)
  | Ok _ =>
      let turn := head (w_turns w) in
      let db := steps (from_option others [] turn) (w_db w) in
      let shown := default (durable db) (open_transaction db) in
      match (match w_store w with Some _ => Some "History storage is closed"%string | None => turn ≫= refusal end) with
      | Some e => (Err (unavailable e), set_store db (tail (w_turns w)) (w_seen w) w)
      | None =>
          if blocked db then
            (Err (unavailable "History storage is fenced; restart required"), set_store db (tail (w_turns w)) (w_seen w) w)
          else
            let '(r, db1) := run db in (r, set_store db1 (tail (w_turns w)) (shown :: w_seen w) w)
      end
  end.
Definition store_get (id : string) (expected : option Z) : Backend StoredEntry :=
  client (validate (RGet id expected)) (read (db_get id expected)).
Definition store_query (q : HistoryQuery) : Backend HistoryPage := client (validate (RQuery q)) (read (db_query q)).
Definition store_entry_revision (id : string) : Backend Z :=
  client (validate (REntryRevision id)) (read (s ← db_summary id None; mret (s_revision s))).
Definition store_revision : Backend Z := client (validate RRevision) (read db_revision).
Definition store_policy : Backend StorePolicy := client (validate RPolicy) (read db_policy).
Definition store_apply_policy (p : StorePolicy) : Backend unit :=
  client (validate (RMutate (OpPolicy p))) (run_call (apply_policy p)).
Definition store_insert (mime : string) (b : bytes) : Backend EntrySummary :=
  t ← tick; fs ← get_disk;
  client (validate (RMutate (OpInsert fs (new_uuid env t) mime b))) (run_call (insert fs (new_uuid env t) mime b)).
Definition store_replace (id : string) (expected : Z) (mime : string) (b : bytes) : Backend EntrySummary :=
  fs ← get_disk;
  client (validate (RMutate (OpReplace fs id expected mime b))) (run_call (replace fs id expected mime b)).
Definition store_favorite (id : string) (expected : Z) (value : bool) : Backend unit :=
  client (validate (RMutate (OpFavorite id expected value))) (run_call (favorite id expected value)).
Definition store_remove_many (targets : list EntryTarget) : Backend unit :=
  client (validate (RMutate (OpRemove targets))) (run_call (remove_many targets)).
Definition store_wipe : Backend unit := client (validate (RMutate OpWipe)) (run_call wipe).
Definition store_artifact_get (path : string) : Backend (option ArtifactRecord) :=
  client (validate (RArtifactGet path)) (read (artifact_get path)).
Definition store_artifact_candidates (before limit : Z) : Backend (list ArtifactRecord) :=
  client (Ok tt) (read (artifact_candidates before limit)).
Definition store_register_artifact (r : ArtifactRecord) : Backend unit :=
  client (validate (RMutate (OpRegister r))) (run_call (register_artifact r)).
Definition store_forget_artifact (path : string) : Backend unit :=
  client (validate (RMutate (OpForget path))) (run_call (forget_artifact path)).
(** [Inner::shutdown]: the owner drains, closes and answers once. *)
Definition store_shutdown : Backend unit := λ w,
  match w_store w with
  | Some r => (r, w)
  | None =>
      let db := steps (from_option others [] (head (w_turns w))) (w_db w) in
      let '(r, db1) := shutdown (checkpoint env) (protected env) db in
      (r, mkWorld db1 (tail (w_turns w)) (Some r) (w_disk w) (w_io w) (w_clipboard w) (w_active w) (w_closed w)
                  (w_ticks w) (w_seen w))
  end.
End with_env.

(** ** Directories *)
Section directories.
Context (env : Env).
Lemma make_dirs_spec mode t l fs fs' :
  make_dirs env mode t l fs = Ok fs' →
  fs ⊆ fs' ∧ ∀ d, d ∈ l → ∃ n, fs' !! d = Some n ∧ (node_kind n = Directory ∨ node_kind n = Symlink).
Proof.
  revert t fs. induction l as [|d l IH]; intros t fs; cbn; [intros [= <-]; split; [done|set_solver]|].
  assert (Hgo : ∀ t fs1 n, fs ⊆ fs1 → fs1 !! d = Some n → node_kind n = Directory ∨ node_kind n = Symlink →
    make_dirs env mode t l fs1 = Ok fs' →
    fs ⊆ fs' ∧ ∀ x, x ∈ d :: l → ∃ n, fs' !! x = Some n ∧ (node_kind n = Directory ∨ node_kind n = Symlink)).
  { intros t1 fs1 n Hsub Hd Hk [H1 H2]%IH. split; [by etransitivity|]. intros x [->|Hx]%elem_of_cons; [|by apply H2].
    exists n. split; [by eapply lookup_weaken|done]. }
  destruct (fs !! d) as [n|] eqn:Hd.
  - destruct (node_kind n) eqn:Hk; try done; [|destruct (node_resolves n); [|done]]; intros Hm;
      (eapply (Hgo _ fs n); [done|done| |exact Hm]); auto.
  - intros Hm. eapply (Hgo _ _ (new_node env Directory mode t)); [by apply insert_subseteq|by rewrite lookup_insert_eq|by left|exact Hm].
Qed.
(** Nothing but directories appears where there was nothing. *)
Definition no_new_file (p : string) (fs fs' : Fs) : Prop :=
  fs !! p = None → ∀ n, fs' !! p = Some n → is_file n = false.
Lemma make_dirs_no_file mode t l fs fs' p : make_dirs env mode t l fs = Ok fs' → no_new_file p fs fs'.
Proof.
  unfold no_new_file. revert t fs. induction l as [|d l IH]; intros t fs; cbn [make_dirs]; [intros [= <-]; congruence|].
  destruct (fs !! d) as [n|] eqn:Hd; [destruct (node_kind n); try done; try destruct (node_resolves n); try done; apply IH|].
  intros Hm Hp. destruct (decide (p = d)) as [->|Hne]; [|by apply (IH _ _ Hm); rewrite lookup_insert_ne].
  clear IH. assert (Hdir : ∀ t0 l0 fs0, (∃ n, fs0 !! d = Some n ∧ is_file n = false) → make_dirs env mode t0 l0 fs0 = Ok fs' →
    ∃ n, fs' !! d = Some n ∧ is_file n = false).
  { intros t0 l0. revert t0. induction l0 as [|x l0 IH]; intros t0 fs0 Hn; cbn [make_dirs]; [intros [= <-]; done|].
    destruct (fs0 !! x) as [m|] eqn:Hx; [destruct (node_kind m); try done; try destruct (node_resolves m); try done; by apply IH|].
    apply IH. destruct Hn as (n & Hn & ?). exists n. split; [|done]. rewrite lookup_insert_ne; [done|congruence]. }
  apply Hdir in Hm as (n & Hn & Hf); [|eexists; by rewrite lookup_insert_eq].
  intros n'. rewrite Hn. by intros [= <-].
Qed.
End directories.

(** ** Relations that operations respect

    [Respects R m]: whatever the outcome, [m] relates its worlds by [R]. *)
Class Respects (R : World → World → Prop) {A} (m : Backend A) : Prop := respects : ∀ w, R w (snd (m w)).
#[export] Instance respects_ret R `{!Reflexive R} A (a : A) : Respects R (mret a).
Proof. intros w. cbn. reflexivity. Qed.
#[export] Instance respects_lift R `{!Reflexive R} A (r : BackendResult A) : Respects R (lift r).
Proof. intros w. cbn. reflexivity. Qed.
Lemma backend_bind {A C} (m : Backend A) (f : A → Backend C) w :
  (m ≫= f) w = match m w with (Ok a, w1) => f a w1 | (Err e, w1) => (Err e, w1) end.
Proof. done. Qed.
Lemma backend_bind_ok {A C} (m : Backend A) (f : A → Backend C) w c w' :
  (m ≫= f) w = (Ok c, w') → ∃ a w1, m w = (Ok a, w1) ∧ f a w1 = (Ok c, w').
Proof. rewrite backend_bind. destruct (m w) as [[a|e] w1]; [eauto|done]. Qed.
#[export] Instance respects_bind R `{!Transitive R} A C (m : Backend A) (f : A → Backend C) :
  Respects R m → (∀ a, Respects R (f a)) → Respects R (m ≫= f).
Proof.
  intros Hm Hf w. rewrite backend_bind. specialize (Hm w). destruct (m w) as [[a|e] w1]; [|done].
  etransitivity; [exact Hm|apply Hf].
Qed.
#[export] Instance respects_attempt R A (m : Backend A) : Respects R m → Respects R (attempt m).
Proof. intros Hm w. specialize (Hm w). unfold attempt. by destruct (m w). Qed.
#[export] Instance respects_if R A (b : bool) (m n : Backend A) : Respects R m → Respects R n → Respects R (if b then m else n).
Proof. by destruct b. Qed.
#[export] Instance respects_option R A C (o : option C) (f : C → Backend A) (n : Backend A) :
  (∀ x, Respects R (f x)) → Respects R n → Respects R (match o with Some x => f x | None => n end).
Proof. destruct o; auto. Qed.
#[export] Instance respects_result R A C (r : BackendResult C) (f : C → Backend A) (g : BackendError → Backend A) :
  (∀ x, Respects R (f x)) → (∀ e, Respects R (g e)) → Respects R (match r with Ok x => f x | Err e => g e end).
Proof. destruct r; auto. Qed.
#[export] Instance respects_pair R A C D (x : C * D) (f : C → D → Backend A) :
  (∀ c d, Respects R (f c d)) → Respects R (let '(c, d) := x in f c d).
Proof. destruct x; auto. Qed.
Lemma respects_io R A (m : Io A) : (∀ w, R w (snd (m w))) → Respects R (io m).
Proof. intros Hm w. specialize (Hm w). unfold io. by destruct (m w). Qed.

(** What the queue and reads may touch: the owner, the schedules and the draws. *)
Record reads (w w' : World) : Prop := {
  rd_disk : w_disk w' = w_disk w;
  rd_active : w_active w' = w_active w;
  rd_clipboard : w_clipboard w' = w_clipboard w;
  rd_closed : w_closed w' = w_closed w;
  rd_seen : ∃ l, w_seen w' = l ++ w_seen w;
}.
#[export] Instance reads_preorder : PreOrder reads.
Proof.
  split; [intros w; split; try done; by exists []|].
  intros w1 w2 w3 [A1 A2 A3 A4 [l1 A5]] [B1 B2 B3 B4 [l2 B5]]. split; try congruence.
  exists (l2 ++ l1). by rewrite B5, A5, (assoc_L (++)).
Qed.
#[export] Instance client_reads A (v : BackendResult unit) `{Externals} (run : Database Tables → BackendResult A * Database Tables) :
  Respects reads (client v run).
Proof.
  intros w. unfold client. destruct v as [[]|e]; [|cbn; reflexivity].
  assert (Hset : ∀ db l seen, (∃ x, seen = x ++ w_seen w) → reads w (set_store db l seen w)) by (intros; by split).
  destruct (match w_store w with Some _ => _ | None => _ end); cbn [snd]; [apply Hset; by exists []|].
  destruct (blocked _); cbn [snd]; [apply Hset; by exists []|].
  destruct (run _) as [r db]. cbn [snd]. apply Hset. by eexists [_].
Qed.
#[export] Instance tick_reads : Respects reads tick.
Proof. intros w. split; try done. by exists []. Qed.
#[export] Instance now_reads env : Respects reads (now env).
Proof. unfold now. apply _. Qed.
#[export] Instance get_disk_reads : Respects reads get_disk.
Proof. intros w. cbn. reflexivity. Qed.
#[export] Instance get_active_reads : Respects reads get_active.
Proof. intros w. cbn. reflexivity. Qed.
#[export] Instance ensure_running_reads : Respects reads ensure_running.
Proof. intros w. cbn. reflexivity. Qed.

(** A call that only looks at the disk. *)
Lemma look_reads {A} (f : Fs → result IoError A) w :
  reads w (snd (io_call (λ fs, a ← f fs; Ok (a, fs)) unchanged w)).
Proof.
  unfold io_call. destruct (w_io w) as [|[|]]; cbn; try destruct (f (w_disk w)); cbn; split; cbn; try done; by exists [].
Qed.
Lemma look_ok {A} (f : Fs → result IoError A) w a w' :
  io_call (λ fs, a ← f fs; Ok (a, fs)) unchanged w = (Ok a, w') → f (w_disk w) = Ok a.
Proof.
  unfold io_call. destruct (w_io w) as [|[|]]; cbn; try destruct (f (w_disk w)); cbn; intros [=]; congruence.
Qed.
Lemma metadata_reads p w : reads w (snd (symlink_metadata p w)).
Proof. exact (look_reads (λ fs, ok_or (fs !! p) IoNotFound) w). Qed.
Lemma metadata_ok p w n w' : symlink_metadata p w = (Ok n, w') → w_disk w !! p = Some n.
Proof.
  intros Hm%(look_ok (λ fs, ok_or (fs !! p) IoNotFound)). by destruct (_ !! p); simplify_eq/=.
Qed.
Lemma canonical_reads p w : reads w (snd (canonicalize_is p w)).
Proof. exact (look_reads (λ fs, Ok (is_canonical fs p)) w). Qed.
Lemma canonical_ok p w b w' : canonicalize_is p w = (Ok b, w') → b = is_canonical (w_disk w) p.
Proof. intros Hm%(look_ok (λ fs, Ok (is_canonical fs p))). congruence. Qed.
Lemma respects_io_ok R A (m : Io A) : (∀ w, R w (snd (m w))) → Respects R (io_ok m).
Proof. intros Hm w. specialize (Hm w). unfold io_ok. by destruct (m w). Qed.
#[export] Instance io_metadata_reads p : Respects reads (io (symlink_metadata p)).
Proof. apply respects_io, metadata_reads. Qed.

(** How a call of the file system ends: done, refused, or failed part-way. *)
Lemma io_call_cases {A} (f : Fs → result IoError (A * Fs)) g w r w' :
  io_call f g w = (r, w') →
  w_seen w' = w_seen w ∧ w_clipboard w' = w_clipboard w ∧ w_active w' = w_active w ∧
  ((∃ a, r = Ok a ∧ f (w_disk w) = Ok (a, w_disk w'))
   ∨ (∃ e, r = Err e ∧ f (w_disk w) = Err e ∧ w_disk w' = w_disk w)
   ∨ (∃ s, is_ok r = false ∧ w_disk w' = g s (w_disk w))).
Proof.
  assert (Hok : (match f (w_disk w) with
                 | Ok (a, fs) => (Ok a, set_disk fs (set_io (tail (w_io w)) w))
                 | Err e => (Err e, set_io (tail (w_io w)) w)
                 end) = (r, w') →
    w_seen w' = w_seen w ∧ w_clipboard w' = w_clipboard w ∧ w_active w' = w_active w ∧
    ((∃ a, r = Ok a ∧ f (w_disk w) = Ok (a, w_disk w')) ∨ (∃ e, r = Err e ∧ f (w_disk w) = Err e ∧ w_disk w' = w_disk w)
     ∨ (∃ s, is_ok r = false ∧ w_disk w' = g s (w_disk w)))).
  { destruct (f (w_disk w)) as [[a fs]|e]; intros [= <- <-]; cbn; split_and!; eauto 6. }
  unfold io_call. destruct (w_io w) as [|[|s]]; [by apply Hok..|]. intros [= <- <-]. cbn. split_and!; eauto 6.
Qed.

#[export] Instance db_get_faithful id o : Faithful (db_get id o).
Proof. unfold db_get. sql_class. Qed.
(** A read that answers ran on tables the owner showed. *)
Lemma client_read_ok {A} `{Externals} (v : BackendResult unit) (m : SqlT A) w a w1 :
  client v (read m) w = (Ok a, w1) →
  v = Ok tt ∧ ∃ t s c, w_seen w1 = t :: w_seen w ∧ m (mkConn t s) = (Ok a, c).
Proof.
  unfold client. destruct v as [[]|e]; [|done]. destruct (match w_store w with Some _ => _ | None => _ end); [done|].
  destruct (blocked _); [done|]. unfold read. set (db := steps _ _).
  destruct (m (mkConn (default (durable db) (open_transaction db)) (schedule db))) as [r c] eqn:Hm.
  intros [= -> <-]. split; [done|]. eexists _, _, _. split; [reflexivity|exact Hm].
Qed.
Lemma rows_ok {A} (f : Tables → A) t s a c : rows f (mkConn t s) = (Ok a, c) → a = f t.
Proof. unfold rows. cbn. destruct s as [|[] s]; by intros [= <- _]. Qed.

(** ** Undisturbed worlds: no other client, no refusal, no fault *)
Record calm (t : Tables) (w : World) : Prop := {
  ca_db : w_db w = mkDatabase t None [] false;
  ca_turns : w_turns w = [];
  ca_store : w_store w = None;
  ca_io : w_io w = [];
}.
Lemma client_calm {A} `{Externals} (run : Database Tables → BackendResult A * Database Tables) t w :
  calm t w →
  client (Ok tt) run w
  = let '(r, db) := run (mkDatabase t None [] false) in (r, set_store db [] (t :: w_seen w) w).
Proof. intros [Hd Ht Hs Hi]. unfold client. rewrite Hs, Ht. cbn. by rewrite Hd. Qed.
Lemma calm_set_store t t' seen w : calm t w → calm t' (set_store (mkDatabase t' None [] false) [] seen w).
Proof. by intros [Hd Ht Hs Hi]. Qed.
Lemma transact_calm {A} `{Externals} (body : SqlT A) `{!Quiet body} t w :
  calm t w →
  client (Ok tt) (run_call (Transact body)) w
  = match ideal body t with
    | (Ok a, t') => (Ok a, set_store (mkDatabase t' None [] false) [] (t :: w_seen w) w)
    | (Err e, _) => (Err e, set_store (mkDatabase t None [] false) [] (t :: w_seen w) w)
    end.
Proof.
  intros Hc. rewrite (client_calm _ t) by done. cbn [run_call]. rewrite transaction_ideal by apply _.
  by destruct (ideal body t) as [[a|e] t'].
Qed.
Lemma read_calm {A} `{Externals} (m : SqlT A) `{!Quiet m} t w :
  calm t w → snd (ideal m t) = t →
  client (Ok tt) (read m) w = (fst (ideal m t), set_store (mkDatabase t None [] false) [] (t :: w_seen w) w).
Proof.
  intros Hc Hm. rewrite (client_calm _ t) by done. unfold read, ideal in *. cbn. pose proof (quiet (m := m) t) as Hq.
  unfold no_faults in Hq. destruct (m (mkConn t [])) as [r [t1 s1]]. cbn in *. by subst.
Qed.
(** A call of the file system that nothing disturbs. *)
Lemma io_call_calm {A} (f : Fs → result IoError (A * Fs)) g t w :
  calm t w → io_call f g w = match f (w_disk w) with Ok (a, fs) => (Ok a, set_disk fs (set_io [] w)) | Err e => (Err e, set_io [] w) end.
Proof. intros [Hd Ht Hs Hi]. unfold io_call. by rewrite Hi. Qed.
Lemma calm_disk t fs w : calm t w → calm t (set_disk fs (set_io [] w)).
Proof. by intros [Hd Ht Hs Hi]. Qed.
Lemma calm_io t w : calm t w → calm t (set_io [] w).
Proof. by intros [Hd Ht Hs Hi]. Qed.
