(* ===== verification/Artifacts.v ===== *)
(** * Artifacts: the registry of generated files, [history/artifacts.rs].

    SQL ownership records, not names found in the clipboard, authorise the
    deletion of a generated file. *)
From Stdlib Require Import Ascii.
From S2P Require Import Prelude Text Externals Model Classification Selection Content Sql Tables Database History Query Store Backend.
Local Open Scope Z_scope.

Definition EXTENSIONS : list string := ["png"; "jpg"; "webp"; "gif"; "bmp"; "tiff"; "svg"].
Definition PASS_LIMIT : Z := 128.

Section registry.
Context `{Externals} (env : Env).

(** [ArtifactRegistry::new]: where generated files live. *)
Definition root : option string := (λ h, h ++ "/Pictures/Screenshots/clipboard-history")%string <$> home env.

(** The last part of [owned_path]: a name this program gives. *)
Definition generated_name (path : string) : bool :=
  match path_file_name path with
  | None => false
  | Some name =>
      utf8_valid (str_bytes name) &&
      match strip_prefix "clipboard-" name ≫= rsplit_once "."%char with
      | None => false
      | Some (id, extension) => uuid_valid id && memb extension EXTENSIONS
      end
  end.
Definition private_root (n : Node) : bool :=
  bool_decide (node_kind n = Directory) && (node_owner n =? euid env) && (Z.land (node_mode n) 18 =? 0).
Definition owned_path (path : string) : Backend bool :=
  match root with
  | None => mret false
  | Some root =>
      if negb (bool_decide (path_parent path = Some root)) then mret false
      else
        canonical ← io_ok (canonicalize_is root);
        if negb (default false canonical) then mret false
        else
          metadata ← io_ok (symlink_metadata root);
          match metadata with
          | None => mret false
          | Some n => mret (private_root n && generated_name path)
          end
  end.

Definition register (path source_entry_id mime : string) (b : bytes) : Backend unit :=
  owned ← owned_path path;
  if negb owned then lift (Err (operation_error "Generated file is outside daemon ownership"))
  else
    n ← io (symlink_metadata path);
    if negb (is_file n) || negb (node_owner n =? euid env) || negb (node_links n =? 1)
    then lift (Err (operation_error "Generated file ownership is invalid"))
    else
      created_at ← now env;
      store_register_artifact (mkArtifactRecord path source_entry_id (image_identity mime b) created_at
                                 (node_device n) (node_inode n) (node_owner n)).
Definition utf8_path (path : string) : Backend string :=
  lift (_ ← ensure (utf8_valid (str_bytes path)) (operation_error "Generated path is not UTF-8"); Ok path).
Definition activate_if_generated (path : string) : Backend unit :=
  p ← utf8_path path;
  found ← store_artifact_get p;
  set_active (if bool_decide (is_Some found) then Some path else None).
(** A line of the observed selection names the file. *)
Definition names_file (path : string) (b : bytes) : bool :=
  match from_utf8 b with
  | None => false
  | Some text => existsb (λ line, bool_decide ((u ← url_parse (trim line); url_file_path u) = Some path)) (str_lines text)
  end.
Definition observe_selection (b : bytes) : Backend unit :=
  active ← get_active;
  match active with
  | None => mret tt
  | Some path => if names_file path b then mret tt else set_active None
  end.
Definition clear_active_selection : Backend unit := set_active None.

(** The file is still the one that was registered. *)
Definition unreplaced (n : Node) (record : ArtifactRecord) : bool :=
  is_file n && (node_links n =? 1) && (node_device n =? ar_device record) && (node_inode n =? ar_inode record)
  && (node_owner n =? ar_owner record) && (ar_owner record =? euid env).
Definition remove (record : ArtifactRecord) : Backend bool :=
  owned ← owned_path (ar_path record);
  if negb owned then _ ← store_forget_artifact (ar_path record); mret false
  else
    metadata ← (λ w, let '(r, w1) := symlink_metadata (ar_path record) w in (Ok r, w1));
    match metadata with
    | Err IoNotFound => _ ← store_forget_artifact (ar_path record); mret false
    | Err e => lift (Err (io_error e))
    | Ok n =>
        if negb (unreplaced n record) then _ ← store_forget_artifact (ar_path record); mret false
        else
          _ ← io (remove_file (ar_path record));
          _ ← store_forget_artifact (ar_path record);
          mret true
    end.
Definition remove_registered (path : string) : Backend unit :=
  p ← utf8_path path;
  record ← store_artifact_get p;
  _ ← match record with Some r => _ ← remove r; mret tt | None => mret tt end;
  active ← get_active;
  if bool_decide (active = Some path) then set_active None else mret tt.
Fixpoint prune_all (active : option string) (records : list ArtifactRecord) (removed : Z) : Backend Z :=
  match records with
  | [] => mret removed
  | r :: l =>
      if bool_decide (active = Some (ar_path r)) then prune_all active l removed
      else gone ← remove r; prune_all active l (removed + if gone : bool then 1 else 0)
  end.
Definition prune (before : Z) : Backend Z :=
  active ← get_active;
  records ← store_artifact_candidates before PASS_LIMIT;
  prune_all active records 0.
Definition reconcile : Backend Z := t ← now env; prune (saturating_sub t 60).
Definition clear_all : Backend Z := _ ← clear_active_selection; prune u64_max.

(** ** What may be unlinked *)
Record owned_file (fs : Fs) (path : string) : Prop := {
  of_root : ∃ r n, root = Some r ∧ path_parent path = Some r ∧ is_canonical fs r = true
                   ∧ fs !! r = Some n ∧ private_root n = true;
  of_name : generated_name path = true;
}.
Record removable (fs : Fs) (r : ArtifactRecord) : Prop := {
  rm_owned : owned_file fs (ar_path r);
  rm_node : ∃ n, fs !! ar_path r = Some n ∧ unreplaced n r = true;
}.

Lemma owned_path_spec path w res w' :
  owned_path path w = (res, w') → reads w w' ∧ ∃ b, res = Ok b ∧ (b = true → owned_file (w_disk w) path).
Proof.
  unfold owned_path. destruct root as [r|] eqn:Hr; [|intros [= <- <-]; split; [reflexivity|by exists false]].
  destruct (bool_decide _) eqn:Hp; cbn [negb]; [|intros [= <- <-]; split; [reflexivity|by exists false]].
  apply bool_decide_eq_true in Hp. rewrite backend_bind. unfold io_ok at 1.
  pose proof (canonical_reads r w) as Hc. destruct (canonicalize_is r w) as [c w1] eqn:Hcan. cbn in Hc.
  destruct (default false (ok_of c)) eqn:Hd; cbn [negb]; [|intros [= <- <-]; split; [done|by exists false]].
  destruct c as [[]|]; try done. apply canonical_ok in Hcan. rewrite backend_bind. unfold io_ok.
  pose proof (metadata_reads r w1) as Hm. destruct (symlink_metadata r w1) as [m w2] eqn:Hmeta. cbn in Hm.
  assert (Hw : reads w w2) by (by etransitivity).
  destruct m as [n|]; cbn; intros [= <- <-]; (split; [done|]); [|by exists false].
  apply metadata_ok in Hmeta. rewrite (rd_disk _ _ Hc) in Hmeta. eexists. split; [done|].
  intros [Hpr Hn]%andb_true_iff. split; [|done]. by exists r, n.
Qed.
#[export] Instance owned_path_reads path : Respects reads (owned_path path).
Proof. intros w. destruct (owned_path path w) as [res w'] eqn:Ho. by apply owned_path_spec in Ho as [? _]. Qed.
#[export] Instance register_reads path id mime b : Respects reads (register path id mime b).
Proof. unfold register, store_register_artifact. apply _. Qed.

(** [remove] unlinks the file of its record, or nothing. *)
Record unlinks (r : ArtifactRecord) (w w' : World) : Prop := {
  un_disk : w_disk w' = w_disk w ∨ (removable (w_disk w) r ∧ w_disk w' = delete (ar_path r) (w_disk w));
  un_active : w_active w' = w_active w;
  un_clipboard : w_clipboard w' = w_clipboard w;
  un_seen : ∃ l, w_seen w' = l ++ w_seen w;
}.
Lemma reads_unlinks r w w1 w' : reads w w1 → unlinks r w1 w' → unlinks r w w'.
Proof.
  intros [A1 A2 A3 A4 [l1 A5]] [B1 B2 B3 [l2 B4]]. split; [by rewrite <- A1|congruence..|].
  exists (l2 ++ l1). by rewrite B4, A5, (assoc_L (++)).
Qed.
Lemma unlinks_reads r w w1 w' : unlinks r w w1 → reads w1 w' → unlinks r w w'.
Proof.
  intros [B1 B2 B3 [l2 B4]] [A1 A2 A3 A4 [l1 A5]]. split; [by rewrite A1|congruence..|].
  exists (l1 ++ l2). by rewrite A5, B4, (assoc_L (++)).
Qed.
Lemma reads_unlinks_only r w w' : reads w w' → unlinks r w w'.
Proof. intros [A1 A2 A3 A4 A5]. by split; auto. Qed.
Lemma remove_file_spec p w res w' :
  remove_file p w = (res, w') →
  w_active w' = w_active w ∧ w_clipboard w' = w_clipboard w ∧ w_seen w' = w_seen w ∧ w_closed w' = w_closed w
  ∧ (w_disk w' = w_disk w ∨ w_disk w' = delete p (w_disk w)).
Proof.
  unfold remove_file, io_call.
  destruct (w_io w) as [|[|]]; cbn; try destruct (w_disk w !! p); cbn; try case_decide; cbn; intros [= <- <-]; cbn;
    split_and!; auto.
Qed.
Lemma remove_spec r : Respects (unlinks r) (remove r).
Proof.
  intros w. unfold remove. rewrite backend_bind. destruct (owned_path (ar_path r) w) as [o w1] eqn:Ho.
  apply owned_path_spec in Ho as (H1 & b & -> & Hb).
  destruct b; cbn [negb]; [|apply (reads_unlinks r w w1); [done|apply reads_unlinks_only];
    by refine (respects (R := reads) (m := _ ← store_forget_artifact _; mret false) w1)].
  specialize (Hb eq_refl). rewrite backend_bind.
  pose proof (metadata_reads (ar_path r) w1) as H2. destruct (symlink_metadata (ar_path r) w1) as [m w2] eqn:Hm. cbn in H2.
  apply (reads_unlinks r w w1); [done|]. apply (reads_unlinks r w1 w2); [done|].
  destruct m as [n|[|e]]; [|apply reads_unlinks_only..]; [|by refine (respects (R := reads) (m := _ ← store_forget_artifact _; mret false) w2)|done].
  apply metadata_ok in Hm. destruct (unreplaced n r) eqn:Hu; cbn [negb];
    [|apply reads_unlinks_only; by refine (respects (R := reads) (m := _ ← store_forget_artifact _; mret false) w2)].
  rewrite backend_bind. unfold io. destruct (remove_file (ar_path r) w2) as [res w3] eqn:Hrm.
  apply remove_file_spec in Hrm as (Ha & Hc & Hs & Hcl & Hd). rewrite (rd_disk _ _ H2) in *. rewrite (rd_disk _ _ H1) in *.
  assert (Hun : unlinks r w2 w3).
  { split; [|done|done|by exists []]. destruct Hd as [Hd|Hd]; rewrite (rd_disk _ _ H2), (rd_disk _ _ H1); [by left|right].
    split; [|done]. split; [done|]. by exists n. }
  destruct res as [[]|e]; cbn [map_err]; [|done]. eapply unlinks_reads; [exact Hun|].
  by refine (respects (R := reads) (m := _ ← store_forget_artifact _; mret true) w3).
Qed.
Lemma remove_counts r w b w' :
  remove r w = (Ok b, w') → Z.of_nat (size (w_disk w')) + (if b then 1 else 0) = Z.of_nat (size (w_disk w)).
Proof.
  intros Hr. unfold remove in Hr. apply backend_bind_ok in Hr as (o & w1 & Ho & Hr).
  apply owned_path_spec in Ho as [H1 _]. rewrite <- (rd_disk _ _ H1).
  assert (Hf : ∀ x w2, (_ ← store_forget_artifact x; mret false) w2 = (Ok b, w') → b = false ∧ w_disk w' = w_disk w2).
  { intros x w2 Hx. pose proof (respects (R := reads) (m := (_ ← store_forget_artifact x; mret false)) w2) as Hd.
    rewrite Hx in Hd. split; [|apply Hd]. apply backend_bind_ok in Hx as (? & ? & _ & [= <- _]). done. }
  destruct o; cbn [negb] in Hr; [|apply Hf in Hr as [-> ->]; lia].
  apply backend_bind_ok in Hr as (m & w2 & Hm & Hr). pose proof (metadata_reads (ar_path r) w1) as H2.
  destruct (symlink_metadata (ar_path r) w1) as [x w3] eqn:Hx. injection Hm as <- <-. cbn in H2. rewrite <- (rd_disk _ _ H2).
  destruct x as [n|[|e]]; [|apply Hf in Hr as [-> ->]; lia|done].
  destruct (unreplaced n r); cbn [negb] in Hr; [|apply Hf in Hr as [-> ->]; lia].
  apply metadata_ok in Hx. rewrite <- (rd_disk _ _ H2) in Hx.
  apply backend_bind_ok in Hr as ([] & w4 & Hd & Hr). unfold io in Hd.
  destruct (remove_file (ar_path r) w3) as [res w5] eqn:Hrm. injection Hd as Hres <-.
  apply backend_bind_ok in Hr as (y & w6 & Hy & [= <- <-]).
  pose proof (respects (R := reads) (m := store_forget_artifact (ar_path r)) w5) as H5. rewrite Hy in H5. cbn in H5.
  rewrite (rd_disk _ _ H5). unfold remove_file, io_call in Hrm. rewrite Hx in Hrm.
  destruct (w_io w3) as [|[|]]; cbn in Hrm; try case_decide; injection Hrm as <- <-; try done; cbn in *;
    rewrite map_size_delete, Hx; (assert (size (w_disk w3) ≠ 0)%nat by (apply (map_size_ne_0_lookup_2 _ (ar_path r)); eauto)); lia.
Qed.

Lemma is_canonical_weaken fs fs' p : fs' ⊆ fs → is_canonical fs' p = true → is_canonical fs p = true.
Proof.
  intros Hs [Ha Hf]%andb_true_iff. apply andb_true_iff. split; [done|]. rewrite forallb_forall in *. intros d Hd.
  specialize (Hf d Hd). destruct (fs' !! d) eqn:Hl; [|done]. by rewrite (lookup_weaken _ _ _ _ Hl Hs).
Qed.
Lemma removable_weaken fs fs' r : fs' ⊆ fs → removable fs' r → removable fs r.
Proof.
  intros Hs [[(rt & n & ? & ? & ? & ? & ?) ?] (m & ? & ?)]. split; [split; [|done]; exists rt, n; split_and!|exists m];
    eauto using is_canonical_weaken, lookup_weaken.
Qed.

(** What a pass over [records] did to the disk. *)
Record pruned (active : option string) (records : list ArtifactRecord) (w w' : World) : Prop := {
  pr_disk : ∀ p, w_disk w' !! p = w_disk w !! p
                 ∨ (w_disk w' !! p = None ∧ active ≠ Some p ∧ ∃ r, r ∈ records ∧ ar_path r = p ∧ removable (w_disk w) r);
  pr_active : w_active w' = w_active w;
  pr_clipboard : w_clipboard w' = w_clipboard w;
  pr_seen : ∃ l, w_seen w' = l ++ w_seen w;
}.
Lemma prune_all_spec active records k w res w' :
  prune_all active records k w = (res, w') →
  pruned active records w w'
  ∧ ∀ n, res = Ok n → Z.of_nat (size (w_disk w')) + n = Z.of_nat (size (w_disk w)) + k.
Proof.
  revert k w. induction records as [|r l IH]; intros k w; cbn [prune_all].
  { intros [= <- <-]. split; [split; auto; by exists []|by intros n [= <-]]. }
  assert (Hmore : ∀ w1, pruned active l w1 w' → w_disk w1 ⊆ w_disk w → pruned active (r :: l) w1 w').
  { intros w1 [A B C D] _. split; try done. intros p. destruct (A p) as [?|(? & ? & r' & ? & ?)]; [by left|right].
    split_and!; try done. exists r'. split; [set_solver|done]. }
  destruct (bool_decide _) eqn:Ha.
  { intros [Hp Hn]%IH. split; [by apply Hmore|done]. }
  apply bool_decide_eq_false in Ha. rewrite backend_bind. pose proof (remove_spec r w) as Hr.
  destruct (remove r w) as [[b|e] w1] eqn:Hrm; cbn in Hr; destruct Hr as [Hd Hac Hcl [l1 Hs]].
  - apply remove_counts in Hrm. intros [[A B C [l2 D]] Hn]%IH.
    split; [|intros n Hres; specialize (Hn n Hres); destruct b; lia].
    assert (Hsub : w_disk w1 ⊆ w_disk w) by (destruct Hd as [->|[_ ->]]; [done|apply delete_subseteq]).
    split; try congruence; [|exists (l2 ++ l1); by rewrite D, Hs, (assoc_L (++))].
    intros p. destruct (A p) as [Hp|(Hp & Hne & r' & Hin & Hpath & Hrem)].
    + rewrite Hp. destruct Hd as [->|[Hrem ->]]; [by left|].
      destruct (decide (p = ar_path r)) as [->|Hne]; [|left; by rewrite lookup_delete_ne].
      right. rewrite lookup_delete_eq. split_and!; try done. exists r. split_and!; try done. set_solver.
    + right. split_and!; try done. exists r'. split_and!; [set_solver|done|]. by eapply removable_weaken.
  - intros [= <- <-]. split; [|done]. split; try done; [|by exists l1]. intros p.
    destruct Hd as [->|[Hrem ->]]; [by left|]. destruct (decide (p = ar_path r)) as [->|Hne]; [|left; by rewrite lookup_delete_ne].
    right. rewrite lookup_delete_eq. split_and!; try done. exists r. split_and!; try done. set_solver.
Qed.

Lemma candidates_ok before limit w l w1 :
  store_artifact_candidates before limit w = (Ok l, w1) →
  ∃ t, w_seen w1 = t :: w_seen w
  ∧ l = decode_artifact <$> ztake (Z.min limit 4096) (order_by by_age (unreferenced (Z.min before i64_max) t)).
Proof.
  unfold store_artifact_candidates. intros (_ & t & s & c & Hs & Hm)%client_read_ok. exists t. split; [done|]. by apply rows_ok in Hm.
Qed.

Lemma prune_spec before w res w' :
  prune before w = (res, w') →
  w_active w' = w_active w ∧ w_clipboard w' = w_clipboard w
  ∧ (∀ n, res = Ok n → Z.of_nat (size (w_disk w')) + n = Z.of_nat (size (w_disk w)))
  ∧ ∀ p, w_disk w' !! p ≠ w_disk w !! p →
      w_disk w' !! p = None ∧ w_active w ≠ Some p ∧ owned_file (w_disk w) p
      ∧ ∃ t row n, t ∈ w_seen w' ∧ (p, row) ∈ unreferenced (Z.min before i64_max) t
          ∧ w_disk w !! p = Some n ∧ unreplaced n (decode_artifact (p, row)) = true.
Proof.
  unfold prune. rewrite backend_bind. cbn [get_active]. rewrite backend_bind.
  pose proof (respects (R := reads) (m := store_artifact_candidates before PASS_LIMIT) w) as Hc.
  destruct (store_artifact_candidates before PASS_LIMIT w) as [[l|e] w1] eqn:Hl; cbn in Hc.
  2: { intros [= <- <-]. rewrite (rd_disk _ _ Hc). split_and!; [apply Hc|apply Hc|done|done]. }
  apply candidates_ok in Hl as (t & Hs & ->). intros [[A B C [x D]] Hn]%prune_all_spec.
  rewrite (rd_disk _ _ Hc) in *. rewrite (rd_active _ _ Hc) in B. rewrite (rd_clipboard _ _ Hc) in C.
  split_and!; try done; [intros n Hr; specialize (Hn n Hr); lia|].
  intros p Hp. destruct (A p) as [?|(Hnone & Hne & r & Hin & <- & [Ho (n & Hlk & Hu)])]; [done|].
  apply list_elem_of_fmap in Hin as ([p row] & -> & Hin). rewrite ztake_take in Hin.
  apply elem_of_take in Hin as (i & Hi & _). apply list_elem_of_lookup_2, elem_of_order_by in Hi.
  split_and!; try done. exists t, row, n. split_and!; try done. rewrite D, Hs. set_solver.
Qed.
(** A clean-up pass deletes nothing but this program's own unreferenced
    files: every path it removes was, in the tables the pass read, a registered
    row older than the bound that no live entry owns or names; it is not the
    file the clipboard offers; it lies directly in the private, link-free
    directory of generated files under a generated name; and it is still the
    very file that was registered (regular, same device, inode and owner, one
    link).  Everything else on the disk is untouched, and the reported number is
    the number of files deleted. *)
Theorem prune_unlinks_own before w res w' :
  prune before w = (res, w') →
  w_active w' = w_active w ∧ w_clipboard w' = w_clipboard w
  ∧ (∀ n, res = Ok n → Z.of_nat (size (w_disk w')) + n = Z.of_nat (size (w_disk w)))
  ∧ ∀ p, w_disk w' !! p ≠ w_disk w !! p →
      w_disk w' !! p = None ∧ w_active w ≠ Some p ∧ owned_file (w_disk w) p
      ∧ ∃ t row n, t ∈ w_seen w' ∧ (p, row) ∈ unreferenced (Z.min before i64_max) t
          ∧ w_disk w !! p = Some n ∧ unreplaced n (decode_artifact (p, row)) = true.
Proof. apply prune_spec. Qed.

(** ** Undisturbed passes make progress *)
Definition storable_path (p : string) : Prop := utf8_valid (str_bytes p) = true ∧ str_len p <= 32768.
Definition forget (p : string) (t : Tables) : Tables := set_registry (delete p (t_artifacts t)) (t_inline_echoes t) t.
Lemma forget_calm p t w :
  calm t w → storable_path p →
  ∃ w', store_forget_artifact p w = (Ok tt, w') ∧ calm (forget p t) w' ∧ w_disk w' = w_disk w ∧ w_active w' = w_active w.
Proof.
  intros Hc [Hu Hl]. unfold store_forget_artifact, forget_artifact. cbn [validate]. unfold validate_path.
  rewrite (proj2 (Z.leb_le _ _) Hl), Hu. cbn [ensure negb].
  rewrite (transact_calm _ t) by done. rewrite ideal_exec. cbn [delete_artifact_stmt].
  eexists. split; [reflexivity|]. split_and!; [by apply (calm_set_store t)|done..].
Qed.
Lemma owned_path_calm path t w :
  calm t w → ∃ b w', owned_path path w = (Ok b, w') ∧ calm t w' ∧ w_disk w' = w_disk w ∧ w_active w' = w_active w.
Proof.
  intros Hc. unfold owned_path. destruct root as [r|]; [|by eauto 6]. destruct (negb (bool_decide _)); [by eauto 6|].
  rewrite backend_bind. unfold io_ok at 1, canonicalize_is. rewrite (io_call_calm _ _ t) by done.
  pose proof (calm_disk t (w_disk w) w Hc) as Hc1.
  destruct (negb (default false _)); [by eauto 8|]. rewrite backend_bind. unfold io_ok, symlink_metadata.
  rewrite (io_call_calm _ _ t) by done. cbn [w_disk set_disk set_io].
  destruct (w_disk w !! r) as [n|]; cbn; eexists _, _; (split; [reflexivity|]); split_and!; try done.
Qed.
Lemma remove_calm r t w :
  calm t w → storable_path (ar_path r) →
  ∃ b w', remove r w = (Ok b, w') ∧ calm (forget (ar_path r) t) w' ∧ w_active w' = w_active w.
Proof.
  intros Hc Hp. unfold remove. rewrite backend_bind.
  destruct (owned_path_calm (ar_path r) t w Hc) as (b & w1 & -> & Hc1 & Hd1 & Ha1).
  assert (Hforget : ∀ x w2, calm t w2 → w_active w2 = w_active w →
    ∃ b w', (_ ← store_forget_artifact (ar_path r); mret (x : bool)) w2 = (Ok b, w')
            ∧ calm (forget (ar_path r) t) w' ∧ w_active w' = w_active w).
  { intros x w2 Hc2 Ha2. rewrite backend_bind. destruct (forget_calm _ t w2 Hc2 Hp) as (w3 & -> & Hc3 & _ & Ha3).
    exists x, w3. split_and!; [done..|congruence]. }
  destruct b; cbn [negb]; [|by apply Hforget]. rewrite backend_bind. unfold symlink_metadata.
  rewrite (io_call_calm _ _ t) by done. destruct (w_disk w1 !! ar_path r) as [n|] eqn:Hl; cbn.
  2: { apply Hforget; [by apply calm_io|done]. }
  destruct (unreplaced n r) eqn:Hu; cbn [negb]; [|apply Hforget; [by apply calm_disk|done]].
  rewrite backend_bind. unfold io, remove_file. rewrite (io_call_calm _ _ t) by (by apply calm_disk). cbn. rewrite Hl. cbn.
  unfold unreplaced, is_file in Hu. bools. rewrite decide_False by congruence. cbn.
  apply Hforget; [|done]. by destruct Hc1.
Qed.

Definition spared (active : option string) (l : list ArtifactRecord) : list string :=
  filter (λ p, active ≠ Some p) (ar_path <$> l).
Lemma prune_all_calm active l k t w :
  calm t w → Forall (λ r, storable_path (ar_path r)) l →
  ∃ n w' t', prune_all active l k w = (Ok n, w') ∧ calm t' w'
    ∧ (∀ p, t_artifacts t' !! p = if decide (p ∈ spared active l) then None else t_artifacts t !! p)
    ∧ t_entries t' = t_entries t ∧ t_entry_artifacts t' = t_entry_artifacts t.
Proof.
  revert k t w. induction l as [|r l IH]; intros k t w Hc Hl; cbn [prune_all].
  { exists k, w, t. split_and!; try done. }
  apply Forall_cons in Hl as [Hr Hl]. unfold spared in *. cbn [fmap list_fmap]. rewrite filter_cons.
  destruct (bool_decide _) eqn:Ha.
  { apply bool_decide_eq_true in Ha as ->. rewrite decide_False by naive_solver. by apply IH. }
  apply bool_decide_eq_false in Ha. rewrite decide_True by done. rewrite backend_bind.
  destruct (remove_calm r t w Hc Hr) as (b & w1 & -> & Hc1 & _).
  destruct (IH (k + if b then 1 else 0) _ w1 Hc1 Hl) as (n & w' & t' & -> & Hc' & Hreg & He & Hea).
  exists n, w', t'. split_and!; try done. intros p. rewrite Hreg. cbn.
  destruct (decide (p = ar_path r)) as [->|Hne].
  - rewrite (decide_True (P := ar_path r ∈ ar_path r :: _)) by set_solver. rewrite lookup_delete_eq. by case_decide.
  - rewrite lookup_delete_ne by done. do 2 case_decide; try done; set_solver.
Qed.

Lemma size_without {V} (ks : list string) (m m' : gmap string V) :
  NoDup ks → (∀ k, k ∈ ks → is_Some (m !! k)) → (∀ p, m' !! p = if decide (p ∈ ks) then None else m !! p) →
  (size m' + length ks = size m)%nat.
Proof.
  revert m. induction ks as [|k ks IH]; intros m Hnd Hin Hm'.
  { replace m' with m; [cbn; lia|]. apply map_eq. intros p. rewrite Hm'. case_decide as Hp; [|done]. by apply elem_of_nil in Hp. }
  apply NoDup_cons in Hnd as [Hk Hnd]. specialize (IH (delete k m) Hnd). cbn.
  assert (Hs : is_Some (m !! k)) by (apply Hin; set_solver).
  pose proof (map_size_delete_Some k m Hs). pose proof (map_size_ne_0_lookup_2 m k Hs).
  rewrite <- Nat.add_succ_comm. cbn. rewrite IH; [lia| |].
  - intros x Hx. rewrite lookup_delete_ne by (intros ->; done). apply Hin. set_solver.
  - intros p. rewrite Hm'. destruct (decide (p = k)) as [->|Hne].
    + rewrite decide_True by set_solver. rewrite lookup_delete_eq. by case_decide.
    + rewrite lookup_delete_ne by done. do 2 case_decide; try done; set_solver.
Qed.
Lemma unreferenced_rows before t : NoDup (unreferenced before t).*1.
Proof.
  unfold unreferenced. eapply sublist_NoDup; [apply (NoDup_fst_map_to_list (t_artifacts t))|].
  apply fmap_sublist, sublist_filter.
Qed.
Lemma candidate_rows before t l :
  l = ztake PASS_LIMIT (order_by by_age (unreferenced before t)) →
  NoDup l.*1 ∧ ∀ p row, (p, row) ∈ l → t_artifacts t !! p = Some row.
Proof.
  intros ->. rewrite ztake_take. split.
  - eapply sublist_NoDup; [|apply fmap_sublist, sublist_take]. rewrite order_by_perm. apply unreferenced_rows.
  - intros p row Hin. apply elem_of_take in Hin as (i & Hi & _).
    apply list_elem_of_lookup_2, elem_of_order_by, list_elem_of_filter in Hi as [_ Hi]. by apply elem_of_map_to_list.
Qed.

(** Clean-up is never starved: undisturbed, a full pass succeeds and
    forgets the 128 oldest rows that no live entry owns or names, whatever
    became of their files; so the registry shrinks by that many rows, or by all
    there are, and no other row is touched. *)
Theorem clear_all_progress t w :
  calm t w → (∀ p, is_Some (t_artifacts t !! p) → storable_path p) →
  let rows := ztake PASS_LIMIT (order_by by_age (unreferenced i64_max t)) in
  ∃ n w' t', clear_all w = (Ok n, w') ∧ calm t' w'
    ∧ (∀ p, t_artifacts t' !! p = if decide (p ∈ rows.*1) then None else t_artifacts t !! p)
    ∧ Z.of_nat (size (t_artifacts t')) = Z.of_nat (size (t_artifacts t)) - Z.min PASS_LIMIT (zlen (unreferenced i64_max t)).
Proof.
  intros Hc Hst rows. destruct (candidate_rows i64_max t rows eq_refl) as [Hnd Hrow].
  unfold clear_all. rewrite backend_bind. cbn [clear_active_selection set_active]. unfold prune. rewrite backend_bind.
  cbn [get_active w_active]. set (w0 := mkWorld _ _ _ _ _ _ _ _ _ _). assert (Hc0 : calm t w0) by (by destruct Hc).
  rewrite backend_bind. unfold store_artifact_candidates. rewrite (read_calm _ t) by done.
  cbn [artifact_candidates fst]. change (fst (ideal (artifact_candidates u64_max PASS_LIMIT) t))
    with (Ok (E := BackendError) (decode_artifact <$> rows)).
  set (w1 := set_store _ _ _ w0). assert (Hc1 : calm t w1) by (by destruct Hc0).
  destruct (prune_all_calm None (decode_artifact <$> rows) 0 t w1 Hc1) as (n & w' & t' & Hp & Hc' & Hreg & _).
  { apply Forall_fmap, Forall_forall. intros [p row] Hin. apply Hst. cbn. by rewrite (Hrow p row). }
  assert (Hreg' : ∀ p, t_artifacts t' !! p = if decide (p ∈ rows.*1) then None else t_artifacts t !! p).
  { intros p. rewrite Hreg. unfold spared. rewrite <- list_fmap_compose.
    apply decide_ext. rewrite list_elem_of_filter. split; [by intros [_ ?]|by split]. }
  exists n, w', t'. split_and!; try done.
  pose proof (size_without rows.*1 (t_artifacts t) (t_artifacts t') Hnd) as Hsz.
  assert (Hlen : Z.of_nat (length rows.*1) = Z.min PASS_LIMIT (zlen (unreferenced i64_max t))).
  { rewrite length_fmap. fold (zlen rows). subst rows. by rewrite zlen_ztake, zlen_order_by. }
  rewrite <- Hlen. rewrite <- Hsz; [lia| |done]. intros p ([q row] & -> & Hin)%list_elem_of_fmap. cbn. by rewrite (Hrow q row).
Qed.
End registry.
