(* ===== verification/Mutations.v ===== *)
(** * Mutations: the synchronous operations of [HistoryBackend], [history.rs]
    and [history/mutation.rs], composed from the store, the disk, the registry
    and the Wayland selection.  Each runs under the backend's transaction lock. *)
From Stdlib Require Import Ascii.
From stdpp Require Import pretty.
From S2P Require Import Prelude Text Externals Model Classification Selection Secret Content Sql Tables Database History Query Store Backend Artifacts.
Local Open Scope Z_scope.

Definition image_extension (mime : string) : string :=
  let essence := before_char ";"%char mime in
  if bool_decide (essence = "image/jpeg") then "jpg"
  else if bool_decide (essence = "image/webp") then "webp"
  else if bool_decide (essence = "image/gif") then "gif"
  else if bool_decide (essence = "image/bmp") then "bmp"
  else if bool_decide (essence = "image/tiff") then "tiff"
  else if bool_decide (essence = "image/svg+xml") then "svg"
  else "png".
Definition image_error : BackendError := invalid_data "Only image entries support this action".
Definition with_mime (mime : string) (s : EntrySummary) : EntrySummary :=
  mkSummary (s_id s) (s_revision s) (s_kind s) mime (s_byte_size s) (s_favorite s) (s_current s) (s_preview s).
Definition with_path (p : string) (r : OperationResult) : OperationResult :=
  mkOperation (o_id r) (o_action r) (o_status r) (o_message r) (Some p) (o_warning r).

(** [AnnotationStage]. *)
Record AnnotationStage := mkStage {
  ann_input : string;
  ann_output : string;
  ann_opaque_id : string;
  ann_revision : Z;
  ann_max_bytes : Z;
}.
(** [OperationCompletion]. *)
Record Completion := mkCompleted { co_status : string; co_message : string; co_warning : option string }.

Section mutations.
Context `{Externals} (env : Env).

Definition selection_changed : Backend unit := clear_active_selection.
Definition selected (id : string) (expected : option Z) : Backend StoredEntry := store_get id expected.
Definition selected_bytes (id : string) (expected : option Z) (max_bytes : Z) : Backend (EntrySummary * bytes) :=
  stored ← selected id expected;
  _ ← lift (validate_size (zlen (st_bytes stored)) max_bytes);
  mret (with_mime (st_mime stored) (st_summary stored), st_bytes stored).
Definition selected_image (id : string) (expected : option Z) (max_bytes : Z) : Backend (EntrySummary * bytes) :=
  x ← selected_bytes id expected max_bytes;
  if bool_decide (s_kind x.1 = Image) then mret x else lift (Err image_error).
Definition resolved_content (fs : Fs) (mime : string) (b : bytes) (max_bytes : Z) : ResolvedContent :=
  resolve fs mime b (effective_limit max_bytes).

(** ** Restore *)
Definition publish_entry (summary : EntrySummary) (b : bytes) (max_bytes : Z) : Backend unit :=
  fs ← get_disk;
  let content := resolved_content fs (s_mime summary) b max_bytes in
  if bool_decide (s_kind summary = Image) && negb (bool_decide (rc_kind content = Image)) then
    lift (Err (invalid_data "Clipboard image file is missing, unsafe, invalid, or exceeds the size limit"))
  else
    match local_image content with
    | Some source => on_clipboard (publish_file wayland_publisher fs (li_mime source) (li_path source) max_bytes)
    | None => on_clipboard (Selection.publish wayland_publisher (resolved_mime content) b max_bytes)
    end.
Definition restore_entry (id : string) (expected : option Z) (max_bytes : Z) : Backend OperationResult :=
  '(summary, b) ← selected_bytes id expected max_bytes;
  _ ← publish_entry summary b max_bytes;
  _ ← selection_changed;
  completed_now env "copy" "Entry published to the Wayland clipboard".

(** ** An image as a file *)
Definition image_directory : Backend string :=
  h ← lift (ok_or (home env) (operation_error "HOME is unavailable"));
  private_directory env (h ++ "/Pictures/Screenshots/clipboard-history")%string.
(** The path, and whether this call created it. *)
Definition prepare_image_file (content : ResolvedContent) (b : bytes) : Backend (string * bool) :=
  match rc_image content with
  | Some (LocalFile source) => mret (li_path source, false)
  | Some (Inline mime _) =>
      directory ← image_directory;
      path ← unique_path env directory (image_extension mime);
      _ ← write_private env path b;
      mret (path, true)
  | None => lift (Err image_error)
  end.
Definition track_image_file (path : string) (created : bool) (source_id mime : string) (b : bytes) : Backend unit :=
  if negb created then mret tt
  else
    r ← attempt (register env path source_id mime b);
    match r with
    | Ok _ => mret tt
    | Err e => _ ← io_ok (remove_file path); lift (Err e)
    end.
Definition rollback_image_file (path : string) (created : bool) : Backend unit :=
  if created then remove_registered env path else mret tt.
Definition publish_image_uri (path : string) (max_bytes : Z) : Backend unit :=
  uri ← lift (ok_or (url_from_file_path path) (operation_error "Could not create image file URI"));
  on_clipboard (publish_file_link wayland_publisher (str_bytes uri ++ CRLF) max_bytes).
Definition save_image_file (id : string) (expected : option Z) (max_bytes : Z) : Backend OperationResult :=
  '(summary, b) ← selected_image id expected max_bytes;
  fs ← get_disk;
  let content := resolved_content fs (s_mime summary) b max_bytes in
  '(path, created) ← prepare_image_file content b;
  _ ← track_image_file path created (s_id summary) (resolved_mime content) b;
  r ← attempt (publish_image_uri path max_bytes);
  match r with
  | Err e => _ ← rollback_image_file path created; lift (Err e)
  | Ok _ =>
      _ ← activate_if_generated path;
      op ← completed_now env "image-as-file" (if created : bool then "Image file copied" else "Image file link copied");
      mret (with_path path op)
  end.

(** ** Annotation *)
Definition stage_annotation (id : string) (expected : option Z) (max_bytes : Z) : Backend AnnotationStage :=
  let limit := Z.min max_bytes MAX_THUMBNAIL_BYTES in
  '(summary, b) ← selected_image id expected limit;
  fs ← get_disk;
  let content := resolved_content fs (s_mime summary) b limit in
  '(mime, image_bytes) ← match rc_image content with
                         | Some (Inline mime _) => mret (mime, b)
                         | Some (LocalFile source) =>
                             image ← lift (read_path fs (li_path source) limit); mret (li_mime source, image)
                         | None => lift (Err image_error)
                         end;
  directory ← runtime_directory env "clip-daemon/edits";
  input ← unique_path env directory (image_extension mime);
  output ← unique_path env directory "png";
  _ ← write_private env input image_bytes;
  mret (mkStage input output id (s_revision summary) limit).
(** The commit of an edited image: the history first, the selection after. *)
Definition apply_annotation (id : string) (revision : Z) (output : string) (max_bytes : Z) : Backend Completion :=
  fs ← get_disk;
  b ← lift (ok_or (read_edited_image fs output max_bytes) (operation_error "Annotation returned an invalid image"));
  _ ← store_replace id revision "image/png" b;
  published ← attempt (_ ← on_clipboard (Selection.publish wayland_publisher "image/png" b max_bytes); selection_changed);
  match published with
  | Ok _ => mret (mkCompleted "completed" "Image edit completed" None)
  | Err e => mret (mkCompleted "completed" "Image edit committed"
                     (Some ("Clipboard publication failed: " ++ message e)%string))
  end.

(** ** Deleting, favourites, clean-up, wipe *)
Definition remove_entry (id : string) (expected : option Z) : Backend OperationResult :=
  stored ← selected id expected;
  _ ← store_remove_many [mkTarget id (s_revision (st_summary stored))];
  completed_now env "delete" "Clipboard entry deleted".
Definition remove_entries (targets : list EntryTarget) : Backend OperationResult :=
  _ ← store_remove_many targets;
  let count := zlen targets in
  completed_now env "delete-many"
    (pretty count ++ " clipboard " ++ (if (count =? 1)%Z then "entry" else "entries") ++ " deleted")%string.
Definition move_entry (id : string) (expected : option Z) (favorite : bool) : Backend OperationResult :=
  stored ← selected id expected;
  _ ← store_favorite id (s_revision (st_summary stored)) favorite;
  completed_now env (if favorite : bool then "favorite" else "unfavorite") "Favorite state updated".
Definition clear_cache : Backend unit :=
  cache ← lift (ok_or (xdg_cache env) (unavailable "Clipboard cache directory is unavailable"));
  r ← (λ w, let '(r, w1) := remove_dir_all (cache ++ "/clip-daemon") w in (Ok r, w1));
  match r with
  | Ok _ | Err IoNotFound => mret tt
  | Err _ => lift (Err (unavailable "Clipboard cache could not be cleared"))
  end.
Definition cleanup_backend : Backend Z :=
  _ ← clear_cache;
  runtime ← runtime_directory env "clip-daemon";
  _ ← io (remove_dir_all runtime);
  reconcile env.
Definition cleanup_artifacts : Backend OperationResult :=
  removed ← cleanup_backend;
  completed_now env "cleanup"
    ("Clipboard caches cleared; " ++ pretty removed ++ " unreferenced generated files removed")%string.
Definition wipe_entries : Backend OperationResult :=
  _ ← store_wipe;
  _ ← attempt (_ ← cleanup_backend; clear_all env);
  completed_now env "wipe" "Clipboard history cleared".

(** ** [history.rs] *)
Definition query_sync (q : HistoryQuery) : Backend HistoryPage :=
  page ← store_query q;
  _ ← attempt (reconcile env);
  mret page.
Definition details_sync (id : string) (max_text_bytes : Z) : Backend EntryDetails :=
  stored ← selected id None;
  fs ← get_disk;
  mret (entry_details fs stored max_text_bytes).
Definition revision_sync (id : string) : Backend Z := store_entry_revision id.
Definition change_token_sync : Backend Z := store_revision.
Definition mutate_sync (id : string) (expected : option Z) (m : BackendMutation) : Backend OperationResult :=
  _ ← lift (require_revision m expected);
  match m with
  | Restore max_bytes => restore_entry id expected max_bytes
  | ImageAsFile max_bytes => save_image_file id expected max_bytes
  | Remove => remove_entry id expected
  | SetFavorite value => move_entry id expected value
  | Wipe => wipe_entries
  | Cleanup => cleanup_artifacts
  | Annotate _ => lift (Err (operation_error "External editing must be started asynchronously"))
  end.
Definition replace_sync (id : string) (expected : Z) (mime : string) (b : bytes) : Backend ReplacementResult :=
  summary ← store_replace id expected mime b;
  fs ← get_disk;
  let details := entry_details fs (mkStored summary mime b) MAX_DETAILS_BYTES in
  publication ← attempt (restore_entry (s_id summary) (Some (s_revision summary)) MAX_DETAILS_BYTES);
  let '(selection_published, publication_message) :=
    match publication with
    | Ok _ => (true, "Replacement published to the clipboard"%string)
    | Err e => (false, ("Replacement committed, but clipboard publication failed: " ++ message e)%string)
    end in
  mret (mkReplacement details selection_published publication_message).
Definition publish_sync (mime : string) (b : bytes) (max_bytes : Z) : Backend OperationResult :=
  if bool_decide (b = []) then lift (Err (invalid_data "Published clipboard content must not be empty"))
  else
    _ ← on_clipboard (Selection.publish wayland_publisher mime b max_bytes);
    _ ← selection_changed;
    completed_now env "publish" "Content published to the Wayland clipboard".
Definition publish_sensitive_sync (text : string) (seconds : Z) : Backend OperationResult :=
  _ ← on_clipboard (publish_sensitive (str_bytes text) seconds);
  completed_now env "publish-sensitive" "Sensitive content copied without history".
Fixpoint encode_file_uris (paths : list string) (acc : bytes) : BackendResult bytes :=
  match paths with
  | [] => Ok acc
  | p :: l =>
      uri ← ok_or (url_from_file_path p) (invalid_data "File selection path is invalid");
      encode_file_uris l (acc ++ str_bytes uri ++ CRLF)
  end.
Definition publish_files_sync (s : FileSelection) (max_bytes : Z) : Backend OperationResult :=
  _ ← lift (map_err invalid_data (FileSelection_validate s));
  let count := zlen (paths s) in
  uris ← lift (encode_file_uris (paths s) []);
  _ ← on_clipboard (publish_files wayland_publisher (FileSelectionOperation_as_str (operation s)) uris max_bytes);
  _ ← selection_changed;
  completed_now env "publish-files"
    ("Mirrored " ++ pretty count ++ " " ++ (if (count =? 1)%Z then "file" else "files") ++ " to the clipboard")%string.
(** [run_backend!]: under the transaction lock, unless shut down. *)
Definition run_backend {A} (m : Backend A) : Backend A := _ ← ensure_running; m.
End mutations.
