(* ===== verification/Thumbnails.v ===== *)
(** * Thumbnails: [history/content.rs] — the thumbnail of an entry and the
    bounded cache directory it is kept in.

    Decoding, scaling and PNG encoding are the image crate's; the order in which
    a directory is read, modification times and where links lead are what the
    file system happens to say ([ThumbnailEnv]). *)
From Stdlib Require Import Ascii.
From stdpp Require Import pretty.
From S2P Require Import Prelude Text Decimal Externals Model Classification Selection Secret Content Sql Tables Database History Query Store Backend Artifacts Mutations.
Local Open Scope Z_scope.

Record ThumbnailEnv := mkThumbnailEnv {
  (** The decoded image scaled into a square: width, height, PNG. *)
  scaled : bytes → Z → Z * Z * bytes;
  (** [read_dir] of a directory holding these names; [None] an entry that could
      not be read. *)
  listing : nat → list string → list (option string);
  (** [metadata.modified().ok()]. *)
  modified : nat → string → option Z;
  (** The file a symbolic link leads to. *)
  link_target : string → option string;
  (** What a write that fails has left in the file. *)
  truncated : bytes → bytes;
}.
Definition READ_LIMIT : Z := 1024.
Definition KEPT : Z := 255.

(** ** The names of cached thumbnails *)
Definition parse_u64 : string → option Z := parse_int false 0 u64_max.
Definition strip_suffix (suffix s : string) : option string :=
  let b := str_bytes s in
  let n := (length b - length (str_bytes suffix))%nat in
  if bool_decide (length (str_bytes suffix) ≤ length b)%nat && bool_decide (drop n b = str_bytes suffix)
  then Some (bytes_str (take n b)) else None.
Definition is_char_boundary (b : list byte) (n : nat) : bool :=
  bool_decide (n = O) || bool_decide (n = length b) || match b !! n with Some x => negb (is_cont x) | None => false end.
(** [s.get(..n)] and [s.get(n..)]. *)
Definition get_to (n : nat) (s : string) : option string :=
  if is_char_boundary (str_bytes s) n then Some (bytes_str (take n (str_bytes s))) else None.
Definition get_from (n : nat) (s : string) : option string :=
  if is_char_boundary (str_bytes s) n then Some (bytes_str (drop n (str_bytes s))) else None.
(** The name checks of [prune_thumbnail_cache]'s [filter_map]. *)
Definition thumbnail_name `{Externals} (name : string) : bool :=
  utf8_valid (str_bytes name) &&
  match strip_prefix "entry-" name ≫= strip_suffix ".png" with
  | None => false
  | Some rest =>
      match get_to 36 rest with
      | None => false
      | Some id =>
          uuid_valid id &&
          match get_from 37 rest ≫= split_once "-"%char with
          | None => false
          | Some (revision, edge) =>
              bool_decide (is_Some (parse_u64 revision)) && bool_decide (is_Some (parse_u32 edge))
          end
      end
  end.
Definition clamp (lo hi x : Z) : Z := Z.max lo (Z.min hi x).
Definition thumbnail_file (id : string) (revision edge : Z) : string :=
  (id ++ "-" ++ pretty revision ++ "-" ++ pretty edge ++ ".png")%string.
(** [sort_by_key(modified)]: stable; [None] sorts first. *)
Definition older (x y : option Z * string) : bool :=
  match x.1, y.1 with
  | None, _ => true
  | Some _, None => false
  | Some a, Some b => a <=? b
  end.
Fixpoint insert_by_age (x : option Z * string) (l : list (option Z * string)) : list (option Z * string) :=
  match l with
  | [] => [x]
  | y :: l' => if older x y then x :: l else y :: insert_by_age x l'
  end.
Definition sort_by_age (l : list (option Z * string)) : list (option Z * string) := foldr insert_by_age [] l.

(** ** Ordering by age *)
#[export] Instance older_trans : Transitive (λ x y, older x y = true).
Proof. intros [[a|] p] [[b|] q] [[c|] r]; unfold older; cbn; rewrite ?Z.leb_le; (done || lia). Qed.
Lemma older_total x y : older x y = true ∨ older y x = true.
Proof. destruct x as [[a|] p], y as [[b|] q]; unfold older; cbn; rewrite ?Z.leb_le; (auto || lia). Qed.
Lemma insert_by_age_perm x l : insert_by_age x l ≡ₚ x :: l.
Proof. induction l as [|y l IH]; cbn; [done|]. destruct (older x y); [done|]. rewrite IH. apply Permutation_swap. Qed.
Lemma sort_by_age_perm l : sort_by_age l ≡ₚ l.
Proof. induction l as [|x l IH]; cbn; [done|]. by rewrite insert_by_age_perm, IH. Qed.
Lemma insert_by_age_sorted x l :
  StronglySorted (λ x y, older x y = true) l → StronglySorted (λ x y, older x y = true) (insert_by_age x l).
Proof.
  induction 1 as [|y l Hl IH Hy]; cbn; [by repeat constructor|]. destruct (older x y) eqn:Hxy.
  - constructor; [by constructor|]. constructor; [done|]. eapply Forall_impl; [exact Hy|]. cbn. intros z Hz.
    exact (older_trans x y z Hxy Hz).
  - constructor; [done|]. rewrite insert_by_age_perm. constructor; [|done]. destruct (older_total x y); congruence.
Qed.
Lemma sort_by_age_sorted l : StronglySorted (λ x y, older x y = true) (sort_by_age l).
Proof. induction l; cbn; [constructor|]. by apply insert_by_age_sorted. Qed.

Section thumbnails.
Context `{Externals} (env : Env) (tenv : ThumbnailEnv).

Definition cache_unavailable : BackendError := unavailable "Clipboard thumbnail cache is unavailable".
Definition io_or {A} (e : BackendError) (m : Io A) : Backend A := λ w, let '(r, w1) := m w in (map_err (λ _, e) r, w1).

(** ** Files, through links *)
Definition reached (fs : Fs) (p : string) : option (string * Node) :=
  n ← fs !! p;
  if decide (node_kind n = Symlink) then q ← link_target tenv p; m ← fs !! q; Some (q, m) else Some (p, n).
Definition private_permissions (p : string) (mode : Z) : Backend unit :=
  io_or cache_unavailable
    (io_call (λ fs, '(q, n) ← ok_or (reached fs p) IoNotFound; Ok (tt, <[q := set_mode mode n]> fs)) unchanged).
(** [ImageReader::open(path)], [image_reader] and [into_dimensions]. *)
Definition cached_dimensions (p : string) : Backend (option (Z * Z)) :=
  r ← io_ok (io_call (λ fs, '(_, n) ← ok_or (reached fs p) IoNotFound; Ok (n, fs)) unchanged);
  mret (n ← r; if decide (node_kind n = Directory) then None else image_size (node_bytes n)).
(** Bytes in memory: only decoding can fail. *)
Definition decode_image (b : bytes) : BackendResult bytes :=
  _ ← ensure (image_decodes b) (invalid_data "Clipboard image could not be decoded"); Ok b.
(** [File::create] and a write: an existing file is emptied, a link followed. *)
Definition create_file (t : nat) (p : string) (b : bytes) (fs : Fs) : result IoError Fs :=
  let created := set_bytes b (new_node env Regular 420 t) in
  match fs !! p with
  | None => Ok (<[p := created]> fs)
  | Some n =>
      let q := if decide (node_kind n = Symlink) then link_target tenv p else Some p in
      match q with
      | None => Err IoNotFound
      | Some q => match fs !! q with
                  | None => Ok (<[q := created]> fs)
                  | Some m => if decide (node_kind m = Directory) then Err (IoOther "Is a directory")
                              else Ok (<[q := set_bytes b m]> fs)
                  end
      end
  end.
(** [save_with_format(path, Png)]: a failed call may have opened the file. *)
Definition save_png (p : string) (b : bytes) (t : nat) : Io unit :=
  io_call (λ fs, fs1 ← create_file t p b fs; Ok (tt, fs1))
    (λ survives fs, if survives p then fs else default fs (ok_of (create_file t p (truncated tenv b) fs))).

(** ** The cache directory *)
Definition child_name (dir p : string) : option string :=
  '(d, name) ← path_split p; if decide (d = dir) then Some name else None.
Definition children (fs : Fs) (dir : string) : list string := omap (child_name dir) (map_to_list fs).*1.
Fixpoint cached_files (dir : string) (names : list (option string)) : Backend (list (option Z * string)) :=
  match names with
  | [] => mret []
  | None :: l => cached_files dir l
  | Some name :: l =>
      if negb (thumbnail_name name) then cached_files dir l
      else
        let p := (dir ++ "/" ++ name)%string in
        metadata ← io_ok (symlink_metadata p);
        t ← tick;
        rest ← cached_files dir l;
        mret (match metadata with
              | Some n => if is_file n then (modified tenv t p, p) :: rest else rest
              | None => rest
              end)
  end.
Fixpoint remove_files (l : list string) : Backend unit :=
  match l with
  | [] => mret tt
  | p :: l' => _ ← io_ok (remove_file p); remove_files l'
  end.
Definition prune_thumbnail_cache (dir : string) : Backend unit :=
  names ← io_ok (io_call (λ fs, Ok (children fs dir, fs)) unchanged);
  t ← tick;
  match names with
  | None => mret tt
  | Some names =>
      cached ← cached_files dir (ztake READ_LIMIT (listing tenv t names));
      let cached := sort_by_age cached in
      let excess := saturating_sub (zlen cached) KEPT in
      remove_files (ztake excess cached).*2
  end.
Definition cache_root : Backend string :=
  lift (ok_or (xdg_cache env) (unavailable "Clipboard cache directory is unavailable")).
Definition thumbnail_directory : Backend string :=
  cache ← cache_root;
  let directory := (cache ++ "/clip-daemon/thumbnails")%string in
  t ← tick;
  _ ← io_or cache_unavailable (create_dir_all env directory t);
  _ ← private_permissions directory 448;
  _ ← prune_thumbnail_cache directory;
  mret directory.

(** ** [thumbnail_sync] *)
Definition image_source (fs : Fs) (stored : StoredEntry) (content : ResolvedContent) : BackendResult bytes :=
  match rc_image content with
  | Some (Inline _ _) =>
      if s_byte_size (st_summary stored) <=? MAX_THUMBNAIL_BYTES then decode_image (st_bytes stored)
      else Err (invalid_data "Clipboard entry cannot be thumbnailed")
  | Some (LocalFile source) => b ← read_path fs (li_path source) MAX_THUMBNAIL_BYTES; decode_image b
  | None => Err (invalid_data "Clipboard entry cannot be thumbnailed")
  end.
Definition make_thumbnail (stored : StoredEntry) (content : ResolvedContent) (edge : Z) (path : string) : Backend (Z * Z) :=
  fs ← get_disk;
  image ← lift (image_source fs stored content);
  let '(width, height, png) := scaled tenv image edge in
  t ← tick;
  _ ← io_or (invalid_data "Clipboard thumbnail could not be written") (save_png path png t);
  _ ← private_permissions path 384;
  mret (width, height).
Definition thumbnail_of (stored : StoredEntry) (edge : Z) : Backend EntryThumbnail :=
  fs ← get_disk;
  let content := resolve fs (st_mime stored) (st_bytes stored) MAX_THUMBNAIL_BYTES in
  let edge := clamp 32 1024 edge in
  let summary := st_summary stored in
  directory ← thumbnail_directory;
  let path := (directory ++ "/" ++ thumbnail_file (s_id summary) (s_revision summary) edge)%string in
  cached ← cached_dimensions path;
  '(width, height) ← match cached with
                     | Some dimensions => mret dimensions
                     | None => make_thumbnail stored content edge path
                     end;
  mret (mkThumbnail (s_id summary) (s_revision summary) path width height).
Definition thumbnail_sync (id : string) (expected : option Z) (edge : Z) : Backend EntryThumbnail :=
  stored ← selected id expected; thumbnail_of stored edge.

(** ** Files reached through links *)
Lemma reached_cases fs p q n : reached fs p = Some (q, n) → fs !! q = Some n ∧ (q = p ∨ link_target tenv p = Some q).
Proof.
  unfold reached. intros (m & Hm & Hr)%bind_Some. case_decide; [|injection Hr as <- <-; auto].
  apply bind_Some in Hr as (q' & Hq & Hr). apply bind_Some in Hr as (m' & Hm' & [= <- <-]). auto.
Qed.
Lemma reached_set_mode fs p q n mode :
  reached fs p = Some (q, n) → reached (<[q := set_mode mode n]> fs) p = Some (q, set_mode mode n).
Proof.
  unfold reached. intros (m & Hm & Hr)%bind_Some. destruct (decide (node_kind m = Symlink)) as [Hk|Hk].
  - apply bind_Some in Hr as (q' & Hq & Hr). apply bind_Some in Hr as (m' & Hm' & [= <- <-]).
    destruct (decide (q' = p)) as [->|Hne].
    + rewrite Hm in Hm'. injection Hm' as <-. rewrite lookup_insert_eq. cbn. rewrite decide_True by done. rewrite Hq. cbn.
      by rewrite lookup_insert_eq.
    + rewrite lookup_insert_ne, Hm by done. cbn. rewrite decide_True by done. rewrite Hq. cbn. by rewrite lookup_insert_eq.
  - injection Hr as <- <-. rewrite lookup_insert_eq. cbn. by rewrite decide_False.
Qed.
Lemma create_file_reached t p b fs fs1 :
  create_file t p b fs = Ok fs1 → ∃ q n, reached fs1 p = Some (q, n) ∧ node_bytes n = b.
Proof.
  unfold create_file, reached. destruct (fs !! p) as [n|] eqn:Hp.
  2: { intros [= <-]. rewrite lookup_insert_eq. eexists _, _. by split. }
  destruct (decide (node_kind n = Symlink)) as [Hk|Hk].
  - destruct (link_target tenv p) as [q|] eqn:Hq; [|done]. destruct (fs !! q) as [m|] eqn:Hqn.
    + case_decide; [done|]. intros [= <-]. destruct (decide (q = p)) as [->|Hne].
      * rewrite Hp in Hqn. injection Hqn as <-. rewrite lookup_insert_eq. cbn. rewrite decide_True by done. cbn.
        rewrite lookup_insert_eq. eexists _, _. by split.
      * rewrite lookup_insert_ne, Hp by done. cbn. rewrite decide_True by done. cbn. rewrite lookup_insert_eq. eexists _, _. by split.
    + intros [= <-]. rewrite lookup_insert_ne, Hp by congruence. cbn. rewrite decide_True by done. cbn. rewrite lookup_insert_eq.
      eexists _, _. by split.
  - rewrite Hp. case_decide; [done|]. intros [= <-]. rewrite lookup_insert_eq. cbn. rewrite decide_False by done. eexists _, _. by split.
Qed.
Lemma create_file_changes t p b fs fs1 x :
  create_file t p b fs = Ok fs1 → fs1 !! x ≠ fs !! x → x = p ∨ link_target tenv p = Some x.
Proof.
  unfold create_file. destruct (fs !! p) as [n|] eqn:Hp.
  2: { intros [= <-] Hx. left. apply dec_stable. intros Hne. by rewrite lookup_insert_ne in Hx. }
  set (o := if decide _ then _ else _). destruct o as [q|] eqn:Ho; [|done]. intros Hc Hx.
  assert (q = x) as ->.
  { apply dec_stable. intros Hne. apply Hx. destruct (fs !! q); [case_decide; [done|]|]; injection Hc as <-; by rewrite lookup_insert_ne. }
  subst o. case_decide; [by right|left; congruence].
Qed.

(** ** What a thumbnail may touch: the disk and the schedules *)
Record files_only (w w' : World) : Prop := {
  fo_active : w_active w' = w_active w;
  fo_clipboard : w_clipboard w' = w_clipboard w;
  fo_closed : w_closed w' = w_closed w;
  fo_seen : ∃ l, w_seen w' = l ++ w_seen w;
}.
#[export] Instance files_only_preorder : PreOrder files_only.
Proof.
  split; [intros w; split; try done; by exists []|].
  intros w1 w2 w3 [A1 A2 A3 [l1 A4]] [B1 B2 B3 [l2 B4]]. split; try congruence. exists (l2 ++ l1). by rewrite B4, A4, (assoc_L (++)).
Qed.
#[export] Instance reads_files_only A (m : Backend A) : Respects reads m → Respects files_only m | 10.
Proof. intros Hm w. destruct (Hm w) as [_ ? ? ? ?]. by split. Qed.
Lemma io_call_files_only {A} (f : Fs → result IoError (A * Fs)) g w : files_only w (snd (io_call f g w)).
Proof. unfold io_call. destruct (w_io w) as [|[|]]; cbn; try destruct (f (w_disk w)) as [[]|]; split; try done; by exists []. Qed.
Lemma respects_io_or R {A} e (m : Io A) : (∀ w, R w (snd (m w))) → Respects R (io_or e m).
Proof. intros Hm w. specialize (Hm w). unfold io_or. by destruct (m w). Qed.
#[export] Instance io_or_files_only {A} e (f : Fs → result IoError (A * Fs)) g : Respects files_only (io_or e (io_call f g)).
Proof. apply respects_io_or. intros w. apply io_call_files_only. Qed.
#[export] Instance io_ok_files_only {A} (f : Fs → result IoError (A * Fs)) g : Respects files_only (io_ok (io_call f g)).
Proof. apply respects_io_ok. intros w. apply io_call_files_only. Qed.
#[export] Instance cached_dimensions_files p : Respects files_only (cached_dimensions p).
Proof. unfold cached_dimensions. apply _. Qed.
#[export] Instance private_permissions_files p mode : Respects files_only (private_permissions p mode).
Proof. unfold private_permissions. apply _. Qed.
#[export] Instance cached_files_files dir l : Respects files_only (cached_files dir l).
Proof. induction l as [|[n|] l IH]; cbn [cached_files]; unfold symlink_metadata; apply _. Qed.
#[export] Instance remove_files_files l : Respects files_only (remove_files l).
Proof. induction l as [|p l IH]; cbn [remove_files]; unfold remove_file; apply _. Qed.
#[export] Instance prune_cache_files dir : Respects files_only (prune_thumbnail_cache dir).
Proof. unfold prune_thumbnail_cache. apply _. Qed.
#[export] Instance thumbnail_directory_files : Respects files_only thumbnail_directory.
Proof. unfold thumbnail_directory, cache_root, create_dir_all. apply _. Qed.
#[export] Instance make_thumbnail_files stored content edge p : Respects files_only (make_thumbnail stored content edge p).
Proof.
  unfold make_thumbnail, save_png. apply respects_bind; [apply _|apply _|]. intros fs.
  apply respects_bind; [apply _|apply _|]. intros b. destruct (scaled tenv b edge) as [[x y] png]. apply _.
Qed.

(** ** The answer *)
Lemma io_or_ok {A} e (m : Io A) w a w' : io_or e m w = (Ok a, w') → m w = (Ok a, w').
Proof. unfold io_or. destruct (m w) as [[]]; by intros [= <- <-]. Qed.
Lemma io_call_done {A} (f : Fs → result IoError (A * Fs)) g w a w' : io_call f g w = (Ok a, w') → f (w_disk w) = Ok (a, w_disk w').
Proof. by intros (_ & _ & _ & [(? & [= <-] & ?)|[(? & ? & _)|(? & ? & _)]])%io_call_cases. Qed.
(** The path can be read as an image of these dimensions. *)
Definition shows (fs : Fs) (p : string) (d : Z * Z) : Prop :=
  ∃ q n, reached fs p = Some (q, n) ∧ image_size (node_bytes n) = Some d.
(** The path holds the entry's own image, scaled. *)
Definition holds_scaled (fs : Fs) (p : string) (stored : StoredEntry) (content : ResolvedContent) (edge : Z) (d : Z * Z) : Prop :=
  ∃ at_the_time image q n png, image_source at_the_time stored content = Ok image
    ∧ scaled tenv image edge = (d.1, d.2, png) ∧ reached fs p = Some (q, n) ∧ node_bytes n = png.
Lemma cached_dimensions_spec p w o w' :
  cached_dimensions p w = (Ok o, w') → w_disk w' = w_disk w ∧ (∀ d, o = Some d → shows (w_disk w) p d).
Proof.
  unfold cached_dimensions, io_ok. rewrite backend_bind. destruct (io_call _ _ w) as [r w1] eqn:Hc. intros [= <- <-].
  apply io_call_cases in Hc as (_ & _ & _ & Hc).
  destruct Hc as [(n & -> & Hf)|[(e & -> & _ & Hd)|(s & Hr & Hd)]]; [|split; [exact Hd|done]|split; [exact Hd|by destruct r]].
  unfold shows. destruct (reached (w_disk w) p) as [[q m]|]; [|done]. injection Hf as -> Hf. split; [done|]. intros d. cbn. case_decide; [done|].
  intros Hd. by exists q, n.
Qed.
Lemma private_permissions_ok p mode w w' :
  private_permissions p mode w = (Ok tt, w') →
  ∃ q n, reached (w_disk w) p = Some (q, n) ∧ w_disk w' = <[q := set_mode mode n]> (w_disk w).
Proof.
  unfold private_permissions. intros Hc%io_or_ok%io_call_done. destruct (reached (w_disk w) p) as [[q n]|]; [|done].
  injection Hc as Hc. by exists q, n.
Qed.
Lemma make_thumbnail_ok stored content edge p w d w' :
  make_thumbnail stored content edge p w = (Ok d, w') → holds_scaled (w_disk w') p stored content edge d.
Proof.
  unfold make_thumbnail. intros (fs & w1 & _ & Hm)%backend_bind_ok. apply backend_bind_ok in Hm as (b & w2 & Hb & Hm).
  destruct (scaled tenv b edge) as [[x y] png] eqn:Hsc. apply backend_bind_ok in Hm as (t & w3 & _ & Hm).
  apply backend_bind_ok in Hm as ([] & w4 & Hsave & Hm). apply backend_bind_ok in Hm as ([] & w5 & Hp & [= <- <-]).
  apply io_or_ok, io_call_done in Hsave. destruct (create_file t p png (w_disk w3)) as [fs1|] eqn:Hcf; [|done].
  injection Hsave as Hsave. apply create_file_reached in Hcf as (q & n & Hr & Hn).
  apply private_permissions_ok in Hp as (q' & n' & Hr' & ->). rewrite <- Hsave, Hr in Hr'. injection Hr' as <- <-.
  exists fs, b, q, (set_mode 384 n), png. split_and!; [by injection Hb|done| |done]. apply reached_set_mode. by rewrite <- Hsave.
Qed.
Lemma thumbnail_directory_name w d w' :
  thumbnail_directory w = (Ok d, w') → ∃ cache, xdg_cache env = Some cache ∧ d = (cache ++ "/clip-daemon/thumbnails")%string.
Proof.
  unfold thumbnail_directory. intros (cache & w1 & Hc & Hd)%backend_bind_ok. unfold cache_root in Hc.
  destruct (xdg_cache env) as [c|]; [|done]. injection Hc as -> <-. exists cache. split; [done|].
  do 4 (apply backend_bind_ok in Hd as (? & ? & _ & Hd)). by injection Hd as <- _.
Qed.

#[export] Instance thumbnail_of_files stored edge : Respects files_only (thumbnail_of stored edge).
Proof.
  unfold thumbnail_of. apply respects_bind; [apply _|apply _|]. intros fs. apply respects_bind; [apply _|apply _|]. intros dir.
  apply respects_bind; [apply _|apply _|]. intros cached. apply respects_bind; [apply _| |intros [x y]; apply _].
  destruct cached; apply _.
Qed.
#[export] Instance thumbnail_sync_files id expected edge : Respects files_only (thumbnail_sync id expected edge).
Proof. unfold thumbnail_sync, selected, store_get. apply _. Qed.
Lemma db_get_names id expected t st :
  fst (ideal (db_get id expected) t) = Ok st →
  s_id (st_summary st) = id ∧ (∀ v, expected = Some v → s_revision (st_summary st) = v).
Proof.
  intros Hi. assert (∃ t', runs (db_get id expected) t st t') as [t' Hr].
  { unfold runs. destruct (ideal (db_get id expected) t) as [r t']. cbn in Hi. subst. eauto. }
  unfold db_get in Hr. run_inv.
  match goal with x : (_ * String.string)%type |- _ => destruct x as [b mime] end. destruct (negb _) eqn:?; run_inv.
  match goal with H : runs (db_summary _ _) _ _ _ |- _ => apply db_summary_runs in H as (-> & e & _ & Hs & Ho) end.
  apply decode_summary_Ok in Hs as (k & _ & ->). split; [done|]. by intros v ->.
Qed.
Lemma selected_ok id expected w st w1 :
  selected id expected w = (Ok st, w1) →
  w_disk w1 = w_disk w ∧ ∃ t, t ∈ w_seen w1 ∧ fst (ideal (db_get id expected) t) = Ok st.
Proof.
  unfold selected, store_get. intros Hr.
  pose proof (respects (R := reads) (m := client (validate (RGet id expected)) (read (db_get id expected))) w) as Hd.
  rewrite Hr in Hd. split; [apply Hd|]. apply client_read_ok in Hr as (_ & t & s & c & Hs & Hm).
  exists t. split; [rewrite Hs; set_solver|]. apply faithful in Hm. unfold ideal. by rewrite Hm.
Qed.
(** C39 A thumbnail is the entry's own picture, in the cache, at the size asked
    for.  Success names the entry and the revision that some call of this
    operation read from the store, the requested one if one was requested, and
    the file of that entry, revision and edge (clamped to 32..1024) in the cache
    directory; that file is readable and either was already an image with the
    reported dimensions, or holds exactly the scaled PNG of the entry's own bytes
    (or of the image file they name).  When the entry is missing or its revision
    is stale nothing is created.  The selection and the protected generated file
    are never touched. *)
Theorem thumbnail_exact id expected edge w r w' :
  thumbnail_sync id expected edge w = (r, w') →
  files_only w w'
  ∧ (∀ e, fst (selected id expected w) = Err e → r = Err e ∧ w_disk w' = w_disk w)
  ∧ ∀ th, r = Ok th → ∃ t st cache,
      let content := resolve (w_disk w) (st_mime st) (st_bytes st) MAX_THUMBNAIL_BYTES in
      let edge := clamp 32 1024 edge in
      t ∈ w_seen w' ∧ fst (ideal (db_get id expected) t) = Ok st
      ∧ th_entry_id th = id ∧ th_revision th = s_revision (st_summary st)
      ∧ (∀ v, expected = Some v → th_revision th = v)
      ∧ xdg_cache env = Some cache
      ∧ th_path th = (cache ++ "/clip-daemon/thumbnails/" ++ thumbnail_file id (th_revision th) edge)%string
      ∧ (shows (w_disk w') (th_path th) (th_width th, th_height th)
         ∨ holds_scaled (w_disk w') (th_path th) st content edge (th_width th, th_height th)).
Proof.
  intros Ht. assert (Hfiles : files_only w w').
  { change w' with (snd (r, w')). rewrite <- Ht. by refine (respects (R := files_only) (m := thumbnail_sync id expected edge) w). }
  split; [exact Hfiles|]. unfold thumbnail_sync in Ht. rewrite backend_bind in Ht.
  assert (Hsel : Respects reads (selected id expected)) by (unfold selected, store_get; apply _).
  specialize (Hsel w). destruct (selected id expected w) as [[st|e] w1] eqn:Hst; cbn in Hsel.
  2: { injection Ht as <- <-. split; [intros ? [= ->]; split; [done|apply Hsel]|done]. }
  split; [done|]. intros th ->. apply selected_ok in Hst as (Hd & t & Hseen & Hget).
  assert (Hlate : files_only w1 w').
  { pose proof (thumbnail_of_files st edge w1) as Hm. by rewrite Ht in Hm. }
  unfold thumbnail_of in Ht.
  apply backend_bind_ok in Ht as (fs & w2 & [= <- <-] & Ht).
  apply backend_bind_ok in Ht as (dir & w3 & Hdir & Ht). apply thumbnail_directory_name in Hdir as (cache & Hcache & ->).
  apply backend_bind_ok in Ht as (cached & w4 & Hc & Ht). apply backend_bind_ok in Ht as ([x y] & w5 & Hm & [= <- <-]).
  destruct (db_get_names _ _ _ _ Hget) as [<- Hexp].
  exists t, st, cache. cbn. rewrite <- Hd. split_and!; [|done..| |].
  - destruct (fo_seen _ _ Hlate) as [l ->]. set_solver.
  - by rewrite <- !str_app_assoc.
  - apply cached_dimensions_spec in Hc as [Hd4 Hc]. destruct cached as [d|].
    + injection Hm as -> <-. left. rewrite Hd4. by apply Hc.
    + right. by apply make_thumbnail_ok in Hm.
Qed.

(** ** Pruning *)
Definition is_thumbnail (fs : Fs) (dir p : string) : bool :=
  match child_name dir p, fs !! p with
  | Some name, Some n => thumbnail_name name && is_file n
  | _, _ => false
  end.
Definition thumbnails (fs : Fs) (dir : string) : list string := filter (λ p, is_thumbnail fs dir p = true) (map_to_list fs).*1.

Lemma rsplit_once_eq c x a b : rsplit_once c x = Some (a, b) → x = (a ++ String c b)%string ∧ rsplit_once c b = None.
Proof.
  revert a b. induction x as [|y x IH]; intros a b; [done|]. cbn [rsplit_once]. destruct (rsplit_once c x) as [[l r]|] eqn:Hx.
  - intros [= <- <-]. destruct (IH l r eq_refl) as [-> ?]. done.
  - destruct (Ascii.eqb y c) eqn:Hy; [|done]. apply Ascii.eqb_eq in Hy as ->. by intros [= <- <-].
Qed.
Lemma child_name_eq dir p name : child_name dir p = Some name → p = (dir ++ "/" ++ name)%string.
Proof.
  unfold child_name, path_split. destruct (rsplit_once _ p) as [[d n]|] eqn:Hp; [|done]. cbn. case_decide; [|done].
  intros [= <-]. subst. by apply rsplit_once_eq in Hp as [-> _].
Qed.
(** One entry, as the pass sees it on the disk [fs]. *)
Definition kept_entry (fs : Fs) (dir : string) (x : option Z * string) : Prop :=
  (∃ t, x.1 = modified tenv t x.2) ∧ ∃ name n, x.2 = (dir ++ "/" ++ name)%string ∧ thumbnail_name name = true ∧ fs !! x.2 = Some n ∧ is_file n = true.
Lemma metadata_spec p w r w' :
  io_ok (symlink_metadata p) w = (r, w') → reads w w' ∧ ∃ o, r = Ok o ∧ (∀ n, o = Some n → w_disk w !! p = Some n)
  ∧ (w_io w = [] → o = w_disk w !! p ∧ w_io w' = []).
Proof.
  unfold io_ok. pose proof (metadata_reads p w) as Hr. destruct (symlink_metadata p w) as [m w1] eqn:Hm. cbn in Hr.
  intros [= <- <-]. split; [done|]. eexists. split; [done|]. split.
  - intros n Hn. destruct m as [n'|]; [|done]. injection Hn as ->. by apply metadata_ok in Hm.
  - intros Hio. unfold symlink_metadata, io_call in Hm. rewrite Hio in Hm.
    destruct (w_disk w !! p); cbn in Hm; by injection Hm as <- <-.
Qed.
Lemma cached_files_spec dir l w r w' :
  cached_files dir l w = (r, w') →
  reads w w' ∧ ∃ c, r = Ok c ∧ Forall (kept_entry (w_disk w) dir) c
  ∧ (w_io w = [] → w_io w' = []
     ∧ c.*2 = filter (λ p, default false (is_file <$> w_disk w !! p) = true)
                ((λ name, dir ++ "/" ++ name)%string <$> filter (λ name, thumbnail_name name = true) (omap id l))).
Proof.
  revert w r w'. induction l as [|[name|] l IH]; intros w r w'; cbn [cached_files].
  { intros [= <- <-]. split; [reflexivity|]. exists []. split_and!; [done|done|done]. }
  2: { intros Hc. apply IH in Hc as [? (c & ? & ? & ?)]. eauto 10. }
  destruct (thumbnail_name name) eqn:Hname; cbn [negb].
  2: { intros Hc. apply IH in Hc as [? (c & ? & ? & Hio)]. split; [done|]. exists c. split_and!; [done..|].
       change (omap id (Some name :: l)) with (name :: omap id l). by rewrite filter_cons_False by (by rewrite Hname). }
  set (p := (dir ++ "/" ++ name)%string). rewrite backend_bind. destruct (io_ok (symlink_metadata p) w) as [m w1] eqn:Hm.
  apply metadata_spec in Hm as (H1 & o & -> & Ho & Hcalm). rewrite backend_bind. cbn [tick]. set (w2 := mkWorld _ _ _ _ _ _ _ _ _ _).
  rewrite backend_bind. destruct (cached_files dir l w2) as [rest w3] eqn:Hrest.
  apply IH in Hrest as (H2 & c & -> & Hall & Hio). cbn [mret Backend_ret]. intros [= <- <-].
  assert (Hd2 : w_disk w2 = w_disk w) by apply (rd_disk _ _ H1). rewrite Hd2 in *.
  split; [etransitivity; [exact H1|etransitivity; [|exact H2]]; split; try done; by exists []|].
  eexists. split; [done|]. split.
  - destruct o as [n|]; [|done]. destruct (is_file n) eqn:Hn; [|done]. constructor; [|done].
    split; [by eexists|]. exists name, n. split_and!; [done|done| |done]. by apply Ho.
  - intros Hw. destruct (Hcalm Hw) as [-> Hw1]. destruct (Hio Hw1) as [Hw3 Hc]. split; [done|].
    change (omap id (Some name :: l)) with (name :: omap id l). rewrite filter_cons_True by done. rewrite fmap_cons, filter_cons. fold p.
    destruct (w_disk w !! p) as [n|] eqn:Hp; cbn; [|done]. destruct (is_file n); cbn; [by rewrite Hc|done].
Qed.
Lemma remove_files_spec l w r w' :
  remove_files l w = (r, w') →
  r = Ok tt ∧ (∀ p, w_disk w' !! p = w_disk w !! p ∨ (p ∈ l ∧ w_disk w' !! p = None))
  ∧ (w_io w = [] → (∀ p n, p ∈ l → w_disk w !! p = Some n → is_file n = true) →
     ∀ p, p ∈ l → w_disk w' !! p = None).
Proof.
  revert w. induction l as [|q l IH]; intros w; cbn [remove_files].
  { intros [= <- <-]. split_and!; [done|by left|set_solver]. }
  rewrite backend_bind. unfold io_ok. destruct (remove_file q w) as [m w1] eqn:Hm. intros (-> & Hp & Hcalm)%IH.
  pose proof Hm as (_ & _ & _ & _ & Hd)%remove_file_spec. split; [done|]. split.
  - intros p. destruct (Hp p) as [->|[? ?]]; [|right; split; [set_solver|done]].
    destruct Hd as [->| ->]; [by left|]. destruct (decide (p = q)) as [->|Hne]; [right|left; by rewrite lookup_delete_ne].
    rewrite lookup_delete_eq. split; [set_solver|done].
  - intros Hio Hfiles. assert (Hw1 : w_io w1 = [] ∧ w_disk w1 = delete q (w_disk w)).
    { unfold remove_file, io_call in Hm. rewrite Hio in Hm. destruct (w_disk w !! q) as [n|] eqn:Hq; cbn in Hm.
      2: { injection Hm as _ <-. cbn. split; [by rewrite ?Hio|]. by rewrite delete_id. }
      assert (Hn : is_file n = true) by (apply (Hfiles q); [set_solver|done]). unfold is_file in Hn. apply bool_decide_eq_true in Hn.
      rewrite decide_False in Hm by congruence. injection Hm as _ <-. cbn. by rewrite ?Hio. }
    destruct Hw1 as [Hio1 Hd1]. intros p Hin. destruct (decide (p = q)) as [->|Hne].
    + destruct (Hp q) as [->|[_ ?]]; [|done]. by rewrite Hd1, lookup_delete_eq.
    + apply Hcalm; [done| |set_solver]. intros p' n Hp' Hn. rewrite Hd1 in Hn. apply lookup_delete_Some in Hn as [_ Hn].
      apply (Hfiles p'); [set_solver|done].
Qed.

Lemma thumbnails_children fs dir :
  filter (λ p, default false (is_file <$> fs !! p) = true)
    ((λ name, dir ++ "/" ++ name)%string <$> filter (λ name, thumbnail_name name = true) (children fs dir))
  = thumbnails fs dir.
Proof.
  unfold children, thumbnails. generalize ((map_to_list fs).*1). intros ks. induction ks as [|k ks IH]; [done|].
  rewrite (filter_cons (λ p, is_thumbnail fs dir p = true)), <- IH. destruct (decide (is_thumbnail fs dir k = true)) as [Hi|Hi];
    unfold is_thumbnail in Hi; cbn [omap list_omap]; (destruct (child_name dir k) as [name|] eqn:Hc; [|done]);
    apply child_name_eq in Hc as Hk; rewrite filter_cons; (destruct (decide (thumbnail_name name = true)) as [Ht|Ht]); try done.
  - rewrite fmap_cons, filter_cons, <- Hk. destruct (fs !! k) as [n|]; [|done]. rewrite Ht in Hi. cbn. by rewrite decide_True.
  - destruct (fs !! k); [|done]. by apply andb_true_iff in Hi as [? _].
  - rewrite fmap_cons, filter_cons, <- Hk. destruct (fs !! k) as [n|]; [|done]. rewrite Ht in Hi. cbn. by rewrite decide_False.
Qed.
Lemma prune_cache_spec dir w r w' :
  prune_thumbnail_cache dir w = (r, w') →
  r = Ok tt ∧ ∀ p, w_disk w' !! p = w_disk w !! p
    ∨ (w_disk w' !! p = None ∧ ∃ name n, p = (dir ++ "/" ++ name)%string ∧ thumbnail_name name = true
         ∧ w_disk w !! p = Some n ∧ is_file n = true).
Proof.
  unfold prune_thumbnail_cache. rewrite backend_bind.
  assert (Hl : Respects reads (io_ok (io_call (λ fs, Ok (children fs dir, fs)) unchanged))).
  { apply respects_io_ok. intros x. exact (look_reads (λ fs, Ok (children fs dir)) x). }
  specialize (Hl w). unfold io_ok in *. destruct (io_call _ _ w) as [names w1]. cbn in Hl. rewrite backend_bind. cbn [tick].
  set (w2 := mkWorld _ _ _ _ _ _ _ _ _ _). assert (Hd : w_disk w2 = w_disk w) by apply (rd_disk _ _ Hl).
  destruct (ok_of names) as [l|]; [|intros [= <- <-]; split; [done|left; by rewrite Hd]].
  rewrite backend_bind. destruct (cached_files dir _ w2) as [c w3] eqn:Hc.
  apply cached_files_spec in Hc as (Hr & c' & -> & Hall & _). intros (-> & Hp & _)%remove_files_spec. split; [done|].
  intros p. rewrite (rd_disk _ _ Hr), Hd in Hp. rewrite Hd in Hall. destruct (Hp p) as [?|[Hin Hnone]]; [by left|right].
  split; [done|]. apply list_elem_of_fmap in Hin as (x & -> & Hx). rewrite ztake_take in Hx.
  apply elem_of_take in Hx as (i & Hi & _). apply list_elem_of_lookup_2 in Hi. rewrite sort_by_age_perm in Hi.
  rewrite Forall_forall in Hall. destruct (Hall x Hi) as (_ & name & n & ? & ? & ? & ?). by exists name, n.
Qed.

Lemma elem_of_thumbnails fs dir p : p ∈ thumbnails fs dir ↔ is_thumbnail fs dir p = true.
Proof.
  unfold thumbnails. rewrite list_elem_of_filter. split; [by intros []|]. intros Hp. split; [done|].
  unfold is_thumbnail in Hp. destruct (child_name dir p); [|done]. destruct (fs !! p) as [n|] eqn:Hn; [|done].
  apply list_elem_of_fmap. exists (p, n). split; [done|]. by apply elem_of_map_to_list.
Qed.
Lemma thumbnails_NoDup fs dir : NoDup (thumbnails fs dir).
Proof. apply NoDup_filter, NoDup_fst_map_to_list. Qed.
Lemma thumbnails_left fs fs' dir (gone kept : list string) :
  gone ++ kept ≡ₚ thumbnails fs dir → (∀ p, fs' !! p = if decide (p ∈ gone) then None else fs !! p) →
  zlen (thumbnails fs' dir) <= zlen kept.
Proof.
  intros Hperm Hd. apply Nat2Z.inj_le, submseteq_length, NoDup_submseteq; [apply thumbnails_NoDup|].
  intros p Hp. apply elem_of_thumbnails in Hp. unfold is_thumbnail in Hp. rewrite Hd in Hp.
  destruct (decide (p ∈ gone)); [by destruct (child_name dir p)|].
  assert (Hin : p ∈ gone ++ kept) by (rewrite Hperm; by apply elem_of_thumbnails). set_solver.
Qed.
(** Reading the directory and its entries without a fault finds every thumbnail. *)
Lemma found_all dir l w c w' :
  l ≡ₚ Some <$> children (w_disk w) dir → w_io w = [] → cached_files dir l w = (Ok c, w') →
  w_io w' = [] ∧ w_disk w' = w_disk w ∧ Forall (kept_entry (w_disk w) dir) c ∧ c.*2 ≡ₚ thumbnails (w_disk w) dir.
Proof.
  intros Hl Hio Hc. apply cached_files_spec in Hc as (Hr & c' & [= <-] & Hall & Hcalm). destruct (Hcalm Hio) as [Hio' ->].
  split_and!; [done|apply Hr|done|]. rewrite <- thumbnails_children, Hl.
  assert (Hom : ∀ x : list string, omap id (Some <$> x) = x) by (intros x; induction x as [|y x IH]; cbn; congruence).
  by rewrite Hom.
Qed.
(** The cache directory stays bounded: of at most 1024 entries, read
    without a fault, the pass keeps the 255 newest thumbnails (or all, if they
    are no more) and nothing else is touched; what it removes was not modified
    later than what it keeps. *)
Theorem thumbnail_cache_bounded dir w r w' :
  (∀ t names, listing tenv t names ≡ₚ Some <$> names) → w_io w = [] → zlen (children (w_disk w) dir) <= READ_LIMIT →
  prune_thumbnail_cache dir w = (r, w') →
  ∃ gone kept, StronglySorted (λ x y, older x y = true) (gone ++ kept)
    ∧ (gone ++ kept).*2 ≡ₚ thumbnails (w_disk w) dir
    ∧ zlen kept = Z.min KEPT (zlen (thumbnails (w_disk w) dir))
    ∧ Forall (λ x, ∃ t, x.1 = modified tenv t x.2) (gone ++ kept)
    ∧ (∀ p, w_disk w' !! p = if decide (p ∈ gone.*2) then None else w_disk w !! p)
    ∧ zlen (thumbnails (w_disk w') dir) <= KEPT.
Proof.
  intros Hlist Hio Hlen. unfold prune_thumbnail_cache. rewrite backend_bind. unfold io_ok, io_call. rewrite Hio. cbn [tail ok_of].
  rewrite backend_bind. cbn [tick]. set (w1 := mkWorld _ _ _ _ _ _ _ _ _ _).
  set (l := listing _ _ _). assert (Hl : l ≡ₚ Some <$> children (w_disk w) dir) by apply Hlist.
  rewrite (ztake_all READ_LIMIT l) by (unfold zlen in *; by rewrite Hl, length_fmap). rewrite backend_bind.
  destruct (cached_files dir l w1) as [[c|e] w2] eqn:Hc; [|by apply cached_files_spec in Hc as (_ & ? & ? & _)].
  apply (found_all dir l w1) in Hc as (Hio2 & Hd2 & Hall & Hperm); [|done|done]. change (w_disk w1) with (w_disk w) in *.
  set (cached := sort_by_age c). set (n := saturating_sub (zlen cached) KEPT).
  assert (Hcached : cached ≡ₚ c) by apply sort_by_age_perm.
  assert (Hsplit : ztake n cached ++ zdrop n cached = cached) by apply ztake_zdrop.
  assert (Hlc : zlen cached = zlen (thumbnails (w_disk w) dir)) by (unfold zlen; by rewrite <- Hperm, length_fmap, Hcached).
  assert (Hkept : zlen (zdrop n cached) = Z.min KEPT (zlen cached)).
  { rewrite zlen_zdrop by (unfold n, saturating_sub; lia). pose proof (zlen_nonneg cached). unfold n, saturating_sub, KEPT in *. lia. }
  assert (Hnames : (ztake n cached ++ zdrop n cached).*2 ≡ₚ thumbnails (w_disk w) dir) by by rewrite Hsplit, Hcached.
  intros (_ & Hp & Hgone)%remove_files_spec. rewrite Hd2 in *.
  assert (Hdisk : ∀ p, w_disk w' !! p = if decide (p ∈ (ztake n cached).*2) then None else w_disk w !! p).
  { intros p. case_decide as Hin; [|by destruct (Hp p) as [?|[? _]]]. apply Hgone; [done| |done].
    intros q m Hq Hm. assert (Hin' : q ∈ (ztake n cached ++ zdrop n cached).*2) by (rewrite fmap_app; set_solver).
    rewrite Hnames in Hin'. apply elem_of_thumbnails in Hin'. unfold is_thumbnail in Hin'. rewrite Hm in Hin'.
    destruct (child_name dir q); [by apply andb_true_iff in Hin' as [_ ?]|done]. }
  exists (ztake n cached), (zdrop n cached). split_and!; [rewrite Hsplit; apply sort_by_age_sorted|done|by rewrite Hkept, Hlc| |done|].
  - rewrite Hsplit, Hcached. eapply Forall_impl; [exact Hall|]. by intros x [? _].
  - rewrite fmap_app in Hnames. apply (thumbnails_left _ _ _ _ _ Hnames) in Hdisk.
    unfold zlen in *. rewrite length_fmap in Hdisk. unfold KEPT in *. lia.
Qed.
End thumbnails.

(** ** A thumbnail's name is recognised *)
Lemma utf8_valid_app a b : utf8_valid a = true → utf8_valid b = true → utf8_valid (a ++ b) = true.
Proof.
  intros Ha Hb. rewrite <- (decode_encode_chars a Ha), <- (decode_encode_chars b Hb). unfold encode_chars. rewrite <- bind_app.
  apply encode_chars_valid, Forall_app. split; apply from_utf8_lossy_scalar.
Qed.
Lemma pretty_nonneg z : 0 <= z → all_digits (pretty z).
Proof. intros Hz. destruct z as [|p|p]; [apply (pretty_N_digits 0)|apply (pretty_N_digits (N.pos p))|lia]. Qed.
Lemma byte_of_char a : byte_z (Ascii.byte_of_ascii a) = char_z a.
Proof. destruct a as [[] [] [] [] [] [] [] []]; reflexivity. Qed.
Lemma digits_valid s : str_forallb is_ascii_digit s = true → utf8_valid (str_bytes s) = true.
Proof.
  induction s as [|a s IH]; [done|]. cbn [str_forallb]. intros [Ha Hs]%andb_true_iff. unfold utf8_valid in *.
  change (str_bytes (String a s)) with (Ascii.byte_of_ascii a :: str_bytes s). cbn [utf8_chunks].
  rewrite byte_of_char. apply between_iff in Ha. rewrite (proj2 (Z.ltb_lt _ _)) by lia. cbn. by apply IH.
Qed.
Lemma strip_prefix_app a b : strip_prefix a (a ++ b)%string = Some b.
Proof.
  induction a as [|x a IH]; [by destruct b|]. change (String x a ++ b)%string with (String x (a ++ b)%string). cbn [strip_prefix].
  by rewrite Ascii.eqb_refl.
Qed.
Lemma strip_suffix_app a b : strip_suffix b (a ++ b)%string = Some a.
Proof.
  unfold strip_suffix. rewrite str_bytes_app, length_app.
  replace (length (str_bytes a) + length (str_bytes b) - length (str_bytes b))%nat with (length (str_bytes a)) by lia.
  rewrite drop_app_length, take_app_length, !bool_decide_true by (done || lia). by rewrite str_bytes_str.
Qed.
Lemma boundary_before (u r : list byte) x : is_cont x = false → is_char_boundary (u ++ x :: r) (length u) = true.
Proof. intros Hx. unfold is_char_boundary. rewrite list_lookup_middle by done. by rewrite Hx, orb_true_r. Qed.
Lemma first_digit s : all_digits s → ∃ x r, str_bytes s = x :: r ∧ is_cont x = false.
Proof.
  intros [Hne Hd]. destruct s as [|a s]; [done|]. eexists _, _. split; [reflexivity|]. cbn in Hd.
  apply andb_true_iff in Hd as [Ha _]. apply between_iff in Ha. unfold is_cont. rewrite byte_of_char. apply between_false. lia.
Qed.
Lemma digits_numeral s : str_forallb is_ascii_digit s = true → str_contains_char "-" s = false.
Proof.
  unfold str_contains_char. intros Hs. apply negb_false_iff. eapply str_forallb_impl; [|exact Hs].
  intros x Hx%between_iff. apply negb_true_iff, Z.eqb_neq. change (char_z "-") with 45. lia.
Qed.
(** What [thumbnail_sync] calls a file, [prune_thumbnail_cache] knows to be a
    thumbnail: none is left out of the bound. *)
Lemma thumbnail_file_recognised `{Externals} u revision edge :
  uuid_valid u = true → String.length u = 36%nat → utf8_valid (str_bytes u) = true →
  0 <= revision <= u64_max → 0 <= edge <= 4294967295 →
  thumbnail_name (thumbnail_file ("entry-" ++ u) revision edge) = true.
Proof.
  intros Hu Hlen Hv Hrev Hedge. destruct (pretty_nonneg revision ltac:(lia)) as [Hr1 Hr2], (pretty_nonneg edge ltac:(lia)) as [He1 He2].
  set (tail := (pretty revision ++ "-" ++ pretty edge)%string).
  assert (Hname : thumbnail_file ("entry-" ++ u) revision edge = ("entry-" ++ (u ++ "-" ++ tail) ++ ".png")%string).
  { unfold thumbnail_file, tail. by rewrite <- !str_app_assoc. }
  unfold thumbnail_name. rewrite Hname, strip_prefix_app. cbn [mbind option_bind]. rewrite strip_suffix_app.
  assert (Hvalid : utf8_valid (str_bytes ("entry-" ++ (u ++ "-" ++ tail) ++ ".png")) = true).
  { unfold tail. rewrite !str_bytes_app. repeat (apply utf8_valid_app; [first [done|by apply digits_valid]|]);
      repeat first [apply utf8_valid_app | by apply digits_valid | done]. }
  rewrite Hvalid. cbn [andb]. rewrite <- str_bytes_length in Hlen.
  assert (Hb : str_bytes (u ++ "-" ++ tail) = str_bytes u ++ x2d :: str_bytes tail) by by rewrite str_bytes_app.
  assert (H36 : get_to 36 (u ++ "-" ++ tail) = Some u).
  { unfold get_to. rewrite Hb, <- Hlen, boundary_before, take_app_length by done. by rewrite str_bytes_str. }
  rewrite H36, Hu. cbn [andb].
  assert (H37 : get_from 37 (u ++ "-" ++ tail) = Some tail).
  { unfold get_from. rewrite Hb. replace (str_bytes u ++ x2d :: str_bytes tail) with ((str_bytes u ++ [x2d]) ++ str_bytes tail) by by rewrite <- app_assoc.
    assert (Hl : length (str_bytes u ++ [x2d]) = 37%nat) by (rewrite length_app, Hlen; done). unfold tail at 1. rewrite str_bytes_app.
    destruct (first_digit _ (conj Hr1 Hr2)) as (x & r & -> & Hx). cbn [app].
    rewrite <- Hl, boundary_before, drop_app_length by done. by rewrite str_bytes_str. }
  rewrite H37. cbn [mbind option_bind]. unfold tail.
  change ("-" ++ pretty edge)%string with (String "-" (pretty edge)). rewrite split_once_app by by apply digits_numeral.
  unfold parse_u64, parse_u32. rewrite !parse_int_pretty by (unfold u64_max in *; lia). by rewrite !bool_decide_true.
Qed.
