(* ===== verification/Keeping.v ===== *)
(** * Keeping: what the operations of the backend leave on the disk.

    Whatever the store, the disk and the other clients do, a regular file that
    was there before an operation is there after it, unchanged, unless it is in
    the program's own cache or runtime directory or the registry proves that the
    program generated it. *)
From Stdlib Require Import Ascii.
From S2P Require Import Prelude Text Externals Model Classification Selection Secret Content Sql Tables Database History Query Store Backend Artifacts Mutations Thumbnails.
Local Open Scope Z_scope.

(** ** The operations *)
Inductive Request :=
| Query (q : HistoryQuery)
| Details (id : string) (max_text_bytes : Z)
| Revision (id : string)
| Thumbnail (id : string) (expected : option Z) (edge : Z)
| ChangeToken
| Mutate (id : string) (expected : option Z) (m : BackendMutation)
| StageAnnotation (id : string) (expected : option Z) (max_bytes : Z)
| ApplyAnnotation (id : string) (revision : Z) (output : string) (max_bytes : Z)
| Replace (id : string) (expected : Z) (mime : string) (b : bytes)
| RemoveMany (targets : list EntryTarget)
| Publish (mime : string) (b : bytes) (max_bytes : Z)
| PublishSensitive (text : string) (seconds : Z)
| PublishFiles (s : FileSelection) (max_bytes : Z).

Section keeping.
Context `{Externals} (env : Env) (tenv : ThumbnailEnv).

Definition discard {A} (m : Backend A) : Backend unit := _ ← m; mret tt.
Definition serve (r : Request) : Backend unit :=
  run_backend match r with
  | Query q => discard (query_sync env q)
  | Details id n => discard (details_sync id n)
  | Revision id => discard (revision_sync id)
  | Thumbnail id expected edge => discard (thumbnail_sync env tenv id expected edge)
  | ChangeToken => discard change_token_sync
  | Mutate id expected m => discard (mutate_sync env id expected m)
  | StageAnnotation id expected n => discard (stage_annotation env id expected n)
  | ApplyAnnotation id revision output n => discard (apply_annotation id revision output n)
  | Replace id expected mime b => discard (replace_sync env id expected mime b)
  | RemoveMany targets => discard (remove_entries env targets)
  | Publish mime b n => discard (publish_sync env mime b n)
  | PublishSensitive text seconds => discard (publish_sensitive_sync env text seconds)
  | PublishFiles s n => discard (publish_files_sync env s n)
  end.

(** ** What an operation may take away *)
Definition disposable (p : string) : Prop :=
  (∃ cache, xdg_cache env = Some cache ∧ is_below (cache ++ "/clip-daemon") p = true)
  ∨ is_below (xdg_runtime env ++ "/clip-daemon") p = true.
(** Same device, inode and owner, this user's, and no second link. *)
Definition very_file (n : Node) (r : ArtifactRecord) : Prop :=
  node_links n = 1 ∧ node_device n = ar_device r ∧ node_inode n = ar_inode r
  ∧ node_owner n = ar_owner r ∧ ar_owner r = euid env.
Lemma unreplaced_very n r : unreplaced env n r = true → very_file n r.
Proof. unfold unreplaced, very_file. intros. by bools. Qed.
(** The registry, as some call of the operation saw it, holds this very file. *)
Definition registered (seen : list Tables) (p : string) (n : Node) : Prop :=
  ∃ t row, t ∈ seen ∧ t_artifacts t !! p = Some row ∧ very_file n (decode_artifact (p, row)) ∧ generated_name p = true.
(** Every regular file is still there as it was, or it may be taken away, or it
    is one of the exceptions [X]. *)
Record kept (X : string → Prop) (w w' : World) : Prop := {
  kp_files : ∀ p n, w_disk w !! p = Some n → is_file n = true →
    w_disk w' !! p = Some n ∨ X p ∨ disposable p ∨ registered (w_seen w') p n;
  kp_seen : ∃ l, w_seen w' = l ++ w_seen w;
}.
Lemma registered_later l seen p n : registered seen p n → registered (l ++ seen) p n.
Proof. intros (t & row & Ht & ?). exists t, row. split; [set_solver|done]. Qed.
#[export] Instance kept_preorder X : PreOrder (kept X).
Proof.
  split; [intros w; split; [by left|by exists []]|].
  intros w1 w2 w3 [A1 [l1 A2]] [B1 [l2 B2]]. split; [|exists (l2 ++ l1); by rewrite B2, A2, (assoc_L (++))].
  intros p n Hp Hn. destruct (A1 p n Hp Hn) as [Hp2|[?|[?|Hreg]]]; [by apply B1|by auto..|].
  right. right. right. rewrite B2. by apply registered_later.
Qed.
Lemma kept_weaken (X Y : string → Prop) w w' : (∀ p, X p → Y p) → kept X w w' → kept Y w w'.
Proof. intros HXY [A B]. split; [|done]. intros p n Hp Hn. destruct (A p n Hp Hn) as [?|[?|?]]; auto. Qed.
Lemma reads_kept X w w' : reads w w' → kept X w w'.
Proof. intros [Hd _ _ _ Hs]. split; [|done]. intros p n Hp _. left. by rewrite Hd. Qed.
#[export] Instance respects_reads_kept X A (m : Backend A) : Respects reads m → Respects (kept X) m | 10.
Proof. intros Hm w. apply reads_kept, Hm. Qed.
Lemma same_disk_kept X w w' : w_disk w' = w_disk w → w_seen w' = w_seen w → kept X w w'.
Proof. intros Hd Hs. split; [intros p n Hp _; left; by rewrite Hd|by exists []]. Qed.
#[export] Instance set_active_kept X p : Respects (kept X) (set_active p).
Proof. intros w. by apply same_disk_kept. Qed.
#[export] Instance on_clipboard_kept X p : Respects (kept X) (on_clipboard p).
Proof. intros w. unfold on_clipboard. destruct (p _). by apply same_disk_kept. Qed.

(** ** The registry *)
Lemma unlinks_kept X r w w' :
  (∃ t row, t ∈ w_seen w' ∧ t_artifacts t !! ar_path r = Some row ∧ r = decode_artifact (ar_path r, row)) →
  unlinks env r w w' → kept X w w'.
Proof.
  intros (t & row & Ht & Hrow & Hr) [[Hd|[[Ho (n & Hn & Hu)] Hd]] _ _ Hs]; (split; [|done]); intros p m Hp _; rewrite Hd; [by left|].
  destruct (decide (p = ar_path r)) as [->|Hne]; [|left; by rewrite lookup_delete_ne].
  right. right. right. rewrite Hp in Hn. injection Hn as ->. exists t, row. rewrite <- Hr. split_and!; [done|done|by apply unreplaced_very|apply Ho].
Qed.
#[export] Instance prune_kept X before : Respects (kept X) (prune env before).
Proof.
  intros w. destruct (prune env before w) as [res w'] eqn:Hp. cbn.
  assert (Hs : ∃ l, w_seen w' = l ++ w_seen w).
  { unfold prune in Hp. rewrite backend_bind in Hp. cbn [get_active] in Hp. rewrite backend_bind in Hp.
    pose proof (respects (R := reads) (m := store_artifact_candidates before PASS_LIMIT) w) as [_ _ _ _ [l Hl]].
    destruct (store_artifact_candidates before PASS_LIMIT w) as [[rs|e] w1]; cbn in Hl; [|injection Hp as _ <-; by exists l].
    apply prune_all_spec in Hp as [[_ _ _ [l' Hl']] _]. exists (l' ++ l). by rewrite Hl', Hl, (assoc_L (++)). }
  apply prune_spec in Hp as (_ & _ & _ & Hd). split; [|done]. intros p n Hn _.
  destruct (decide (w_disk w' !! p = w_disk w !! p)) as [Heq|Hne]; [left; by rewrite Heq|]. right. right. right.
  destruct (Hd p Hne) as (_ & _ & Ho & t & row & m & Ht & Hin & Hm & Hu). rewrite Hn in Hm. injection Hm as <-.
  exists t, row. split_and!; [done| |by apply unreplaced_very|apply Ho]. unfold unreferenced in Hin.
  apply list_elem_of_filter in Hin as [_ Hin]. by apply elem_of_map_to_list in Hin.
Qed.
#[export] Instance reconcile_kept X : Respects (kept X) (reconcile env).
Proof. unfold reconcile. apply _. Qed.
#[export] Instance clear_all_kept X : Respects (kept X) (clear_all env).
Proof. unfold clear_all, clear_active_selection. apply _. Qed.
Lemma artifact_get_ok p w r w1 :
  store_artifact_get p w = (Ok r, w1) →
  ∃ t, w_seen w1 = t :: w_seen w ∧ r = (λ row, decode_artifact (p, row)) <$> t_artifacts t !! p.
Proof.
  unfold store_artifact_get. intros (_ & t & s & c & Hs & Hm)%client_read_ok. exists t. split; [done|].
  by apply rows_ok in Hm.
Qed.
#[export] Instance remove_registered_kept X p : Respects (kept X) (remove_registered env p).
Proof.
  unfold remove_registered. apply respects_bind; [apply _|unfold utf8_path; apply _|]. intros q w. rewrite backend_bind.
  pose proof (respects (R := reads) (m := store_artifact_get q) w) as Hg.
  destruct (store_artifact_get q w) as [[r|e] w1] eqn:Hget; cbn in Hg; [|by apply reads_kept].
  apply artifact_get_ok in Hget as (t & Hs & Hr).
  etransitivity; [apply reads_kept, Hg|]. rewrite backend_bind.
  destruct r as [r|]; cbn [mbind Backend_bind].
  2: { by refine (respects (R := kept X) (m := active ← get_active; if bool_decide (active = Some p) then set_active None else mret tt) w1). }
  rewrite backend_bind. pose proof (remove_spec env r w1) as Hu.
  assert (Hk : kept X w1 (snd (remove env r w1))).
  { eapply unlinks_kept; [|exact Hu]. destruct (t_artifacts t !! q) as [row|] eqn:Hrow; [|done]. injection Hr as ->.
    exists t, row. destruct Hu as [_ _ _ [l ->]]. split_and!; [rewrite Hs; set_solver|done|done]. }
  destruct (remove env r w1) as [[b|e] w2]; cbn in *; [|done].
  etransitivity; [exact Hk|].
  by refine (respects (R := kept X) (m := active ← get_active; if bool_decide (active = Some p) then set_active None else mret tt) w2).
Qed.

(** ** Directories *)
#[export] Instance create_dir_all_kept X p t : Respects (kept X) (io (create_dir_all env p t)).
Proof.
  apply respects_io. intros w. destruct (create_dir_all env p t w) as [r w'] eqn:Hc. cbn.
  apply io_call_cases in Hc as (Hs & _ & _ & [(a & _ & Hf)|[(e & _ & _ & Hd)|(s & _ & Hd)]]);
    [|by apply same_disk_kept..].
  destruct (make_dirs env 493 t (ancestors p ++ [p]) (w_disk w)) as [fs|e] eqn:Hm; [|done]. injection Hf as _ Hf. subst fs.
  apply make_dirs_spec in Hm as [Hsub _]. split; [|by exists []]. intros q n Hq _. left. by eapply lookup_weaken.
Qed.
#[export] Instance private_directory_kept X p : Respects (kept X) (private_directory env p).
Proof.
  unfold private_directory. apply respects_bind; [apply _|apply _|]. intros t w. rewrite backend_bind.
  pose proof (create_dir_all_kept X p t w) as Hk. unfold io in *.
  destruct (create_dir_all env p t w) as [[[]|e] w1] eqn:Hc; cbn in *; [|done].
  etransitivity; [exact Hk|]. rewrite backend_bind.
  assert (Hdir : ∃ n, w_disk w1 !! p = Some n ∧ is_file n = false).
  { apply io_call_cases in Hc as (_ & _ & _ & [(a & _ & Hf)|[(e & He & _)|(s & He & _)]]); [|done..].
    destruct (make_dirs env 493 t (ancestors p ++ [p]) (w_disk w)) as [fs|e] eqn:Hm; [|done]. injection Hf as _ Hf. subst fs.
    apply make_dirs_spec in Hm as [_ Hm]. destruct (Hm p) as (n & Hn & Hkind); [set_solver|]. exists n. split; [done|].
    unfold is_file. apply bool_decide_eq_false. by destruct Hkind as [-> | ->]. }
  assert (Hp : kept X w1 (snd (set_permissions p 448 w1))).
  { destruct (set_permissions p 448 w1) as [r w2] eqn:Hsp. cbn.
    apply io_call_cases in Hsp as (Hs & _ & _ & [(a & _ & Hf)|[(e & _ & _ & Hd)|(s & _ & Hd)]]);
      [|by apply same_disk_kept..].
    destruct Hdir as (n & Hn & Hnf). rewrite Hn in Hf. cbn in Hf. split; [|by exists []]. intros q m Hq Hm. left.
    case_decide; injection Hf as _ <-; [done|]. rewrite lookup_insert_ne; [done|]. intros <-. congruence. }
  destruct (set_permissions p 448 w1) as [[[]|e] w2]; exact Hp.
Qed.
#[export] Instance runtime_directory_kept X child : Respects (kept X) (runtime_directory env child).
Proof. unfold runtime_directory. apply _. Qed.
Lemma filtered_kept (Q : string * Node → Prop) `{!∀ kv, Decision (Q kv)} X dir (fs : Fs) p n seen :
  (∀ p, is_below dir p = true → disposable p) → (∀ kv, kv.1 ≠ dir ∧ is_below dir kv.1 = false → Q kv) →
  node_kind <$> fs !! dir = Some Directory → fs !! p = Some n → is_file n = true →
  filter Q fs !! p = Some n ∨ X p ∨ disposable p ∨ registered seen p n.
Proof.
  intros Hdir HQ Hd Hp Hn. destruct (is_below dir p) eqn:Hb; [right; right; left; by apply Hdir|]. left.
  apply map_lookup_filter_Some. split; [done|]. apply HQ. split; [|done]. cbn. intros ->. rewrite Hp in Hd.
  injection Hd as Hd. unfold is_file in Hn. apply bool_decide_eq_true in Hn. congruence.
Qed.
Lemma remove_dir_all_kept X dir :
  (∀ p, is_below dir p = true → disposable p) → ∀ w, kept X w (snd (remove_dir_all dir w)).
Proof.
  intros Hdir w. destruct (remove_dir_all dir w) as [r w'] eqn:Hr. cbn.
  apply io_call_cases in Hr as (Hs & _ & _ & Hcases). split; [|by exists []]. intros p n Hp Hn.
  destruct Hcases as [(a & _ & Hf)|[(e & _ & _ & Hd)|(s & _ & Hd)]]; [| by rewrite Hd; left |].
  - destruct (w_disk w !! dir) as [d|] eqn:Hdd; [|done]. cbn in Hf. destruct (node_kind d) eqn:Hk; try done; injection Hf as _ Hf.
    + rewrite <- Hf. eapply filtered_kept; [done| |by rewrite Hdd; cbn; rewrite Hk|done..]. done.
    + left. rewrite <- Hf, lookup_delete_ne; [done|]. intros <-. rewrite Hdd in Hp. injection Hp as ->.
      unfold is_file in Hn. apply bool_decide_eq_true in Hn. congruence.
  - destruct (node_kind <$> w_disk w !! dir) as [[]|] eqn:Hdd; rewrite Hd; try by left.
    eapply filtered_kept; [done| |exact Hdd|done..]. intros kv ?. by left.
Qed.

(** ** Files the operation creates itself *)
Definition or_path (X : string → Prop) (p : string) : string → Prop := λ q, X q ∨ q = p.
Lemma kept_new X p w w' : w_disk w !! p = None → kept (or_path X p) w w' → kept X w w'.
Proof.
  intros Hnew [A B]. split; [|done]. intros q n Hq Hn. destruct (A q n Hq Hn) as [?|[[?| ->]|[?|?]]]; auto. congruence.
Qed.
Lemma remove_file_kept X p w : kept (or_path X p) w (snd (remove_file p w)).
Proof.
  destruct (remove_file p w) as [r w'] eqn:Hr. cbn. apply remove_file_spec in Hr as (_ & _ & Hs & _ & Hd).
  split; [|by exists []]. intros q n Hq _. destruct Hd as [->| ->]; [by left|].
  destruct (decide (q = p)) as [->|Hne]; [right; left; by right|left; by rewrite lookup_delete_ne].
Qed.
#[export] Instance io_remove_file_kept X p : Respects (kept (or_path X p)) (io_ok (remove_file p)).
Proof. apply respects_io_ok. intros w. apply remove_file_kept. Qed.
#[export] Instance write_all_kept X p b : Respects (kept (or_path X p)) (io (write_all p b)).
Proof.
  apply respects_io. intros w. destruct (write_all p b w) as [r w'] eqn:Hr. cbn.
  apply io_call_cases in Hr as (Hs & _ & _ & [(a & _ & Hf)|[(e & _ & _ & Hd)|(s & _ & Hd)]]); [|by apply same_disk_kept..].
  injection Hf as _ Hf. split; [|by exists []]. intros q n Hq _. rewrite <- Hf.
  destruct (decide (q = p)) as [->|Hne]; [right; left; by right|left; by rewrite lookup_alter_ne].
Qed.
#[export] Instance sync_all_kept X : Respects (kept X) (io sync_all).
Proof. apply respects_io. intros w. apply reads_kept. exact (look_reads (λ fs, Ok tt) w). Qed.
Lemma private_file_spec p w r w' :
  private_file env p w = (r, w') → (∀ X, kept X w w') ∧ (r = Ok tt → w_disk w !! p = None).
Proof.
  unfold private_file. rewrite backend_bind. cbn [tick]. unfold io.
  set (w1 := mkWorld _ _ _ _ _ _ _ _ _ _). assert (Hw : w_disk w1 = w_disk w ∧ w_seen w1 = w_seen w) by done.
  destruct Hw as [Hdw Hsw]. destruct (io_call _ _ w1) as [r1 w2] eqn:Hc. intros [= <- <-].
  apply io_call_cases in Hc as (Hs & _ & _ & Hcases). rewrite Hdw, Hsw in *.
  destruct Hcases as [([] & -> & Hf)|[(e & -> & _ & Hd)|(s & Hr & Hd)]].
  - destruct (w_disk w !! p) eqn:Hp; [done|]. injection Hf as Hf. split; [|done]. intros X. split; [|by exists []].
    intros q n Hq _. left. rewrite <- Hf, lookup_insert_ne; [done|]. congruence.
  - split; [|done]. intros X. by apply same_disk_kept.
  - split; [|by destruct r1]. intros X. by apply same_disk_kept.
Qed.
Lemma write_private_spec p b w r w' :
  write_private env p b w = (r, w') → (∀ X, kept X w w') ∧ (r = Ok tt → w_disk w !! p = None).
Proof.
  unfold write_private. rewrite backend_bind. destruct (private_file env p w) as [[[]|e] w1] eqn:Hp.
  2: { intros [= <- <-]. apply private_file_spec in Hp as [Hk _]. done. }
  apply private_file_spec in Hp as [Hk Hn]. specialize (Hn eq_refl). intros Hr. split; [|done]. intros X.
  apply (kept_new X p); [done|]. etransitivity; [apply Hk|].
  change w' with (snd (r, w')). rewrite <- Hr.
  by refine (respects (R := kept (or_path X p)) (m := r ← attempt (_ ← io (write_all p b); io sync_all);
    match r with Ok _ => mret tt | Err e => _ ← io_ok (remove_file p); lift (Err e) end) w1).
Qed.
#[export] Instance write_private_kept X p b : Respects (kept X) (write_private env p b).
Proof. intros w. destruct (write_private env p b w) as [r w'] eqn:Hr. apply write_private_spec in Hr as [Hk _]. apply Hk. Qed.
#[export] Instance unique_path_reads d e : Respects reads (unique_path env d e).
Proof. unfold unique_path. apply _. Qed.
#[export] Instance image_directory_kept X : Respects (kept X) (image_directory env).
Proof. unfold image_directory. apply _. Qed.
#[export] Instance get_reads id r : Respects reads (selected id r).
Proof. unfold selected, store_get. apply _. Qed.
#[export] Instance selected_bytes_reads id r n : Respects reads (selected_bytes id r n).
Proof. unfold selected_bytes. apply _. Qed.
#[export] Instance selected_image_reads id r n : Respects reads (selected_image id r n).
Proof. unfold selected_image. apply _. Qed.
#[export] Instance completed_reads a m : Respects reads (completed_now env a m).
Proof. unfold completed_now. apply _. Qed.
#[export] Instance publish_entry_kept X s b n : Respects (kept X) (publish_entry s b n).
Proof. unfold publish_entry. apply _. Qed.

(** The file [prepare_image_file] created was not there before, or was one that
    may be taken away. *)
Lemma prepare_kept X c b w r w' :
  prepare_image_file env c b w = (r, w') →
  kept X w w' ∧ ∀ p, r = Ok (p, true) → ∀ w2, kept (or_path X p) w' w2 → kept X w w2.
Proof.
  unfold prepare_image_file. destruct (rc_image c) as [[mime d|src]|].
  2: { intros [= <- <-]. split; [reflexivity|done]. } 2: { intros [= <- <-]. split; [reflexivity|done]. }
  rewrite backend_bind. pose proof (image_directory_kept X w) as H1.
  destruct (image_directory env w) as [[dir|e] w1]; cbn in H1; [|intros [= <- <-]; split; done].
  rewrite backend_bind. pose proof (respects (R := kept X) (m := unique_path env dir (image_extension mime)) w1) as H2.
  destruct (unique_path env dir _ w1) as [[p|e] w2]; cbn in H2; [|intros [= <- <-]; split; [by etransitivity|done]].
  rewrite backend_bind. destruct (write_private env p b w2) as [[[]|e] w3] eqn:Hw; apply write_private_spec in Hw as [H3 Hnew].
  2: { intros [= <- <-]. split; [|done]. do 2 (etransitivity; [done|]). apply H3. }
  specialize (Hnew eq_refl). intros [= <- <-]. assert (H12 : kept X w w2) by by etransitivity.
  split; [by etransitivity|]. intros q [= <-] w4 Hk.
  assert (Hk' : kept X w2 w4) by (apply (kept_new X p); [done|]; etransitivity; [apply H3|done]).
  by etransitivity.
Qed.
#[export] Instance activate_kept X p : Respects (kept X) (activate_if_generated p).
Proof. unfold activate_if_generated, utf8_path. apply _. Qed.
#[export] Instance track_kept X p id mime b : Respects (kept (or_path X p)) (track_image_file env p true id mime b).
Proof. unfold track_image_file. cbn [negb]. apply _. Qed.
#[export] Instance publish_uri_kept X p n : Respects (kept X) (publish_image_uri p n).
Proof. unfold publish_image_uri. apply _. Qed.
#[export] Instance rollback_kept X p c : Respects (kept X) (rollback_image_file env p c).
Proof. unfold rollback_image_file. apply _. Qed.
Lemma after_prepare_kept X p c id mime b n :
  Respects (kept (if c : bool then or_path X p else X))
    (_ ← track_image_file env p c id mime b;
     r ← attempt (publish_image_uri p n);
     match r with
     | Err e => _ ← rollback_image_file env p c; lift (Err e)
     | Ok _ =>
         _ ← activate_if_generated p;
         op ← completed_now env "image-as-file" (if c : bool then "Image file copied" else "Image file link copied");
         mret (with_path p op)
     end).
Proof. destruct c; [apply _|]. unfold track_image_file. cbn [negb]. apply _. Qed.
#[export] Instance save_image_file_kept X id r n : Respects (kept X) (save_image_file env id r n).
Proof.
  unfold save_image_file. apply respects_bind; [apply _|apply _|]. intros [s b].
  apply respects_bind; [apply _|apply _|]. intros fs w. rewrite backend_bind.
  destruct (prepare_image_file env _ b w) as [[[p c]|e] w1] eqn:Hp; apply (prepare_kept X) in Hp as [Hk Hnew]; [|done].
  pose proof (after_prepare_kept X p c (s_id s) (resolved_mime (resolved_content fs (s_mime s) b n)) b n w1) as Ha.
  destruct c; [by apply (Hnew p)|by etransitivity].
Qed.
#[export] Instance stage_kept X id r n : Respects (kept X) (stage_annotation env id r n).
Proof.
  unfold stage_annotation. apply respects_bind; [apply _|apply _|]. intros [s b].
  apply respects_bind; [apply _|apply _|]. intros fs. apply respects_bind; [apply _| |intros [mime image]; apply _].
  destruct (rc_image _) as [[]|]; apply _.
Qed.
#[export] Instance clear_cache_kept X : Respects (kept X) (clear_cache env).
Proof.
  intros w. unfold clear_cache. rewrite backend_bind. destruct (xdg_cache env) as [c|] eqn:Hc; cbn [ok_or lift]; [|cbn; reflexivity].
  rewrite backend_bind.
  pose proof (remove_dir_all_kept X (c ++ "/clip-daemon")) as Hk.
  specialize (Hk ltac:(intros p Hp; left; exists c; done) w). destruct (remove_dir_all _ w) as [[[]|[|e]] w1]; exact Hk.
Qed.
Lemma runtime_directory_name child w d w' : runtime_directory env child w = (Ok d, w') → d = (xdg_runtime env ++ "/" ++ child)%string.
Proof.
  unfold runtime_directory, private_directory. intros Hr. apply backend_bind_ok in Hr as (? & ? & _ & Hr).
  apply backend_bind_ok in Hr as (? & ? & _ & Hr). apply backend_bind_ok in Hr as (? & ? & _ & [= <- _]). done.
Qed.
#[export] Instance cleanup_kept X : Respects (kept X) (cleanup_backend env).
Proof.
  unfold cleanup_backend. apply respects_bind; [apply _|apply _|]. intros _ w. rewrite backend_bind.
  pose proof (runtime_directory_kept X "clip-daemon" w) as Hk.
  destruct (runtime_directory env "clip-daemon" w) as [[d|e] w1] eqn:Hr; cbn in Hk; [|done].
  apply runtime_directory_name in Hr as ->. etransitivity; [exact Hk|].
  refine (respects (R := kept X) (m := _ ← io (remove_dir_all (xdg_runtime env ++ "/" ++ "clip-daemon")); reconcile env) w1).
  apply respects_bind; [apply _| |intros; apply _]. apply respects_io, remove_dir_all_kept. intros p Hp. by right.
Qed.


(** ** Thumbnails *)
Definition cached_path (p : string) : Prop :=
  ∃ cache, xdg_cache env = Some cache ∧ is_below (cache ++ "/clip-daemon") p = true.
(** A symbolic link in the cache leads to the file. *)
Definition linked (p : string) : Prop := ∃ l, cached_path l ∧ link_target tenv l = Some p.
Lemma files_only_kept X w w' :
  files_only w w' →
  (∀ p n, w_disk w !! p = Some n → is_file n = true → w_disk w' !! p = Some n ∨ X p ∨ disposable p) → kept X w w'.
Proof. intros [_ _ _ Hs] Hd. split; [|done]. intros p n Hp Hn. destruct (Hd p n Hp Hn) as [?|[?|?]]; auto. Qed.
Lemma cached_below cache p : xdg_cache env = Some cache → cached_path (cache ++ "/clip-daemon/" ++ p)%string.
Proof. intros Hc. exists cache. split; [done|]. unfold is_below. apply starts_with_iff. exists p. by rewrite <- !str_app_assoc. Qed.
Lemma reads_or_disposable p x : cached_path p → x = p ∨ link_target tenv p = Some x → linked x ∨ disposable x.
Proof. intros Hp [->|Hl]; [right; by left|left; by exists p]. Qed.
Lemma private_permissions_kept p mode w : cached_path p → kept linked w (snd (private_permissions tenv p mode w)).
Proof.
  intros Hp. apply files_only_kept; [apply private_permissions_files|]. intros x n Hx Hn.
  destruct (private_permissions tenv p mode w) as [r w'] eqn:Hr. cbn. unfold private_permissions, io_or in Hr.
  destruct (io_call _ _ w) as [r1 w1] eqn:Hc. injection Hr as _ <-.
  apply io_call_cases in Hc as (_ & _ & _ & [(a & _ & Hf)|[(e & _ & _ & ->)|(s & _ & ->)]]); [|by left|by left].
  destruct (reached tenv (w_disk w) p) as [[q m]|] eqn:Hreach; [|done]. injection Hf as _ Hf. rewrite <- Hf.
  apply reached_cases in Hreach as [_ Hq].
  destruct (decide (x = q)) as [->|Hne]; [right; by apply (reads_or_disposable p)|left; by rewrite lookup_insert_ne].
Qed.
Lemma save_png_kept e p b t w : cached_path p → kept linked w (snd (io_or e (save_png env tenv p b t) w)).
Proof.
  intros Hp. apply files_only_kept; [apply io_or_files_only|]. intros x n Hx Hn. unfold io_or.
  assert (Hcf : ∀ c fs, create_file env tenv t p c (w_disk w) = Ok fs → fs !! x = Some n ∨ linked x ∨ disposable x).
  { intros c fs Hfs. destruct (decide (fs !! x = w_disk w !! x)) as [->|Hne]; [by left|right].
    apply (reads_or_disposable p); [done|]. by eapply create_file_changes. }
  destruct (save_png env tenv p b t w) as [r w'] eqn:Hr. cbn.
  apply io_call_cases in Hr as (_ & _ & _ & [(a & _ & Hf)|[(e' & _ & _ & ->)|(s & _ & ->)]]); [|by left|].
  - destruct (create_file _ _ _ _ _ _) as [fs|] eqn:Hfs; [|done]. injection Hf as _ <-. by apply (Hcf b).
  - destruct (s p); [by left|]. destruct (create_file _ _ _ _ _ _) as [fs|] eqn:Hfs; [by apply (Hcf _ fs Hfs)|by left].
Qed.
Lemma prune_cache_kept dir : (∀ name, cached_path (dir ++ "/" ++ name)) → Respects (kept linked) (prune_thumbnail_cache tenv dir).
Proof.
  intros Hdir w. apply files_only_kept; [apply prune_cache_files|]. intros p n Hp _.
  destruct (prune_thumbnail_cache tenv dir w) as [r w'] eqn:Hr. cbn. apply prune_cache_spec in Hr as [_ Hd].
  destruct (Hd p) as [->|(_ & name & _ & -> & _)]; [by left|right; right; left; apply Hdir].
Qed.
#[export] Instance thumbnail_directory_kept : Respects (kept linked) (thumbnail_directory env tenv).
Proof.
  intros w. unfold thumbnail_directory, cache_root. rewrite backend_bind. destruct (xdg_cache env) as [cache|] eqn:Hc; [|cbn; reflexivity].
  cbn [lift ok_or]. assert (Hdir : cached_path (cache ++ "/clip-daemon/thumbnails")) by by apply (cached_below cache "thumbnails").
  refine (respects (R := kept linked) (m := t ← tick; _ ← io_or cache_unavailable (create_dir_all env _ t);
    _ ← private_permissions tenv _ 448; _ ← prune_thumbnail_cache tenv _; mret _) w).
  apply respects_bind; [apply _|apply _|]. intros t. apply respects_bind; [apply _| |intros _].
  { apply respects_io_or. intros w1. pose proof (create_dir_all_kept linked (cache ++ "/clip-daemon/thumbnails") t w1) as Hk.
    unfold io in Hk. by destruct (create_dir_all _ _ t w1). }
  apply respects_bind; [apply _|intros w1; by apply private_permissions_kept|intros _].
  apply respects_bind; [apply _| |intros; apply _]. apply prune_cache_kept. intros name.
  pose proof (cached_below cache ("thumbnails/" ++ name) Hc) as Hn. by rewrite <- !str_app_assoc in *.
Qed.
Lemma make_thumbnail_kept stored content edge p : cached_path p → Respects (kept linked) (make_thumbnail env tenv stored content edge p).
Proof.
  intros Hp. unfold make_thumbnail. apply respects_bind; [apply _|apply _|]. intros fs.
  apply respects_bind; [apply _|apply _|]. intros b. destruct (scaled tenv b edge) as [[x y] png].
  apply respects_bind; [apply _|apply _|]. intros t. apply respects_bind; [apply _|intros w; by apply save_png_kept|intros _].
  apply respects_bind; [apply _|intros w; by apply private_permissions_kept|intros _; apply _].
Qed.
#[export] Instance cached_dimensions_kept p : Respects (kept linked) (cached_dimensions tenv p).
Proof.
  intros w. apply files_only_kept; [apply cached_dimensions_files|]. intros q n Hq _. left.
  destruct (cached_dimensions tenv p w) as [[o|e] w'] eqn:Hc; [apply cached_dimensions_spec in Hc as [Hd _]; cbn; by rewrite Hd|].
  unfold cached_dimensions, io_ok in Hc. rewrite backend_bind in Hc. by destruct (io_call _ _ w).
Qed.
#[export] Instance thumbnail_sync_kept id expected edge : Respects (kept linked) (thumbnail_sync env tenv id expected edge).
Proof.
  unfold thumbnail_sync. apply respects_bind; [apply _|apply _|]. intros stored w. unfold thumbnail_of.
  rewrite backend_bind. cbn [get_disk]. rewrite backend_bind. pose proof (thumbnail_directory_kept w) as Hk.
  destruct (thumbnail_directory env tenv w) as [[dir|e] w1] eqn:Hdir; cbn in Hk; [|exact Hk]. etransitivity; [exact Hk|].
  apply thumbnail_directory_name in Hdir as (cache & Hc & ->).
  refine (respects (R := kept linked) (m := cached ← cached_dimensions tenv _;
    '(width, height) ← match cached with Some d => mret d | None => make_thumbnail env tenv stored _ _ _ end; mret _) w1).
  apply respects_bind; [apply _|apply _|]. intros cached. apply respects_bind; [apply _| |intros [x y]; apply _].
  destruct cached; [apply _|]. apply make_thumbnail_kept.
  pose proof (cached_below cache ("thumbnails/" ++ thumbnail_file (s_id (st_summary stored)) (s_revision (st_summary stored)) (clamp 32 1024 edge)) Hc) as Hn.
  by rewrite <- !str_app_assoc in *.
Qed.

#[export] Instance serve_kept r : Respects (kept linked) (serve r).
Proof.
  unfold serve, run_backend. apply respects_bind; [apply _|apply _|]. intros _.
  destruct r as [q|id k|id|id ex k| |id ex m|id ex k|id rev out k|id ex mime b|targets|mime b k|text k|fsel k]; unfold discard.
  - unfold query_sync, store_query. apply _.
  - unfold details_sync. apply _.
  - unfold revision_sync, store_entry_revision. apply _.
  - apply _.
  - unfold change_token_sync, store_revision. apply _.
  - unfold mutate_sync. apply respects_bind; [apply _| |intros; apply _]. apply respects_bind; [apply _|apply _|]. intros _.
    destruct m; apply _.
  - apply _.
  - unfold apply_annotation, store_replace, selection_changed, clear_active_selection. apply _.
  - unfold replace_sync, store_replace, restore_entry, selection_changed, clear_active_selection.
    apply respects_bind; [apply _| |intros; apply _]. apply respects_bind; [apply _|apply _|]. intros s.
    apply respects_bind; [apply _|apply _|]. intros fs. apply respects_bind; [apply _|apply _|]. intros [|]; apply _.
  - unfold remove_entries, store_remove_many. apply _.
  - unfold publish_sync, selection_changed, clear_active_selection. apply _.
  - unfold publish_sensitive_sync. apply _.
  - unfold publish_files_sync, selection_changed, clear_active_selection. apply _.
Qed.
End keeping.
