(* ===== verification/Commits.v ===== *)
(** * Commits: what the backend's operations tell their caller, and when.

    A selection is published only with what the history holds; a change of the
    history is acknowledged once it is committed, and a failing publication or
    clean-up afterwards neither undoes nor hides it. *)
From Stdlib Require Import Ascii.
From stdpp Require Import pretty.
From S2P Require Import Prelude Text Externals Model Classification Selection Secret Content Sql Tables Database History HistorySpec Retention Invariant Preservation Query Store Backend Artifacts Mutations Keeping.
Local Open Scope Z_scope.

Section commits.
Context `{Externals} (env : Env).

Definition with_clipboard (c : Clipboard) (w : World) : World :=
  mkWorld (w_db w) (w_turns w) (w_store w) (w_disk w) (w_io w) c (w_active w) (w_closed w) (w_ticks w) (w_seen w).
Lemma on_clipboard_run p w : on_clipboard p w = ((p (w_clipboard w)).1, with_clipboard (p (w_clipboard w)).2 w).
Proof. unfold on_clipboard. by destruct (p (w_clipboard w)). Qed.

(** What the selection offers for a stored entry. *)
Definition entry_request (fs : Fs) (st : StoredEntry) (max_bytes : Z) (r : CopyRequest) : Prop :=
  let content := resolve fs (st_mime st) (st_bytes st) (effective_limit max_bytes) in
  match local_image content with
  | Some source => carries (PFile fs (li_mime source) (li_path source)) r
  | None => carries (PContent (resolved_mime content) (st_bytes st)) r
  end.
Lemma publish_entry_spec s b mime max_bytes w res w' :
  0 <= max_bytes →
  publish_entry (with_mime mime s) b max_bytes w = (res, w') →
  ∃ c, w' = with_clipboard c w ∧
  match res with
  | Ok _ => ∃ r, cb_owned c = r :: cb_owned (w_clipboard w) ∧ safe_request max_bytes r
                 ∧ entry_request (w_disk w) (mkStored s mime b) max_bytes r
  | Err _ => cb_owned c = cb_owned (w_clipboard w)
  end.
Proof.
  intros Hm. unfold publish_entry. rewrite backend_bind. cbn [get_disk with_mime s_mime s_kind].
  set (content := resolved_content (w_disk w) mime b max_bytes).
  assert (Hsame : ∃ c, w = with_clipboard c w ∧ cb_owned c = cb_owned (w_clipboard w)) by (by exists (w_clipboard w); destruct w).
  destruct (bool_decide (s_kind s = Image) && _); [intros [= <- <-]; exact Hsame|].
  assert (Hpub : ∀ p, match local_image content with
                      | Some source => carries (PFile (w_disk w) (li_mime source) (li_path source))
                      | None => carries (PContent (resolved_mime content) b)
                      end = carries p →
    on_clipboard (run_publication p max_bytes) w = (res, w') → ∃ c, w' = with_clipboard c w ∧
      match res with
      | Ok _ => ∃ r, cb_owned c = r :: cb_owned (w_clipboard w) ∧ safe_request max_bytes r
                     ∧ entry_request (w_disk w) (mkStored s mime b) max_bytes r
      | Err _ => cb_owned c = cb_owned (w_clipboard w)
      end).
  { intros p Hp. rewrite on_clipboard_run. intros [= <- <-]. eexists. split; [reflexivity|].
    pose proof (publication_runs p max_bytes (w_clipboard w) Hm) as Hrun.
    destruct (run_publication p max_bytes (w_clipboard w)) as [[u|e] c]; cbn; [|done].
    destruct Hrun as (r & Ho & Hs & Hc). exists r. split_and!; try done. unfold entry_request. cbn.
    fold (resolved_content (w_disk w) mime b max_bytes). fold content. rewrite <- Hp in Hc.
    by destruct (local_image content). }
  destruct (local_image content) as [source|].
  - by apply (Hpub (PFile (w_disk w) (li_mime source) (li_path source))).
  - by apply (Hpub (PContent (resolved_mime content) b)).
Qed.

Lemma selected_bytes_ok id expected max_bytes w s b w1 :
  selected_bytes id expected max_bytes w = (Ok (s, b), w1) →
  reads w w1 ∧ ∃ t st, w_seen w1 = t :: w_seen w ∧ fst (ideal (db_get id expected) t) = Ok st
                       ∧ s = with_mime (st_mime st) (st_summary st) ∧ b = st_bytes st.
Proof.
  intros Hr. pose proof (respects (R := reads) (m := selected_bytes id expected max_bytes) w) as Hreads.
  rewrite Hr in Hreads. split; [exact Hreads|]. unfold selected_bytes in Hr.
  apply backend_bind_ok in Hr as (st & w2 & Hg & Hr). apply backend_bind_ok in Hr as (? & ? & Hl & [= <- <- <-]).
  injection Hl as _ ->. unfold selected, store_get in Hg. apply client_read_ok in Hg as (_ & t & sch & c & Hs & Hm).
  exists t, st. split_and!; try done. apply faithful in Hm. unfold ideal. by rewrite Hm.
Qed.
Lemma completed_run a m w : ∃ op w1, completed_now env a m w = (Ok op, w1) ∧ reads w w1 ∧ w_db w1 = w_db w.
Proof. eexists _, _. split; [reflexivity|]. split; [split; try done; by exists []|done]. Qed.

(** Restoring an entry publishes exactly what the history holds: success
    means that the selection offers one new request with the bytes some call of
    this operation read from the store for this entry and revision (or the bytes
    of the image file they name), within the limit and under the resolved type,
    and that no generated file is protected any more; an error means that the
    selection and the protected file are as before.  The disk is not touched. *)
Theorem restore_exact id expected max_bytes w res w' :
  0 <= max_bytes → restore_entry env id expected max_bytes w = (res, w') →
  w_disk w' = w_disk w ∧
  match res with
  | Ok _ => w_active w' = None ∧ ∃ t st r, t ∈ w_seen w' ∧ fst (ideal (db_get id expected) t) = Ok st
              ∧ cb_owned (w_clipboard w') = r :: cb_owned (w_clipboard w)
              ∧ safe_request max_bytes r ∧ entry_request (w_disk w) st max_bytes r
  | Err _ => w_active w' = w_active w ∧ cb_owned (w_clipboard w') = cb_owned (w_clipboard w)
  end.
Proof.
  intros Hm. unfold restore_entry. rewrite backend_bind.
  pose proof (respects (R := reads) (m := selected_bytes id expected max_bytes) w) as H1.
  destruct (selected_bytes id expected max_bytes w) as [[[s b]|e] w1] eqn:Hs; cbn in H1.
  2: { intros [= <- <-]. destruct H1 as [-> -> -> _ _]. done. }
  apply selected_bytes_ok in Hs as (_ & t & st & Hseen & Hget & -> & ->). rewrite backend_bind.
  destruct (publish_entry _ (st_bytes st) max_bytes w1) as [res1 w2] eqn:Hp.
  apply publish_entry_spec in Hp as (c & -> & Hres); [|done]. destruct H1 as [Hd Ha Hc _ _].
  destruct res1 as [[]|e].
  2: { intros [= <- <-]. cbn. rewrite Hd, Ha, Hres, Hc. done. }
  destruct Hres as (r & Ho & Hsafe & Hent). rewrite backend_bind. cbn [selection_changed clear_active_selection set_active].
  set (w3 := mkWorld _ _ _ _ _ _ _ _ _ _).
  destruct (completed_run "copy" "Entry published to the Wayland clipboard" w3) as (op & w4 & -> & [Hd4 Ha4 Hc4 _ [l Hl]] & _).
  intros [= <- <-]. rewrite Hd4, Ha4, Hc4. cbn. split_and!; [done..|].
  exists t, st, r. split_and!; try done.
  - rewrite Hl. cbn. rewrite Hseen. set_solver.
  - by rewrite Ho, Hc.
  - rewrite Hd in Hent. by destruct st.
Qed.

(** ** A transaction that was acknowledged *)
Lemma transaction_ok {A} (body : SqlT A) db a db' `{!Faithful body} :
  transaction body db = (Ok a, db') → ideal body (durable db) = (Ok a, durable db') ∧ healthy db'.
Proof.
  unfold transaction. destruct (blocked db); [done|].
  assert (Hbody : ∀ s a c, body (mkConn (durable db) s) = (Ok a, c) → ideal body (durable db) = (Ok a, c_tables c)).
  { intros s x c E. apply faithful in E. unfold ideal. by rewrite E. }
  destruct (schedule db) as [|[] s], (open_transaction db); try done;
    match goal with |- context [body ?c] => destruct (body c) as [[x|e] c'] eqn:E end;
    destruct (c_schedule c') as [|[] s']; cbn [tail]; try destruct s' as [|[] s']; try done;
    intros [= <- <-]; apply Hbody in E; by rewrite E.
Qed.
Lemma client_commit_ok {A} (v : BackendResult unit) (body : SqlT A) w a w' `{!Faithful body} :
  client v (run_call (Transact body)) w = (Ok a, w') →
  v = Ok tt ∧ reads w w' ∧ ∃ t, w_seen w' = t :: w_seen w ∧ ideal body t = (Ok a, durable (w_db w')) ∧ healthy (w_db w').
Proof.
  intros Hc. pose proof (respects (R := reads) (m := client v (run_call (Transact body))) w) as Hr. rewrite Hc in Hr.
  unfold client in Hc. destruct v as [[]|]; [|done]. destruct (match w_store w with Some _ => _ | None => _ end); [done|].
  destruct (blocked _) eqn:Hb; [done|]. set (db := steps _ _) in *. cbn [run_call] in Hc.
  destruct (transaction body db) as [r db1] eqn:Ht. injection Hc as -> <-.
  split; [done|]. split; [exact Hr|]. exists (default (durable db) (open_transaction db)).
  split; [done|]. pose proof Ht as Ht'. apply transaction_ok in Ht as [Hi Hh]; [|apply _].
  cbn. split; [|done]. assert (open_transaction db = None) as ->; [|done].
  destruct (open_transaction db) eqn:Ho; [|done]. unfold transaction in Ht'. rewrite Hb, Ho in Ht'.
  by destruct (schedule db) as [|[] ?].
Qed.

(** The edited file [output] is in the history at the entry's revision, and
    offered unless the completion warns. *)
Definition edit_committed (id : string) (revision : Z) (output : string) (max_bytes : Z) (w : World) (c : Completion) (w' : World)
    : Prop :=
  ∃ b s t, read_edited_image (w_disk w) output max_bytes = Some b ∧ t ∈ w_seen w'
    ∧ ideal (replace_body (w_disk w) id revision "image/png" b) t = (Ok s, durable (w_db w'))
    ∧ co_status c = "completed"%string
    ∧ match co_warning c with
      | None => w_active w' = None ∧ ∃ r, cb_owned (w_clipboard w') = r :: cb_owned (w_clipboard w)
                                          ∧ safe_request max_bytes r ∧ c_sources r = [(Specific "image/png", b)]
      | Some _ => cb_owned (w_clipboard w') = cb_owned (w_clipboard w) ∧ w_active w' = w_active w
      end.

(** The history comes first when an edited image is committed: an error
    means that nothing was published; success means that the edited file was a
    valid bounded PNG, that exactly its bytes replaced the entry in a transaction
    the store acknowledged, at the revision the editor started from, and that
    the selection offers them, unless the result warns that it could not. *)
Theorem annotation_commits id revision output max_bytes w res w' :
  0 <= max_bytes → apply_annotation id revision output max_bytes w = (res, w') →
  w_disk w' = w_disk w ∧
  match res with
  | Err _ => cb_owned (w_clipboard w') = cb_owned (w_clipboard w) ∧ w_active w' = w_active w
  | Ok c => edit_committed id revision output max_bytes w c w'
  end.
Proof.
  intros Hm. unfold apply_annotation. rewrite backend_bind. cbn [get_disk]. rewrite backend_bind.
  destruct (read_edited_image (w_disk w) output max_bytes) as [b|] eqn:Hb; cbn [ok_or lift]; [|by intros [= <- <-]].
  rewrite backend_bind. unfold store_replace at 1. rewrite backend_bind. cbn [get_disk].
  pose proof (respects (R := reads) (m := client (validate (RMutate (OpReplace (w_disk w) id revision "image/png" b)))
    (run_call (replace (w_disk w) id revision "image/png" b))) w) as H1.
  destruct (client _ _ w) as [[s|e] w1] eqn:Hc; cbn in H1.
  2: { intros [= <- <-]. destruct H1 as [-> -> -> _ _]. done. }
  unfold replace in Hc. apply client_commit_ok in Hc as (_ & _ & t & Hs & Hi & _); [|apply _].
  rewrite backend_bind. unfold attempt at 1. rewrite backend_bind, on_clipboard_run.
  pose proof (publication_runs (PContent "image/png" b) max_bytes (w_clipboard w1) Hm) as Hrun. cbn [run_publication] in Hrun.
  destruct H1 as [Hd Ha Hcl _ _].
  destruct (Selection.publish wayland_publisher "image/png" b max_bytes (w_clipboard w1)) as [[u|e] c]; cbn [fst snd].
  - destruct Hrun as (r & Ho & Hsafe & Hcar). intros [= <- <-]. cbn. split; [done|].
    unfold edit_committed; cbn. exists b, s, t. split_and!; try done; [rewrite Hs; set_solver|]. exists r. split_and!; try done. by rewrite Ho, Hcl.
  - intros [= <- <-]. cbn. split; [done|]. unfold edit_committed; cbn. exists b, s, t. split_and!; try done; [rewrite Hs; set_solver|]. by rewrite Hrun, Hcl.
Qed.

(** ** A history without entries stays without, until someone inserts *)
Definition no_entries (t : Tables) : Prop := t_entries t = ∅.
Definition barren (db : Database Tables) : Prop := no_entries (durable db) ∧ (blocked db = true ∨ healthy db).
Definition keeps_barren {A} (body : SqlT A) : Prop := ∀ t a t', runs body t a t' → no_entries t → no_entries t'.
Definition inserts (o : Operation) : bool := match o with OpInsert _ _ _ _ => true | _ => false end.
(** No client inserts before the calls to come. *)
Definition no_inserts (l : list Turn) : Prop := Forall (λ n, Forall (λ o, inserts o = false) (others n)) l.

Lemma barren_transaction {A} (body : SqlT A) db `{!Faithful body} :
  keeps_barren body → barren db → barren (snd (transaction body db)).
Proof.
  intros Hp [Hok [Hb|Hh]]; [rewrite transaction_blocked by done; split; auto|].
  destruct (transaction_committed body db Hh) as [a db' Hh' Hr|e db' Hh' Hd|e db' Hb [Hd|[a Hr]]];
    (split; [|by auto]); try rewrite Hd; eauto.
Qed.
Lemma barren_call {A} (c : Call A) db :
  match c with Transact body => Faithful body ∧ keeps_barren body | _ => True end →
  barren db → barren (snd (run_call c db)).
Proof. destruct c; [done..|]. intros [? ?]. by apply barren_transaction. Qed.
Lemma delete_no_entries p t : no_entries t → no_entries (delete_entries p t).
Proof. unfold no_entries, delete_entries. cbn. intros ->. by rewrite map_filter_empty, fmap_empty. Qed.
Lemma retain_barren p o : keeps_barren (retain p o).
Proof.
  intros t [] t' (t1 & t2 & t3 & [= <-] & [= <-] & [= <-] & [= <-] & _)%retain_inv Hn. by repeat apply delete_no_entries.
Qed.
Lemma summary_barren {A} id o (f : EntrySummary → SqlT A) : keeps_barren (s ← db_summary id o; f s).
Proof.
  intros t a t' Hr Hn. run_inv. match goal with H : runs (db_summary _ _) _ _ _ |- _ =>
    apply db_summary_runs in H as (_ & e & He & _) end. by rewrite Hn, lookup_empty in He.
Qed.
Ltac barren :=
  repeat match goal with
  | H : runs bump _ _ _ |- _ => apply bump_runs in H as (_ & ? & _); subst
  | H : runs db_policy _ _ _ |- _ => unfold db_policy in H; run_inv
  | H : runs (retain _ _) _ _ _ |- _ => apply retain_barren in H
  | H : delete_entries_stmt _ _ = Some _ |- _ => injection H as <-
  | H : clear_inline_echoes_stmt _ = Some _ |- _ => injection H as <-
  | H : close_admission_stmt _ = Some _ |- _ => injection H as <-
  | H : delete_artifact_stmt _ _ = Some _ |- _ => injection H as <-
  | H : trim_echoes_stmt _ _ = Some _ |- _ => injection H as <-
  | H : checked_stmt ?c _ = Some _ |- _ => unfold checked_stmt in H; destruct c; [injection H as <-|done]
  end.
Lemma remove_barren l : keeps_barren (remove_many_body l).
Proof.
  intros t [] t' Hr Hn. unfold remove_many_body in Hr. run_inv. destruct (negb _); run_inv; [destruct (negb _); by run_inv|].
  barren. by apply (delete_no_entries _ t).
Qed.
Lemma wipe_barren : keeps_barren wipe_body.
Proof. intros t [] t' Hr Hn. unfold wipe_body in Hr. run_inv. barren. by apply (delete_no_entries _ t). Qed.
Lemma policy_barren p : keeps_barren (apply_policy_body p).
Proof.
  intros t [] t' Hr Hn. unfold apply_policy_body in Hr. run_inv. barren. case_decide; run_inv; [done|].
  unfold update_policy_stmt in *. barren. match goal with H : no_entries _ → _ |- _ => by apply H end.
Qed.
Lemma register_barren r : keeps_barren (register_artifact_body r).
Proof.
  intros t [] t' Hr Hn. unfold register_artifact_body in Hr. run_inv.
  match goal with H : runs (if ?c then _ else _) ?u _ ?w |- _ => assert (w = u) as -> by (destruct c; by run_inv) end.
  destruct (negb _); run_inv. unfold upsert_artifact_stmt in Hr. by barren.
Qed.
Lemma forget_barren p : keeps_barren (exec (delete_artifact_stmt p)).
Proof. intros t [] t' Hr Hn. run_inv. by barren. Qed.
Lemma close_barren : keeps_barren close_body.
Proof. intros t [] t' Hr Hn. unfold close_body in Hr. run_inv. by barren. Qed.

Lemma barren_step o db : inserts o = false → barren db → barren (step o db).
Proof.
  intros Ho Hs. unfold step. destruct o; cbn [perform told snd inserts] in *; try done.
  - apply barren_call; [split; [apply _|apply summary_barren]|done].
  - apply barren_call; [split; [apply _|apply summary_barren]|done].
  - apply barren_call; [|done]. unfold remove_many. destruct (bool_decide _); [done|]. split; [apply _|apply remove_barren].
  - apply barren_call; [split; [apply _|apply wipe_barren]|done].
  - apply barren_call; [|done]. unfold apply_policy. destruct (valid_policy p); [|done]. split; [apply _|apply policy_barren].
  - apply barren_call; [|done]. unfold register_artifact. destruct (negb (utf8_valid _)); [done|]. destruct (_ || _); [done|].
    split; [apply _|apply register_barren].
  - apply barren_call; [|done]. unfold forget_artifact. destruct (negb _); [done|]. split; [apply _|apply forget_barren].
  - apply barren_call; [|done]. unfold register_inline_echo. destruct (_ || _); [done|]. split; [apply _|].
    intros t [] t' Hr Hn. run_inv. unfold upsert_echo_stmt in *. by barren.
  - apply barren_call; [|done]. split; [apply _|]. intros t [] t' Hr Hn. run_inv. by barren.
  - unfold shutdown. destruct (blocked db); [done|]. pose proof (barren_transaction close_body db close_barren Hs) as Hs'.
    by destruct (transaction close_body db) as [[[]|?] ?].
  - apply (barren_transaction close_body _ close_barren). destruct Hs as [Hok _]. split; [done|]. by right.
Qed.
Lemma barren_steps os db : Forall (λ o, inserts o = false) os → barren db → barren (steps os db).
Proof. intros Hos. revert db. induction Hos as [|o os Ho _ IH]; intros db Hdb; [done|]. by apply IH, barren_step. Qed.

(** The same of a world, as a relation that operations respect. *)
Definition desert (w : World) : Prop := no_inserts (w_turns w) ∧ barren (w_db w).
Definition deserted (w w' : World) : Prop := desert w → desert w'.
#[local] Instance deserted_preorder : PreOrder deserted.
Proof. unfold deserted. split; [by intros w|intros w1 w2 w3; auto]. Qed.
Lemma same_desert w w' : w_turns w' = w_turns w → w_db w' = w_db w → deserted w w'.
Proof. intros Ht Hd [H1 H2]. split; [by rewrite Ht|by rewrite Hd]. Qed.
Lemma client_deserted {A} (v : BackendResult unit) (run : Database Tables → BackendResult A * Database Tables) :
  (∀ db, barren db → barren (snd (run db))) → Respects deserted (client v run).
Proof.
  intros Hrun w [Ht Hd]. unfold client. destruct v as [[]|e]; [|done]. set (db := steps _ _).
  assert (Hdb : barren db).
  { subst db. apply barren_steps; [|done]. destruct (w_turns w); [constructor|]. by apply Forall_cons in Ht as [? _]. }
  assert (Hts : no_inserts (tail (w_turns w))) by (destruct (w_turns w); [done|]; by apply Forall_cons in Ht as [_ ?]).
  destruct (match w_store w with Some _ => _ | None => _ end); cbn [snd]; [by split|].
  destruct (blocked db); cbn [snd]; [by split|]. specialize (Hrun db Hdb).
  destruct (run db) as [r db1]. by split.
Qed.
#[local] Instance read_deserted A v (m : SqlT A) : Respects deserted (client v (read m)).
Proof.
  apply client_deserted. intros db [Hn Hb]. unfold read. destruct (m _) as [r c]. split; [done|]. exact Hb.
Qed.
#[local] Instance forget_deserted p : Respects deserted (store_forget_artifact p).
Proof.
  apply client_deserted. intros db Hdb. apply barren_call; [|done]. unfold forget_artifact. destruct (negb _); [done|].
  split; [apply _|apply forget_barren].
Qed.
Lemma io_call_desert {A} (f : Fs → result IoError (A * Fs)) g w : deserted w (snd (io_call f g w)).
Proof. unfold io_call. destruct (w_io w) as [|[|]]; cbn; try destruct (f (w_disk w)) as [[]|]; by apply same_desert. Qed.
#[local] Instance io_deserted {A} (f : Fs → result IoError (A * Fs)) g : Respects deserted (io (io_call f g)).
Proof. apply respects_io. intros w. apply io_call_desert. Qed.
#[local] Instance io_ok_deserted {A} (f : Fs → result IoError (A * Fs)) g : Respects deserted (io_ok (io_call f g)).
Proof. apply respects_io_ok. intros w. apply io_call_desert. Qed.
Lemma io_result_deserted {A C} (f : Fs → result IoError (A * Fs)) g (k : result IoError A → Backend C) :
  (∀ r, Respects deserted (k r)) → Respects deserted (r ← (λ w, let '(r, w1) := io_call f g w in (Ok r, w1)); k r).
Proof.
  intros Hk w. rewrite backend_bind. pose proof (io_call_desert f g w) as Hw. destruct (io_call f g w) as [r w1]. cbn in *.
  etransitivity; [exact Hw|apply Hk].
Qed.
#[local] Instance tick_deserted : Respects deserted tick.
Proof. intros w. by apply same_desert. Qed.
#[local] Instance get_active_deserted : Respects deserted get_active.
Proof. intros w. by apply same_desert. Qed.
#[local] Instance set_active_deserted p : Respects deserted (set_active p).
Proof. intros w. by apply same_desert. Qed.
#[local] Instance owned_path_deserted p : Respects deserted (owned_path env p).
Proof. unfold owned_path, canonicalize_is, symlink_metadata. destruct (root env); apply _. Qed.
#[local] Instance remove_deserted r : Respects deserted (Artifacts.remove env r).
Proof.
  unfold Artifacts.remove. apply respects_bind; [apply _|apply _|]. intros o. apply respects_if; [apply _|].
  apply io_result_deserted. intros [n|[|e]]; unfold remove_file; apply _.
Qed.
#[local] Instance prune_all_deserted active l n : Respects deserted (prune_all env active l n).
Proof. revert n. induction l as [|r l IH]; intros n; cbn [prune_all]; apply _. Qed.
#[local] Instance prune_deserted before : Respects deserted (prune env before).
Proof. unfold prune, store_artifact_candidates. apply _. Qed.
#[local] Instance runtime_deserted child : Respects deserted (runtime_directory env child).
Proof. unfold runtime_directory, private_directory, create_dir_all, set_permissions. apply _. Qed.
#[local] Instance clear_cache_deserted : Respects deserted (clear_cache env).
Proof.
  unfold clear_cache, remove_dir_all. apply respects_bind; [apply _|apply _|]. intros c. apply io_result_deserted.
  intros [|[|]]; apply _.
Qed.
#[local] Instance cleanup_deserted : Respects deserted (cleanup_backend env).
Proof. unfold cleanup_backend, reconcile, now, remove_dir_all. apply _. Qed.
#[local] Instance clear_all_deserted : Respects deserted (clear_all env).
Proof. unfold clear_all, clear_active_selection. apply _. Qed.

(** The committed transaction left no entry and no payload of one. *)
Definition emptied (t t' : Tables) : Prop :=
  ideal wipe_body t = (Ok tt, t') ∧ t_entries t' = ∅ ∧ ∀ id, is_Some (t_entries t !! id) → t_payloads t' !! id = None.
Lemma wipe_emptied t t' : ideal wipe_body t = (Ok tt, t') → emptied t t'.
Proof.
  intros Hi. split; [done|]. fold (runs wipe_body t tt t') in Hi. unfold wipe_body in Hi. run_inv. barren. cbn. split.
  - apply map_eq. intros id. rewrite lookup_fmap, lookup_empty. apply fmap_None, map_lookup_filter_None. right. by intros.
  - intros id [e He]. apply map_lookup_filter_None. right. intros b _. cbn. by rewrite He.
Qed.

(** C33 Wiping is acknowledged exactly when the history is empty.  It succeeds
    exactly when the store acknowledged the transaction of the wipe, and then
    the tables that are durable from that moment on are those it read without
    any entry, and without the payloads of those entries; whatever then becomes
    of the caches and the generated files, the durable history still has no
    entry at the end, unless another client inserts one meanwhile.  If it
    fails, no file was removed, and the store refused or failed the wipe. *)
Theorem wipe_commits w res w' :
  wipe_entries env w = (res, w') →
  match res with
  | Ok _ => ∃ t w1, store_wipe w = (Ok tt, w1) ∧ t ∈ w_seen w' ∧ emptied t (durable (w_db w1)) ∧ healthy (w_db w1)
              ∧ (no_inserts (w_turns w1) → t_entries (durable (w_db w')) = ∅)
  | Err e => w_disk w' = w_disk w ∧ w_active w' = w_active w ∧ ∃ w1, store_wipe w = (Err e, w1)
  end.
Proof.
  unfold wipe_entries. rewrite backend_bind.
  pose proof (respects (R := reads) (m := client (validate (RMutate OpWipe)) (run_call wipe)) w) as H1. fold store_wipe in H1.
  destruct (store_wipe w) as [[[]|e] w1] eqn:Hc; cbn in H1.
  2: { intros [= <- <-]. split_and!; [apply H1..|by exists w1]. }
  unfold store_wipe, wipe in Hc. apply client_commit_ok in Hc as (_ & _ & t & Hs & Hi%wipe_emptied & Hh); [|apply _].
  set (rest := _ ← attempt (_ ← cleanup_backend env; clear_all env); completed_now env "wipe" "Clipboard history cleared").
  assert (Hdes : Respects deserted rest) by (unfold rest, completed_now; apply _).
  assert (Hrest : ∃ op w3, rest w1 = (Ok op, w3) ∧ ∃ l, w_seen w3 = l ++ w_seen w1).
  { pose proof (respects (R := kept env (λ _, True)) (m := rest) w1) as [_ Hl]. unfold rest in *.
    rewrite backend_bind in *. unfold attempt in *. destruct ((_ ← cleanup_backend env; clear_all env) w1) as [r w2].
    destruct (completed_run "wipe" "Clipboard history cleared" w2) as (op & w3 & Hrun & _). rewrite Hrun in *. by eauto. }
  destruct Hrest as (op & w3 & Hrun & l & Hl). rewrite Hrun. intros [= <- <-]. exists t, w1.
  split; [done|]. split; [rewrite Hl, Hs; set_solver|]. split; [done|]. split; [done|].
  intros Hno. specialize (Hdes w1). rewrite Hrun in Hdes. destruct Hdes as [_ [Hn _]]; [|exact Hn].
  split; [done|]. split; [apply Hi|by right].
Qed.

(** Reading an entry back, undisturbed. *)
Lemma replaced_reads_back fs id expected mime b t s t' :
  tables_ok t → ideal (replace_body fs id expected mime b) t = (Ok s, t') →
  s_id s = id ∧ t_payloads t' !! id = Some b ∧ ideal (db_get id (Some (s_revision s))) t' = (Ok (mkStored s mime b), t').
Proof.
  intros Hok Hr. fold (runs (replace_body fs id expected mime b) t s t') in Hr.
  pose proof (replace_body_preserves _ _ _ _ _ _ _ _ Hr Hok) as [Hwf' _].
  destruct (replace_runs _ _ _ _ _ _ _ _ Hok Hr) as (e & e' & _ & _ & He' & -> & Hp & <- & _).
  split_and!; [done..|]. rewrite ideal_db_get, He' by done. cbn [default summary_of s_revision].
  rewrite bool_decide_true by done. unfold bytes in *. by rewrite Hp.
Qed.
Lemma selected_calm id rev st max t w :
  calm t w → str_len id <= 128 → ideal (db_get id rev) t = (Ok st, t) →
  let w1 := set_store (mkDatabase t None [] false) [] (t :: w_seen w) w in
  selected_bytes id rev max w
  = match validate_size (zlen (st_bytes st)) max with
    | Ok _ => (Ok (with_mime (st_mime st) (st_summary st), st_bytes st), w1)
    | Err e => (Err e, w1)
    end.
Proof.
  intros Hc Hid Hget w1. unfold selected_bytes. rewrite backend_bind. unfold selected, store_get. cbn [validate].
  unfold validate_id. rewrite (proj2 (Z.leb_le _ _) Hid). cbn [ensure].
  rewrite (read_calm _ t) by (try done; by rewrite Hget). rewrite Hget. cbn [fst]. fold w1. rewrite backend_bind. unfold lift.
  by destruct (validate_size _ _).
Qed.

(** The history comes first when text is replaced: undisturbed, an error
    means that neither the history nor the selection changed; otherwise the
    answer describes exactly the entry that was committed, whose payload is now
    exactly the new bytes, and it says truthfully whether the selection now
    offers them or still offers what it offered before. *)
Theorem replace_commits t w id expected mime b res w' :
  calm t w → tables_ok t → replace_sync env id expected mime b w = (res, w') →
  w_disk w' = w_disk w ∧
  match res with
  | Err _ => durable (w_db w') = t ∧ cb_owned (w_clipboard w') = cb_owned (w_clipboard w)
  | Ok r => ∃ s, ideal (replace_body (w_disk w) id expected mime b) t = (Ok s, durable (w_db w'))
      ∧ r_entry r = entry_details (w_disk w) (mkStored s mime b) MAX_DETAILS_BYTES
      ∧ t_payloads (durable (w_db w')) !! id = Some b
      ∧ if r_selection_published r
        then ∃ q, cb_owned (w_clipboard w') = q :: cb_owned (w_clipboard w) ∧ safe_request MAX_DETAILS_BYTES q
                  ∧ entry_request (w_disk w) (mkStored s mime b) MAX_DETAILS_BYTES q
        else cb_owned (w_clipboard w') = cb_owned (w_clipboard w)
  end.
Proof.
  intros Hc Hok. unfold replace_sync. rewrite backend_bind. unfold store_replace. rewrite backend_bind. cbn [get_disk].
  destruct (validate _) as [[]|e] eqn:Hv.
  2: { unfold client. intros [= <- <-]. rewrite (ca_db _ _ Hc). done. }
  unfold replace. rewrite (transact_calm _ t) by done.
  destruct (ideal (replace_body (w_disk w) id expected mime b) t) as [[s|e] t1] eqn:Hr; [|by intros [= <- <-]].
  destruct (replaced_reads_back _ _ _ _ _ _ _ _ Hok Hr) as (Hid & Hpay & Hget).
  set (w1 := set_store _ _ _ w). rewrite backend_bind. cbn [get_disk]. rewrite backend_bind.
  change (w_disk w1) with (w_disk w). set (rest := restore_entry env (s_id s) (Some (s_revision s)) MAX_DETAILS_BYTES).
  assert (Hrest : ∃ r w2, rest w1 = (r, w2) ∧ w_disk w2 = w_disk w ∧ durable (w_db w2) = t1 ∧
    if is_ok r then ∃ q, cb_owned (w_clipboard w2) = q :: cb_owned (w_clipboard w) ∧ safe_request MAX_DETAILS_BYTES q
                  ∧ entry_request (w_disk w) (mkStored s mime b) MAX_DETAILS_BYTES q
    else cb_owned (w_clipboard w2) = cb_owned (w_clipboard w)).
  { subst rest. unfold restore_entry. rewrite backend_bind, Hid.
    rewrite (selected_calm _ _ (mkStored s mime b) _ t1); [|by apply (calm_set_store t)| |done].
    2: { cbn [validate] in Hv. unfold validate_id in Hv. destruct (str_len id <=? 128) eqn:Hl; [by bools|done]. }
    cbn [st_bytes st_mime st_summary]. destruct (validate_size (zlen b) MAX_DETAILS_BYTES) as [[]|e]; [|by eexists _, _].
    set (w2 := set_store _ _ _ w1). rewrite backend_bind.
    destruct (publish_entry (with_mime mime s) b MAX_DETAILS_BYTES w2) as [r1 w3] eqn:Hp.
    apply publish_entry_spec in Hp as (c & -> & Hres); [|done].
    destruct r1 as [[]|e]; [|by eexists _, _]. destruct Hres as (q & Hq).
    eexists _, _. split; [reflexivity|]. split_and!; [done..|]. by exists q. }
  destruct Hrest as (r & w2 & Hrun & Hd & Hdb & Hcase). unfold attempt. rewrite Hrun.
  destruct r as [op|e]; intros [= <- <-]; (split; [done|]); exists s; rewrite Hdb; split_and!; done.
Qed.
End commits.
