(* ===== verification/Ingest.v ===== *)
(** * Ingest: the storage side of capture, [history/capture.rs].

    [HistoryBackend] as the [CaptureSink] of [Worker.v]: readiness, admission,
    and the submission of one captured file.  An error is an uncertain outcome
    to the gate, which then shuts for good; a safe rejection is a success. *)
From Stdlib Require Import Ascii.
From S2P Require Import Prelude Text Externals Model Selection Content Sql Tables Database History HistorySpec Retention Invariant Preservation Query Store Backend Artifacts Mutations Commits.
Local Open Scope Z_scope.

(** What the file of a finished transfer does when it is read. *)
Record CapturedFile := mkCaptured {
  f_size : option Z;                     (* metadata().len() *)
  f_rewinds : bool;
  f_content : bytes;                     (* what reading from the start delivers *)
  f_extra : option Z;                    (* the one-byte read after it; None: it fails *)
}.
(** A file nobody writes to any more. *)
Definition settled_file (b : bytes) : CapturedFile := mkCaptured (Some (zlen b)) true b (Some 0).

Definition text_mime (mime : string) : string :=
  if memb mime ["UTF8_STRING"; "STRING"; "TEXT"] then "text/plain" else mime.

(** The trait [CaptureSink]. *)
Definition Sink (A : Type) : Type := World → result string A * World.
Class CaptureSink (S : Type) := {
  sink_ready : S → Z → Sink unit;
  sink_set_admission : S → bool → Sink unit;
  sink_ingest : S → string → CapturedFile → Sink unit;
}.
Definition to_sink {A} (m : Backend A) : Sink A := λ w, let '(r, w1) := m w in (map_err message r, w1).

Section ingest.
Context `{Externals} (env : Env).

Definition ready (max_bytes : Z) : Backend unit :=
  _ ← ensure_running;
  policy ← store_policy;
  lift (ensure (max_entry_bytes policy =? max_bytes) (operation_error "Capture limit does not match the history policy")).
Definition with_admission (enabled : bool) (p : StorePolicy) : StorePolicy :=
  mkPolicy enabled (max_entries p) (max_favorites p) (max_entry_bytes p) (max_total_bytes p).
Definition set_admission (enabled : bool) : Backend unit :=
  _ ← (if enabled then ensure_running else mret tt);
  policy ← store_policy;
  store_apply_policy (with_admission enabled policy).

Definition inspect_error : BackendError := operation_error "Could not inspect captured bytes".
(** The whole file, or an error when it changed while it was read. *)
Definition read_captured (file : CapturedFile) (size limit : Z) : BackendResult bytes :=
  _ ← ensure (f_rewinds file) (operation_error "Could not rewind captured bytes");
  b ← read_selection (f_content file) size limit;
  if negb (zlen b =? size) then Err (operation_error "Captured bytes changed during admission")
  else
    extra ← ok_or (f_extra file) inspect_error;
    if negb (extra =? 0) then Err (operation_error "Captured bytes changed during admission") else Ok b.
Definition ingest (mime : string) (file : CapturedFile) : Backend unit :=
  _ ← ensure_running;
  policy ← store_policy;
  if negb (admission policy) then mret tt
  else
    size ← lift (ok_or (f_size file) inspect_error);
    if (size =? 0) || (max_entry_bytes policy <? size) then mret tt
    else
      b ← lift (read_captured file size (max_entry_bytes policy));
      stored ← attempt (store_insert env (text_mime mime) b);
      match stored with
      | Ok _ => observe_selection b
      | Err e =>
          policy ← store_policy;
          if negb (admission policy) then mret tt else lift (Err e)
      end.
#[export] Instance history_sink : CaptureSink unit := {|
  sink_ready _ n := to_sink (ready n);
  sink_set_admission _ enabled := to_sink (set_admission enabled);
  sink_ingest _ mime file := to_sink (ingest mime file);
|}.

(** ** Lemmas *)
Lemma read_captured_ok file size limit b :
  read_captured file size limit = Ok b →
  zlen b = size ∧ f_extra file = Some 0 ∧ size <= effective_limit limit ∧ b = ztake (effective_limit limit + 1) (f_content file).
Proof.
  unfold read_captured. intros Hr. apply bind_Ok_inv in Hr as ([] & _ & Hr). apply bind_Ok_inv in Hr as (c & Hc & Hr).
  destruct (zlen c =? size) eqn:Hz; cbn [negb] in Hr; [|done]. apply bind_Ok_inv in Hr as (extra & He & Hr).
  apply ok_or_Ok in He. destruct (extra =? 0) eqn:Hx; cbn [negb] in Hr; [|done]. injection Hr as ->. bools. subst extra.
  unfold read_selection in Hc. apply bind_Ok_inv in Hc as ([] & Hs & Hc). apply bind_Ok_inv in Hc as ([] & Hs2 & Hc).
  injection Hc as <-. rewrite validate_size_Ok in *. done.
Qed.
Lemma db_policy_ideal t : tables_wf t → ideal db_policy t = (Ok (t_policy t), t).
Proof.
  intros Hwf. unfold db_policy. rewrite ideal_bind by apply _. rewrite ideal_rows, ideal_ret.
  assert (Hr : runs db_policy t _ t) by (unfold runs, db_policy; rewrite ideal_bind, ideal_rows, ideal_ret by apply _; reflexivity).
  apply db_policy_runs in Hr as [Hp _]; [|apply Hwf]. by rewrite Hp.
Qed.
Lemma policy_calm t w :
  calm t w → tables_wf t →
  store_policy w = (Ok (t_policy t), set_store (mkDatabase t None [] false) [] (t :: w_seen w) w).
Proof.
  intros Hc Hwf. unfold store_policy. cbn [validate]. rewrite (read_calm _ t) by (try done; by rewrite db_policy_ideal).
  by rewrite db_policy_ideal.
Qed.

(** The one insertion an ingestion may have made. *)
Record stored_exactly (mime : string) (file : CapturedFile) (fs : Fs) (t t' : Tables) : Prop := {
  se_admitted : admission (t_policy t) = true;
  se_whole : f_size file = Some (zlen (f_content file)) ∧ f_extra file = Some 0;
  se_size : 1 <= zlen (f_content file) <= max_entry_bytes (t_policy t);
  se_inserted : ∃ uuid s, ideal (insert_body fs uuid (text_mime mime) (f_content file)) t = (Ok s, t')
                          ∧ s_current s = true ∧ t_payloads t' !! s_id s = Some (f_content file);
}.

(** C19 A captured file is stored whole, under admission, or not at all.
    Undisturbed, an ingestion leaves the history as it was or inserts exactly
    the bytes of the file as the current entry, and then the file had kept its
    size while it was read, was neither empty nor larger than the policy allows,
    and admission was open in the very tables it was inserted into.  Success with
    nothing stored is a safe rejection: the gate was closed, or the size was
    refused.  Neither the disk nor the selection is touched. *)
Theorem ingest_exact t w mime file res w' :
  calm t w → tables_ok t →
  ingest mime file w = (res, w') →
  w_disk w' = w_disk w ∧ w_clipboard w' = w_clipboard w ∧
  (stored_exactly mime file (w_disk w) t (durable (w_db w')) ∧ res = Ok tt
     ∧ w_active w' = match w_active w with
                     | Some p => if names_file p (f_content file) then Some p else None
                     | None => None
                     end
   ∨ durable (w_db w') = t ∧ w_active w' = w_active w
     ∧ (res = Ok tt → admission (t_policy t) = false
                      ∨ ∃ size, f_size file = Some size ∧ (size = 0 ∨ max_entry_bytes (t_policy t) < size))).
Proof.
  intros Hc Hok. pose proof Hok as [Hwf _]. unfold ingest. rewrite backend_bind. unfold ensure_running.
  pose proof (ca_db _ _ Hc) as Hdb. assert (Hdur : durable (w_db w) = t) by by rewrite Hdb.
  destruct (w_closed w); [intros [= <- <-]; split_and!; try done; by right|].
  rewrite backend_bind, (policy_calm t) by done. set (w1 := set_store _ _ _ w).
  assert (Hc1 : calm t w1) by by apply (calm_set_store t).
  destruct (admission (t_policy t)) eqn:Hadm; cbn [negb].
  2: { intros [= <- <-]. split_and!; try done. right. split_and!; try done. by left. }
  rewrite backend_bind. unfold lift at 1. destruct (f_size file) as [size|] eqn:Hsize; cbn [ok_or].
  2: { intros [= <- <-]. split_and!; try done. by right. }
  destruct ((size =? 0) || (max_entry_bytes (t_policy t) <? size)) eqn:Hrej.
  { intros [= <- <-]. split_and!; try done. right. split_and!; try done. intros _. right. exists size. split; [done|].
    apply orb_true_iff in Hrej as [?|?]; bools; auto. }
  apply orb_false_iff in Hrej as [Hz Hle]. bools.
  rewrite backend_bind. unfold lift at 1. destruct (read_captured file size _) as [b|e] eqn:Hread.
  2: { intros [= <- <-]. split_and!; try done. by right. }
  apply read_captured_ok in Hread as (Hlen & Hx & Hlim & Hb). subst size.
  assert (Hall : b = f_content file).
  { rewrite Hb in Hlim |- *. unfold effective_limit in *. apply ztake_all.
    destruct (decide (zlen (f_content file) <= Z.min (max_entry_bytes (t_policy t)) MAX_WAYLAND_SELECTION_BYTES + 1)); [done|].
    rewrite zlen_ztake in Hlim by (pose proof (wf_policy t Hwf) as []; unfold MAX_WAYLAND_SELECTION_BYTES; lia). lia. }
  clear Hb. subst b. set (b := f_content file) in *. rewrite backend_bind. unfold attempt, store_insert. rewrite backend_bind. cbn [tick].
  set (w2 := mkWorld _ _ _ _ _ _ _ _ _ _). assert (Hc2 : calm t w2) by by destruct Hc1.
  rewrite backend_bind. cbn [get_disk]. change (w_disk w2) with (w_disk w).
  destruct (validate _) as [[]|e] eqn:Hv.
  - unfold insert. rewrite (transact_calm _ t) by done.
    destruct (ideal (insert_body (w_disk w) (new_uuid env (w_ticks w1)) (text_mime mime) b) t) as [[s|e] t1] eqn:Hi.
    + intros Hobs. assert (Hd : w_disk w' = w_disk w ∧ w_clipboard w' = w_clipboard w ∧ durable (w_db w') = t1 ∧ res = Ok tt
        ∧ w_active w' = match w_active w with Some p => if names_file p b then Some p else None | None => None end).
      { unfold observe_selection in Hobs. rewrite backend_bind in Hobs. cbn [get_active] in Hobs.
        change (w_active (set_store _ _ _ w2)) with (w_active w) in Hobs.
        destruct (w_active w) as [p|] eqn:Ha; [destruct (names_file p b)|]; injection Hobs as <- <-; cbn; by rewrite ?Ha. }
      destruct Hd as (-> & -> & -> & -> & ->). split_and!; try done. left. split_and!; try done.
      pose proof (insert_runs _ _ _ _ _ _ _ Hok Hi) as [_ _ Hp Hcur _ _ _]. pose proof (zlen_nonneg b).
      split; [done|done|fold b; lia|]. by exists (new_uuid env (w_ticks w1)), s.
    + rewrite backend_bind. rewrite (policy_calm t) by (done || by apply (calm_set_store t)). rewrite Hadm. cbn [negb].
      intros [= <- <-]. split_and!; try done. by right.
  - unfold client. rewrite backend_bind, (policy_calm t) by done. rewrite Hadm. cbn [negb].
    intros [= <- <-]. split_and!; try done. by right.
Qed.
End ingest.
