(* ===== verification/Editor.v ===== *)
(** * Editor: the image-editor command of [editor.rs].

    The command is an argument vector, never a shell line: the two placeholders
    are replaced as whole arguments and a path is passed on literally. *)
From S2P Require Import Prelude Text Externals Model.
Local Open Scope Z_scope.

Definition INPUT_PLACEHOLDER : string := "{input}".
Definition OUTPUT_PLACEHOLDER : string := "{output}".
Record ImageEditorCommand := mkEditor { argv : list string }.

(** [ImageEditorCommand::new]. *)
Definition missing (placeholder : string) : string :=
  ("command is missing the " ++ placeholder ++ " argument")%string.
Definition new (args : list string) : result string ImageEditorCommand :=
  match args with
  | [] => Err "command must name an executable"%string
  | program :: rest =>
      if bool_decide (program = EmptyString) then Err "command must name an executable"%string
      else if negb (memb INPUT_PLACEHOLDER rest) then Err (missing INPUT_PLACEHOLDER)
      else if negb (memb OUTPUT_PLACEHOLDER rest) then Err (missing OUTPUT_PLACEHOLDER)
      else Ok (mkEditor args)
  end.
Definition default_editor : ImageEditorCommand :=
  mkEditor ["satty"; "--filename"; INPUT_PLACEHOLDER; "--output-filename"; OUTPUT_PLACEHOLDER; "--resize"; "smart";
            "--early-exit"; "--actions-on-enter"; "save-to-file"; "--actions-on-escape"; "exit";
            "--actions-on-right-click"; "save-to-file"; "--save-after-copy"; "--copy-command"; "cat >/dev/null"].

Section json.
(** [serde_json::from_str::<Vec<String>>]. *)
Context (parse_strings : string → option (list string)).
Definition from_json (value : string) : result string ImageEditorCommand :=
  args ← ok_or (parse_strings value) "command must be a JSON array of strings"%string;
  new args.
(** [env] is the variable: unset, not UTF-8, or a string. *)
Definition configured (env : option (option string)) : ImageEditorCommand :=
  match env with
  | None | Some None => default_editor
  | Some (Some value) => match from_json value with Ok c => c | Err _ => default_editor end
  end.
End json.

(** [command]: the program and its arguments. *)
Definition argument (input output a : string) : string :=
  if bool_decide (a = INPUT_PLACEHOLDER) then input
  else if bool_decide (a = OUTPUT_PLACEHOLDER) then output
  else a.
Definition command (c : ImageEditorCommand) (input output : string) : string * list string :=
  (default EmptyString (head (argv c)), argument input output <$> tail (argv c)).

(** [run]: what came of the child. *)
Inductive ChildOutcome := SpawnFailed (e : string) | WaitFailed (e : string) | Exited (success : bool).
Definition run (o : ChildOutcome) : result string unit :=
  match o with
  | SpawnFailed e | WaitFailed e => Err e
  | Exited true => Ok tt
  | Exited false => Err "Image editor exited unsuccessfully"%string
  end.

Definition well_formed (c : ImageEditorCommand) : Prop :=
  ∃ program rest, argv c = program :: rest ∧ program ≠ EmptyString ∧ INPUT_PLACEHOLDER ∈ rest ∧ OUTPUT_PLACEHOLDER ∈ rest.
Lemma new_ok args c : new args = Ok c → c = mkEditor args ∧ well_formed c.
Proof.
  unfold new. destruct args as [|program rest]; [done|]. destruct (bool_decide (program = _)) eqn:Hp; [done|].
  destruct (memb INPUT_PLACEHOLDER rest) eqn:Hi; [|done]. destruct (memb OUTPUT_PLACEHOLDER rest) eqn:Ho; [|done].
  intros [= <-]. split; [done|]. apply bool_decide_eq_false in Hp. apply bool_decide_eq_true in Hi, Ho. by exists program, rest.
Qed.

(** The configured editor is always runnable: whatever the variable holds, the
    command names a program and passes both paths, each exactly in the place of
    its placeholder, as one argument and unchanged whatever they contain; every
    other argument is the configured one. *)
Theorem editor_literal parse_strings env input output :
  let c := configured parse_strings env in
  let '(program, args) := command c input output in
  argv c = program :: tail (argv c) ∧ program ≠ EmptyString
  ∧ length args = length (tail (argv c))
  ∧ input ∈ args ∧ output ∈ args
  ∧ ∀ i a, tail (argv c) !! i = Some a →
      args !! i = Some (if decide (a = INPUT_PLACEHOLDER) then input
                        else if decide (a = OUTPUT_PLACEHOLDER) then output else a).
Proof.
  intros c. assert (Hw : well_formed c).
  { assert (Hd : well_formed default_editor).
    { eexists _, _. split; [reflexivity|]. split; [done|]. unfold INPUT_PLACEHOLDER, OUTPUT_PLACEHOLDER. set_solver. }
    subst c. unfold configured. destruct env as [[value|]|]; try done. destruct (from_json parse_strings value) as [c|] eqn:Hj; [|done].
    unfold from_json in Hj. apply bind_Ok_inv in Hj as (args & _ & Hn). by apply new_ok in Hn as [_ ?]. }
  destruct Hw as (program & rest & Hargs & Hp & Hi & Ho). unfold command. rewrite Hargs. cbn. split_and!; try done.
  - by rewrite length_fmap.
  - apply list_elem_of_fmap. exists INPUT_PLACEHOLDER. by unfold argument.
  - apply list_elem_of_fmap. exists OUTPUT_PLACEHOLDER. by unfold argument.
  - intros i a Ha. rewrite list_lookup_fmap, Ha. cbn. unfold argument. repeat case_bool_decide; repeat case_decide; done.
Qed.
