(* ===== verification/Screenshot.v ===== *)
(** * Screenshot: user captures, [history/screenshot.rs].

    The capture, selection and editing programs are outside: each run answers
    with an outcome and may have changed the files it was given. *)
From Stdlib Require Import Ascii.
From stdpp Require Import pretty.
From S2P Require Import Prelude Text Decimal Externals Model Classification Selection Content Sql Tables Database History Query Store Backend Artifacts Mutations Editor.
Local Open Scope Z_scope.

(** ** Geometry *)
Definition invalid_region : BackendError := operation_error "Invalid screenshot region".
Definition parse_pair (parse : string → option Z) (value : string) (separator : Ascii.ascii) : BackendResult (Z * Z) :=
  '(a, b) ← ok_or (split_once separator value) invalid_region;
  x ← ok_or (parse a) invalid_region;
  y ← ok_or (parse b) invalid_region;
  Ok (x, y).
Definition geometry (x y width height : Z) : string :=
  (pretty x ++ "," ++ pretty y ++ " " ++ pretty width ++ "x" ++ pretty height)%string.
Definition parse_geometry (value : string) : BackendResult string :=
  '(position, size) ← ok_or (split_once " "%char (trim value)) invalid_region;
  '(x, y) ← parse_pair parse_i32 position ","%char;
  '(width, height) ← parse_pair parse_u32 size "x"%char;
  if negb (valid_dimensions width height) then Err invalid_region else Ok (geometry x y width height).

(** ** Programs *)
(** [select_region]: spawning, reading and waiting, within five minutes. *)
Inductive Selector :=
| SelectorFailed (e : string)            (* not started, an I/O error, or too slow *)
| SelectorExited (output : bytes) (code : option Z).
Definition select_region (o : Selector) : BackendResult (option string) :=
  match o with
  | SelectorFailed e => Err (operation_error e)
  | SelectorExited output code =>
      let b := ztake 129 output in
      if 128 <? zlen b then Err invalid_region
      else if bool_decide (code = Some 1) then Ok None
      else if negb (bool_decide (code = Some 0)) then Err (operation_error "Region selector failed")
      else
        value ← ok_or (from_utf8 b) (operation_error "invalid utf-8 sequence");
        Some <$> parse_geometry value
  end.
(** [capture_command]. *)
Inductive CommandOutcome := NotStarted | TimedOut | WaitError (e : string) | Finished (success : bool).
Definition capture_command (o : CommandOutcome) : BackendResult unit :=
  match o with
  | NotStarted => Err (operation_error "Could not start screenshot capture")
  | TimedOut => Err (operation_error "Screenshot capture timed out")
  | WaitError e => Err (operation_error e)
  | Finished success => ensure success (operation_error "Screenshot capture failed")
  end.
Record Tools := mkTools {
  slurp : Selector;
  (* by its arguments: the outcome, and what it left in the file it was given *)
  grim : list string → CommandOutcome * (option Node → option Node);
  (* [None]: half an hour passed *)
  edit_outcome : option ChildOutcome;
  edit_effect : option Node → option Node;
}.
Inductive ScreenshotMode := Region | Screen.
Record InteractiveScreenshot := mkInteractive { shot_mode : ScreenshotMode; shot_annotate : bool }.

Definition touch (p : string) (f : option Node → option Node) : Backend unit := λ w,
  (Ok tt, set_disk (partial_alter f p (w_disk w)) w).

Section screenshot.
Context `{Externals} (env : Env) (tools : Tools).

Definition run_grim (args : list string) (path : string) : Backend unit :=
  let '(o, f) := grim tools (args ++ [path]) in
  _ ← touch path f;
  lift (capture_command o).
Definition publish_capture (path : string) (max_bytes : Z) : Backend unit :=
  fs ← get_disk;
  b ← lift (ok_or (read_edited_image fs path max_bytes) (operation_error "Screenshot is not a valid bounded PNG"));
  _ ← on_clipboard (Selection.publish wayland_publisher "image/png" b (Z.min max_bytes MAX_THUMBNAIL_BYTES));
  selection_changed.

(** [capture_region]: the staging file goes when the call ends. *)
Definition capture_region (x y width height max_bytes : Z) : Backend OperationResult :=
  if negb (valid_dimensions width height) then lift (Err invalid_region)
  else
    directory ← runtime_directory env "clip-daemon/screenshots";
    path ← unique_path env directory "png";
    _ ← private_file env path;
    r ← attempt (_ ← run_grim ["-g"; geometry x y width height] path;
                 _ ← publish_capture path max_bytes;
                 completed_now env "screenshot" "Screenshot published to the Wayland clipboard");
    _ ← io_ok (remove_file path);
    lift r.

(** [launch], up to [Operations::launch]: the files it stages. *)
Definition stage_screenshot (in_progress : bool) : Backend (string * string) :=
  if in_progress then lift (Err (operation_error "A screenshot is already in progress"))
  else
    directory ← runtime_directory env "clip-daemon/screenshots";
    input ← unique_path env directory "png";
    output ← unique_path env directory "png";
    _ ← private_file env input;
    mret (input, output).
Definition grab (mode : ScreenshotMode) (input : string) : Backend bool :=
  match mode with
  | Screen => _ ← run_grim [] input; mret true
  | Region =>
      selected ← lift (select_region (slurp tools));
      match selected with
      | None => mret false
      | Some g => _ ← run_grim ["-g"; g] input; mret true
      end
  end.
Definition edit_capture (input output : string) (max_bytes : Z) : Backend bool :=
  fs ← get_disk;
  if bool_decide (read_edited_image fs input max_bytes = None) then
    lift (Err (operation_error "Screenshot is not a valid bounded PNG"))
  else
    _ ← touch output (edit_effect tools);
    _ ← lift match edit_outcome tools with
             | None => Err (operation_error "deadline has elapsed")
             | Some o => map_err operation_error (run o)
             end;
    fs ← get_disk;
    mret (path_exists fs output).
Definition cancelled : Completion := mkCompleted "cancelled" "Screenshot cancelled" None.
(** [capture]: [begin_commit] is what the operation's control answers; the
    answer tells whether it was asked and agreed. *)
Definition capture (request : InteractiveScreenshot) (input output : string) (max_bytes : Z) (begin_commit : bool)
    : Backend (Completion * bool) :=
  grabbed ← grab (shot_mode request) input;
  if negb grabbed then mret (cancelled, false)
  else
    edited ← (if shot_annotate request then edit_capture input output max_bytes else mret true);
    if negb edited then mret (cancelled, false)
    else if negb begin_commit then mret (cancelled, false)
    else
      _ ← publish_capture (if shot_annotate request then output else input) max_bytes;
      mret (mkCompleted "completed" "Screenshot copied" None, true).
(** [notify]: the message shown, if any. *)
Definition notification (event : OperationResult) : option string :=
  if bool_decide (o_status event = "cancelled"%string) then None else Some (o_message event).
End screenshot.

(** ** Regions *)
Lemma pair_pretty parse signed lo hi c a b :
  parse = parse_int signed lo hi → numeral (char_z c) = false →
  lo <= a <= hi → lo <= b <= hi → (a < 0 ∨ b < 0 → signed = true) →
  parse_pair parse (pretty a ++ String c (pretty b))%string c = Ok (a, b).
Proof.
  intros -> Hc Ha Hb Hs. unfold parse_pair. rewrite split_once_app by (apply numeral_split; [done|apply pretty_Z_numeral]).
  cbn [ok_or mbind result_bind]. rewrite parse_int_pretty by auto. cbn [ok_or mbind result_bind].
  by rewrite parse_int_pretty by auto.
Qed.
Lemma geometry_trim x y w h : trim (geometry x y w h) = geometry x y w h.
Proof.
  destruct (pretty_Z_numeral x) as [Hx1 Hx2], (pretty_Z_numeral y) as [Hy1 Hy2],
    (pretty_Z_numeral w) as [Hw1 Hw2], (pretty_Z_numeral h) as [Hh1 Hh2].
  assert (Hlt : ∀ s, str_forallb numeral s = true → str_forallb (λ x, x <? 128) s = true).
  { intros s. apply str_forallb_impl. intros c Hc. by apply numeral_plain. }
  assert (Hws : ∀ c, numeral c = true → is_whitespace c = false) by (intros c Hc; by apply numeral_plain).
  unfold geometry. apply trim_plain.
  - rewrite !str_forallb_app, (Hlt (pretty x)), (Hlt (pretty y)), (Hlt (pretty w)), (Hlt (pretty h)) by done. reflexivity.
  - rewrite first_char_app by done. destruct (pretty x) as [|a s]; [done|]. cbn in Hx2 |- *. apply andb_true_iff in Hx2 as [? _].
    by apply Hws.
  - rewrite !last_char_app; [|by destruct (pretty w), (pretty y)..]. destruct (last_char (pretty h)) as [c|] eqn:Hl; [|done].
    cbn. apply Hws. by eapply str_forallb_last.
Qed.
Definition i32 (x : Z) : Prop := -2147483648 <= x <= 2147483647.

(** A selected region is re-printed, never passed on: whatever text the
    selector printed, what reaches the capture program is four integers in
    canonical form, with a bounded non-empty size; and every bounded region is
    accepted and printed back unchanged. *)
Theorem geometry_canonical value g :
  (parse_geometry value = Ok g →
     ∃ x y w h, g = geometry x y w h ∧ i32 x ∧ i32 y ∧ valid_dimensions w h = true ∧ parse_geometry g = Ok g)
  ∧ ∀ x y w h, i32 x → i32 y → valid_dimensions w h = true → parse_geometry (geometry x y w h) = Ok (geometry x y w h).
Proof.
  assert (Hback : ∀ x y w h, i32 x → i32 y → valid_dimensions w h = true →
    parse_geometry (geometry x y w h) = Ok (geometry x y w h)).
  { intros x y w h Hx Hy Hv. pose proof (proj1 (valid_dimensions_iff w h) Hv) as (Hw & Hh & _).
    assert (Hsp : split_once " "%char (geometry x y w h)
                  = Some ((pretty x ++ String "," (pretty y))%string, (pretty w ++ String "x" (pretty h))%string)).
    { unfold geometry. replace (pretty x ++ "," ++ pretty y ++ " " ++ pretty w ++ "x" ++ pretty h)%string
        with ((pretty x ++ String "," (pretty y)) ++ String " " (pretty w ++ String "x" (pretty h)))%string
        by (rewrite <- !str_app_assoc; reflexivity).
      apply split_once_app. unfold str_contains_char. rewrite str_forallb_app. cbn [str_forallb].
      destruct (pretty_Z_numeral x) as [_ H1], (pretty_Z_numeral y) as [_ H2].
      apply (numeral_split " "%char) in H1; [|done]. apply (numeral_split " "%char) in H2; [|done].
      unfold str_contains_char in H1, H2. apply negb_false_iff in H1, H2. by rewrite H1, H2. }
    unfold parse_geometry. rewrite geometry_trim, Hsp. cbn [ok_or mbind result_bind].
    rewrite (pair_pretty parse_i32 true _ _ ","%char x y eq_refl) by auto. cbn [mbind result_bind].
    rewrite (pair_pretty parse_u32 false _ _ "x"%char w h eq_refl) by (done || lia). cbn [mbind result_bind]. by rewrite Hv. }
  split; [|done]. unfold parse_geometry at 1. intros Hp.
  apply bind_Ok_inv in Hp as ([pos size] & _ & Hp). apply bind_Ok_inv in Hp as ([x y] & Hxy & Hp).
  apply bind_Ok_inv in Hp as ([w h] & Hwh & Hp). destruct (valid_dimensions w h) eqn:Hv; cbn [negb] in Hp; [|done].
  injection Hp as <-. unfold parse_pair in Hxy. apply bind_Ok_inv in Hxy as ([a b] & _ & Hxy).
  apply bind_Ok_inv in Hxy as (x' & Hx & Hxy). apply bind_Ok_inv in Hxy as (y' & Hy & [= -> ->]).
  apply ok_or_Ok, parse_int_range in Hx, Hy. exists x, y, w, h. split_and!; auto.
Qed.

(** ** Captures *)
Section captures.
Context `{Externals} (env : Env) (tools : Tools).

(** A selection request for this image and nothing else. *)
Definition offers_png (max_bytes : Z) (b : bytes) (w w' : World) : Prop :=
  w_active w' = None ∧ ∃ r, cb_owned (w_clipboard w') = r :: cb_owned (w_clipboard w)
                            ∧ safe_request max_bytes r ∧ c_sources r = [(Specific "image/png", b)].
Definition same_offer (w w' : World) : Prop :=
  w_active w' = w_active w ∧ cb_owned (w_clipboard w') = cb_owned (w_clipboard w).
Lemma safe_request_le a b r : a <= b → safe_request a r → safe_request b r.
Proof.
  intros Hab Hs. eapply Forall_impl; [exact Hs|]. intros [t x] [Hl Ht]. split; [|done].
  unfold effective_limit in *. lia.
Qed.
Lemma publish_capture_spec path max w res w' :
  0 <= max → publish_capture path max w = (res, w') →
  w_db w' = w_db w ∧ w_disk w' = w_disk w ∧ w_io w' = w_io w ∧
  match res with
  | Ok _ => ∃ b, read_edited_image (w_disk w) path max = Some b ∧ offers_png max b w w'
  | Err _ => same_offer w w'
  end.
Proof.
  intros Hm. unfold publish_capture. rewrite backend_bind. cbn [get_disk]. rewrite backend_bind.
  destruct (read_edited_image (w_disk w) path max) as [b|]; cbn [ok_or lift]; [|by intros [= <- <-]].
  rewrite backend_bind. unfold on_clipboard.
  pose proof (publication_runs (PContent "image/png" b) (Z.min max MAX_THUMBNAIL_BYTES) (w_clipboard w)) as Hrun.
  cbn [run_publication] in Hrun. specialize (Hrun ltac:(unfold MAX_THUMBNAIL_BYTES; lia)).
  destruct (Selection.publish wayland_publisher "image/png" b _ (w_clipboard w)) as [[u|e] c]; intros [= <- <-]; [|by split_and!].
  destruct Hrun as (r & Ho & Hs & Hc). split_and!; try done. exists b. split; [done|]. split; [done|]. exists r.
  split_and!; [done| |done]. apply (safe_request_le (Z.min max MAX_THUMBNAIL_BYTES)); [lia|done].
Qed.

(** What the programs may change: the files they are given. *)
Record staged_only (files : list string) (w w' : World) : Prop := {
  so_db : w_db w' = w_db w;
  so_io : w_io w' = w_io w;
  so_active : w_active w' = w_active w;
  so_clipboard : w_clipboard w' = w_clipboard w;
  so_disk : ∀ p, p ∉ files → w_disk w' !! p = w_disk w !! p;
}.
#[export] Instance staged_only_preorder files : PreOrder (staged_only files).
Proof.
  split; [intros w; by split|]. intros w1 w2 w3 [A1 A2 A3 A4 A5] [B1 B2 B3 B4 B5]. split; try congruence.
  intros p Hp. by rewrite B5, A5.
Qed.
Lemma touch_staged files p f : p ∈ files → Respects (staged_only files) (touch p f).
Proof. intros Hp w. split; try done. intros q Hq. cbn. rewrite lookup_partial_alter_ne; [done|]. by intros ->. Qed.
Lemma run_grim_staged files args p : p ∈ files → Respects (staged_only files) (run_grim tools args p).
Proof.
  intros Hp. unfold run_grim. destruct (grim tools _) as [o f].
  apply respects_bind; [apply _|by apply touch_staged|intros; apply _].
Qed.
Lemma grab_staged files mode input : input ∈ files → Respects (staged_only files) (grab tools mode input).
Proof.
  intros Hp. unfold grab. destruct mode; [apply respects_bind; [apply _..|]; intros [g|]; [|apply _]|];
    (apply respects_bind; [apply _|by apply run_grim_staged|intros; apply _]).
Qed.
Lemma edit_capture_staged files input output max :
  output ∈ files → Respects (staged_only files) (edit_capture tools input output max).
Proof.
  intros Hp. unfold edit_capture. apply respects_bind; [apply _| |intros fs]; [intros w; cbn; reflexivity|].
  apply respects_if; [apply _|]. apply respects_bind; [apply _|by apply touch_staged|intros _].
  apply respects_bind; [apply _..|intros _]. apply respects_bind; [apply _| |intros; apply _]. intros w; cbn; reflexivity.
Qed.

(** C35 A screenshot is published whole, or not at all, and only with the
    operation's consent.  Whatever the capture programs and the editor do, the
    history is untouched and no file is changed but the two staged ones.
    Success with a commit means that the operation agreed to it and that the
    selection now offers exactly the staged image (the edited one if editing was
    asked for), a valid PNG within the limit; without a commit the answer is
    that of a cancellation; and then, as on every error, the selection and the
    protected file are as before. *)
Theorem capture_exact request input output max agreed w res w' :
  0 <= max → capture tools request input output max agreed w = (res, w') →
  w_db w' = w_db w
  ∧ (∀ p, p ≠ input → p ≠ output → w_disk w' !! p = w_disk w !! p)
  ∧ match res with
    | Ok (c, true) =>
        agreed = true ∧ co_status c = "completed"%string
        ∧ ∃ b, read_edited_image (w_disk w') (if shot_annotate request then output else input) max = Some b
               ∧ offers_png max b w w'
    | Ok (c, false) => c = cancelled ∧ same_offer w w'
    | Err _ => same_offer w w'
    end.
Proof.
  intros Hm. set (files := [input; output]).
  assert (Hend : ∀ w0, staged_only files w w0 → w_db w0 = w_db w
    ∧ (∀ p, p ≠ input → p ≠ output → w_disk w0 !! p = w_disk w !! p) ∧ same_offer w w0).
  { intros w0 [A _ B C D]. split_and!; [done| |split; congruence]. intros p H1 H2. apply D. unfold files. set_solver. }
  unfold capture. rewrite backend_bind. pose proof (grab_staged files (shot_mode request) input ltac:(set_solver) w) as H1.
  destruct (grab tools (shot_mode request) input w) as [[g|e] w1]; cbn in H1; [|intros [= <- <-]; apply Hend, H1].
  destruct g; cbn [negb]; [|intros [= <- <-]; pose proof (Hend _ H1) as (? & ? & ?); by split_and!].
  rewrite backend_bind. set (m := if shot_annotate request then _ else _).
  assert (H2 : Respects (staged_only files) m).
  { subst m. apply respects_if; [apply edit_capture_staged; set_solver|apply _]. }
  specialize (H2 w1). destruct (m w1) as [[g|e] w2]; cbn in H2; pose proof (transitivity H1 H2) as H3;
    pose proof (Hend _ H3) as (Hdb & Hd & Ha & Hc); [|intros [= <- <-]; by split_and!].
  destruct g; cbn [negb]; [|intros [= <- <-]; by split_and!].
  destruct agreed; cbn [negb]; [|intros [= <- <-]; by split_and!]. rewrite backend_bind.
  destruct (publish_capture _ max w2) as [r w3] eqn:Hp. apply publish_capture_spec in Hp as (Hdb3 & Hd3 & _ & Hr); [|done].
  assert (w_db w3 = w_db w ∧ ∀ p, p ≠ input → p ≠ output → w_disk w3 !! p = w_disk w !! p) as [? ?].
  { split; [congruence|]. intros p ? ?. rewrite Hd3. by apply Hd. }
  destruct r as [[]|e]; intros [= <- <-]; split_and!; try done.
  - destruct Hr as (b & Hb & Hact & r & Ho & Hs & Hsrc). exists b. rewrite Hd3. split; [done|]. split; [done|]. exists r.
    by rewrite Ho, Hc.
  - destruct Hr as [Hra Hrc]. split; congruence.
Qed.

(** The path [capture_region] stages at. *)
Definition staging_path (w : World) : string :=
  (xdg_runtime env ++ "/clip-daemon/screenshots" ++ "/clipboard-" ++ new_uuid env (S (w_ticks w)) ++ ".png")%string.
Lemma quiet_io {A} (f : Fs → result IoError (A * Fs)) g w :
  w_io w = [] → io_call f g w = match f (w_disk w) with Ok (a, fs) => (Ok a, set_disk fs (set_io [] w)) | Err e => (Err e, set_io [] w) end.
Proof. intros Hi. unfold io_call. by rewrite Hi. Qed.

Lemma runtime_directory_quiet child w r w' p :
  w_io w = [] → runtime_directory env child w = (r, w') →
  w_io w' = [] ∧ w_db w' = w_db w ∧ w_active w' = w_active w ∧ w_clipboard w' = w_clipboard w
  ∧ no_new_file p (w_disk w) (w_disk w')
  ∧ match r with Ok d => d = (xdg_runtime env ++ "/" ++ child)%string ∧ w_ticks w' = S (w_ticks w) | Err _ => True end.
Proof.
  intros Hi. unfold runtime_directory, private_directory. rewrite backend_bind. cbn [tick].
  set (w0 := mkWorld _ _ _ _ _ _ _ _ _ _). rewrite backend_bind. unfold io at 1, create_dir_all. rewrite quiet_io by done.
  change (w_disk w0) with (w_disk w). destruct (make_dirs _ _ _ _ _) as [fs|e] eqn:Hm; cbn [mbind result_bind map_err].
  2: { intros [= <- <-]. cbn. split_and!; try done. unfold no_new_file. congruence. }
  apply (make_dirs_no_file _ _ _ _ _ _ p) in Hm. set (w1 := set_disk fs _). rewrite backend_bind. unfold io, set_permissions.
  rewrite quiet_io by done. change (w_disk w1) with fs. set (dir := (xdg_runtime env ++ "/" ++ child)%string).
  destruct (fs !! dir) as [n|] eqn:Hn; cbn [ok_or mbind result_bind map_err]; [case_decide|]; intros [= <- <-]; cbn;
    split_and!; try done.
  intros Hp m. destruct (decide (p = dir)) as [->|Hne]; [|rewrite lookup_insert_ne by done; by apply Hm].
  rewrite lookup_insert_eq. intros [= <-]. by apply (Hm Hp n) in Hn.
Qed.
Lemma shoot_spec args path max w r w' :
  0 <= max →
  (_ ← run_grim tools args path; _ ← publish_capture path max;
   completed_now env "screenshot" "Screenshot published to the Wayland clipboard") w = (r, w') →
  w_db w' = w_db w ∧ w_io w' = w_io w ∧
  match r with
  | Ok op => o_status op = "completed"%string ∧ ∃ b, read_edited_image (w_disk w') path max = Some b ∧ offers_png max b w w'
  | Err _ => same_offer w w'
  end.
Proof.
  intros Hm. rewrite backend_bind. pose proof (run_grim_staged [path] args path ltac:(set_solver) w) as [Hdb Hio Ha Hc _].
  destruct (run_grim tools args path w) as [[[]|e] w1]; cbn in *; [|intros [= <- <-]; split_and!; try done; split; congruence].
  rewrite backend_bind. destruct (publish_capture path max w1) as [r2 w2] eqn:Hp.
  apply publish_capture_spec in Hp as (Hdb2 & Hd2 & Hio2 & Hr); [|done].
  destruct r2 as [[]|e]; intros [= <- <-]; cbn; (split_and!; [congruence..|]).
  - destruct Hr as (b & Hb & Hact & q & Ho & Hs & Hq). exists b. rewrite Hd2. split; [done|]. split; [done|].
    exists q. cbn. by rewrite Ho, Hc.
  - destruct Hr. split; congruence.
Qed.
Lemma remove_file_quiet p w r w' :
  w_io w = [] → io_ok (remove_file p) w = (r, w') →
  w_db w' = w_db w ∧ w_active w' = w_active w ∧ w_clipboard w' = w_clipboard w ∧ is_ok r = true
  ∧ ∀ n, w_disk w' !! p = Some n → is_file n = false.
Proof.
  intros Hi. unfold io_ok, remove_file. rewrite quiet_io by done.
  destruct (w_disk w !! p) as [n|] eqn:Hp; cbn [ok_or mbind result_bind]; [case_decide as Hk|]; intros [= <- <-]; cbn;
    split_and!; try done.
  - intros m. rewrite Hp. intros [= <-]. unfold is_file. by rewrite Hk.
  - intros m. by rewrite lookup_delete_eq.
  - intros m. by rewrite Hp.
Qed.
(** A region capture leaves nothing behind: an invalid region is refused
    before anything is touched; otherwise the history is untouched, success
    means that the selection offers exactly one new image, a bounded PNG, and an
    error means that the selection is as before; and, success or error, the
    staging file is gone when nothing disturbs the file system. *)
Theorem capture_region_clean x y width height max w res w' :
  0 <= max → w_io w = [] → w_disk w !! staging_path w = None →
  capture_region env tools x y width height max w = (res, w') →
  (valid_dimensions width height = false → w' = w ∧ is_ok res = false)
  ∧ w_db w' = w_db w
  ∧ (∀ n, w_disk w' !! staging_path w = Some n → is_file n = false)
  ∧ match res with
    | Ok op => o_status op = "completed"%string ∧ ∃ b fs, read_edited_image fs (staging_path w) max = Some b ∧ offers_png max b w w'
    | Err _ => same_offer w w'
    end.
Proof.
  intros Hm Hi Hnone. unfold capture_region. destruct (valid_dimensions width height) eqn:Hv; cbn [negb].
  2: { intros [= <- <-]. split_and!; try done. rewrite Hnone. done. }
  intros Hrun. split; [done|]. revert Hrun. rewrite backend_bind.
  destruct (runtime_directory env "clip-daemon/screenshots" w) as [[d|e] w1] eqn:Hr;
    apply (runtime_directory_quiet _ _ _ _ (staging_path w)) in Hr as (Hi1 & Hdb1 & Ha1 & Hc1 & Hd1 & Hx); try done.
  2: { intros [= <- <-]. split_and!; [done|by apply Hd1|by split; congruence]. }
  destruct Hx as [-> Ht]. rewrite backend_bind. unfold unique_path at 1. rewrite backend_bind. cbn [tick]. rewrite Ht.
  assert (Hpath : ((xdg_runtime env ++ "/" ++ "clip-daemon/screenshots") ++ "/clipboard-" ++ new_uuid env (S (w_ticks w)) ++ "." ++ "png")%string
                  = staging_path w).
  { unfold staging_path. by rewrite <- !str_app_assoc. }
  rewrite Hpath. set (path := staging_path w) in *. cbn [mret Backend_ret].
  set (w2 := mkWorld _ _ _ _ _ _ _ _ _ _). rewrite backend_bind. unfold private_file at 1. rewrite backend_bind. cbn [tick].
  set (w3 := mkWorld _ _ _ _ _ _ _ _ _ _). unfold io at 1. rewrite quiet_io by done. change (w_disk w3) with (w_disk w1).
  destruct (w_disk w1 !! path) as [n|] eqn:Hn; cbn [mbind result_bind map_err].
  { intros [= <- <-]. split_and!; [done|by apply Hd1|by split; cbn; congruence]. }
  set (w4 := set_disk _ _). rewrite backend_bind. unfold attempt at 1. set (shoot := run_grim _ _ _ ≫= _).
  destruct (shoot w4) as [r w5] eqn:Hshoot. apply shoot_spec in Hshoot as (Hdb5 & Hi5 & Hr5); [|done].
  rewrite backend_bind. destruct (io_ok (remove_file path) w5) as [g w6] eqn:Hg.
  apply remove_file_quiet in Hg as (Hdb6 & Ha6 & Hc6 & Hok & Hd6); [|done]. destruct g as [g|]; [|done].
  unfold lift. intros [= <- <-]. split_and!; [by rewrite Hdb6, Hdb5|done|]. destruct r as [op|e].
  - destruct Hr5 as (? & b & Hb & Hact & q & Ho & Hq). split; [done|]. exists b, (w_disk w5). split; [done|]. split; [congruence|].
    exists q. split; [|done]. rewrite Hc6, Ho. cbn. by rewrite Hc1.
  - destruct Hr5 as [Ha5 Hc5]. split; [rewrite Ha6, Ha5|rewrite Hc6, Hc5]; cbn; congruence.
Qed.
End captures.
