(* ===== verification/Annotation.v ===== *)
(** * Annotation: editing an image entry, from its staging to its commit —
    [launch_annotation] and [run_annotation] of [history/mutation.rs] with what
    [history/operation.rs] does around the work.

    The editor is an external program: it may leave anything in the two files
    it is given.  The operation may have been cancelled meanwhile; then its
    control does not agree to the commit. *)
From Stdlib Require Import Ascii.
From S2P Require Import Prelude Text Externals Model Classification Selection Content Sql Tables Database Invariant History HistorySpec Query Store Backend Artifacts Mutations Keeping Commits Editor Screenshot.
Local Open Scope Z_scope.

(** What the editor does: its outcome, and what it leaves in its two files. *)
Record Edit := mkEdit {
  child : ChildOutcome;
  input_effect : option Node → option Node;
  output_effect : option Node → option Node;
}.
(** [Path::is_file] follows links; a link that resolves is taken to lead to a file. *)
Definition leads_to_file (fs : Fs) (p : string) : bool :=
  match fs !! p with
  | Some n => is_file n || (bool_decide (node_kind n = Symlink) && node_resolves n)
  | None => false
  end.

Section annotation.
Context `{Externals} (env : Env).

(** [Operations::edit] *)
Definition edit (e : Edit) (input output : string) : Backend unit :=
  _ ← touch input (input_effect e);
  _ ← touch output (output_effect e);
  lift (map_err operation_error (run (child e))).
Definition run_annotation (e : Edit) (staged : AnnotationStage) (begin_commit : bool) : Backend Completion :=
  _ ← edit e (ann_input staged) (ann_output staged);
  fs ← get_disk;
  if negb (leads_to_file fs (ann_output staged)) then lift (Err (operation_error "Image edit was cancelled"))
  else if negb begin_commit then lift (Err (operation_error "Image edit was cancelled before commit"))
  else apply_annotation (ann_opaque_id staged) (ann_revision staged) (ann_output staged) (ann_max_bytes staged).
(** When the task is dropped. *)
Fixpoint remove_files (l : list string) : Backend unit :=
  match l with
  | [] => mret tt
  | p :: l' => _ ← io_ok (remove_file p); remove_files l'
  end.
(** The outcome of the work: the error becomes the "failed" event. *)
Definition launch_annotation (e : Edit) (staged : AnnotationStage) (begin_commit : bool) : Backend (BackendResult Completion) :=
  r ← attempt (run_annotation e staged begin_commit);
  _ ← remove_files [ann_input staged; ann_output staged];
  mret r.
Definition annotate (e : Edit) (begin_commit : bool) (id : string) (expected : option Z) (max_bytes : Z) : Backend (BackendResult Completion) :=
  staged ← stage_annotation env id expected max_bytes;
  launch_annotation e staged begin_commit.

(** ** Nothing is offered on the way *)
#[export] Instance same_offer_preorder : PreOrder same_offer.
Proof. split; [by intros w|]. intros w1 w2 w3 [] []. split; congruence. Qed.
#[export] Instance reads_offer A (m : Backend A) : Respects reads m → Respects same_offer m | 10.
Proof. intros Hm w. destruct (Hm w) as [_ Ha Hc _ _]. split; [done|by rewrite Hc]. Qed.
Lemma io_call_offer {A} (f : Fs → result IoError (A * Fs)) g w : same_offer w (snd (io_call f g w)).
Proof. unfold io_call. destruct (w_io w) as [|[]]; cbn; try destruct (f (w_disk w)) as [[]|]; done. Qed.
#[export] Instance io_offer A (f : Fs → result IoError (A * Fs)) g : Respects same_offer (io (io_call f g)).
Proof. apply respects_io. intros w. apply io_call_offer. Qed.
#[export] Instance io_ok_offer A (f : Fs → result IoError (A * Fs)) g : Respects same_offer (io_ok (io_call f g)).
Proof. apply respects_io_ok. intros w. apply io_call_offer. Qed.
#[export] Instance write_private_offer p b : Respects same_offer (write_private env p b).
Proof. unfold write_private, private_file, write_all, sync_all, remove_file. apply _. Qed.
#[export] Instance runtime_directory_offer c : Respects same_offer (runtime_directory env c).
Proof. unfold runtime_directory, private_directory, create_dir_all, set_permissions. apply _. Qed.
#[export] Instance stage_offer id r n : Respects same_offer (stage_annotation env id r n).
Proof.
  unfold stage_annotation. apply respects_bind; [apply _|apply _|]. intros [s b].
  apply respects_bind; [apply _|apply _|]. intros fs. apply respects_bind; [apply _| |intros [mime image]; apply _].
  destruct (rc_image _) as [[]|]; apply _.
Qed.
#[export] Instance remove_files_offer l : Respects same_offer (remove_files l).
Proof. induction l; cbn [remove_files]; [apply _|]. unfold remove_file in *. apply _. Qed.
#[export] Instance touch_offer p f : Respects same_offer (touch p f).
Proof. by intros w. Qed.
#[export] Instance edit_offer e i o : Respects same_offer (edit e i o).
Proof. unfold edit. apply _. Qed.

(** ** What is staged *)
(** The entry's revision when it was read, for the caller's revision. *)
Definition staged_from (id : string) (expected : option Z) (max_bytes : Z) (seen : list Tables) (staged : AnnotationStage) : Prop :=
  ann_opaque_id staged = id ∧ ann_max_bytes staged = Z.min max_bytes MAX_THUMBNAIL_BYTES
  ∧ ∃ t st, t ∈ seen ∧ fst (ideal (db_get id expected) t) = Ok st ∧ s_kind (st_summary st) = Image
            ∧ ann_revision staged = s_revision (st_summary st).
Lemma stage_result id expected max_bytes w staged w' :
  stage_annotation env id expected max_bytes w = (Ok staged, w') →
  same_offer w w' ∧ staged_from id expected max_bytes (w_seen w') staged.
Proof.
  intros Hr. pose proof (respects (R := same_offer) (m := stage_annotation env id expected max_bytes) w) as Ho.
  rewrite Hr in Ho. split; [exact Ho|]. unfold stage_annotation in Hr.
  apply backend_bind_ok in Hr as ([s b] & w1 & H1 & Hr). unfold selected_image in H1.
  apply backend_bind_ok in H1 as ([s0 b0] & w0 & H0 & H1). apply selected_bytes_ok in H0 as (_ & t & st & Hseen & Hget & -> & ->).
  cbn [fst] in H1. destruct (bool_decide (s_kind _ = Image)) eqn:Hkind; [|done]. injection H1 as <- <- <-. apply bool_decide_eq_true in Hkind.
  match type of Hr with ?m w0 = _ => assert (Hrest : Respects (kept env (λ _, False)) m) end.
  { apply respects_bind; [apply _|apply _|]. intros fs. apply respects_bind; [apply _| |intros [mime image]; apply _].
    destruct (rc_image _) as [[]|]; apply _. }
  specialize (Hrest w0). rewrite Hr in Hrest. destruct Hrest as [_ [l Hl]]. cbn [snd] in Hl.
  apply backend_bind_ok in Hr as (fs & ? & _ & Hr). apply backend_bind_ok in Hr as ([mime image] & ? & _ & Hr).
  do 4 apply backend_bind_ok in Hr as (? & ? & _ & Hr). injection Hr as <- _.
  split; [done|]. split; [done|]. exists t, st. rewrite Hl, Hseen. split; [set_solver|done].
Qed.

(** ** The work *)
(** Only files change. *)
Record files_only (w w' : World) : Prop := {
  fo_offer : same_offer w w';
  fo_db : w_db w' = w_db w;
  fo_seen : w_seen w' = w_seen w;
}.
#[export] Instance files_only_preorder : PreOrder files_only.
Proof. split; [by intros w|]. intros w1 w2 w3 [A1 A2 A3] [B1 B2 B3]. split; [by etransitivity|congruence|congruence]. Qed.
#[export] Instance io_ok_files A (f : Fs → result IoError (A * Fs)) g : Respects files_only (io_ok (io_call f g)).
Proof. apply respects_io_ok. intros w. unfold io_call. destruct (w_io w) as [|[]]; cbn; try destruct (f (w_disk w)) as [[]|]; done. Qed.
#[export] Instance remove_files_only l : Respects files_only (remove_files l).
Proof. induction l; cbn [remove_files]; [apply _|]. unfold remove_file in *. apply _. Qed.
#[export] Instance touch_files p f : Respects files_only (touch p f).
Proof. by intros w. Qed.
#[export] Instance edit_files e i o : Respects files_only (edit e i o).
Proof. unfold edit. apply _. Qed.
(** What the editor leaves on a disk that holds the staged files. *)
Definition edited (e : Edit) (staged : AnnotationStage) (fs : Fs) : Fs :=
  partial_alter (output_effect e) (ann_output staged) (partial_alter (input_effect e) (ann_input staged) fs).
Lemma edit_run e staged w :
  edit e (ann_input staged) (ann_output staged) w
  = (map_err operation_error (run (child e)), set_disk (edited e staged (w_disk w)) w).
Proof. done. Qed.
(** An accepted output is a regular file the editor left there, whole. *)
Lemma edited_output e staged fs max b :
  0 <= max → read_edited_image (edited e staged fs) (ann_output staged) max = Some b →
  ∃ n, output_effect e (partial_alter (input_effect e) (ann_input staged) fs !! ann_output staged) = Some n
       ∧ is_file n = true ∧ node_bytes n = b ∧ zlen b <= max ∧ zlen b <= MAX_THUMBNAIL_BYTES.
Proof.
  intros Hm Hb. unfold read_edited_image in Hb.
  assert (Hout : edited e staged fs !! ann_output staged
                 = output_effect e (partial_alter (input_effect e) (ann_input staged) fs !! ann_output staged)).
  { unfold edited. by rewrite lookup_partial_alter_eq. }
  rewrite Hout in Hb. destruct (output_effect e _) as [n|] eqn:Hn; [|done]. cbn [mbind option_bind] in Hb.
  destruct (is_file n && (node_len n <=? Z.min max MAX_THUMBNAIL_BYTES)) eqn:Hf; cbn [negb] in Hb; [|done].
  apply andb_true_iff in Hf as [Hf Hl]. apply Z.leb_le in Hl. exists n. split; [done|]. split; [done|].
  destruct (read_path _ _ _) as [x|] eqn:Hr; cbn [ok_of mbind option_bind] in Hb; [|done].
  apply read_path_Ok in Hr as (m & Hm' & -> & Hlen); [|unfold MAX_THUMBNAIL_BYTES; lia].
  rewrite Hout in Hm'. injection Hm' as <-.
  destruct (image_format _) as [f|]; cbn [mbind option_bind] in Hb; [|done]. destruct (_ && _); [|done].
  injection Hb as <-. unfold node_len in *. split; [done|]. lia.
Qed.
Lemma run_annotation_result e staged agreed w r w' :
  0 <= ann_max_bytes staged → run_annotation e staged agreed w = (r, w') →
  match r with
  | Ok c => agreed = true ∧ child e = Exited true
      ∧ edit_committed (ann_opaque_id staged) (ann_revision staged) (ann_output staged) (ann_max_bytes staged)
          (set_disk (edited e staged (w_disk w)) w) c w'
  | Err _ => same_offer w w'
  end.
Proof.
  intros Hm. unfold run_annotation. rewrite backend_bind, edit_run. set (w1 := set_disk _ w).
  destruct (run (child e)) as [[]|x] eqn:He; cbn [map_err]; [|by intros [= <- <-]].
  assert (Hch : child e = Exited true) by by destruct (child e) as [| |[]].
  rewrite backend_bind. cbn [get_disk]. destruct (leads_to_file _ _); cbn [negb]; [|by intros [= <- <-]].
  destruct agreed; cbn [negb]; [|by intros [= <- <-]]. intros [_ Hr]%annotation_commits; [|done].
  destruct r as [c|x]; [done|]. by destruct Hr.
Qed.
(** Undisturbed, an accepted edit of a current entry is committed. *)
Lemma run_annotation_commits e staged w t b s t' :
  calm t w → child e = Exited true → 0 <= ann_max_bytes staged → str_len (ann_opaque_id staged) <= 128 →
  let fs := edited e staged (w_disk w) in
  read_edited_image fs (ann_output staged) (ann_max_bytes staged) = Some b →
  ideal (replace_body fs (ann_opaque_id staged) (ann_revision staged) "image/png" b) t = (Ok s, t') →
  ∃ c, fst (run_annotation e staged true w) = Ok c.
Proof.
  intros Hc Hch Hm Hid fs Hb Hr. destruct (edited_output _ _ _ _ _ Hm Hb) as (n & Hn & Hf & _ & _ & Hlen).
  unfold run_annotation. rewrite backend_bind, edit_run, Hch. cbn [run map_err]. fold fs. set (w1 := set_disk fs w).
  assert (Hc1 : calm t w1) by (destruct Hc; by split).
  rewrite backend_bind. cbn [get_disk]. change (w_disk w1) with fs.
  assert (Hfile : leads_to_file fs (ann_output staged) = true).
  { unfold leads_to_file, fs, edited. by rewrite lookup_partial_alter_eq, Hn, Hf. }
  rewrite Hfile. cbn [negb]. unfold apply_annotation. rewrite backend_bind. cbn [get_disk]. change (w_disk w1) with fs.
  rewrite backend_bind, Hb. cbn [ok_or lift]. rewrite backend_bind. unfold store_replace. rewrite backend_bind.
  cbn [get_disk]. change (w_disk w1) with fs.
  assert (Hv : validate (RMutate (OpReplace fs (ann_opaque_id staged) (ann_revision staged) "image/png" b)) = Ok tt).
  { cbn [validate]. unfold validate_id, validate_input. rewrite (proj2 (Z.leb_le _ _) Hid). cbn [ensure mbind result_bind].
    destruct (Z.ltb_spec MAX_ENTRY_BYTES (zlen b)); [unfold MAX_ENTRY_BYTES, MAX_THUMBNAIL_BYTES in *; lia|]. by vm_compute. }
  rewrite Hv. unfold replace. rewrite (transact_calm _ t) by done. rewrite Hr.
  rewrite backend_bind. unfold attempt at 1. destruct ((_ ← on_clipboard _; selection_changed) _) as [[u|x] w2]; by eexists.
Qed.
Lemma remove_files_ok l w : remove_files l w = (Ok tt, snd (remove_files l w)).
Proof.
  revert w. induction l as [|p l IH]; intros w; cbn [remove_files]; [done|]. rewrite !backend_bind. unfold io_ok.
  destruct (remove_file p w) as [r w1]. apply IH.
Qed.
(** The staged files are removed whatever happened, unless that fails or the
    editor put a directory in their place. *)
Lemma remove_files_gone l w : w_io w = [] →
  let w' := snd (remove_files l w) in
  w_io w' = [] ∧ ∀ p, match w_disk w' !! p with Some n => w_disk w !! p = Some n ∧ (p ∈ l → node_kind n = Directory) | None => True end.
Proof.
  revert w. induction l as [|q l IH]; intros w Hio; cbn [remove_files].
  { cbn. split; [done|]. intros p. destruct (w_disk w !! p); [|done]. split; [done|]. by intros ?%elem_of_nil. }
  rewrite backend_bind. unfold io_ok, remove_file, io_call. rewrite Hio. cbn [tail].
  set (w1 := set_io [] w).
  assert (Hstep : ∀ w2, w_io w2 = [] → (∀ p, match w_disk w2 !! p with Some n => w_disk w !! p = Some n ∧ (p = q → node_kind n = Directory) | None => True end) →
    let w' := snd (remove_files l w2) in
    w_io w' = [] ∧ ∀ p, match w_disk w' !! p with Some n => w_disk w !! p = Some n ∧ (p ∈ q :: l → node_kind n = Directory) | None => True end).
  { intros w2 Hio2 Hd2. destruct (IH w2 Hio2) as [Hio' Hl]. split; [done|]. intros p. specialize (Hl p). specialize (Hd2 p).
    destruct (w_disk (snd (remove_files l w2)) !! p) as [n|]; [|done]. destruct Hl as [Hp Hl]. rewrite Hp in Hd2. destruct Hd2 as [? Hq].
    split; [done|]. intros [->|?]%elem_of_cons; auto. }
  destruct (w_disk w !! q) as [n|] eqn:Hq; cbn [ok_or mbind result_bind].
  - destruct (decide (node_kind n = Directory)) as [Hk|Hk]; cbn [fst snd ok_of].
    + apply Hstep; [done|]. intros p. cbn. destruct (w_disk w !! p) eqn:Hp; [|done]. split; [done|]. intros ->. congruence.
    + apply Hstep; [done|]. intros p. cbn. destruct (decide (p = q)) as [->|Hne]; [by rewrite lookup_delete_eq|].
      rewrite lookup_delete_ne by done. destruct (w_disk w !! p); [|done]. split; [done|]. by intros ->.
  - cbn [fst snd ok_of]. apply Hstep; [done|]. intros p. cbn. destruct (w_disk w !! p) eqn:Hp; [|done]. split; [done|]. intros ->. congruence.
Qed.
Definition same_io (w w' : World) : Prop := w_io w' = w_io w.
#[export] Instance same_io_preorder : PreOrder same_io.
Proof. split; [by intros w|]. unfold same_io. intros w1 w2 w3 ? ?. congruence. Qed.
#[export] Instance client_io A (v : BackendResult unit) (f : Database Tables → BackendResult A * Database Tables) : Respects same_io (client v f).
Proof.
  intros w. unfold client, same_io. destruct v as [[]|e]; [|done]. destruct (match w_store w with Some _ => _ | None => _ end); [done|].
  destruct (blocked _); [done|]. by destruct (f _).
Qed.
#[export] Instance on_clipboard_io p : Respects same_io (on_clipboard p).
Proof. intros w. unfold on_clipboard, same_io. by destruct (p (w_clipboard w)). Qed.
#[export] Instance set_active_io p : Respects same_io (set_active p).
Proof. by intros w. Qed.
#[export] Instance get_disk_io : Respects same_io get_disk.
Proof. by intros w. Qed.
#[export] Instance touch_io p f : Respects same_io (touch p f).
Proof. by intros w. Qed.
#[export] Instance run_annotation_io e staged agreed : Respects same_io (run_annotation e staged agreed).
Proof. unfold run_annotation, edit, apply_annotation, store_replace, selection_changed, clear_active_selection. apply _. Qed.

(** The history and the selection after an edit that left [n] in its output. *)
Definition annotated (e : Edit) (id : string) (max : Z) (staged : AnnotationStage) (fs : Fs) (n : Node) (c : Completion)
    (w w' : World) : Prop :=
  output_effect e (partial_alter (input_effect e) (ann_input staged) fs !! ann_output staged) = Some n
  ∧ is_file n = true ∧ zlen (node_bytes n) <= max
  ∧ read_edited_image (edited e staged fs) (ann_output staged) max = Some (node_bytes n)
  ∧ (∃ s t, t ∈ w_seen w'
       ∧ ideal (replace_body (edited e staged fs) id (ann_revision staged) "image/png" (node_bytes n)) t = (Ok s, durable (w_db w'))
       ∧ (tables_ok t → t_payloads (durable (w_db w')) !! id = Some (node_bytes n)))
  ∧ co_status c = "completed"%string
  ∧ match co_warning c with
    | None => w_active w' = None ∧ ∃ r, cb_owned (w_clipboard w') = r :: cb_owned (w_clipboard w)
                                        ∧ safe_request max r ∧ c_sources r = [(Specific "image/png", node_bytes n)]
    | Some _ => same_offer w w'
    end.
Lemma committed_annotated e staged w w0 c w2 w3 :
  0 <= ann_max_bytes staged → same_offer w w0 → files_only w2 w3 →
  edit_committed (ann_opaque_id staged) (ann_revision staged) (ann_output staged) (ann_max_bytes staged)
    (set_disk (edited e staged (w_disk w0)) w0) c w2 →
  ∃ n, annotated e (ann_opaque_id staged) (ann_max_bytes staged) staged (w_disk w0) n c w w3.
Proof.
  intros Hm [Ha0 Hc0] [[Ha3 Hc3] Hdb Hseen] (b & s & t & Hb & Ht & Hr & Hst & Hw). cbn in Hb, Hr, Hw.
  destruct (edited_output _ _ _ _ _ Hm Hb) as (n & Hn & Hf & <- & Hl & _). exists n.
  unfold annotated, same_offer. rewrite Ha3, Hc3, Hdb, Hseen. split; [done|]. split; [done|]. split; [done|]. split; [done|].
  split; [exists s, t; split; [done|]; split; [done|]|split; [done|]].
  - intros Hok. by destruct (replaced_reads_back _ _ _ _ _ _ _ _ Hok Hr) as (_ & ? & _).
  - rewrite <- Hc0. destruct (co_warning c); [|done]. destruct Hw as [-> ->]. done.
Qed.

(** C32 Annotating an image commits exactly what the editor left in its output
    file, for the entry that was staged, or nothing.  A completed edit means
    that the operation agreed, that the editor succeeded, and that what it left
    in the staged output is a regular file, a bounded valid PNG, with exactly
    whose bytes a transaction the store acknowledged replaced the entry at the
    revision the image was staged from, which is the caller's; the durable
    history holds these bytes, and the selection offers them unless the answer
    warns.  On any failure, cancellation or stale revision the selection is as
    it was.  And an edit that succeeds, agreed to, in an undisturbed world, with
    such an output and an entry that can still be replaced, does complete. *)
Theorem annotation_exact e agreed id expected max_bytes w res w' :
  0 <= max_bytes → annotate e agreed id expected max_bytes w = (res, w') →
  let max := Z.min max_bytes MAX_THUMBNAIL_BYTES in
  match res with
  | Ok (Ok c) =>
      agreed = true ∧ child e = Exited true
      ∧ ∃ staged w0 n, stage_annotation env id expected max_bytes w = (Ok staged, w0)
          ∧ staged_from id expected max_bytes (w_seen w0) staged ∧ annotated e id max staged (w_disk w0) n c w w'
  | Ok (Err _) => same_offer w w'
  | Err _ => same_offer w w' ∧ ∃ x, stage_annotation env id expected max_bytes w = (Err x, w')
  end
  ∧ (∀ staged w0 t b s t',
       stage_annotation env id expected max_bytes w = (Ok staged, w0) → calm t w0 → agreed = true → child e = Exited true →
       str_len id <= 128 → let fs := edited e staged (w_disk w0) in
       read_edited_image fs (ann_output staged) max = Some b →
       ideal (replace_body fs id (ann_revision staged) "image/png" b) t = (Ok s, t') → ∃ c, res = Ok (Ok c)).
Proof.
  intros Hm Hrun max. unfold annotate in Hrun. rewrite backend_bind in Hrun.
  pose proof (respects (R := same_offer) (m := stage_annotation env id expected max_bytes) w) as Hs.
  destruct (stage_annotation env id expected max_bytes w) as [[staged|x] w0] eqn:Hst; cbn in Hs.
  2: { injection Hrun as <- <-. split; [split; [done|by exists x]|done]. }
  apply stage_result in Hst as [_ Hfrom]. pose proof Hfrom as (Hid & Hmax & _).
  assert (Hm0 : 0 <= ann_max_bytes staged) by (rewrite Hmax; unfold MAX_THUMBNAIL_BYTES; lia).
  unfold launch_annotation in Hrun. rewrite backend_bind in Hrun. unfold attempt at 1 in Hrun.
  destruct (run_annotation e staged agreed w0) as [r w2] eqn:Hr. rewrite backend_bind, remove_files_ok in Hrun.
  pose proof (respects (R := files_only) (m := remove_files [ann_input staged; ann_output staged]) w2) as Hrm.
  injection Hrun as <- <-. cbn [snd] in Hrm. split.
  - apply run_annotation_result in Hr; [|done]. destruct r as [c|x].
    + destruct Hr as (Hag & Hch & Hc). split; [done|]. split; [done|].
      destruct (committed_annotated _ _ _ _ _ _ _ Hm0 Hs Hrm Hc) as [n Hn]. rewrite Hid, Hmax in Hn. by exists staged, w0, n.
    + etransitivity; [exact Hs|]. etransitivity; [exact Hr|]. apply Hrm.
  - intros staged' w0' t b s t' [= <- <-] Hc -> Hch Hlen fs Hb Hrep.
    destruct (run_annotation_commits e staged w0 t b s t') as [c Hok]; try done; [by rewrite Hid|by rewrite Hmax|by rewrite Hid|].
    rewrite Hr in Hok. cbn in Hok. exists c. by rewrite Hok.
Qed.
(** The staged files are gone when the operation ends. *)
Theorem staged_removed e agreed staged w :
  w_io w = [] →
  let w' := snd (launch_annotation e staged agreed w) in
  ∀ p n, p ∈ [ann_input staged; ann_output staged] → w_disk w' !! p = Some n → node_kind n = Directory.
Proof.
  intros Hio. unfold launch_annotation. rewrite backend_bind. unfold attempt at 1.
  pose proof (respects (R := same_io) (m := run_annotation e staged agreed) w) as Hr. unfold same_io in Hr. rewrite Hio in Hr.
  destruct (run_annotation e staged agreed w) as [r w1]. cbn [snd] in Hr. rewrite backend_bind, remove_files_ok. cbn [snd mret Backend_ret].
  destruct (remove_files_gone [ann_input staged; ann_output staged] w1 Hr) as [_ Hgone]. intros p n Hp Hn. specialize (Hgone p).
  rewrite Hn in Hgone. by apply Hgone.
Qed.
End annotation.
