(* ===== verification/Files.v ===== *)
(** * Files: no operation of the backend harms a file of the user.

    The operations of [Keeping.v] with those that capture: the sink of the
    capture worker ([Ingest.v]), the captures of the screen ([Screenshot.v]) and
    the editing of an image ([Annotation.v]).  Their programs write only the
    files they are given, which are staged in the runtime directory. *)
From Stdlib Require Import Ascii.
From S2P Require Import Prelude Text Externals Model Classification Selection Content Sql Tables Database History Query Store Backend Artifacts Mutations Thumbnails Keeping Commits Ingest Editor Screenshot Annotation.
Local Open Scope Z_scope.

Inductive Operation :=
| Served (r : Keeping.Request)
| Ready (max_bytes : Z) | SetAdmission (enabled : bool) | Ingest (mime : string) (file : CapturedFile)
| CaptureRegion (tools : Tools) (x y width height max_bytes : Z)
| Interactive (tools : Tools) (in_progress : bool) (request : InteractiveScreenshot) (max_bytes : Z) (begin_commit : bool)
| Annotate (e : Edit) (begin_commit : bool) (id : string) (expected : option Z) (max_bytes : Z)
| ShutDown.

Section files.
Context `{Externals} (env : Env) (tenv : ThumbnailEnv).

(** [launch] of a screenshot with the work of its operation, whose files go when it ends. *)
Definition interactive (tools : Tools) (in_progress : bool) (request : InteractiveScreenshot) (max_bytes : Z) (begin_commit : bool)
    : Backend (BackendResult (Completion * bool)) :=
  '(input, output) ← stage_screenshot env in_progress;
  r ← attempt (capture tools request input output max_bytes begin_commit);
  _ ← remove_files [input; output];
  mret r.
Definition perform (o : Operation) : Backend unit :=
  match o with
  | Served r => serve env tenv r
  | Ready n => ready n
  | SetAdmission enabled => set_admission enabled
  | Ingest mime file => ingest env mime file
  | CaptureRegion tools x y width height n => discard (capture_region env tools x y width height n)
  | Interactive tools busy request n agreed => discard (interactive tools busy request n agreed)
  | Annotate e agreed id expected n => discard (annotate env e agreed id expected n)
  | ShutDown => store_shutdown env
  end.

(** ** Staged files *)
Definition staged_dir (child : string) : string := (xdg_runtime env ++ "/clip-daemon/" ++ child)%string.
Lemma staged_disposable child name : disposable env (staged_dir child ++ name).
Proof.
  right. unfold is_below, staged_dir. apply starts_with_iff. exists (child ++ name)%string. by rewrite <- !str_app_assoc.
Qed.
Lemma touch_kept X p f : disposable env p → Respects (kept env X) (touch p f).
Proof.
  intros Hp w. split; [|by exists []]. intros q n Hq _. cbn.
  destruct (decide (q = p)) as [->|Hne]; [by right; right; left|left; by rewrite lookup_partial_alter_ne].
Qed.
Lemma removal_kept X p : disposable env p → Respects (kept env X) (io_ok (remove_file p)).
Proof.
  intros Hp w. destruct (io_remove_file_kept env X p w) as [Hk Hs]. split; [|done]. intros q n Hq Hn.
  destruct (Hk q n Hq Hn) as [?|[[?| ->]|[?|?]]]; auto.
Qed.
Lemma removals_kept X l : Forall (disposable env) l → Respects (kept env X) (remove_files l).
Proof.
  induction 1 as [|p l Hp _ IH]; cbn [remove_files]; [apply _|].
  apply respects_bind; [apply _|by apply removal_kept|intros; apply IH].
Qed.
#[local] Instance private_file_kept X p : Respects (kept env X) (private_file env p).
Proof. intros w. destruct (private_file env p w) as [r w'] eqn:Hp. by apply private_file_spec in Hp as [? _]. Qed.

(** A staged path: the name of the directory is known once it was made. *)
Lemma staged_kept X {A} child (k : string → Backend A) :
  Respects (kept env X) (k (staged_dir child)) → Respects (kept env X) (d ← runtime_directory env ("clip-daemon/" ++ child); k d).
Proof.
  intros Hk w. rewrite backend_bind. pose proof (runtime_directory_kept env X ("clip-daemon/" ++ child) w) as Hd.
  destruct (runtime_directory env ("clip-daemon/" ++ child) w) as [[d|e] w1] eqn:Hr; cbn in Hd; [|done].
  apply runtime_directory_name in Hr as ->. etransitivity; [exact Hd|].
  change (xdg_runtime env ++ "/" ++ "clip-daemon/" ++ child)%string with (staged_dir child). apply Hk.
Qed.
Lemma unique_kept X {A} child ext (k : string → Backend A) :
  (∀ p, disposable env p → Respects (kept env X) (k p)) →
  Respects (kept env X) (p ← unique_path env (staged_dir child) ext; k p).
Proof.
  intros Hk w. rewrite backend_bind. unfold unique_path at 1. rewrite backend_bind. cbn [tick mret Backend_ret].
  set (w1 := mkWorld _ _ _ _ _ _ _ _ _ _). etransitivity; [by apply (same_disk_kept env X w w1)|].
  apply Hk, staged_disposable.
Qed.

(** ** The captures *)
Lemma run_grim_kept X tools args p : disposable env p → Respects (kept env X) (run_grim tools args p).
Proof.
  intros Hp. unfold run_grim. destruct (grim tools (args ++ [p])) as [o f].
  apply respects_bind; [apply _|by apply touch_kept|intros; apply _].
Qed.
#[local] Instance publish_capture_kept X p n : Respects (kept env X) (publish_capture p n).
Proof. unfold publish_capture, selection_changed, clear_active_selection. apply _. Qed.
#[local] Instance capture_region_kept X tools x y width height n : Respects (kept env X) (capture_region env tools x y width height n).
Proof.
  unfold capture_region. destruct (negb _); [apply _|]. apply (staged_kept X "screenshots"). apply unique_kept. intros p Hp.
  apply respects_bind; [apply _|apply _|]. intros _. apply respects_bind; [apply _| |intros r].
  - apply respects_attempt. apply respects_bind; [apply _|by apply run_grim_kept|intros; apply _].
  - apply respects_bind; [apply _|by apply removal_kept|intros; apply _].
Qed.
Lemma capture_kept X tools request input output n agreed :
  disposable env input → disposable env output → Respects (kept env X) (capture tools request input output n agreed).
Proof.
  intros Hi Ho. unfold capture. apply respects_bind; [apply _| |].
  - unfold grab. destruct (shot_mode request).
    + apply respects_bind; [apply _|apply _|]. intros [g|]; [|apply _].
      apply respects_bind; [apply _|by apply run_grim_kept|intros; apply _].
    + apply respects_bind; [apply _|by apply run_grim_kept|intros; apply _].
  - intros grabbed. apply respects_if; [apply _|]. apply respects_bind; [apply _| |intros; apply _].
    apply respects_if; [|apply _]. unfold edit_capture. apply respects_bind; [apply _|apply _|]. intros fs.
    apply respects_if; [apply _|]. apply respects_bind; [apply _|by apply touch_kept|intros; apply _].
Qed.
#[local] Instance interactive_kept X tools busy request n agreed : Respects (kept env X) (interactive tools busy request n agreed).
Proof.
  intros w. unfold interactive. rewrite backend_bind.
  assert (Hstage : ∀ r w1, stage_screenshot env busy w = (r, w1) → kept env X w w1
    ∧ ∀ x, r = Ok x → disposable env x.1 ∧ disposable env x.2).
  { intros r w1 Hr. unfold stage_screenshot in Hr. destruct busy; [injection Hr as <- <-; by split|].
    split.
    - change w1 with (snd (r, w1)). rewrite <- Hr. by refine (staged_kept X "screenshots" _ _ w).
    - intros x ->. apply backend_bind_ok in Hr as (d & ? & Hd & Hr). apply runtime_directory_name in Hd as ->.
      do 2 (apply backend_bind_ok in Hr as (? & ? & [= <- _] & Hr)). apply backend_bind_ok in Hr as (? & ? & _ & [= <- _]).
      cbn. split; apply (staged_disposable "screenshots"). }
  destruct (stage_screenshot env busy w) as [[[input output]|e] w1]; destruct (Hstage _ _ eq_refl) as [Hk Hd]; [|exact Hk].
  destruct (Hd _ eq_refl) as [Hi Ho]. cbn in Hi, Ho. etransitivity; [exact Hk|].
  refine (respects (R := kept env X) (m := r ← attempt (capture tools request input output n agreed);
    _ ← remove_files [input; output]; mret r) w1).
  apply respects_bind; [apply _|apply respects_attempt; by apply capture_kept|]. intros r.
  apply respects_bind; [apply _|apply removals_kept; by rewrite !Forall_cons|intros; apply _].
Qed.

(** ** The editing of an image *)
Lemma stage_disposable id expected n w staged w' :
  stage_annotation env id expected n w = (Ok staged, w') →
  disposable env (ann_input staged) ∧ disposable env (ann_output staged).
Proof.
  unfold stage_annotation. intros Hr. apply backend_bind_ok in Hr as ([s b] & ? & _ & Hr).
  apply backend_bind_ok in Hr as (fs & ? & _ & Hr). apply backend_bind_ok in Hr as ([mime image] & ? & _ & Hr).
  apply backend_bind_ok in Hr as (d & ? & Hd & Hr). apply runtime_directory_name in Hd as ->.
  do 2 (apply backend_bind_ok in Hr as (? & ? & [= <- _] & Hr)). apply backend_bind_ok in Hr as (? & ? & _ & [= <- _]).
  cbn. split; apply (staged_disposable "edits").
Qed.
#[local] Instance apply_annotation_kept X id rev out n : Respects (kept env X) (apply_annotation id rev out n).
Proof. unfold apply_annotation, store_replace, selection_changed, clear_active_selection. apply _. Qed.
#[local] Instance annotate_kept X e agreed id expected n : Respects (kept env X) (annotate env e agreed id expected n).
Proof.
  intros w. unfold annotate. rewrite backend_bind. pose proof (stage_kept env X id expected n w) as Hk.
  destruct (stage_annotation env id expected n w) as [[staged|x] w1] eqn:Hs; cbn in Hk; [|done].
  apply stage_disposable in Hs as [Hi Ho]. etransitivity; [exact Hk|].
  refine (respects (R := kept env X) (m := launch_annotation e staged agreed) w1). unfold launch_annotation, run_annotation, edit.
  apply respects_bind; [apply _| |].
  - apply respects_attempt. apply respects_bind; [apply _| |intros; apply _].
    apply respects_bind; [apply _|by apply touch_kept|intros _].
    apply respects_bind; [apply _|by apply touch_kept|intros; apply _].
  - intros r. apply respects_bind; [apply _|apply removals_kept; by rewrite !Forall_cons|intros; apply _].
Qed.

(** ** Ingestion and shutdown *)
#[local] Instance ingest_kept X mime file : Respects (kept env X) (ingest env mime file).
Proof. unfold ingest, store_policy, store_insert, observe_selection. apply _. Qed.
#[local] Instance shutdown_kept X : Respects (kept env X) (store_shutdown env).
Proof.
  intros w. unfold store_shutdown. destruct (w_store w); [by apply same_disk_kept|].
  destruct (shutdown _ _ _) as [r db]. by apply same_disk_kept.
Qed.

(** C20 The backend never harms a user's file.  Whatever operation runs — a
    query, a read, a thumbnail, a mutation, a publication, an ingestion, a
    capture of the screen, an edit with whatever its editor does to the two
    files it is given, the shutdown — from whatever state, with whatever the
    store, the disk, the selection and the other clients do, a regular file that
    existed before exists afterwards with the same bytes and metadata, unless it
    is under the program's cache or runtime directory, or a symbolic link placed
    in that cache leads to it (a thumbnail is written through it), or the
    registry held, in tables this operation read, this very file (device, inode,
    owner, a single link) under a generated name. *)
Theorem files_are_kept o w p n :
  w_disk w !! p = Some n → is_file n = true → ¬ disposable env p → ¬ linked env tenv p →
  let w' := snd (perform o w) in
  w_disk w' !! p = Some n ∨ registered env (w_seen w') p n.
Proof.
  intros Hp Hn Hd Hlk w'. assert (Hk : kept env (linked env tenv) w w').
  { subst w'. refine (respects (R := kept env _) (m := perform o) w).
    destruct o as [r|k|b|mime file|tools x y wd ht k|tools busy q k ag|e ag id ex k|]; cbn [perform]; unfold discard; apply _. }
  destruct (kp_files _ _ _ _ Hk p n Hp Hn) as [?|[?|[?|?]]]; [by left|done|done|by right].
Qed.
End files.
