(* ===== verification/Runs.v ===== *)
(** * Runs: concrete runs of the backend.

    The small history of [Examples.v] behind a backend with a registered
    generated file; each property of the backend with hypotheses is applied
    to it. *)
From Stdlib Require Import Ascii.
From stdpp Require Import pretty.
From S2P Require Import Prelude Text Decimal Externals Model Classification Selection Content Sql Tables Database Invariant Preservation History HistorySpec Query Store Examples Backend Artifacts Mutations Thumbnails Keeping Commits Ingest Editor Screenshot Annotation Files.
Local Open Scope Z_scope.
Local Open Scope string_scope.
#[local] Existing Instance toy_externals.

Definition sample_env : Env :=
  mkEnv (Some "/h") "/r" (Some "/c") 1000 (λ _, uuid3) (λ _, 5000) (λ _, 9) 1 (Ok (Some (0, 0, 0))) (Ok tt).
Definition generated_root : string := "/h/Pictures/Screenshots/clipboard-history".
Definition generated_path : string := generated_root ++ "/clipboard-" ++ uuid1 ++ ".png".
Definition dir_node : Node := mkNode Directory 1 3 1000 1 448 [] true.
Definition png_bytes : bytes := [x89; x50; x4e; x47].
Definition png_node : Node := mkNode Regular 1 7 1000 1 384 png_bytes true.
Definition notes_node : Node := mkNode Regular 1 8 1000 1 420 (str_bytes "mine") true.
Definition sample_disk : Fs :=
  list_to_map (((λ p, (p, dir_node)) <$> ancestors generated_root)
               ++ [(generated_path, png_node); ("/h/notes", notes_node)])%list.
Definition calm_world (t : Tables) (fs : Fs) : World :=
  mkWorld (mkDatabase t None [] false) [] None fs [] (mkClipboard [] []) None false 0 [].
Lemma calm_world_calm t fs : calm t (calm_world t fs).
Proof. done. Qed.

(** The tables once the generated file is registered. *)
Definition generated_record : ArtifactRecord :=
  mkArtifactRecord generated_path "" "digest" 100 1 7 1000.
Definition registered_tables : Tables := durable (steps [OpRegister generated_record] (mkDatabase sample None [] false)).
Definition generated_world : World := calm_world registered_tables sample_disk.
#[local] Abbreviation pruned_run := (prune sample_env 5000 generated_world).
Lemma run_pair {A} (x : BackendResult A * World) : x = (fst x, snd x).
Proof. by destruct x. Qed.

Lemma prune_unlinks_own_witness :
  fst pruned_run = Ok 1 ∧ w_disk (snd pruned_run) !! generated_path = None
  ∧ ∀ p, w_disk (snd pruned_run) !! p ≠ sample_disk !! p → w_disk (snd pruned_run) !! p = None ∧ owned_file sample_env sample_disk p.
Proof.
  split; [vm_compute; reflexivity|]. split; [vm_compute; reflexivity|].
  destruct (prune_unlinks_own sample_env 5000 generated_world (fst pruned_run) (snd pruned_run) (run_pair pruned_run))
    as (_ & _ & _ & H).
  intros p Hp. destruct (H p Hp) as (H1 & _ & H2 & _). split; [exact H1|exact H2].
Defined.

Lemma registered_storable p : is_Some (t_artifacts registered_tables !! p) → storable_path p.
Proof.
  intros [row Hrow]. assert (Hall : Forall (λ kv, utf8_valid (str_bytes kv.1) = true ∧ str_len kv.1 <= 32768)
    (map_to_list (t_artifacts registered_tables))).
  { apply (bool_decide_unpack _). vm_compute. exact I. }
  rewrite Forall_forall in Hall. apply (Hall (p, row)). by apply elem_of_map_to_list.
Qed.
Lemma clear_all_progress_witness :
  size (t_artifacts registered_tables) = 1%nat
  ∧ ∃ n w' t', clear_all sample_env generated_world = (Ok n, w') ∧ size (t_artifacts t') = 0%nat.
Proof.
  split; [vm_compute; reflexivity|].
  destruct (clear_all_progress sample_env registered_tables generated_world (calm_world_calm _ _) registered_storable)
    as (n & w' & t' & H1 & _ & _ & H2).
  exists n, w', t'. split; [exact H1|].
  assert (H3 : Z.of_nat (size (t_artifacts registered_tables)) - Z.min PASS_LIMIT (zlen (unreferenced i64_max registered_tables)) = 0)
    by (vm_compute; reflexivity).
  rewrite H3 in H2. lia.
Defined.

Definition sample_tenv : ThumbnailEnv :=
  mkThumbnailEnv (λ b _, (1, 1, (b ++ [x00])%list)) (λ _ names, Some <$> names) (λ _ _, Some 0) (λ _, None) (take 4).
#[local] Abbreviation cleanup_run := (perform sample_env sample_tenv (Served (Mutate "" None Cleanup)) generated_world).
Lemma files_are_kept_witness :
  fst cleanup_run = Ok tt ∧ w_disk (snd cleanup_run) !! generated_path = None
  ∧ (w_disk (snd cleanup_run) !! "/h/notes" = Some notes_node
     ∨ registered sample_env (w_seen (snd cleanup_run)) "/h/notes" notes_node).
Proof.
  split; [vm_compute; reflexivity|]. split; [vm_compute; reflexivity|].
  apply (files_are_kept sample_env sample_tenv (Served (Mutate "" None Cleanup)) generated_world "/h/notes" notes_node);
    [vm_compute; reflexivity|vm_compute; reflexivity| |intros (l & _ & H); discriminate H].
  intros [(cache & [= <-] & H)|H]; vm_compute in H; discriminate H.
Defined.

Definition sample_world : World := calm_world sample sample_disk.
#[local] Abbreviation restore_run := (restore_entry sample_env id1 (Some 2) 100 sample_world).
Lemma restore_exact_witness :
  is_ok (fst restore_run) = true ∧ w_disk (snd restore_run) = sample_disk
  ∧ match fst restore_run with
    | Ok _ => w_active (snd restore_run) = None ∧ ∃ r, cb_owned (w_clipboard (snd restore_run)) = [r]
    | Err _ => False
    end.
Proof.
  assert (Hok : is_ok (fst restore_run) = true) by (vm_compute; reflexivity). split; [exact Hok|].
  destruct (restore_exact sample_env id1 (Some 2) 100 sample_world (fst restore_run) (snd restore_run) ltac:(lia) (run_pair restore_run))
    as [H1 H2]. split; [exact H1|]. destruct (fst restore_run) as [op|e]; [|discriminate Hok].
  destruct H2 as [H2 (t & st & r & _ & _ & H3 & _)]. split; [exact H2|]. exists r. exact H3.
Defined.

#[local] Abbreviation annotation_run := (apply_annotation id1 2 generated_path 100 sample_world).
Lemma annotation_commits_witness :
  is_ok (fst annotation_run) = true
  ∧ match fst annotation_run with
    | Ok _ => ∃ b s t, read_edited_image sample_disk generated_path 100 = Some b
                       ∧ ideal (replace_body sample_disk id1 2 "image/png" b) t = (Ok s, durable (w_db (snd annotation_run)))
    | Err _ => False
    end.
Proof.
  assert (Hok : is_ok (fst annotation_run) = true) by (vm_compute; reflexivity). split; [exact Hok|].
  destruct (annotation_commits id1 2 generated_path 100 sample_world (fst annotation_run) (snd annotation_run) ltac:(lia) (run_pair annotation_run))
    as [_ H2]. destruct (fst annotation_run) as [c|e]; [|discriminate Hok].
  destruct H2 as (b & s & t & H1 & _ & H2 & _). exists b, s, t. split; [exact H1|exact H2].
Defined.

#[local] Abbreviation wipe_run := (wipe_entries sample_env sample_world).
Lemma wipe_commits_witness :
  is_ok (fst wipe_run) = true
  ∧ match fst wipe_run with
    | Ok _ => (∃ t w1, store_wipe sample_world = (Ok tt, w1) ∧ t ∈ w_seen (snd wipe_run) ∧ emptied t (durable (w_db w1)))
              ∧ t_entries (durable (w_db (snd wipe_run))) = ∅
    | Err _ => False
    end.
Proof.
  assert (Hok : is_ok (fst wipe_run) = true) by (vm_compute; reflexivity). split; [exact Hok|].
  pose proof (wipe_commits sample_env sample_world (fst wipe_run) (snd wipe_run) (run_pair wipe_run)) as H.
  destruct (fst wipe_run) as [c|e]; [|discriminate Hok].
  destruct H as (t & w1 & H1 & H2 & H3 & _ & H4). split; [exists t, w1; split; [exact H1|]; split; [exact H2|exact H3]|].
  apply H4. assert (Hw : w1 = snd (store_wipe sample_world)) by (rewrite H1; reflexivity). rewrite Hw. vm_compute. constructor.
Defined.

#[local] Abbreviation replace_run := (replace_sync sample_env id1 2 "text/html" (str_bytes "abc") sample_world).
Lemma replace_commits_witness :
  is_ok (fst replace_run) = true
  ∧ match fst replace_run with
    | Ok r => t_payloads (durable (w_db (snd replace_run))) !! id1 = Some (str_bytes "abc")
    | Err _ => False
    end.
Proof.
  assert (Hok : is_ok (fst replace_run) = true) by (vm_compute; reflexivity). split; [exact Hok|].
  destruct (replace_commits sample_env sample sample_world id1 2 "text/html" (str_bytes "abc") (fst replace_run) (snd replace_run)
    (calm_world_calm _ _) sample_ok (run_pair replace_run)) as [_ H2].
  destruct (fst replace_run) as [r|e]; [|discriminate Hok]. destruct H2 as (s & _ & _ & H2 & _). exact H2.
Defined.

Definition capture_file : CapturedFile := settled_file (str_bytes "abc").
#[local] Abbreviation ingest_run := (ingest sample_env "UTF8_STRING" capture_file sample_world).
Lemma ingest_exact_witness :
  fst ingest_run = Ok tt ∧ t_revision (durable (w_db (snd ingest_run))) = 4
  ∧ stored_exactly "UTF8_STRING" capture_file sample_disk sample (durable (w_db (snd ingest_run))).
Proof.
  split; [vm_compute; reflexivity|].
  assert (Hrev : t_revision (durable (w_db (snd ingest_run))) = 4) by (vm_compute; reflexivity). split; [exact Hrev|].
  destruct (ingest_exact sample_env sample sample_world "UTF8_STRING" capture_file (fst ingest_run) (snd ingest_run)
    (calm_world_calm _ _) sample_ok (run_pair ingest_run)) as (_ & _ & [[H _]|[H _]]).
  - exact H.
  - exfalso. rewrite H in Hrev. vm_compute in Hrev. discriminate Hrev.
Defined.

(** ** Screenshots *)
Lemma geometry_canonical_witness :
  parse_geometry "+00,-7 010x2 " = Ok "0,-7 10x2" ∧ parse_geometry "0,-7 10x2" = Ok "0,-7 10x2".
Proof.
  assert (H : parse_geometry "+00,-7 010x2 " = Ok "0,-7 10x2") by (vm_compute; reflexivity). split; [exact H|].
  destruct (proj1 (geometry_canonical "+00,-7 010x2 " "0,-7 10x2") H) as (x & y & w & h & _ & _ & _ & _ & H2). exact H2.
Defined.

Definition working_tools : Tools :=
  mkTools (SelectorExited (str_bytes "0,0 10x20") (Some 0)) (λ _, (Finished true, λ _, Some png_node)) (Some (Exited true)) id.
#[local] Abbreviation capture_run := (capture working_tools (mkInteractive Region false) "/r/in.png" "/r/out.png" 100 true sample_world).
Lemma capture_exact_witness :
  is_ok (fst capture_run) = true
  ∧ match fst capture_run with
    | Ok (c, true) => co_status c = "completed" ∧ ∃ b, read_edited_image (w_disk (snd capture_run)) "/r/in.png" 100 = Some b
    | _ => False
    end.
Proof.
  assert (Hok : is_ok (fst capture_run) && match fst capture_run with Ok (_, true) => true | _ => false end = true)
    by (vm_compute; reflexivity). apply andb_true_iff in Hok as [Hok Hc]. split; [exact Hok|].
  destruct (capture_exact working_tools (mkInteractive Region false) "/r/in.png" "/r/out.png" 100 true sample_world
    (fst capture_run) (snd capture_run) ltac:(lia) (run_pair capture_run)) as (_ & _ & H).
  destruct (fst capture_run) as [[c []]|e]; try discriminate Hc.
  destruct H as (_ & H1 & b & H2 & _). split; [exact H1|]. exists b. exact H2.
Defined.
#[local] Abbreviation region_run := (capture_region sample_env working_tools 0 0 10 20 100 sample_world).
Lemma capture_region_clean_witness :
  is_ok (fst region_run) = true
  ∧ ∀ n, w_disk (snd region_run) !! staging_path sample_env sample_world = Some n → is_file n = false.
Proof.
  split; [vm_compute; reflexivity|].
  assert (Hnone : w_disk sample_world !! staging_path sample_env sample_world = None) by (vm_compute; reflexivity).
  destruct (capture_region_clean sample_env working_tools 0 0 10 20 100 sample_world (fst region_run) (snd region_run)
    ltac:(lia) eq_refl Hnone (run_pair region_run)) as (_ & _ & H & _). exact H.
Defined.

(** ** Thumbnails *)
Definition image_world : World := calm_world (durable (w_db (snd (apply_annotation id1 2 generated_path 100 sample_world)))) sample_disk.
(** The editor saves another image; without the operation's consent nothing comes of it. *)
Definition edit_env : Env :=
  mkEnv (Some "/h") "/r" (Some "/c") 1000 (λ n, if Nat.even n then uuid1 else uuid2) (λ _, 5000) (λ _, 9) 1 (Ok (Some (0, 0, 0))) (Ok tt).
Definition other_png : Node := mkNode Regular 1 11 1000 1 384 (png_bytes ++ [x00])%list true.
Definition saves : Edit := mkEdit (Exited true) (λ n, n) (λ _, Some other_png).
#[local] Abbreviation edit_run agreed := (annotate edit_env saves agreed id1 None 100 image_world).
Definition edit_done (r : BackendResult (BackendResult Completion)) : bool := match r with Ok (Ok _) => true | _ => false end.
Lemma annotation_exact_witness :
  edit_done (fst (edit_run true)) = true ∧ edit_done (fst (edit_run false)) = false
  ∧ match fst (edit_run true) with
    | Ok (Ok c) => ∃ staged w0, annotated saves id1 100 staged (w_disk w0) other_png c image_world (snd (edit_run true))
    | _ => False
    end
  ∧ same_offer image_world (snd (edit_run false)).
Proof.
  assert (Ht : edit_done (fst (edit_run true)) = true) by (vm_compute; reflexivity).
  assert (Hf : edit_done (fst (edit_run false)) = false) by (vm_compute; reflexivity).
  split; [exact Ht|]. split; [exact Hf|].
  pose proof (annotation_exact edit_env saves true id1 None 100 image_world (fst (edit_run true)) (snd (edit_run true)) ltac:(lia) (run_pair (edit_run true))) as [H1 _].
  pose proof (annotation_exact edit_env saves false id1 None 100 image_world (fst (edit_run false)) (snd (edit_run false)) ltac:(lia) (run_pair (edit_run false))) as [H2 _].
  destruct (fst (edit_run true)) as [[c|e]|e]; [|discriminate Ht|discriminate Ht].
  destruct H1 as (_ & _ & staged & w0 & n & _ & _ & Ha). split.
  - exists staged, w0. pose proof (proj1 Ha) as Hn. cbn in Hn. injection Hn as <-. exact Ha.
  - destruct (fst (edit_run false)) as [[c'|e]|e]; [discriminate Hf|exact H2|apply H2].
Defined.
#[local] Abbreviation thumbnail_run := (thumbnail_sync sample_env sample_tenv id1 None 5 image_world).
Definition thumbnail_path : string := "/c/clip-daemon/thumbnails/" ++ id1 ++ "-4-32.png".
Lemma thumbnail_exact_witness :
  fst thumbnail_run = Ok (mkThumbnail id1 4 thumbnail_path 1 1)
  ∧ node_bytes <$> w_disk (snd thumbnail_run) !! thumbnail_path = Some (png_bytes ++ [x00])%list
  ∧ ∃ t st, t ∈ w_seen (snd thumbnail_run) ∧ fst (ideal (db_get id1 None) t) = Ok st.
Proof.
  assert (Hok : fst thumbnail_run = Ok (mkThumbnail id1 4 thumbnail_path 1 1)) by (vm_compute; reflexivity).
  split; [exact Hok|]. split; [vm_compute; reflexivity|].
  destruct (thumbnail_exact sample_env sample_tenv id1 None 5 image_world (fst thumbnail_run) (snd thumbnail_run) (run_pair thumbnail_run))
    as (_ & _ & H).
  destruct (H _ Hok) as (t & st & _ & H1 & H2 & _). exists t, st. split; [exact H1|exact H2].
Defined.
(** A write that fails after the header leaves a file that the next request
    takes for the cached thumbnail. *)
Definition full_disk : World :=
  mkWorld (w_db image_world) [] None sample_disk [IoSucceeds; IoSucceeds; IoSucceeds; IoSucceeds; IoFails (λ _, false)]
    (mkClipboard [] []) None false 0 [].
Lemma truncated_thumbnail_is_served :
  let first := thumbnail_sync sample_env sample_tenv id1 None 5 full_disk in
  let second := thumbnail_sync sample_env sample_tenv id1 None 5 (snd first) in
  fst first = Err (invalid_data "Clipboard thumbnail could not be written")
  ∧ fst second = Ok (mkThumbnail id1 4 thumbnail_path 1 1)
  ∧ node_bytes <$> w_disk (snd second) !! thumbnail_path = Some png_bytes
  ∧ (scaled sample_tenv png_bytes 32).2 ≠ png_bytes.
Proof. cbv zeta. split_and!; [vm_compute; reflexivity..|discriminate]. Qed.
