(* ===== verification/Opening.v ===== *)
(** * Opening: [Database::open] of [history_store/database.rs], and
    [HistoryStore::open] in front of it.

    The path is absolute, as [open_default] makes it.  Opening takes the private directory, the lock, the files and the engine one
    call after another; every file-system call and every statement may fail.
    What the engine finds in a database file is a [Stored]: its identity, its
    schema objects and the tables.  Statements run under the transactions of
    [Sql], whose schedule covers the engine's calls.  What the engine writes
    is in the [Stored]; the nodes of the disk show what an opening finds. *)
From Stdlib Require Import Ascii.
From S2P Require Import Prelude Text Externals Model Content Sql Tables Database Invariant History Store Examples Backend Runs.
Local Open Scope Z_scope.

Definition APP_ID : Z := 1129072976.
Definition SCHEMA_VERSION : Z := 1.
Definition IDENTITY : string := "clip-daemon-history-v1".

(** ** The schema, as text *)
Definition SCHEMA : string := "
CREATE TABLE store_meta(id INTEGER PRIMARY KEY CHECK(id=1), identity TEXT NOT NULL CHECK(identity='clip-daemon-history-v1'), revision INTEGER NOT NULL CHECK(revision>=0 AND revision<9007199254740991), sequence INTEGER NOT NULL CHECK(sequence>=0)) STRICT;
INSERT INTO store_meta VALUES(1,'clip-daemon-history-v1',0,0);
CREATE TABLE effective_policy(id INTEGER PRIMARY KEY CHECK(id=1), admission INTEGER NOT NULL CHECK(admission IN (0,1)), max_entries INTEGER NOT NULL CHECK(max_entries BETWEEN 0 AND 100000), max_favorites INTEGER NOT NULL CHECK(max_favorites BETWEEN 0 AND 10000), max_entry_bytes INTEGER NOT NULL CHECK(max_entry_bytes BETWEEN 1 AND 67108864), max_total_bytes INTEGER NOT NULL CHECK(max_total_bytes>0)) STRICT;
INSERT INTO effective_policy VALUES(1,0,1000,100,16777216,268435456);
CREATE TABLE entries(id TEXT PRIMARY KEY, revision INTEGER NOT NULL CHECK(revision>0), favorite INTEGER NOT NULL CHECK(favorite IN (0,1)), recency INTEGER NOT NULL CHECK(recency>0), mime TEXT NOT NULL CHECK(length(mime)<=255), resolved_mime TEXT NOT NULL CHECK(length(resolved_mime)<=255), echo_source_id TEXT REFERENCES entries(id) ON DELETE SET NULL, byte_size INTEGER NOT NULL CHECK(byte_size BETWEEN 0 AND 67108864), digest BLOB NOT NULL CHECK(length(digest)=32), preview TEXT NOT NULL, kind TEXT NOT NULL CHECK(kind IN ('Text','Link','Image','Files','Html','Json','Color','Binary'))) STRICT;
CREATE INDEX entries_order ON entries(recency DESC,id);
CREATE INDEX entries_favorite_order ON entries(favorite,recency DESC,id);
CREATE INDEX entries_dedup ON entries(digest,mime,byte_size);
CREATE INDEX entries_echo_source ON entries(echo_source_id);
CREATE TABLE payloads(entry_id TEXT PRIMARY KEY REFERENCES entries(id) ON DELETE CASCADE, bytes BLOB NOT NULL CHECK(length(bytes)<=67108864)) STRICT;
CREATE TABLE search_content(entry_id TEXT PRIMARY KEY REFERENCES entries(id) ON DELETE CASCADE, content TEXT NOT NULL, indexed_content TEXT NOT NULL, indexed_complete INTEGER NOT NULL CHECK(indexed_complete IN (0,1))) STRICT;
CREATE INDEX search_grams ON search_content USING fts(indexed_content) WITH (tokenizer='ngram', min_gram=3, max_gram=3);
CREATE INDEX search_unindexed ON search_content(indexed_complete,entry_id);
CREATE TABLE artifacts(path TEXT PRIMARY KEY, source_entry_id TEXT NOT NULL, image_identity TEXT NOT NULL, created_at INTEGER NOT NULL CHECK(created_at>=0), device INTEGER NOT NULL, inode INTEGER NOT NULL, owner INTEGER NOT NULL CHECK(owner>=0)) STRICT;
CREATE INDEX artifacts_source ON artifacts(source_entry_id);
CREATE TABLE entry_artifacts(entry_id TEXT NOT NULL REFERENCES entries(id) ON DELETE CASCADE, path TEXT NOT NULL, PRIMARY KEY(entry_id,path)) STRICT;
CREATE INDEX entry_artifacts_path ON entry_artifacts(path,entry_id);
CREATE TABLE inline_echoes(image_identity TEXT PRIMARY KEY, source_entry_id TEXT NOT NULL, created_at INTEGER NOT NULL CHECK(created_at>=0)) STRICT;
CREATE INDEX inline_echoes_source ON inline_echoes(source_entry_id);
".
(** The relational objects behind the engine's full-text index. *)
Definition BACKING : list string :=
  ["CREATE TABLE __turso_internal_fts_dir_search_grams(path TEXT NOT NULL,chunk_no INTEGER NOT NULL,bytes BLOB NOT NULL)";
   "CREATE INDEX IF NOT EXISTS __turso_internal_fts_dir_search_grams_key ON __turso_internal_fts_dir_search_grams USING backing_btree(path,chunk_no,bytes)"].

(** [trim_end_matches(';')], then every character inside quotes and every
    character that is not white space. *)
Fixpoint unspaced (quoted : bool) (cs : list Z) : list Z :=
  match cs with
  | [] => []
  | c :: cs' =>
      let quoted := if c =? 39 then negb quoted else quoted in
      if quoted || negb (is_whitespace c) then c :: unspaced quoted cs' else unspaced quoted cs'
  end.
Definition normalize_schema (sql : string) : string :=
  of_chars (unspaced false (reverse (drop_while (λ c, c =? 59) (reverse (trim_chars (chars sql)))))).
Definition created (schema : string) : list string :=
  filter (λ sql, starts_with "CREATE " sql = true) (trim <$> split_char ";"%char schema).
Definition expected_objects : gset string :=
  list_to_set (normalize_schema <$> created SCHEMA) ∪ list_to_set (normalize_schema <$> BACKING).

(** ** A database file, as the engine sees it *)
Record Stored := mkFile {
  application_id : Z;
  user_version : Z;
  identity : option (list string);         (* [None]: there is no store_meta *)
  objects : list string;                   (* sqlite_schema.sql *)
  violations : Z;                          (* rows of foreign_key_check *)
  contents : Tables;
}.
Definition blank : Stored := mkFile 0 0 None [] 0 initial_tables.
Definition with_contents (t : Tables) (s : Stored) : Stored :=
  mkFile (application_id s) (user_version s) (identity s) (objects s) (violations s) t.
Definition with_application (n : Z) (s : Stored) : Stored :=
  mkFile n (user_version s) (identity s) (objects s) (violations s) (contents s).
Definition with_version (n : Z) (s : Stored) : Stored :=
  mkFile (application_id s) n (identity s) (objects s) (violations s) (contents s).
Abbreviation FileT := (Sql Stored).
(** A statement on the tables of the file. *)
Definition on_contents (f : Tables → option Tables) (s : Stored) : option Stored :=
  (λ t, with_contents t s) <$> f (contents s).

(** ** The world of an opening *)
Record Host := mkHost {
  h_disk : Fs;
  h_faults : list bool;                    (* which of the next file-system calls fail *)
  h_ticks : nat;
  h_locked : gset string;                  (* files somebody holds the lock of *)
  h_db : Database Stored;                  (* the file; its schedule: the engine's calls *)
}.
Definition Opening (A : Type) : Type := Host → BackendResult A * Host.
#[export] Instance Opening_ret : MRet Opening := λ A a w, (Ok a, w).
#[export] Instance Opening_bind : MBind Opening :=
  λ A C f m w, match m w with (Ok a, w1) => f a w1 | (Err e, w1) => (Err e, w1) end.
Definition hoist {A} (r : BackendResult A) : Opening A := λ w, (r, w).
Definition set_disk (fs : Fs) (w : Host) : Host := mkHost fs (h_faults w) (h_ticks w) (h_locked w) (h_db w).
Definition set_db (db : Database Stored) (w : Host) : Host := mkHost (h_disk w) (h_faults w) (h_ticks w) (h_locked w) db.
Definition set_locked (l : gset string) (w : Host) : Host := mkHost (h_disk w) (h_faults w) (h_ticks w) l (h_db w).
(** One file-system call. *)
Definition fs_call {A} (f : nat → Fs → result IoError (A * Fs)) : Host → result IoError A * Host := λ w,
  let w1 := mkHost (h_disk w) (tail (h_faults w)) (S (h_ticks w)) (h_locked w) (h_db w) in
  match h_faults w with
  | true :: _ => (Err (IoOther "Input/output error"), w1)
  | _ => match f (h_ticks w) (h_disk w) with
         | Ok (a, fs) => (Ok a, set_disk fs w1)
         | Err e => (Err e, w1)
         end
  end.
Definition io {A} (m : Host → result IoError A * Host) : Opening A := λ w, let '(r, w1) := m w in (map_err io_error r, w1).
Definition symlink_metadata (p : string) : Host → result IoError Node * Host :=
  fs_call (λ _ fs, n ← ok_or (fs !! p) IoNotFound; Ok (n, fs)).
(** The outcome of a call as a value, and its [.ok()]. *)
Definition outcome {A} (m : Host → result IoError A * Host) : Opening (result IoError A) := λ w, let '(r, w1) := m w in (Ok r, w1).
Definition io_ok {A} (m : Host → result IoError A * Host) : Opening (option A) := λ w, let '(r, w1) := m w in (Ok (ok_of r), w1).
(** Statements on the open connection. *)
Definition engine {A} (f : Database Stored → BackendResult A * Database Stored) : Opening A := λ w,
  let '(r, db) := f (h_db w) in (r, set_db db w).
(** The host as it is. *)
Definition inspect {A} (f : Host → A) : Opening A := λ w, (Ok (f w), w).
Definition reading {A} (m : FileT A) : Opening A := engine (read m).

(** What is known of the engine: the texts it lists for what a batch created,
    and the settings it reports. *)
Record Engine := mkEngine {
  lists : list string → list string;
  foreign_keys : Z;
  synchronous : Z;
}.

Section opening.
Context `{Externals} (env : Env) (engine_facts : Engine).

(** ** Files *)
Definition open_file (p : string) (create_new : bool) : Host → result IoError Node * Host :=
  fs_call (λ t fs,
    match fs !! p with
    | Some n =>
        if create_new then Err (IoOther "File exists")
        else match node_kind n with
             | Symlink => Err (IoOther "Too many levels of symbolic links")   (* O_NOFOLLOW *)
             | Directory => Err (IoOther "Is a directory")
             | _ => Ok (n, fs)
             end
    | None => if create_new then let n := new_node env Regular 384 t in Ok (n, <[p := n]> fs) else Err IoNotFound
    end).
Definition set_permissions (p : string) (mode : Z) : Host → result IoError unit * Host :=
  fs_call (λ _ fs, n ← ok_or (fs !! p) IoNotFound; Ok (tt, <[p := set_mode mode n]> fs)).
Definition private_node (n : Node) : bool := is_file n && (node_links n =? 1) && (node_owner n =? euid env).
Definition private_file (p : string) (create_new : bool) : Opening unit :=
  _ ← io (open_file p create_new);
  n ← io (symlink_metadata p);
  if negb (private_node n) then hoist (Err (invalid_data "Unsafe history file ownership or type"))
  else io (set_permissions p 384).
(** The file is private now; whether it is a new one. *)
Definition open_private (p : string) : Opening bool :=
  r ← outcome (symlink_metadata p);
  match r with
  | Ok _ => _ ← private_file p false; mret false
  | Err IoNotFound => _ ← private_file p true; mret true
  | Err e => hoist (Err (io_error e))
  end.
Definition sidecar (p suffix : string) : string := (p ++ suffix)%string.
Definition protect_sidecar (p : string) : Opening unit :=
  r ← outcome (symlink_metadata p);
  match r with
  | Ok _ => private_file p false
  | Err IoNotFound => mret tt
  | Err e => hoist (Err (io_error e))
  end.
Definition protect_sidecars (p : string) : Opening unit :=
  _ ← protect_sidecar (sidecar p "-wal"); protect_sidecar (sidecar p "-shm").

(** ** The directory *)
Fixpoint refuse_symlinks (l : list string) : Opening unit :=
  match l with
  | [] => mret tt
  | d :: l' =>
      n ← io (symlink_metadata d);
      if bool_decide (node_kind n = Symlink) then hoist (Err (invalid_data "Symlink history directories are not allowed"))
      else refuse_symlinks l'
  end.
(** [Path::ancestors] of an absolute path. *)
Definition path_ancestors (p : string) : list string := (reverse (ancestors p) ++ ["/"])%list.
Definition history_root (p : string) : option string :=
  match path_parent p with Some EmptyString => None | o => o end.
Definition open_directory (p : string) : Opening string :=
  root ← hoist (ok_or (history_root p) (invalid_data "History database needs a parent directory"));
  _ ← io (fs_call (λ t fs, fs1 ← make_dirs env 448 t (ancestors root) fs; Ok (tt, fs1)));
  _ ← refuse_symlinks (path_ancestors root);
  n ← io (symlink_metadata root);
  if negb (bool_decide (node_kind n = Directory) && (node_owner n =? euid env)) then
    hoist (Err (invalid_data "Unsafe history directory ownership"))
  else _ ← io (set_permissions root 448); mret root.

(** ** The engine *)
Definition create_statement (s : Stored) : option Stored :=
  if bool_decide (objects s = []) then
    Some (mkFile (application_id s) (user_version s) (Some [IDENTITY]) (lists engine_facts (created SCHEMA)) (violations s) initial_tables)
  else None.
Definition create_body : FileT unit :=
  _ ← exec create_statement;
  _ ← exec (λ s, Some (with_application APP_ID s));
  exec (λ s, Some (with_version SCHEMA_VERSION s)).
Definition close_stored : FileT unit := exec (on_contents close_admission_stmt).
Definition attach (p : string) (fresh : bool) : Opening unit :=
  _ ← hoist (ensure (utf8_valid (str_bytes p)) (invalid_data "History path must be UTF-8"));
  _ ← engine (λ db, (Ok tt, mkDatabase (if fresh then blank else durable db) None (schedule db) false));
  _ ← reading (exec Some);
  reading (exec Some).
Definition check_identity : Opening unit :=
  a ← reading (rows application_id);
  recognized ← (if negb (a =? APP_ID) then mret false else v ← reading (rows user_version); mret (v =? SCHEMA_VERSION));
  if negb recognized then hoist (Err (invalid_data "Unrecognized history database identity or schema"))
  else
    names ← reading (r ← rows identity; sql_result (ok_or r engine_error));
    if negb (bool_decide (names = [IDENTITY])) then hoist (Err (invalid_data "Unrecognized history database identity"))
    else mret tt.
Definition apply_settings : Opening unit :=
  _ ← reading (exec Some);
  _ ← reading (exec Some);
  f ← reading (rows (λ _, foreign_keys engine_facts));
  applied ← (if negb (f =? 1) then mret false
             else v ← reading (rows (λ _, synchronous engine_facts)); mret (v =? 2));
  if negb applied then hoist (Err (unavailable "History durability settings were not applied")) else mret tt.
Definition validate_schema : Opening unit :=
  actual ← reading (rows objects);
  if negb (bool_decide (list_to_set (normalize_schema <$> actual) = expected_objects)) then
    hoist (Err (invalid_data "Unrecognized or incomplete history schema"))
  else
    n ← reading (rows violations);
    if negb (n =? 0) then hoist (Err (invalid_data "History database referential integrity check failed")) else mret tt.

(** ** [Database::open] *)
Definition suspicious_empty (p : string) : Opening bool :=
  n ← io (symlink_metadata p);
  if negb (node_len n =? 0) then mret false
  else
    r ← io_ok (symlink_metadata (sidecar p "-wal"));
    mret (negb (match r with Some m => is_file m && (0 <? node_len m) | None => false end)).
Definition open_locked (p : string) : Opening unit :=
  is_new ← open_private p;
  refused ← (if (is_new : bool) then (mret false : Opening bool) else suspicious_empty p);
  if (refused : bool) then
    hoist (Err (invalid_data "Existing empty history database without recovery WAL is not a fresh store"))
  else
    _ ← protect_sidecars p;
    _ ← attach p is_new;
    _ ← (if (is_new : bool) then (mret tt : Opening unit) else check_identity);
    _ ← apply_settings;
    _ ← (if (is_new : bool) then engine (transaction create_body) else mret tt);
    _ ← validate_schema;
    _ ← engine (transaction close_stored);
    _ ← reading (rows (λ s, t_policy (contents s)));
    _ ← reading (rows (λ s, t_revision (contents s)));
    protect_sidecars p.
(** [try_lock]; the lock goes with its [Owner] when anything later fails. *)
Definition with_lock (p : string) (body : Opening unit) : Opening unit := λ w,
  if bool_decide (p ∈ h_locked w) then (Err (unavailable "History database already has an owner"), w)
  else
    match body (set_locked ({[p]} ∪ h_locked w) w) with
    | (Ok _, w1) => (Ok tt, w1)
    | (Err e, w1) => (Err e, set_locked (h_locked w1 ∖ {[p]}) w1)
    end.
Definition open (p : string) : Opening unit :=
  _ ← open_directory p;
  _ ← open_private (sidecar p ".lock");
  with_lock (sidecar p ".lock") (open_locked p).

(** ** [HistoryStore::open_default] *)
(** [Path::join] with a relative path. *)
Definition path_join (p q : string) : string :=
  if bool_decide (last (String.list_ascii_of_string p) = Some "/"%char) then (p ++ q)%string else (p ++ "/" ++ q)%string.
Definition data_root (xdg_data_home home_dir : option string) : option string :=
  let absolute o := match o with Some d => if path_is_absolute d then Some d else None | None => None end in
  match absolute xdg_data_home with
  | Some d => Some d
  | None => (λ h, path_join h ".local/share") <$> absolute home_dir
  end.
Definition open_default (xdg_data_home home_dir : option string) : Opening unit :=
  root ← hoist (ok_or (data_root xdg_data_home home_dir) (unavailable "Clipboard data directory is unavailable"));
  open (path_join root "clip-daemon/history/history.db").

(** ** [HistoryStore::open]: the worker opens the database and answers; the
    handle is made once it did.  [spawned] and [answered] say whether the
    thread could be made and lived to answer. *)
Definition served (db : Database Stored) (schedule : list Outcome) : Database Tables :=
  mkDatabase (contents (durable db)) None schedule (blocked db).
Definition store_open (spawned answered : bool) (later : list Outcome) (p : string) : Opening Store :=
  _ ← hoist (ensure spawned (operation_error "Resource temporarily unavailable"));
  _ ← open p;
  _ ← hoist (ensure answered (unavailable "History worker failed during startup"));
  inspect (λ w, new_store (served (h_db w) later)).
End opening.

(** ** Lemmas: composition *)
Lemma opening_bind {A C} (m : Opening A) (f : A → Opening C) w :
  (m ≫= f) w = match m w with (Ok a, w1) => f a w1 | (Err e, w1) => (Err e, w1) end.
Proof. done. Qed.
Lemma opening_bind_ok {A C} (m : Opening A) (f : A → Opening C) w c w' :
  (m ≫= f) w = (Ok c, w') → ∃ a w1, m w = (Ok a, w1) ∧ f a w1 = (Ok c, w').
Proof. rewrite opening_bind. destruct (m w) as [[a|e] w1]; [eauto|done]. Qed.
Lemma opening_bind_cases {A C} (m : Opening A) (f : A → Opening C) w r w' :
  (m ≫= f) w = (r, w') → (∃ e, r = Err e ∧ m w = (Err e, w')) ∨ ∃ a w1, m w = (Ok a, w1) ∧ f a w1 = (r, w').
Proof. rewrite opening_bind. destruct (m w) as [[a|e] w1]; [eauto|]. intros [= <- <-]. eauto. Qed.

(** Whatever the outcome, [m] relates the hosts by [R]. *)
Class Keeps (R : Host → Host → Prop) {A} (m : Opening A) : Prop := keeps : ∀ w, R w (snd (m w)).
#[export] Hint Mode Keeps ! - ! : typeclass_instances.
#[export] Instance keeps_ret R `{!Reflexive R} A (a : A) : Keeps R (mret a).
Proof. intros w. cbn. reflexivity. Qed.
#[export] Instance keeps_hoist R `{!Reflexive R} A (r : BackendResult A) : Keeps R (hoist r).
Proof. intros w. cbn. reflexivity. Qed.
#[export] Instance keeps_bind R `{!Transitive R} A C (m : Opening A) (f : A → Opening C) :
  Keeps R m → (∀ a, Keeps R (f a)) → Keeps R (m ≫= f).
Proof.
  intros Hm Hf w. rewrite opening_bind. specialize (Hm w). destruct (m w) as [[a|e] w1]; [|done].
  etransitivity; [exact Hm|apply Hf].
Qed.
#[export] Instance keeps_if R A (b : bool) (m n : Opening A) : Keeps R m → Keeps R n → Keeps R (if b then m else n).
Proof. by destruct b. Qed.
#[export] Instance keeps_io_result R A E (r : result E A) {C} (f : A → Opening C) (g : E → Opening C) :
  (∀ x, Keeps R (f x)) → (∀ e, Keeps R (g e)) → Keeps R (match r with Ok x => f x | Err e => g e end).
Proof. destruct r; auto. Qed.
Lemma keeps_ok {A} R (m : Opening A) w r w' `{!Keeps R m} : m w = (r, w') → R w w'.
Proof. intros Hm. pose proof (keeps (R := R) (m := m) w) as Hk. by rewrite Hm in Hk. Qed.

(** ** Files only get private *)
Record securing (X N : string → Prop) (w w' : Host) : Prop := {
  se_old : ∀ p n, h_disk w !! p = Some n →
    h_disk w' !! p = Some n ∨ (X p ∧ is_file n = true ∧ h_disk w' !! p = Some (set_mode 384 n));
  se_new : ∀ p, h_disk w !! p = None → h_disk w' !! p = None ∨ N p;
  se_locked : h_locked w' = h_locked w;
  se_db : h_db w' = h_db w;
}.
#[export] Instance securing_preorder X N : PreOrder (securing X N).
Proof.
  split; [intros w; split; auto|]. intros w1 w2 w3 [A1 A2 A3 A4] [B1 B2 B3 B4]. split; [| |congruence|congruence].
  - intros p n Hp. destruct (A1 p n Hp) as [Hp2|(HX & Hf & Hp2)].
    + by apply B1.
    + destruct (B1 p _ Hp2) as [?|(_ & _ & ?)]; right; by split_and!.
  - intros p Hp. destruct (A2 p Hp) as [?|?]; auto.
Qed.
Lemma securing_weaken (X N X' N' : string → Prop) w w' :
  (∀ p, X p → X' p) → (∀ p, N p → N' p) → securing X N w w' → securing X' N' w w'.
Proof.
  intros HX HN [A B C D]. split; [|intros p Hp; destruct (B p Hp); auto|done|done].
  intros p n Hp. destruct (A p n Hp) as [?|(? & ? & ?)]; [by left|right; auto].
Qed.
Lemma look_securing {A} (f : Fs → result IoError A) w : securing (λ _, False) (λ _, False) w (snd (fs_call (λ _ fs, a ← f fs; Ok (a, fs)) w)).
Proof. unfold fs_call. destruct (h_faults w) as [|[]]; cbn; try destruct (f (h_disk w)); cbn; split; auto. Qed.
Lemma metadata_securing X N p w : securing X N w (snd (symlink_metadata p w)).
Proof. eapply securing_weaken; [..|exact (look_securing (λ fs, ok_or (fs !! p) IoNotFound) w)]; done. Qed.
Lemma metadata_result p w r w' :
  symlink_metadata p w = (r, w') →
  h_disk w' = h_disk w ∧ match r with Ok n => h_disk w !! p = Some n | Err IoNotFound => h_disk w !! p = None | Err _ => True end.
Proof.
  unfold symlink_metadata, fs_call. destruct (h_faults w) as [|[] l]; [|by intros [= <- <-]|];
    destruct (h_disk w !! p) eqn:Hp; cbn; by intros [= <- <-].
Qed.
#[export] Instance io_metadata_securing X N p : Keeps (securing X N) (io (symlink_metadata p)).
Proof. intros w. pose proof (metadata_securing X N p w). unfold io. by destruct (symlink_metadata p w). Qed.
#[export] Instance outcome_securing X N p : Keeps (securing X N) (outcome (symlink_metadata p)).
Proof. intros w. pose proof (metadata_securing X N p w). unfold outcome. by destruct (symlink_metadata p w). Qed.
#[export] Instance io_ok_securing X N p : Keeps (securing X N) (io_ok (symlink_metadata p)).
Proof. intros w. pose proof (metadata_securing X N p w). unfold io_ok. by destruct (symlink_metadata p w). Qed.

Section files.
Context `{Externals} (env : Env) (engine_facts : Engine).

(** A private file of this user. *)
Definition private_at (fs : Fs) (p : string) : Prop :=
  ∃ n, fs !! p = Some n ∧ private_node env n = true ∧ node_mode n = 384.
Lemma private_node_file n : private_node env n = true → is_file n = true.
Proof. unfold private_node. intros. by bools. Qed.
Lemma private_at_securing X N w w' p : securing X N w w' → private_at (h_disk w) p → private_at (h_disk w') p.
Proof.
  intros [Hd _ _ _] (n & Hn & Hp & Hm). destruct (Hd p n Hn) as [?|(_ & _ & ?)]; [by exists n|]. by exists (set_mode 384 n).
Qed.
Lemma open_file_result p c w r w' :
  open_file env p c w = (r, w') →
  securing (λ _, False) (λ q, c = true ∧ q = p) w w' ∧
  match r with
  | Ok n => h_disk w' !! p = Some n ∧ (c = true → h_disk w !! p = None) ∧ (c = false → h_disk w !! p = Some n)
  | Err _ => h_disk w' = h_disk w
  end.
Proof.
  unfold open_file, fs_call. set (w1 := mkHost _ _ _ _ _).
  assert (Hsame : securing (λ _, False) (λ q, c = true ∧ q = p) w w1) by (split; auto).
  assert (Hcall : ∀ r0, match r0 with Ok (a, fs) => (Ok a, set_disk fs w1) | Err e => (@Err IoError Node e, w1) end = (r, w') →
    r0 = (match h_disk w !! p with
          | Some n => if c then Err (IoOther "File exists")
                      else match node_kind n with
                           | Symlink => Err (IoOther "Too many levels of symbolic links")
                           | Directory => Err (IoOther "Is a directory")
                           | _ => Ok (n, h_disk w)
                           end
          | None => if c then Ok (new_node env Regular 384 (h_ticks w), <[p := new_node env Regular 384 (h_ticks w)]> (h_disk w)) else Err IoNotFound
          end) →
    securing (λ _, False) (λ q, c = true ∧ q = p) w w' ∧
    match r with
    | Ok n => h_disk w' !! p = Some n ∧ (c = true → h_disk w !! p = None) ∧ (c = false → h_disk w !! p = Some n)
    | Err _ => h_disk w' = h_disk w
    end).
  { intros r0 Hr ->. destruct (h_disk w !! p) as [n|] eqn:Hp; destruct c; try destruct (node_kind n); injection Hr as <- <-; cbn;
      (split; [try exact Hsame; try by split; auto|try done]).
    - split; cbn; auto; intros q; destruct (decide (q = p)) as [->|Hne]; [congruence|rewrite lookup_insert_ne by done; auto|auto|rewrite lookup_insert_ne by done; auto].
    - by rewrite lookup_insert_eq. }
  destruct (h_faults w) as [|[] l]; [|by intros [= <- <-]|]; intros Hr; by apply (Hcall _ Hr).
Qed.
Lemma set_permissions_file p n w r w' :
  h_disk w !! p = Some n → is_file n = true → set_permissions p 384 w = (r, w') →
  securing (eq p) (λ _, False) w w' ∧ (r = Ok tt → h_disk w' !! p = Some (set_mode 384 n)).
Proof.
  intros Hn Hf. unfold set_permissions, fs_call. rewrite Hn. cbn. set (w1 := mkHost _ _ _ _ _).
  assert (Hset : securing (eq p) (λ _, False) w (set_disk (<[p := set_mode 384 n]> (h_disk w)) w1)).
  { split; cbn; auto; intros q; destruct (decide (q = p)) as [->|Hne]; try rewrite lookup_insert_eq; try rewrite lookup_insert_ne by done; try congruence; auto.
    intros m Hm. right. rewrite Hn in Hm. injection Hm as <-. auto. }
  destruct (h_faults w) as [|[] l]; intros [= <- <-]; (split; [try exact Hset; by split; auto|]); try done; intros _; cbn; by rewrite lookup_insert_eq.
Qed.
Lemma private_file_result p c w r w' :
  private_file env p c w = (r, w') →
  securing (eq p) (λ q, c = true ∧ q = p) w w'
  ∧ (r = Ok tt → private_at (h_disk w') p ∧ (c = true ↔ h_disk w !! p = None)
                 ∧ (c = false → ∃ n, h_disk w !! p = Some n ∧ is_file n = true)).
Proof.
  unfold private_file. intros [(e & -> & Ho)|(n & w1 & Ho & Hr)]%opening_bind_cases.
  { split; [|done]. unfold io in Ho. destruct (open_file env p c w) as [r1 w1] eqn:Hf. injection Ho as _ <-.
    apply open_file_result in Hf as [Hs _]. by eapply securing_weaken; [..|exact Hs]. }
  unfold io in Ho. destruct (open_file env p c w) as [r1 w1'] eqn:Hf. destruct r1 as [n'|]; [|done]. injection Ho as -> <-.
  apply open_file_result in Hf as (Hs & Hn & Hc1 & Hc2).
  assert (Hs' : securing (eq p) (λ q, c = true ∧ q = p) w w1') by (by eapply securing_weaken; [..|exact Hs]).
  apply opening_bind_cases in Hr as [(e & -> & Hm)|(m & w2 & Hm & Hr)].
  { split; [|done]. etransitivity; [exact Hs'|]. exact (keeps_ok _ _ _ _ _ Hm). }
  pose proof (keeps_ok (securing (eq p) (λ q, c = true ∧ q = p)) _ _ _ _ Hm) as Hs2. unfold io in Hm.
  destruct (symlink_metadata p w1') as [m1 w2'] eqn:Hmeta. destruct m1 as [m'|]; [|done]. injection Hm as -> <-.
  apply metadata_result in Hmeta as [Hd Hm]. rewrite Hn in Hm. injection Hm as <-. rewrite <- Hd in Hn.
  destruct (private_node env n) eqn:Hpn; cbn [negb] in Hr.
  2: { injection Hr as <- <-. split; [|done]. by etransitivity. }
  unfold io in Hr. destruct (set_permissions p 384 w2') as [r3 w3] eqn:Hset. injection Hr as <- <-.
  apply (set_permissions_file p n) in Hset as [Hs3 Hok]; [|done|by apply private_node_file].
  split.
  - etransitivity; [exact Hs'|]. etransitivity; [exact Hs2|]. eapply securing_weaken; [..|exact Hs3]; done.
  - destruct r3 as [[]|]; [|done]. intros _. split; [|split].
    + exists (set_mode 384 n). split; [by apply Hok|done].
    + split; [done|]. intros Hnone. destruct c; [done|]. specialize (Hc2 eq_refl). congruence.
    + intros ->. exists n. split; [by apply Hc2|by apply private_node_file].
Qed.

Lemma open_private_result p w r w' :
  open_private env p w = (r, w') →
  securing (eq p) (eq p) w w'
  ∧ ∀ b, r = Ok b → private_at (h_disk w') p ∧ (b = true ↔ h_disk w !! p = None)
                    ∧ (b = false → ∃ n, h_disk w !! p = Some n ∧ is_file n = true).
Proof.
  unfold open_private. rewrite opening_bind. unfold outcome.
  pose proof (metadata_securing (eq p) (eq p) p w) as H1. destruct (symlink_metadata p w) as [m w1] eqn:Hm. cbn in H1.
  apply metadata_result in Hm as [Hd Hm].
  assert (Hpf : ∀ c b, (_ ← private_file env p c; mret b) w1 = (r, w') →
    securing (eq p) (eq p) w w' ∧ ∀ b', r = Ok b' → b' = b ∧ private_at (h_disk w') p ∧ (c = true ↔ h_disk w !! p = None)
      ∧ (c = false → ∃ n, h_disk w !! p = Some n ∧ is_file n = true)).
  { intros c b [(e & -> & Hr)|([] & w2 & Hr & [= <- <-])]%opening_bind_cases; apply private_file_result in Hr as [Hs Hok];
      rewrite Hd in *; (split; [etransitivity; [exact H1|]; eapply securing_weaken; [..|exact Hs]; cbn; [done|by intros q [_ ?]]|]); [done|].
    intros b' [= <-]. split; [done|]. by apply Hok. }
  destruct m as [n|[|e]].
  - intros [Hs Hb]%Hpf. split; [done|]. intros b Hr. destruct (Hb b Hr) as (-> & Hp & [_ Hc2] & Hc3).
    split_and!; [done|split; [done|by intros ?%Hc2]|by intros _; apply Hc3].
  - intros [Hs Hb]%Hpf. split; [done|]. intros b Hr. destruct (Hb b Hr) as (-> & Hp & _ & _). by split_and!.
  - intros [= <- <-]. split; [exact H1|done].
Qed.
Lemma protect_sidecar_result p w r w' :
  protect_sidecar env p w = (r, w') →
  securing (eq p) (λ _, False) w w' ∧ (r = Ok tt → h_disk w' !! p = None ∨ private_at (h_disk w') p).
Proof.
  unfold protect_sidecar. rewrite opening_bind. unfold outcome.
  pose proof (metadata_securing (eq p) (λ _, False) p w) as H1. destruct (symlink_metadata p w) as [m w1] eqn:Hm. cbn in H1.
  apply metadata_result in Hm as [Hd Hm]. destruct m as [n|[|e]].
  - intros [Hs Hok]%private_file_result. split; [|by intros Hr; right; apply Hok].
    etransitivity; [exact H1|]. eapply securing_weaken; [..|exact Hs]; [done|by intros q [? _]].
  - intros [= <- <-]. split; [exact H1|]. intros _. left. by rewrite Hd.
  - intros [= <- <-]. split; [exact H1|done].
Qed.
Lemma protected_later X w w' p : securing X (λ _, False) w w' → h_disk w !! p = None ∨ private_at (h_disk w) p →
  h_disk w' !! p = None ∨ private_at (h_disk w') p.
Proof. intros Hs [Hp|Hp]; [left; by destruct (se_new _ _ _ _ Hs p Hp)|right; by eapply private_at_securing]. Qed.
Definition is_sidecar (p q : string) : Prop := q = sidecar p "-wal" ∨ q = sidecar p "-shm".
Lemma protect_sidecars_result p w r w' :
  protect_sidecars env p w = (r, w') →
  securing (is_sidecar p) (λ _, False) w w'
  ∧ (r = Ok tt → ∀ q, is_sidecar p q → h_disk w' !! q = None ∨ private_at (h_disk w') q).
Proof.
  unfold protect_sidecars. intros [(e & -> & H1)|([] & w1 & H1 & H2)]%opening_bind_cases; apply protect_sidecar_result in H1 as [Hs1 Hok1].
  { split; [|done]. eapply securing_weaken; [..|exact Hs1]; [intros q <-; by left|done]. }
  apply protect_sidecar_result in H2 as [Hs2 Hok2]. split.
  - etransitivity; [eapply securing_weaken; [..|exact Hs1]|eapply securing_weaken; [..|exact Hs2]]; try done; intros q <-; [by left|by right].
  - intros Hr q [->| ->]; [|by apply Hok2]. eapply protected_later; [exact Hs2|by apply Hok1].
Qed.
Definition not_symlink (fs : Fs) (d : string) : Prop := ∃ n, fs !! d = Some n ∧ node_kind n ≠ Symlink.
Lemma refuse_symlinks_result l w r w' :
  refuse_symlinks l w = (r, w') →
  securing (λ _, False) (λ _, False) w w' ∧ h_disk w' = h_disk w ∧ (r = Ok tt → Forall (not_symlink (h_disk w)) l).
Proof.
  revert w. induction l as [|d l IH]; intros w; cbn [refuse_symlinks]; [by intros [= <- <-]|].
  rewrite opening_bind. unfold io. pose proof (metadata_securing (λ _, False) (λ _, False) d w) as H1.
  destruct (symlink_metadata d w) as [m w1] eqn:Hm. cbn in H1. apply metadata_result in Hm as [Hd Hm].
  destruct m as [n|e]; cbn [map_err]; [|by intros [= <- <-]].
  destruct (bool_decide (node_kind n = Symlink)) eqn:Hk; [by intros [= <- <-]|]. apply bool_decide_eq_false in Hk.
  intros (Hs & Hd' & Hl)%IH. rewrite Hd in *. split; [by etransitivity|]. split; [done|]. intros Hr. constructor; [by exists n|by apply Hl].
Qed.

(** *** What opening does to the disk as a whole *)
Record tame (X N : string → Prop) (w w' : Host) : Prop := {
  ta_old : ∀ p n, h_disk w !! p = Some n →
    h_disk w' !! p = Some n ∨ (X p ∧ is_file n = true ∧ h_disk w' !! p = Some (set_mode 384 n));
  ta_new : ∀ p, h_disk w !! p = None → h_disk w' !! p = None ∨ N p;
  ta_locked : h_locked w' = h_locked w;
}.
#[export] Instance tame_preorder X N : PreOrder (tame X N).
Proof.
  split; [intros w; split; auto|]. intros w1 w2 w3 [A1 A2 A3] [B1 B2 B3]. split; [| |congruence].
  - intros p n Hp. destruct (A1 p n Hp) as [Hp2|(HX & Hf & Hp2)].
    + by apply B1.
    + destruct (B1 p _ Hp2) as [?|(_ & _ & ?)]; right; by split_and!.
  - intros p Hp. destruct (A2 p Hp) as [?|?]; auto.
Qed.
Lemma securing_tame (X N X' N' : string → Prop) w w' :
  (∀ p, X p → X' p) → (∀ p, N p → N' p) → securing X N w w' → tame X' N' w w'.
Proof.
  intros HX HN [A B C D]. split; [|intros p Hp; destruct (B p Hp); auto|done].
  intros p n Hp. destruct (A p n Hp) as [?|(? & ? & ?)]; [by left|right; auto].
Qed.
Lemma private_at_tame X N w w' p : tame X N w w' → private_at (h_disk w) p → private_at (h_disk w') p.
Proof.
  intros [Hd _ _] (n & Hn & Hp & Hm). destruct (Hd p n Hn) as [?|(_ & _ & ?)]; [by exists n|]. by exists (set_mode 384 n).
Qed.

(** *** Statements *)
Record steady (w w' : Host) : Prop := {
  sy_disk : h_disk w' = h_disk w;
  sy_locked : h_locked w' = h_locked w;
  sy_durable : durable (h_db w') = durable (h_db w);
  sy_open : open_transaction (h_db w') = open_transaction (h_db w);
  sy_blocked : blocked (h_db w') = blocked (h_db w);
}.
#[export] Instance steady_preorder : PreOrder steady.
Proof. split; [by intros w|]. intros w1 w2 w3 [] []. split; congruence. Qed.
#[export] Instance reading_steady A (m : FileT A) : Keeps steady (reading m).
Proof. intros w. unfold reading, engine, read. by destruct (m _) as [r c]. Qed.
#[export] Instance steady_tame A X N (m : Opening A) : Keeps steady m → Keeps (tame X N) m | 10.
Proof. intros Hm w. destruct (Hm w) as [Hd Hl _ _ _]. split; [rewrite Hd; auto|rewrite Hd; auto|done]. Qed.
#[export] Instance check_identity_steady : Keeps steady check_identity.
Proof. unfold check_identity. apply _. Qed.
#[export] Instance apply_settings_steady : Keeps steady (apply_settings engine_facts).
Proof. unfold apply_settings. apply _. Qed.
#[export] Instance validate_schema_steady : Keeps steady validate_schema.
Proof. unfold validate_schema. apply _. Qed.
Lemma healthy_steady w w' : steady w w' → healthy (h_db w) → healthy (h_db w').
Proof. intros [_ _ _ Ho Hb] [? ?]. split; congruence. Qed.
Lemma reading_rows {A} (f : Stored → A) w a w' :
  healthy (h_db w) → reading (rows f) w = (Ok a, w') → a = f (durable (h_db w)) ∧ steady w w'.
Proof.
  intros [_ Ho] Hr. split; [|exact (keeps_ok steady _ _ _ _ Hr)]. unfold reading, engine, read in Hr. rewrite Ho in Hr.
  destruct (rows f _) as [r c] eqn:Hrow. injection Hr as -> _. unfold rows in Hrow. cbn in Hrow.
  destruct (schedule (h_db w)) as [|[]]; congruence.
Qed.

(** *** A store of this program *)
Definition titled (s : Stored) : Prop :=
  application_id s = APP_ID ∧ user_version s = SCHEMA_VERSION ∧ identity s = Some [IDENTITY].
Definition sound (s : Stored) : Prop :=
  list_to_set (normalize_schema <$> objects s) = expected_objects ∧ violations s = 0.
Definition closed_tables (t : Tables) : Tables :=
  set_policy (mkPolicy false (max_entries (t_policy t)) (max_favorites (t_policy t)) (max_entry_bytes (t_policy t)) (max_total_bytes (t_policy t))) t.
Definition closed (s : Stored) : Stored := with_contents (closed_tables (contents s)) s.

Lemma check_identity_ok w w' : healthy (h_db w) → check_identity w = (Ok tt, w') → titled (durable (h_db w)).
Proof.
  intros Hh. unfold check_identity. intros (a & w1 & Ha & Hr)%opening_bind_ok. apply reading_rows in Ha as [-> Hs1]; [|done].
  pose proof (healthy_steady _ _ Hs1 Hh) as Hh1. apply opening_bind_ok in Hr as (ok & w2 & Hok & Hr).
  destruct ok; cbn [negb] in Hr; [|done].
  assert (Hv : application_id (durable (h_db w)) = APP_ID ∧ user_version (durable (h_db w)) = SCHEMA_VERSION ∧ steady w w2).
  { destruct (application_id _ =? APP_ID) eqn:Ha; cbn [negb] in Hok; [|done]. apply Z.eqb_eq in Ha. apply opening_bind_ok in Hok as (v & w3 & Hv & Hok).
    apply reading_rows in Hv as [-> Hs2]; [|done]. injection Hok as Hv <-. apply Z.eqb_eq in Hv. rewrite (sy_durable _ _ Hs1) in Hv.
    split_and!; [done|done|by etransitivity]. }
  destruct Hv as (Ha & Hv & Hs2). pose proof (healthy_steady _ _ Hs2 Hh) as [_ Ho2]. split; [done|]. split; [done|].
  apply opening_bind_ok in Hr as (names & w3 & Hn & Hr). destruct (bool_decide (names = [IDENTITY])) eqn:Hi; cbn [negb] in Hr; [|done].
  apply bool_decide_eq_true in Hi as ->. unfold reading, engine, read in Hn. rewrite Ho2, (sy_durable _ _ Hs2) in Hn. cbn [default] in Hn.
  destruct ((r ← rows identity; sql_result (ok_or r engine_error)) _) as [x c] eqn:Hx. injection Hn as -> _.
  apply faithful in Hx. unfold mbind, sql_bind, rows, sql_result in Hx. cbn in Hx.
  destruct (identity (durable (h_db w))); cbn in Hx; congruence.
Qed.
Lemma validate_schema_ok w w' : healthy (h_db w) → validate_schema w = (Ok tt, w') → sound (durable (h_db w)).
Proof.
  intros Hh. unfold validate_schema. intros (a & w1 & Ha & Hr)%opening_bind_ok. apply reading_rows in Ha as [-> Hs1]; [|done].
  destruct (bool_decide _) eqn:Ho; cbn [negb] in Hr; [|done]. apply bool_decide_eq_true in Ho.
  apply opening_bind_ok in Hr as (v & w2 & Hv & Hr). apply reading_rows in Hv as [-> Hs2]; [|by eapply healthy_steady].
  destruct (_ =? 0) eqn:Hv; cbn [negb] in Hr; [|done]. apply Z.eqb_eq in Hv. rewrite (sy_durable _ _ Hs1) in Hv. done.
Qed.

Lemma engine_tame {A} X N (f : Database Stored → BackendResult A * Database Stored) w r w' :
  engine f w = (r, w') → tame X N w w' ∧ f (h_db w) = (r, h_db w') ∧ h_disk w' = h_disk w.
Proof. unfold engine. destruct (f (h_db w)) as [r1 db]. intros [= <- <-]. split; [|done]. split; auto. Qed.
Lemma ideal_close s : ideal close_stored s = (Ok tt, closed s).
Proof. done. Qed.
(** The last reads and the sidecars. *)
Definition confirm (p : string) : Opening unit :=
  _ ← reading (rows (λ s, t_policy (contents s)));
  _ ← reading (rows (λ s, t_revision (contents s)));
  protect_sidecars env p.
Lemma confirm_result p w r w' :
  confirm p w = (r, w') →
  tame (is_sidecar p) (λ _, False) w w' ∧ durable (h_db w') = durable (h_db w) ∧ (healthy (h_db w) → healthy (h_db w'))
  ∧ (r = Ok tt → ∀ q, is_sidecar p q → h_disk w' !! q = None ∨ private_at (h_disk w') q).
Proof.
  intros Hf. unfold confirm in Hf.
  assert (Hstep : ∀ w1, steady w w1 → tame (is_sidecar p) (λ _, False) w w1 ∧ durable (h_db w1) = durable (h_db w) ∧ (healthy (h_db w) → healthy (h_db w1))).
  { intros w1 Hs. split; [|split; [apply Hs|by apply healthy_steady]]. destruct Hs as [Hd Hl _ _ _]. split; [rewrite Hd; auto|rewrite Hd; auto|done]. }
  apply opening_bind_cases in Hf as [(e & -> & H1)|(? & w1 & H1 & Hf)]; pose proof (keeps_ok steady _ _ _ _ H1) as Hs1.
  { apply Hstep in Hs1 as (? & ? & ?). by split_and!. }
  apply opening_bind_cases in Hf as [(e & -> & H2)|(? & w2 & H2 & Hf)]; pose proof (keeps_ok steady _ _ _ _ H2) as Hs2;
    (assert (Hs : steady w _) by (etransitivity; [exact Hs1|exact Hs2])); apply Hstep in Hs as (Ht & Hd & Hh).
  { by split_and!. }
  apply protect_sidecars_result in Hf as [Hs Hok]. split_and!; [|by rewrite (se_db _ _ _ _ Hs)|by rewrite (se_db _ _ _ _ Hs)|done].
  etransitivity; [exact Ht|]. by eapply securing_tame; [..|exact Hs].
Qed.
(** From a valid schema on. *)
Definition finish (p : string) : Opening unit :=
  _ ← validate_schema; _ ← engine (transaction close_stored); confirm p.
Lemma finish_result p w r w' :
  healthy (h_db w) → finish p w = (r, w') →
  let s := durable (h_db w) in
  tame (is_sidecar p) (λ _, False) w w'
  ∧ (durable (h_db w') = s ∨ (sound s ∧ durable (h_db w') = closed s))
  ∧ (r = Ok tt → sound s ∧ durable (h_db w') = closed s ∧ healthy (h_db w')
      ∧ ∀ q, is_sidecar p q → h_disk w' !! q = None ∨ private_at (h_disk w') q).
Proof.
  intros Hh Hf s. unfold finish in Hf.
  apply opening_bind_cases in Hf as [(e & -> & H1)|([] & w1 & H1 & Hf)]; pose proof (keeps_ok steady _ _ _ _ H1) as Hs1.
  { split; [exact (keeps_ok (tame _ _) _ _ _ _ H1)|]. split; [left; apply Hs1|done]. }
  assert (Ht1 : tame (is_sidecar p) (λ _, False) w w1) by exact (keeps_ok (tame _ _) _ _ _ _ H1).
  apply validate_schema_ok in H1; [|done]. fold s in H1. pose proof (healthy_steady _ _ Hs1 Hh) as Hh1.
  assert (Hd1 : durable (h_db w1) = s) by apply Hs1.
  pose proof (transaction_committed close_stored (h_db w1) Hh1) as Hc.
  apply opening_bind_cases in Hf as [(e & -> & H2)|([] & w2 & H2 & Hf)];
    apply (engine_tame (is_sidecar p) (λ _, False)) in H2 as (Ht2 & H2 & _); rewrite H2 in Hc; cbn [fst snd] in Hc.
  - split; [by etransitivity|]. split; [|done].
    inversion Hc as [|? ? _ Hd|? ? _ [Hd|[[] Hd]]]; subst; [left; congruence|left; congruence|right; split; [done|]].
    rewrite Hd1, ideal_close in Hd. by injection Hd as <-.
  - inversion Hc as [? ? Hh2 Hd| |]; subst. rewrite Hd1, ideal_close in Hd. injection Hd as Hd.
    apply confirm_result in Hf as (Ht3 & Hd3 & Hh3 & Hok). split; [by do 2 (etransitivity; [done|])|].
    split; [right; split; [done|congruence]|]. intros Hr. split_and!; [done|congruence|by apply Hh3|by apply Hok].
Qed.

(** *** Everything under the lock *)
Definition store_file (p q : string) : Prop := q = p ∨ is_sidecar p q.
(** Private files, and nothing else, may change; of a database file that was
    there, not even the contents. *)
Record cautious (p : string) (is_new : bool) (w w' : Host) : Prop := {
  ca_tame : tame (store_file p) (eq p) w w';
  ca_durable : is_new = false → durable (h_db w') = durable (h_db w);
}.
#[export] Instance cautious_preorder p b : PreOrder (cautious p b).
Proof.
  split; [by intros w|]. intros w1 w2 w3 [A1 A2] [B1 B2]. split; [by etransitivity|].
  intros Hb. by rewrite (B2 Hb), (A2 Hb).
Qed.
#[export] Instance steady_cautious p b A (m : Opening A) : Keeps steady m → Keeps (cautious p b) m | 10.
Proof. intros Hm w. split; [exact (steady_tame _ _ _ m Hm w)|]. intros _. apply (Hm w). Qed.
Lemma securing_cautious p b (X N : string → Prop) w w' :
  (∀ q, X q → store_file p q) → (∀ q, N q → p = q) → securing X N w w' → cautious p b w w'.
Proof. intros HX HN Hs. split; [by eapply securing_tame|]. intros _. by rewrite (se_db _ _ _ _ Hs). Qed.
#[export] Instance suspicious_cautious p b q : Keeps (cautious p b) (suspicious_empty q).
Proof.
  intros w. eapply (securing_cautious p b (λ _, False) (λ _, False)); [done|done|].
  assert (Hk : Keeps (securing (λ _, False) (λ _, False)) (suspicious_empty q)) by (unfold suspicious_empty; apply _). apply Hk.
Qed.
#[export] Instance protect_cautious p b : Keeps (cautious p b) (protect_sidecars env p).
Proof.
  intros w. destruct (protect_sidecars env p w) as [r w'] eqn:Hr. apply protect_sidecars_result in Hr as [Hs _].
  eapply securing_cautious; [..|exact Hs]; [by right|done].
Qed.
Lemma attach_result p b w r w' :
  attach p b w = (r, w') →
  cautious p b w w' ∧ (r = Ok tt → healthy (h_db w') ∧ durable (h_db w') = if b then blank else durable (h_db w)).
Proof.
  unfold attach. intros [(e & -> & H1)|([] & w1 & H1 & Hr)]%opening_bind_cases; injection H1 as H1 <-; [done|].
  rewrite opening_bind in Hr. cbn in Hr. set (w1 := set_db _ w) in Hr.
  assert (Hs : steady w1 w').
  { refine (keeps_ok steady (_ ← reading (exec Some); reading (exec Some)) _ _ _ Hr). }
  assert (Hd : durable (h_db w1) = if b then blank else durable (h_db w)) by done. split.
  - split; [|intros ->; by rewrite (sy_durable _ _ Hs)]. destruct Hs as [Hd' Hl _ _ _]. split; [rewrite Hd'; auto|rewrite Hd'; auto|done].
  - intros _. split; [|by rewrite (sy_durable _ _ Hs)]. by apply (healthy_steady w1).
Qed.
#[export] Instance attach_cautious p b : Keeps (cautious p b) (attach p b).
Proof. intros w. destruct (attach p b w) as [r w'] eqn:Hr. by apply attach_result in Hr as [? _]. Qed.
Definition fresh_store (s : Stored) : Prop := titled s ∧ contents s = initial_tables.
Lemma create_result p w r w' :
  healthy (h_db w) → durable (h_db w) = blank → engine (transaction (create_body engine_facts)) w = (r, w') →
  cautious p true w w' ∧ (r = Ok tt → healthy (h_db w') ∧ fresh_store (durable (h_db w'))).
Proof.
  intros Hh Hd He. apply (engine_tame (store_file p) (eq p)) in He as (Ht & He & _). split; [by split|]. intros ->.
  assert (Hf : Faithful (create_body engine_facts)) by (unfold create_body; apply _).
  pose proof (transaction_committed (create_body engine_facts) (h_db w) Hh) as Hc. rewrite He in Hc. cbn [fst snd] in Hc.
  inversion Hc as [? ? Hh2 Hi| |]; subst. split; [done|]. rewrite Hd in Hi. unfold ideal, create_body in Hi. cbn in Hi.
  injection Hi as <-. done.
Qed.

Definition recognized (s : Stored) : Prop := titled s ∧ sound s.
(** What may become of the contents of a database file that was there. *)
Definition kept_store (s s' : Stored) : Prop := s' = s ∨ (recognized s ∧ s' = closed s).
Definition spared (p : string) (w w' : Host) : Prop :=
  tame (store_file p) (eq p) w w'
  ∧ ∀ n, h_disk w !! p = Some n → kept_store (durable (h_db w)) (durable (h_db w')).
Lemma cautious_spared p b w w' : cautious p b w w' → (∀ n, h_disk w !! p = Some n → b = false) → spared p w w'.
Proof. intros [Ht Hd] Hb. split; [done|]. intros n Hn. left. by eapply Hd, Hb. Qed.

(** The store is opened, its identity and schema checked, admission closed. *)
Record opened (p : string) (w : Host) : Prop := {
  od_file : private_at (h_disk w) p;
  od_sidecars : ∀ q, is_sidecar p q → h_disk w !! q = None ∨ private_at (h_disk w) q;
  od_healthy : healthy (h_db w);
  od_recognized : recognized (durable (h_db w));
  od_admission : admission (t_policy (contents (durable (h_db w)))) = false;
}.
Lemma steady_is_cautious p b w w' : steady w w' → cautious p b w w'.
Proof. intros [Hd Hl Hs _ _]. split; [split; [rewrite Hd; auto|rewrite Hd; auto|done]|done]. Qed.
Lemma open_locked_rest p (b : bool) w r w' :
  (_ ← protect_sidecars env p;
   _ ← attach p b;
   _ ← (if b then mret tt else check_identity);
   _ ← apply_settings engine_facts;
   _ ← (if b then engine (transaction (create_body engine_facts)) else mret tt);
   finish p) w = (r, w') →
  tame (store_file p) (eq p) w w'
  ∧ (b = false → kept_store (durable (h_db w)) (durable (h_db w')))
  ∧ (r = Ok tt → (private_at (h_disk w) p → opened p w')
      ∧ if b then contents (durable (h_db w')) = initial_tables else durable (h_db w') = closed (durable (h_db w))).
Proof.
  intros Hr. assert (Hearly : ∀ w1, cautious p b w w1 → r ≠ Ok tt → w' = w1 →
    tame (store_file p) (eq p) w w' ∧ (b = false → kept_store (durable (h_db w)) (durable (h_db w')))
    ∧ (r = Ok tt → (private_at (h_disk w) p → opened p w')
        ∧ if b then contents (durable (h_db w')) = initial_tables else durable (h_db w') = closed (durable (h_db w)))).
  { intros w1 [Ht Hd] Hne ->. split_and!; [done| |done]. intros Hb. left. by apply Hd. }
  apply opening_bind_cases in Hr as [(e & -> & H1)|([] & w1 & H1 & Hr)]; pose proof (keeps_ok (cautious p b) _ _ _ _ H1) as C1; [by apply (Hearly w')|].
  apply opening_bind_cases in Hr as [(e & -> & H2)|([] & w2 & H2 & Hr)]; apply attach_result in H2 as [C2 H2]; [apply (Hearly w'); [by etransitivity|done|done]|].
  destruct (H2 eq_refl) as [Hh2 Hd2]. assert (C12 : cautious p b w w2) by by etransitivity.
  assert (Hid : ∀ r3 w3, (if b then mret tt else check_identity) w2 = (r3, w3) →
    steady w2 w3 ∧ (r3 = Ok tt → b = false → titled (durable (h_db w2)))).
  { destruct b; intros r3 w3 H3; [injection H3 as <- <-; done|]. split; [exact (keeps_ok steady _ _ _ _ H3)|].
    intros -> _. by apply check_identity_ok in H3. }
  apply opening_bind_cases in Hr as [(e & -> & H3)|([] & w3 & H3 & Hr)]; apply Hid in H3 as [S3 H3].
  { apply (Hearly w'); [|done|done]. etransitivity; [exact C12|by apply steady_is_cautious]. }
  assert (C13 : cautious p b w w3) by (etransitivity; [exact C12|by apply steady_is_cautious]).
  pose proof (healthy_steady _ _ S3 Hh2) as Hh3.
  apply opening_bind_cases in Hr as [(e & -> & H4)|([] & w4 & H4 & Hr)]; pose proof (keeps_ok steady _ _ _ _ H4) as S4.
  { apply (Hearly w'); [|done|done]. etransitivity; [exact C13|by apply steady_is_cautious]. }
  assert (C14 : cautious p b w w4) by (etransitivity; [exact C13|by apply steady_is_cautious]).
  pose proof (healthy_steady _ _ S4 Hh3) as Hh4.
  assert (Hd4 : durable (h_db w4) = if b then blank else durable (h_db w1)) by (rewrite (sy_durable _ _ S4), (sy_durable _ _ S3); exact Hd2).
  assert (Hnew : ∀ r5 w5, (if b then engine (transaction (create_body engine_facts)) else mret tt) w4 = (r5, w5) →
    cautious p b w4 w5 ∧ (r5 = Ok tt → healthy (h_db w5) ∧ titled (durable (h_db w5))
      ∧ if b then contents (durable (h_db w5)) = initial_tables else durable (h_db w5) = durable (h_db w1))).
  { destruct b; intros r5 w5 H5.
    - apply (create_result p) in H5 as [C5 H5]; [|done|done]. split; [done|]. intros Hr5. by destruct (H5 Hr5) as (? & ? & ?).
    - injection H5 as <- <-. split; [done|]. intros _. split; [done|]. split; [|done]. rewrite Hd4, <- Hd2. by apply H3. }
  apply opening_bind_cases in Hr as [(e & -> & H5)|([] & w5 & H5 & Hr)]; apply Hnew in H5 as [C5 H5].
  { apply (Hearly w'); [by etransitivity|done|done]. }
  destruct (H5 eq_refl) as (Hh5 & Ht5 & Hc5). assert (C15 : cautious p b w w5) by by etransitivity.
  apply finish_result in Hr as (Ht & Hk & Hok); [|done].
  assert (Htame : tame (store_file p) (eq p) w w').
  { etransitivity; [apply C15|]. destruct Ht as [A B C]. split; [|intros q Hq; destruct (B q Hq); [by left|done]|done].
    intros q n Hq. destruct (A q n Hq) as [?|(? & ? & ?)]; [by left|right; split; [by right|done]]. }
  split; [exact Htame|]. split.
  - intros ->. rewrite <- (ca_durable _ _ _ _ C15 eq_refl). destruct Hk as [?|[? ?]]; [by left|right; by split].
  - intros Hr. destruct (Hok Hr) as (Hsound & Hd & Hh & Hside). split.
    + intros Hp. split; [by eapply private_at_tame|done|done|by rewrite Hd|by rewrite Hd].
    + rewrite Hd. destruct b; [by cbn; rewrite Hc5|]. by rewrite (ca_durable _ _ _ _ C15 eq_refl).
Qed.
Lemma open_locked_result p w r w' :
  open_locked env engine_facts p w = (r, w') →
  spared p w w'
  ∧ (r = Ok tt → opened p w'
      ∧ (h_disk w !! p = None → contents (durable (h_db w')) = initial_tables)
      ∧ ∀ n, h_disk w !! p = Some n → is_file n = true ∧ durable (h_db w') = closed (durable (h_db w))).
Proof.
  unfold open_locked. intros [(e & -> & H1)|(b & w1 & H1 & Hr)]%opening_bind_cases; apply open_private_result in H1 as [Hs1 H1].
  { split; [|done]. split; [eapply securing_tame; [..|exact Hs1]; [by left|done]|]. intros n _. left. by rewrite (se_db _ _ _ _ Hs1). }
  destruct (H1 b eq_refl) as (Hp1 & Hb1 & Hb2). assert (Ht1 : tame (store_file p) (eq p) w w1) by (eapply securing_tame; [..|exact Hs1]; [by left|done]).
  assert (Hexists : ∀ n, h_disk w !! p = Some n → b = false).
  { intros n Hn. destruct b; [|done]. destruct Hb1 as [Hb1 _]. rewrite Hb1 in Hn by done. done. }
  assert (Hsus : Keeps (cautious p b) (if b then mret false else suspicious_empty p)) by (destruct b; apply _).
  apply opening_bind_cases in Hr as [(e & -> & H2)|(refused & w2 & H2 & Hr)]; pose proof (keeps_ok (cautious p b) _ _ _ _ H2) as C2;
    (assert (Hdb : b = false → durable (h_db _) = durable (h_db w)) by (intros Hb; rewrite (ca_durable _ _ _ _ C2 Hb); by rewrite (se_db _ _ _ _ Hs1)));
    (assert (Ht2 : tame (store_file p) (eq p) w _) by (etransitivity; [exact Ht1|apply C2])).
  { split; [|done]. split; [done|]. intros n Hn. left. by eapply Hdb, Hexists. }
  destruct refused.
  { injection Hr as <- <-. split; [|done]. split; [done|]. intros n Hn. left. by eapply Hdb, Hexists. }
  apply open_locked_rest in Hr as (Ht & Hk & Hok). split.
  - split; [by etransitivity|]. intros n Hn. pose proof (Hexists n Hn) as Hb. rewrite <- Hdb by done. by apply Hk.
  - intros Hr. destruct (Hok Hr) as [Ho Hc]. split; [by apply Ho; eapply private_at_tame; [apply C2|]|]. split.
    + intros Hnone. destruct Hb1 as [_ Hb1]. rewrite Hb1 in Hc by done. done.
    + intros n Hn. pose proof (Hexists n Hn) as Hb. destruct (Hb2 Hb) as (m & Hm & ?). split; [congruence|].
      rewrite Hb in Hc. by rewrite <- Hdb.
Qed.

(** *** The directory and the lock *)
(** A file that was there is there, the same but for its permissions; nothing
    but directories, the lock and the database file [N] is new. *)
Record gentle (N : string → Prop) (w w' : Host) : Prop := {
  ge_old : ∀ p n, h_disk w !! p = Some n → ∃ n', h_disk w' !! p = Some n' ∧ (n' = n ∨ ∃ mode, n' = set_mode mode n);
  ge_new : ∀ p n, h_disk w !! p = None → h_disk w' !! p = Some n → is_file n = true → N p;
}.
#[export] Instance gentle_preorder N : PreOrder (gentle N).
Proof.
  split; [intros w; split; [eauto|congruence]|]. intros w1 w2 w3 [A1 A2] [B1 B2]. split.
  - intros p n Hp. destruct (A1 p n Hp) as (n2 & Hn2 & H2). destruct (B1 p n2 Hn2) as (n3 & Hn3 & H3). exists n3. split; [done|].
    destruct H2 as [->|[m ->]]; [done|]. right. destruct H3 as [->|[m' ->]]; [by exists m|by exists m'].
  - intros p n Hp Hn Hf. destruct (h_disk w2 !! p) as [n2|] eqn:Hn2; [|by apply (B2 p n)].
    destruct (B1 p n2 Hn2) as (n3 & Hn3 & H3). rewrite Hn in Hn3. injection Hn3 as <-.
    apply (A2 p n2); [done|done|]. by destruct H3 as [->|[m ->]].
Qed.
Lemma tame_gentle X (N M : string → Prop) w w' : (∀ p, N p → M p) → tame X N w w' → gentle M w w'.
Proof.
  intros HN [A B _]. split.
  - intros p n Hp. destruct (A p n Hp) as [?|(_ & _ & ?)]; [eauto|]. eexists. split; [done|]. right. by exists 384.
  - intros p n Hp Hn _. destruct (B p Hp) as [?|?]; [congruence|auto].
Qed.
Lemma securing_gentle X (N M : string → Prop) w w' : (∀ p, N p → M p) → securing X N w w' → gentle M w w'.
Proof. intros HN Hs. eapply (tame_gentle X N); [done|]. by eapply securing_tame; [..|exact Hs]. Qed.
Lemma not_symlink_gentle N w w' d : gentle N w w' → not_symlink (h_disk w) d → not_symlink (h_disk w') d.
Proof. intros [A _] (n & Hn & Hk). destruct (A d n Hn) as (n' & Hn' & [->|[m ->]]); eexists; (split; [exact Hn'|done]). Qed.
(** A directory of this user, private. *)
Definition directory_at (fs : Fs) (d : string) : Prop :=
  ∃ n, fs !! d = Some n ∧ node_kind n = Directory ∧ node_owner n = euid env ∧ node_mode n = 448.
Lemma directory_at_tame X N w w' d : tame X N w w' → directory_at (h_disk w) d → directory_at (h_disk w') d.
Proof.
  intros [A _ _] (n & Hn & Hk & Hm). destruct (A d n Hn) as [?|(_ & Hf & _)]; [by exists n|].
  unfold is_file in Hf. apply bool_decide_eq_true in Hf. congruence.
Qed.
Record beside (N : string → Prop) (w w' : Host) : Prop := {
  be_gentle : gentle N w w';
  be_locked : h_locked w' = h_locked w;
  be_db : h_db w' = h_db w;
}.
#[export] Instance beside_preorder N : PreOrder (beside N).
Proof.
  split; [by intros w|]. intros w1 w2 w3 [A1 A2 A3] [B1 B2 B3]. split; [by etransitivity|congruence|congruence].
Qed.
Lemma securing_beside X (N M : string → Prop) w w' : (∀ p, N p → M p) → securing X N w w' → beside M w w'.
Proof. intros HN Hs. split; [by eapply securing_gentle|apply Hs|apply Hs]. Qed.
#[export] Instance metadata_beside N p : Keeps (beside N) (io (symlink_metadata p)).
Proof.
  intros w. eapply (securing_beside (λ _, False) N); [done|]. apply (io_metadata_securing (λ _, False) N p w).
Qed.
#[export] Instance refuse_symlinks_beside N l : Keeps (beside N) (refuse_symlinks l).
Proof.
  intros w. destruct (refuse_symlinks l w) as [r w'] eqn:Hr. apply refuse_symlinks_result in Hr as [Hs _].
  by eapply securing_beside; [|exact Hs].
Qed.
(** A file-system call whose new disk is gentle. *)
Lemma fs_call_beside {A} N (f : nat → Fs → result IoError (A * Fs)) w :
  (∀ t a fs, f t (h_disk w) = Ok (a, fs) → gentle N w (set_disk fs w)) → beside N w (snd (io (fs_call f) w)).
Proof.
  intros Hf. assert (Hsame : ∀ l t, gentle N w (mkHost (h_disk w) l t (h_locked w) (h_db w))) by (split; [eauto|cbn; congruence]).
  unfold io, fs_call. destruct (h_faults w) as [|[] l]; [| |]; try destruct (f (h_ticks w) (h_disk w)) as [[a fs]|e] eqn:Hd; cbn;
    (split; [|done|done]); try apply Hsame; destruct (Hf _ _ _ Hd) as [A1 A2]; split; cbn; [apply A1|apply A2|apply A1|apply A2].
Qed.
#[export] Instance make_dirs_beside N mode l :
  Keeps (beside N) (io (fs_call (λ t fs, fs1 ← make_dirs env mode t l fs; Ok (tt, fs1)))).
Proof.
  intros w. apply fs_call_beside. intros t [] fs Hm.
  destruct (make_dirs env mode t l (h_disk w)) as [fs1|] eqn:Hd; [|done]. injection Hm as ->. split; cbn.
  - intros q n Hq. exists n. split; [|by left]. apply make_dirs_spec in Hd as [Hsub _]. by eapply lookup_weaken.
  - intros q n Hq Hn Hf. pose proof (make_dirs_no_file _ _ _ _ _ _ q Hd Hq n Hn). congruence.
Qed.
#[export] Instance set_permissions_beside N p mode : Keeps (beside N) (io (set_permissions p mode)).
Proof.
  intros w. apply fs_call_beside. intros t [] fs Hm. destruct (h_disk w !! p) as [n|] eqn:Hn; [|done]. injection Hm as <-.
  split; cbn; intros q x Hq; (destruct (decide (q = p)) as [->|Hne]; [rewrite lookup_insert_eq|rewrite lookup_insert_ne by done]); try congruence.
  - eexists. split; [done|]. right. exists mode. congruence.
  - exists x. split; [done|by left].
Qed.
#[export] Instance open_directory_beside N p : Keeps (beside N) (open_directory env p).
Proof. unfold open_directory. apply _. Qed.
Lemma set_permissions_ok p mode w w' :
  io (set_permissions p mode) w = (Ok tt, w') → ∃ n, h_disk w !! p = Some n ∧ h_disk w' = <[p := set_mode mode n]> (h_disk w).
Proof.
  unfold io, set_permissions, fs_call. destruct (h_faults w) as [|[] l]; [|done|]; destruct (h_disk w !! p) as [n|]; cbn;
    try done; intros [= <-]; by exists n.
Qed.
Lemma metadata_found p w n w' : io (symlink_metadata p) w = (Ok n, w') → h_disk w' = h_disk w ∧ h_disk w !! p = Some n.
Proof.
  unfold io. destruct (symlink_metadata p w) as [[m|] w1] eqn:Hm; [|done]. intros [= -> <-]. by apply metadata_result in Hm.
Qed.
Lemma open_directory_ok p w root w' :
  open_directory env p w = (Ok root, w') →
  history_root p = Some root ∧ directory_at (h_disk w') root ∧ Forall (not_symlink (h_disk w')) (path_ancestors root).
Proof.
  unfold open_directory. intros (x & w1 & H1 & Hr)%opening_bind_ok. unfold hoist in H1.
  destruct (history_root p) as [y|]; [|done]. injection H1 as -> <-.
  apply opening_bind_ok in Hr as ([] & w2 & _ & Hr). apply opening_bind_ok in Hr as ([] & w3 & H3 & Hr).
  apply refuse_symlinks_result in H3 as (_ & Hd3 & H3). specialize (H3 eq_refl). rewrite <- Hd3 in H3.
  apply opening_bind_ok in Hr as (n & w4 & H4 & Hr). apply metadata_found in H4 as [Hd4 Hn].
  destruct (bool_decide _ && _) eqn:Hok; cbn [negb] in Hr; [|done].
  apply andb_true_iff in Hok as [Hk%bool_decide_eq_true Ho%Z.eqb_eq].
  apply opening_bind_ok in Hr as ([] & w5 & H5 & Hr). injection Hr as <- <-.
  pose proof (keeps_ok (beside (λ _, False)) _ _ _ _ H5) as [G5 _ _].
  apply set_permissions_ok in H5 as (m & Hm & Hd5). split; [done|]. split.
  - exists (set_mode 448 m). rewrite Hd5, lookup_insert_eq. split; [done|]. assert (m = n) as -> by congruence. done.
  - eapply Forall_impl; [exact H3|]. intros d Hd. eapply not_symlink_gentle; [exact G5|]. by rewrite Hd4.
Qed.

(** *** [Database::open] as a whole *)
Lemma suffix_ne p a b : a ≠ b → sidecar p a ≠ sidecar p b.
Proof. unfold sidecar. intros Hne Heq. apply Hne. induction p as [|c p IH]; cbn in Heq; [done|]. injection Heq as Heq. auto. Qed.
Lemma sidecar_nil p : sidecar p "" = p.
Proof. unfold sidecar. induction p as [|c p IH]; [done|]. change (String c (p +:+ "") = String c p). by rewrite IH. Qed.
Lemma sidecar_ne p a : a ≠ "" → sidecar p a ≠ p.
Proof. intros Ha Heq. rewrite <- (sidecar_nil p) in Heq at 2. by apply suffix_ne in Heq. Qed.
Abbreviation lock_file p := (sidecar p ".lock").
Lemma lock_not_store p : ¬ store_file p (lock_file p).
Proof. intros [?|[?|?]]; [by eapply (sidecar_ne p ".lock")|by eapply (suffix_ne p ".lock" "-wal")|by eapply (suffix_ne p ".lock" "-shm")]. Qed.
Definition opening_file (p q : string) : Prop := q = lock_file p ∨ q = p.
Lemma open_private_beside p q w r w' : open_private env q w = (r, w') → opening_file p q → beside (opening_file p) w w'.
Proof. intros [Hs _]%open_private_result Hq. eapply securing_beside; [|exact Hs]. by intros x <-. Qed.
Lemma set_locked_spared p l w w' : spared p (set_locked l w) w' → gentle (opening_file p) w w' ∧ h_locked w' = l
  ∧ ∀ n, h_disk w !! p = Some n → kept_store (durable (h_db w)) (durable (h_db w')).
Proof.
  intros [Ht Hk]. split; [|split; [apply Ht|exact Hk]].
  apply (tame_gentle _ _ (opening_file p)) in Ht; [|by intros q <-; right]. destruct Ht as [A B]. by split.
Qed.

(** The stages of a successful opening. *)
Lemma open_stages p w w' :
  open env engine_facts p w = (Ok tt, w') →
  ∃ root w1 b w2, (open_directory env p w = (Ok root, w1)) ∧ (open_private env (lock_file p) w1 = (Ok b, w2))
    ∧ (lock_file p ∉ h_locked w2) ∧ (open_locked env engine_facts p (set_locked ({[lock_file p]} ∪ h_locked w2) w2) = (Ok tt, w')).
Proof.
  unfold open. intros (root & w1 & H1 & Hr)%opening_bind_ok. apply opening_bind_ok in Hr as (b & w2 & H2 & Hr).
  exists root, w1, b, w2. split; [done|]. split; [done|]. unfold with_lock in Hr.
  destruct (bool_decide _) eqn:Hb; [done|]. apply bool_decide_eq_false in Hb. split; [done|].
  destruct (open_locked _ _ _ _) as [[[]|] w3]; [|done]. by injection Hr as <-.
Qed.
Lemma open_kept p w r w' :
  open env engine_facts p w = (r, w') →
  gentle (opening_file p) w w'
  ∧ (∀ n, h_disk w !! p = Some n → kept_store (durable (h_db w)) (durable (h_db w')))
  ∧ h_locked w' = (if is_ok r then {[lock_file p]} ∪ h_locked w else h_locked w).
Proof.
  assert (Hquiet : ∀ w1, beside (opening_file p) w w1 → gentle (opening_file p) w w1
    ∧ (∀ n, h_disk w !! p = Some n → kept_store (durable (h_db w)) (durable (h_db w1)))
    ∧ h_locked w1 = h_locked w).
  { intros w1 [G L D]. split; [done|]. split; [|done]. intros n _. left. by rewrite D. }
  unfold open. intros [(e & -> & H1)|(root & w1 & H1 & Hr)]%opening_bind_cases;
    pose proof (keeps_ok (beside (opening_file p)) _ _ _ _ H1) as B1; [by apply Hquiet|].
  apply opening_bind_cases in Hr as [(e & -> & H2)|(b & w2 & H2 & Hr)]; apply (open_private_beside p) in H2; try (by left);
    (assert (B : beside (opening_file p) w _) by (etransitivity; [exact B1|exact H2])); [by apply Hquiet|]. clear B1 H2.
  unfold with_lock in Hr. destruct (bool_decide _) eqn:Hb; [injection Hr as <- <-; by apply Hquiet|]. apply bool_decide_eq_false in Hb.
  destruct (open_locked _ _ _ _) as [r3 w3] eqn:H3. apply open_locked_result in H3 as [(G3 & L3 & K3)%set_locked_spared _].
  destruct B as [G L D]. rewrite L in Hb, L3. rewrite <- D in *.
  assert (Hk : ∀ n, h_disk w !! p = Some n → kept_store (durable (h_db w2)) (durable (h_db w3))).
  { intros n Hn. destruct (ge_old _ _ _ G p n Hn) as (n' & Hn' & _). by eapply K3. }
  assert (Hg : gentle (opening_file p) w w3) by by etransitivity.
  destruct r3 as [[]|e]; injection Hr as <- <-; (split; [|split]); cbn; [done|done|done| |done|].
  - destruct Hg as [A C]. by split.
  - rewrite L3. apply set_eq. set_solver.
Qed.
Lemma not_symlinks_gentle N w w' l : gentle N w w' → Forall (not_symlink (h_disk w)) l → Forall (not_symlink (h_disk w')) l.
Proof. intros Hg Hl. eapply Forall_impl; [exact Hl|]. intros d. by apply (not_symlink_gentle N). Qed.
(** What a caller of [Database::open] that succeeded may rely on. *)
Record secured (p : string) (w w' : Host) : Prop := {
  sc_root : ∃ root, history_root p = Some root ∧ directory_at (h_disk w') root
              ∧ Forall (not_symlink (h_disk w')) (path_ancestors root);
  sc_lock : private_at (h_disk w') (lock_file p) ∧ (lock_file p ∉ h_locked w) ∧ h_locked w' = {[lock_file p]} ∪ h_locked w;
  sc_opened : opened p w';
  sc_fresh : h_disk w !! p = None → contents (durable (h_db w')) = initial_tables;
  sc_existing : ∀ n, h_disk w !! p = Some n →
    recognized (durable (h_db w)) ∧ durable (h_db w') = closed (durable (h_db w));
}.
Lemma open_secured p w w' : open env engine_facts p w = (Ok tt, w') → secured p w w'.
Proof.
  intros Ho. destruct (open_stages p w w' Ho) as (root & w1 & b & w2 & H1 & H2 & Hlock & H3).
  pose proof (keeps_ok (beside (eq (lock_file p))) _ _ _ _ H1) as B1. apply open_directory_ok in H1 as (Hroot & Hdir & Hlinks).
  apply open_private_result in H2 as [S2 H2]. destruct (H2 b eq_refl) as [Hpl _].
  assert (B : beside (eq (lock_file p)) w w2) by (etransitivity; [exact B1|by eapply securing_beside; [|exact S2]]).
  destruct B as [G L D]. apply open_locked_result in H3 as [[T3 _] H3]. destruct (H3 eq_refl) as (Hopened & Hnew & Hold).
  cbn in Hnew, Hold. rewrite D in Hold. rewrite L in *.
  assert (G2 : gentle (eq (lock_file p)) w1 w2) by by eapply securing_gentle; [|exact S2].
  assert (G3 : gentle (eq p) (set_locked ({[lock_file p]} ∪ h_locked w) w2) w') by by eapply tame_gentle; [|exact T3].
  assert (T2 : tame (eq (lock_file p)) (eq (lock_file p)) w1 w2) by by eapply securing_tame; [..|exact S2].
  split.
  - exists root. split; [done|]. split; [eapply directory_at_tame; [exact T3|]; exact (directory_at_tame _ _ w1 w2 root T2 Hdir)|].
    eapply not_symlinks_gentle; [exact G3|]. exact (not_symlinks_gentle _ w1 w2 _ G2 Hlinks).
  - split; [eapply private_at_tame; [exact T3|exact Hpl]|]. split; [done|apply T3].
  - done.
  - intros Hnone. apply Hnew. destruct (h_disk w2 !! p) as [n|] eqn:Hn; [|done]. destruct (Hold n eq_refl) as [Hf _].
    exfalso. apply (sidecar_ne p ".lock"); [done|]. exact (ge_new _ _ _ G p n Hnone Hn Hf).
  - intros n Hn. destruct (ge_old _ _ _ G p n Hn) as (n' & Hn' & _). destruct (Hold n' Hn') as [_ Hc]. split; [|done].
    pose proof (od_recognized _ _ Hopened) as Hrec. by rewrite Hc in Hrec.
Qed.

(** Neither the file nor its write-ahead log holds anything. *)
Definition empty_file (fs : Fs) (p : string) : Prop := ∀ n, fs !! p = Some n → is_file n = true → node_len n = 0.
Lemma empty_gentle N w w' p : gentle N w w' → (N p → h_disk w !! p ≠ None) → empty_file (h_disk w) p → empty_file (h_disk w') p.
Proof.
  intros [A B] HN He n Hn Hf. destruct (h_disk w !! p) as [m|] eqn:Hm; [|by destruct HN; [eapply B|]].
  destruct (A p m Hm) as (m' & Hm' & H1). rewrite Hn in Hm'. injection Hm' as <-.
  destruct H1 as [->|[mode ->]]; by apply (He m).
Qed.
Lemma suspicious_ok p b w w' :
  suspicious_empty p w = (Ok b, w') → (∃ n, h_disk w !! p = Some n ∧ is_file n = true) →
  empty_file (h_disk w) p → empty_file (h_disk w) (sidecar p "-wal") → b = true.
Proof.
  unfold suspicious_empty. intros (n & w1 & H1 & Hr)%opening_bind_ok (m & Hm & Hf) He Hwal.
  apply metadata_found in H1 as [Hd Hn]. assert (n = m) as -> by congruence. rewrite (He m Hm Hf) in Hr. cbn in Hr.
  rewrite opening_bind in Hr. unfold io_ok in Hr. destruct (symlink_metadata (sidecar p "-wal") w1) as [[x|e] w2] eqn:H2; cbn in Hr;
    injection Hr as <- _; [|done]. apply metadata_result in H2 as [_ H2]. rewrite Hd in H2.
  destruct (is_file x) eqn:Hx; [|done]. by rewrite (Hwal x H2 Hx).
Qed.
(** A creation that was interrupted before anything was written is not taken
    for a new store: it is refused, and stays as it is. *)
Theorem interrupted_refused p w n :
  h_disk w !! p = Some n → empty_file (h_disk w) p → empty_file (h_disk w) (sidecar p "-wal") →
  is_ok (fst (open env engine_facts p w)) = false.
Proof.
  intros Hn He Hwal. destruct (open _ _ _ _) as [[[]|e] w'] eqn:Ho; [|done]. exfalso.
  pose proof (open_secured p w w' Ho) as Hs. destruct (open_stages p w w' Ho) as (root & w1 & b & w2 & H1 & H2 & _ & H3).
  pose proof (keeps_ok (beside (eq (lock_file p))) _ _ _ _ H1) as [G1 _ _].
  apply open_private_result in H2 as [S2 _]. apply (securing_gentle _ _ (eq (lock_file p))) in S2; [|done].
  assert (G : gentle (eq (lock_file p)) w w2) by by etransitivity.
  assert (Hne : ∀ q, store_file p q → lock_file p ≠ q) by (intros q Hq <-; by eapply lock_not_store).
  destruct (ge_old _ _ _ G p n Hn) as (n2 & Hn2 & _). unfold open_locked in H3.
  apply opening_bind_ok in H3 as (b3 & w3 & H3 & Hr). apply open_private_result in H3 as [S3 H3].
  destruct (H3 b3 eq_refl) as ((m & Hm & Hp & _) & [Hb _] & _). cbn in Hb.
  assert (b3 = false) as -> by (destruct b3; [rewrite (Hb eq_refl) in Hn2; done|done]).
  apply (securing_gentle _ _ (eq p)) in S3; [|done].
  assert (He3 : ∀ q, store_file p q → empty_file (h_disk w) q → empty_file (h_disk w3) q).
  { intros q Hq Hempty. eapply empty_gentle; [exact S3|intros <-; cbn; congruence|].
    eapply (empty_gentle _ w w2); [exact G|intros Heq; by apply Hne in Heq|done]. }
  apply opening_bind_ok in Hr as (refused & w4 & H4 & Hr).
  assert (refused = true) as -> by (eapply suspicious_ok; [exact H4|exists m; split; [done|by apply private_node_file]
    |apply He3; [by left|done]|apply He3; [by right; left|done]]). done.
Qed.

(** C21 An opening that succeeds leaves the history where only this user
    reaches it and only this owner writes it: the directory is the user's own,
    private, and reached without a symbolic link; the lock, which nobody held,
    is held; the database, its lock and its sidecars are private regular
    files; the store has the identity, schema and referential integrity of
    this program; admission is closed.  A new file starts with the initial
    tables; a file that was there was such a store before, and its tables are
    exactly those a restart of the owner has. *)
Theorem open_secures p w w' :
  open env engine_facts p w = (Ok tt, w') →
  secured p w w'
  ∧ (∀ n, h_disk w !! p = Some n →
      contents (durable (h_db w')) = durable (snd (reopen [] (mkDatabase (contents (durable (h_db w))) None [] false)))
      ∧ (tables_ok (contents (durable (h_db w))) → tables_ok (contents (durable (h_db w')))))
  ∧ (h_disk w !! p = None → tables_ok (contents (durable (h_db w')))).
Proof.
  intros Hs%open_secured. split; [done|]. split.
  - intros n Hn. destruct (sc_existing _ _ _ Hs n Hn) as [_ ->]. split; [done|]. intros Hok.
    pose proof (settled_step (OpRestart []) _ I (settled_start _ [] Hok)) as [Hset _]. exact Hset.
  - intros Hn. rewrite (sc_fresh _ _ _ Hs Hn). apply initial_ok.
Qed.

(** C22 Whatever fails while a history is opened, nothing is lost: every file
    that was there is there, the same but for its permissions, and no file is
    new but the database and its lock; a store that was there keeps its
    contents, or is this program's and had only its admission closed; a store
    of another program, version or schema is refused; a failed opening holds
    no lock. *)
Theorem open_preserves p w :
  let '(r, w') := open env engine_facts p w in
  gentle (opening_file p) w w'
  ∧ h_locked w' = (if is_ok r then {[lock_file p]} ∪ h_locked w else h_locked w)
  ∧ ∀ n, h_disk w !! p = Some n →
      kept_store (durable (h_db w)) (durable (h_db w'))
      ∧ (¬ recognized (durable (h_db w)) → is_ok r = false ∧ durable (h_db w') = durable (h_db w)).
Proof.
  destruct (open env engine_facts p w) as [r w'] eqn:Ho. destruct (open_kept p w r w' Ho) as (Hg & Hk & Hl).
  split; [done|]. split; [done|]. intros n Hn. split; [by eapply Hk|]. intros Hne. split.
  - destruct r as [[]|e]; [|done]. apply open_secured in Ho. by destruct (sc_existing _ _ _ Ho n Hn).
  - by destruct (Hk n Hn) as [?|[? _]].
Qed.
(** A store that is handed out is a fresh queue in front of a database that was
    opened, and whatever is done with it keeps the tables well formed. *)
Theorem store_opened spawned answered later p w s w' :
  store_open env engine_facts spawned answered later p w = (Ok s, w') →
  secured p w w' ∧ s = new_store (served (h_db w') later)
  ∧ healthy (database s) ∧ admission (t_policy (durable (database s))) = false
  ∧ ((∀ n, h_disk w !! p = Some n → tables_ok (contents (durable (h_db w)))) →
     ∀ os, Forall typed os → tables_ok (durable (steps os (database s)))).
Proof.
  unfold store_open. intros (? & w1 & H1 & Hr)%opening_bind_ok. injection H1 as _ <-.
  apply opening_bind_ok in Hr as ([] & w2 & H2 & Hr). apply opening_bind_ok in Hr as (? & w3 & H3 & [= <- <-]). injection H3 as _ <-.
  apply open_secured in H2. split; [done|]. split; [done|]. destruct (sc_opened _ _ _ H2) as [_ _ [Hb _] _ Ha].
  split; [by split|]. split; [exact Ha|]. intros Hok os Hty. apply settled_steps; [done|].
  split; [|right; by split]. cbn. destruct (h_disk w !! p) as [n|] eqn:Hn.
  - destruct (sc_existing _ _ _ H2 n Hn) as [_ ->].
    by destruct (settled_step (OpRestart []) _ I (settled_start _ [] (Hok n eq_refl))) as [Hset _].
  - rewrite (sc_fresh _ _ _ H2 Hn). apply initial_ok.
Qed.
End files.

(** ** Runs *)
#[local] Existing Instance toy_externals.
Definition sample_engine : Engine := mkEngine (λ l, l ++ BACKING)%list 1 2.
Definition data_disk : Fs := list_to_map ((λ p, (p, dir_node)) <$> ["/"; "/h"]).
Definition empty_host : Host := mkHost data_disk [] 0 ∅ (mkDatabase blank None [] false).
Definition sample_path : string := "/h/.local/share/clip-daemon/history/history.db".
(** The same host once a store with entries, admitting more, is there. *)
Definition stored (application : Z) : Stored :=
  mkFile application SCHEMA_VERSION (Some [IDENTITY]) (lists sample_engine (created SCHEMA)) 0
    (set_policy (mkPolicy true 10 5 100 1000) sample).
Definition used_host (application : Z) (locks : gset string) : Host :=
  mkHost (<[sample_path := mkNode Regular 1 9 1000 1 420 (str_bytes "pages") true]>
            (list_to_map ((λ p, (p, dir_node)) <$> path_ancestors "/h/.local/share/clip-daemon/history")))
    [] 0 locks (mkDatabase (stored application) None [] false).
Definition open_sample (w : Host) : BackendResult unit * Host := open sample_env sample_engine sample_path w.
Example default_path w : open_default sample_env sample_engine None (Some "/h") w = open_sample w.
Proof. reflexivity. Qed.
Lemma sample_opened w : is_ok (fst (open_sample w)) = true → open sample_env sample_engine sample_path w = (Ok tt, snd (open_sample w)).
Proof. unfold open_sample. by destruct (open _ _ _ w) as [[[]|e] w']. Qed.
Example first_ok : is_ok (fst (open_sample empty_host)) = true.
Proof. vm_compute. reflexivity. Qed.
Example used_ok : is_ok (fst (open_sample (used_host APP_ID ∅))) = true.
Proof. vm_compute. reflexivity. Qed.
Example locked_refused :
  fst (open_sample (used_host APP_ID {[sidecar sample_path ".lock"]})) = Err (unavailable "History database already has an owner").
Proof. vm_compute. reflexivity. Qed.
(** A file-system call on the way fails. *)
Example creation_fails :
  is_ok (fst (open_sample (mkHost data_disk [false; false; true] 0 ∅ (mkDatabase blank None [] false)))) = false.
Proof. vm_compute. reflexivity. Qed.

Lemma open_secures_witness :
  let w := snd (open_sample empty_host) in let u := snd (open_sample (used_host APP_ID ∅)) in
  secured sample_env sample_path empty_host w ∧ tables_ok (contents (durable (h_db w)))
  ∧ size (t_entries (contents (durable (h_db u)))) = size (t_entries sample)
  ∧ contents (durable (h_db u)) = closed_tables (set_policy (mkPolicy true 10 5 100 1000) sample).
Proof.
  intros w u.
  destruct (open_secures sample_env sample_engine sample_path empty_host w) as (Hs & _ & Hn); [exact (sample_opened _ first_ok)|].
  destruct (open_secures sample_env sample_engine sample_path (used_host APP_ID ∅) u) as (Hu & _); [exact (sample_opened _ used_ok)|].
  destruct (sc_existing _ _ _ _ Hu (mkNode Regular 1 9 1000 1 420 (str_bytes "pages") true)) as [_ Hc]; [vm_compute; reflexivity|].
  split; [exact Hs|]. split; [apply Hn; vm_compute; reflexivity|]. rewrite Hc. split; vm_compute; reflexivity.
Defined.
(** Another program's database is left as it is. *)
Lemma open_preserves_witness :
  is_ok (fst (open_sample (used_host 0 ∅))) = false
  ∧ durable (h_db (snd (open_sample (used_host 0 ∅)))) = stored 0
  ∧ h_locked (snd (open_sample (used_host 0 ∅))) = ∅.
Proof.
  unfold open_sample. pose proof (open_preserves sample_env sample_engine sample_path (used_host 0 ∅)) as Hp.
  destruct (open sample_env sample_engine sample_path (used_host 0 ∅)) as [r w']. destruct Hp as (_ & Hl & Hk).
  destruct (Hk (mkNode Regular 1 9 1000 1 420 (str_bytes "pages") true)) as [_ Hn]; [vm_compute; reflexivity|].
  destruct Hn as [Hr Hd]; [intros [[Ha _] _]; vm_compute in Ha; discriminate Ha|].
  rewrite Hr in Hl. split; [exact Hr|]. split; [exact Hd|exact Hl].
Defined.
