(* ===== verification/Settings.v ===== *)
(** * Settings: the settings manager, [settings.rs], and its services,
    [settings/services.rs].

    The manager owns the saved preference, commands the capture controller and
    the store policy, and reports what it could verify.  Every operation that
    changes state runs under the [transaction] mutex, so operations are
    sequential; [get] and [capture_state] may read between any two of their
    steps, which is why the properties speak of every moment of the log.

    The controller and the store are an interface ([Services]); a poisoned
    mutex and a panicking blocking task are not modelled. *)
From S2P Require Import Prelude Text Tables Database.
Local Open Scope Z_scope.

Definition MAX_TOTAL_BYTES : Z := 268435456.

(** [ClipboardSettings]; the field names are prefixed, since [StorePolicy] has the same ones. *)
Record ClipboardSettings := mkSettings {
  cs_max_entries : Z;
  cs_max_favorites : Z;
  cs_max_entry_bytes : Z;
  capture_paused : bool;
  private_mode : bool;
  collapse_self_echoes : bool;
}.
#[export] Instance ClipboardSettings_eq_dec : EqDecision ClipboardSettings.
Proof. solve_decision. Defined.
Definition default_settings : ClipboardSettings := mkSettings 1000 100 16777216 true false true.

Record SettingsUpdate := mkUpdate {
  u_max_entries : option Z;
  u_max_favorites : option Z;
  u_max_entry_bytes : option Z;
  u_collapse_self_echoes : option bool;
}.

Definition validated_update (update : option Z) (current lo hi : Z) : result string Z :=
  match update with
  | Some v => if (lo <=? v) && (v <=? hi) then Ok v
              else Err "Clipboard setting is outside the supported range"
  | None => Ok current
  end.
Definition apply_update (u : SettingsUpdate) (v : ClipboardSettings) : result string ClipboardSettings :=
  entries ← validated_update (u_max_entries u) (cs_max_entries v) 1 100000;
  favorites ← validated_update (u_max_favorites u) (cs_max_favorites v) 1 10000;
  b ← validated_update (u_max_entry_bytes u) (cs_max_entry_bytes v) 65536 67108864;
  mret (mkSettings entries favorites b (capture_paused v) (private_mode v)
                   (default (collapse_self_echoes v) (u_collapse_self_echoes u))).

Definition retention_changed (a b : ClipboardSettings) : bool :=
  negb (bool_decide ((cs_max_entries a, cs_max_favorites a, cs_max_entry_bytes a)
                     = (cs_max_entries b, cs_max_favorites b, cs_max_entry_bytes b))).
Definition limits_match (limits : StorePolicy) (desired : ClipboardSettings) : bool :=
  (max_entries limits =? cs_max_entries desired) && (max_favorites limits =? cs_max_favorites desired)
  && (max_entry_bytes limits =? cs_max_entry_bytes desired) && (max_total_bytes limits =? MAX_TOTAL_BYTES).
Definition store_policy (v : ClipboardSettings) : StorePolicy :=
  mkPolicy false (cs_max_entries v) (cs_max_favorites v) (cs_max_entry_bytes v) MAX_TOTAL_BYTES.

(** ** Loading *)
Definition validate_loaded_settings (v : ClipboardSettings) : result string ClipboardSettings :=
  _ ← apply_update (mkUpdate (Some (cs_max_entries v)) (Some (cs_max_favorites v))
                             (Some (cs_max_entry_bytes v)) None) v;
  _ ← ensure (negb (private_mode v && negb (capture_paused v)))
             "Private mode requires a paused capture preference"%string;
  mret v.
(** What [fs::read] answers. *)
Inductive ReadOutcome := ReadBytes (b : bytes) | NotFound | ReadFailed.

(** ** The services the manager commands *)
Class Services (W : Type) := {
  svc_set_paused : bool → Z → W → result string unit * W;     (* CaptureControl *)
  svc_is_paused : W → result string bool * W;
  svc_policy : W → result string StorePolicy * W;             (* PolicyControl *)
  svc_apply : StorePolicy → W → result string unit * W;
  svc_close : W → result string unit * W;
  (** [serde_json], and [shelllist_daemon_core::write_bytes_atomic]. *)
  encode_settings : ClipboardSettings → option bytes;
  decode_settings : bytes → option ClipboardSettings;
  svc_write : bytes → W → result string unit * W;
}.
(** [PolicyControl::close], as the trait provides it. *)
Definition provided_close {W} (policy : W → result string StorePolicy * W)
    (apply : StorePolicy → W → result string unit * W) (w : W) : result string unit * W :=
  match policy w with
  | (Err e, w1) => (Err e, w1)
  | (Ok p, w1) => apply (mkPolicy false (max_entries p) (max_favorites p) (max_entry_bytes p) (max_total_bytes p)) w1
  end.

(** ** The manager *)
Record SettingsState := mkState {
  value : ClipboardSettings;
  load_error : option string;
  capture_verified : bool;
  capture_error : option string;
}.
Record CaptureState := mkCapture {
  desired_paused : bool;
  desired_private_mode : bool;
  reported_paused : option bool;
  reported_private_mode : bool;
  verified : bool;
  error : option string;
}.
Definition SETTINGS_SAVED : string := "Clipboard settings were saved".
Definition CAPTURE_SAVED : string := "Capture preference was saved".

(** What the manager did, newest first. *)
Inductive Event :=
| Recorded (r : result string unit)
| Committed (v : ClipboardSettings)
| Commanded (paused : bool) (limit : Z) (r : result string unit)
| Observed (r : result string bool)
| PolicyRead (r : result string StorePolicy)
| PolicyApplied (p : StorePolicy) (r : result string unit)
| PolicyClosed (r : result string unit)
| Written (v : ClipboardSettings) (r : result string unit)
| Stopping.

Section manager.
Context {W : Type} `{Services W}.

Record Manager := mkManager {
  state : SettingsState;
  has_path : bool;
  stopping : bool;
  services : W;
  log : list Event;
}.
Definition M (A : Type) : Type := Manager → result string A * Manager.
#[export] Instance M_ret : MRet M := λ A a m, (Ok a, m).
#[export] Instance M_bind : MBind M :=
  λ A B f c m, match c m with (Ok a, m1) => f a m1 | (Err e, m1) => (Err e, m1) end.
Definition M_fail {A} (e : string) : M A := λ m, (Err e, m).
Definition M_result {A} (r : result string A) : M A := λ m, (r, m).
(** [let _ = c.await;] *)
Definition M_ignore {A} (c : M A) : M unit := λ m, (Ok tt, snd (c m)).
Definition M_map_err {A} (f : string → string) (c : M A) : M A :=
  λ m, match c m with (Ok a, m1) => (Ok a, m1) | (Err e, m1) => (Err (f e), m1) end.
(** [let result = async { .. }.await;] *)
Definition M_try {A} (c : M A) : M (result string A) := λ m, match c m with (r, m1) => (Ok r, m1) end.

Definition call_service {A} (f : W → result string A * W) (e : result string A → Event) : M A :=
  λ m, match f (services m) with
       | (r, w) => (r, mkManager (state m) (has_path m) (stopping m) w (e r :: log m))
       end.
Definition set_state (s : SettingsState) (e : Event) : M unit :=
  λ m, (Ok tt, mkManager s (has_path m) (stopping m) (services m) (e :: log m)).

Definition set_paused_svc (p : bool) (n : Z) : M unit := call_service (svc_set_paused p n) (Commanded p n).
Definition is_paused_svc : M bool := call_service svc_is_paused Observed.
Definition policy_svc : M StorePolicy := call_service svc_policy PolicyRead.
Definition apply_svc (p : StorePolicy) : M unit := call_service (svc_apply p) (PolicyApplied p).
Definition close_admission : M unit := call_service svc_close PolicyClosed.

Definition load_settings (path : option ReadOutcome) : result string ClipboardSettings :=
  match path with
  | None | Some NotFound => Ok default_settings
  | Some ReadFailed => Err "Clipboard settings could not be read"
  | Some (ReadBytes b) =>
      v ← ok_or (decode_settings b) "Clipboard settings file is invalid; refusing to use defaults"%string;
      validate_loaded_settings v
  end.
(** [SettingsManager::default()] with its services. *)
Definition new_manager (path : option ReadOutcome) (w : W) : Manager :=
  let '(v, e) := match load_settings path with
                 | Ok v => (v, None)
                 | Err e => (default_settings, Some e)
                 end in
  mkManager (mkState v e false (Some "Capture state has not been verified"%string))
            (bool_decide (is_Some path)) false w [].

Definition validated_state : M SettingsState := λ m,
  if stopping m then (Err "Clipboard service is shutting down"%string, m)
  else match load_error (state m) with
       | Some e => (Err e, m)
       | None => (Ok (state m), m)
       end.
Definition get : M ClipboardSettings :=
  s ← validated_state;
  let v := value s in
  mret (if capture_verified s then v
        else mkSettings (cs_max_entries v) (cs_max_favorites v) (cs_max_entry_bytes v) false false
                        (collapse_self_echoes v)).
Definition preferences : M ClipboardSettings := s ← validated_state; mret (value s).
Definition capture_state (m : Manager) : CaptureState :=
  let s := state m in
  mkCapture (capture_paused (value s)) (private_mode (value s))
            (if capture_verified s then Some (capture_paused (value s)) else None)
            (capture_verified s && private_mode (value s))
            (capture_verified s) (capture_error s).

Definition record_capture (r : result string unit) : M unit := λ m,
  let s := state m in
  (r, snd (set_state (mkState (value s) (load_error s) (is_ok r) (err_of r)) (Recorded r) m)).
Definition quiesce_locked : M unit :=
  _ ← M_ignore (record_capture (Err "Capture is quiesced for a policy transition"%string));
  _ ← set_paused_svc true 0;
  close_admission.
Definition commit (v : ClipboardSettings) : M ClipboardSettings := λ m,
  let s := state m in
  let changed := negb (bool_decide (capture_paused (value s) = capture_paused v))
                 || negb (bool_decide (private_mode (value s) = private_mode v)) in
  (Ok v, snd (set_state (mkState v None (if changed then false else capture_verified s) (capture_error s))
                        (Committed v) m)).
Definition persist (v : ClipboardSettings) : M unit := λ m,
  if negb (has_path m) then (Ok tt, m)
  else match encode_settings v with
       | None => (Err "Clipboard settings could not be encoded"%string, m)
       | Some b =>
           M_map_err (λ e, "Clipboard settings could not be written: " ++ e)%string
             (call_service (svc_write b) (Written v)) m
       end.
Definition saved_but (saved e : string) : string := (saved ++ ", but " ++ e)%string.
Definition save (v : ClipboardSettings) (saved : string) : M ClipboardSettings :=
  _ ← persist v; M_map_err (saved_but saved) (commit v).

Definition retention_matches (desired : ClipboardSettings) : M bool := λ m,
  match policy_svc m with
  | (Ok limits, m1) => (Ok (limits_match limits desired), m1)
  | (Err _, m1) => (Ok false, m1)
  end.
Definition apply_retention (desired : ClipboardSettings) : M unit :=
  matched ← retention_matches desired;
  if (matched : bool) then mret tt else (_ ← quiesce_locked; apply_svc (store_policy desired)).
Definition verify_capture (desired : bool) : M unit :=
  actual ← is_paused_svc;
  if bool_decide (actual = desired) then mret tt
  else M_fail "Capture service does not match the saved preference".
(** The asynchronous block of [apply_capture]. *)
Definition transition_capture (updated : ClipboardSettings) : M unit :=
  matched ← (if capture_paused updated then mret true else retention_matches updated);
  if negb matched then
    (_ ← quiesce_locked; M_fail "Capture is disabled until store retention/limits are synchronized")
  else
    (_ ← set_paused_svc (capture_paused updated) (cs_max_entry_bytes updated);
     _ ← (if capture_paused updated then close_admission else mret tt);
     verify_capture (capture_paused updated)).
Definition apply_capture (updated : ClipboardSettings) : M unit :=
  _ ← M_ignore (record_capture (Err "Capture transition is not yet verified"%string));
  r ← M_try (transition_capture updated);
  record_capture r.

(** ** The operations *)
Definition update (u : SettingsUpdate) : M ClipboardSettings :=
  current ← preferences;
  updated ← M_result (apply_update u current);
  _ ← (if retention_changed current updated then quiesce_locked else mret tt);
  updated ← (if bool_decide (updated = current) then mret updated else save updated SETTINGS_SAVED);
  _ ← M_map_err (saved_but SETTINGS_SAVED) (apply_retention updated);
  _ ← M_map_err (saved_but SETTINGS_SAVED) (apply_capture updated);
  get.
Definition set_paused (paused private : bool) : M ClipboardSettings :=
  v ← preferences;
  let updated := mkSettings (cs_max_entries v) (cs_max_favorites v) (cs_max_entry_bytes v)
                            paused (paused && private) (collapse_self_echoes v) in
  saved ← M_try (save updated CAPTURE_SAVED);
  match saved with
  | Ok updated => _ ← apply_capture updated; get
  | Err e =>
      _ ← (if paused then
             _ ← M_ignore (set_paused_svc true 0);
             _ ← M_ignore close_admission;
             M_ignore (record_capture (Err e))
           else mret tt);
      M_fail e
  end.
Definition initialize_retention : M unit := v ← preferences; apply_svc (store_policy v).
Definition quiesce : M unit := quiesce_locked.
Definition resume : M unit := v ← preferences; apply_capture v.
Definition stop_capture : M unit := λ m,
  quiesce_locked (mkManager (state m) (has_path m) true (services m) (Stopping :: log m)).
Definition reconcile_capture : M unit := v ← preferences; apply_capture v.
Definition refresh_capture : M unit :=
  v ← preferences;
  r ← M_try (verify_capture (capture_paused v));
  record_capture r.

Inductive Op :=
| Update (u : SettingsUpdate) | SetPaused (paused private : bool) | Quiesce | Resume
| StopCapture | ReconcileCapture | RefreshCapture.
Definition run_op (o : Op) (m : Manager) : Manager :=
  match o with
  | Update u => snd (update u m) | SetPaused p q => snd (set_paused p q m)
  | Quiesce => snd (quiesce m) | Resume => snd (resume m) | StopCapture => snd (stop_capture m)
  | ReconcileCapture => snd (reconcile_capture m) | RefreshCapture => snd (refresh_capture m)
  end.
(** The program's life: [initialize_retention] first, then any requests. *)
Definition life (path : option ReadOutcome) (w : W) (os : list Op) : Manager :=
  foldl (λ m o, run_op o m) (snd (initialize_retention (new_manager path w))) os.
End manager.

(** ** Reading the log (newest first) *)
Definition settings_ok (v : ClipboardSettings) : Prop :=
  1 <= cs_max_entries v <= 100000 ∧ 1 <= cs_max_favorites v <= 10000
  ∧ 65536 <= cs_max_entry_bytes v <= 67108864 ∧ (private_mode v = true → capture_paused v = true).
Fixpoint value_of (v0 : ClipboardSettings) (l : list Event) : ClipboardSettings :=
  match l with [] => v0 | Committed v :: _ => v | _ :: l' => value_of v0 l' end.
Fixpoint verified_of (v0 : ClipboardSettings) (l : list Event) : bool :=
  match l with
  | [] => false
  | Recorded r :: _ => is_ok r
  | Committed v :: l' =>
      verified_of v0 l' && bool_decide (capture_paused v = capture_paused (value_of v0 l'))
      && bool_decide (private_mode v = private_mode (value_of v0 l'))
  | _ :: l' => verified_of v0 l'
  end.
Fixpoint stopped (l : list Event) : bool :=
  match l with [] => false | Stopping :: _ => true | _ :: l' => stopped l' end.
Fixpoint last_command (l : list Event) : option bool :=
  match l with [] => None | Commanded p _ _ :: _ => Some p | _ :: l' => last_command l' end.
(** The controller was observed paused, and no resume was commanded since. *)
Fixpoint paused_since (l : list Event) : bool :=
  match l with
  | [] => false
  | Observed r :: _ => bool_decide (r = Ok true)
  | Commanded false _ _ :: _ => false
  | _ :: l' => paused_since l'
  end.
Definition observed (l : list Event) : option (result string bool) :=
  match l with Observed r :: _ => Some r | _ => None end.

(** What each event must find. *)
Definition allowed (v0 : ClipboardSettings) (e : Event) (l : list Event) : Prop :=
  match e with
  | Recorded (Ok _) => observed l = Some (Ok (capture_paused (value_of v0 l)))
  | Recorded (Err _) => True
  | Committed v => observed l = None ∧ settings_ok v
  | Commanded false n _ =>
      observed l = None ∧ verified_of v0 l = false ∧ stopped l = false
      ∧ capture_paused (value_of v0 l) = false ∧ n = cs_max_entry_bytes (value_of v0 l)
      ∧ ∃ p l', l = PolicyRead (Ok p) :: l' ∧ limits_match p (value_of v0 l) = true
  | PolicyApplied p _ => observed l = None ∧ p = store_policy (value_of v0 l) ∧ last_command l ≠ Some false
  | _ => observed l = None
  end.
Fixpoint log_ok (v0 : ClipboardSettings) (l : list Event) : Prop :=
  match l with [] => True | e :: l' => allowed v0 e l' ∧ log_ok v0 l' end.
Lemma log_ok_app v0 l1 l2 : log_ok v0 (l1 ++ l2) → log_ok v0 l2.
Proof. induction l1; cbn; tauto. Qed.

Section proofs.
Context {W : Type} `{Services W} (v0 : ClipboardSettings).
Abbreviation Manager := (@Manager W).

(** Between two steps of an operation. *)
Record mgr_ok (m : Manager) : Prop := {
  mo_log : log_ok v0 (log m);
  mo_value : value (state m) = value_of v0 (log m);
  mo_verified : capture_verified (state m) = verified_of v0 (log m);
  mo_stopping : stopping m = stopped (log m);
  mo_bounds : settings_ok (value (state m));
}.
Definition at_rest (m : Manager) : Prop := mgr_ok m ∧ observed (log m) = None.
(** Nothing but the services, the verdict and the log changed. *)
Definition same (m m' : Manager) : Prop :=
  value (state m') = value (state m) ∧ stopping m' = stopping m ∧ load_error (state m') = load_error (state m).
Lemma same_trans a b c : same a b → same b c → same a c.
Proof. unfold same. intuition congruence. Qed.

Lemma bind_run {A B} (c : @M W A) (f : A → M B) m :
  (c ≫= f) m = match c m with (Ok a, m1) => f a m1 | (Err e, m1) => (Err e, m1) end.
Proof. done. Qed.
Lemma ignore_run {A B} (c : @M W A) (f : unit → M B) m : (M_ignore c ≫= f) m = f tt (snd (c m)).
Proof. done. Qed.
Lemma try_run {A B} (c : @M W A) (f : result string A → M B) m : (M_try c ≫= f) m = f (fst (c m)) (snd (c m)).
Proof. rewrite bind_run. unfold M_try. by destruct (c m). Qed.

Lemma call_ok {A} (f : W → result string A * W) (e : result string A → Event) m :
  mgr_ok m → (∀ r, allowed v0 (e r) (log m)) →
  (∀ r, match e r with Recorded _ | Committed _ | Stopping => False | _ => True end) →
  let '(r, m') := call_service f e m in
  mgr_ok m' ∧ same m m' ∧ log m' = e r :: log m ∧ capture_verified (state m') = capture_verified (state m).
Proof.
  intros [Hl Hv Hf Hs Hb] Ha He. unfold call_service. destruct (f (services m)) as [r w]. cbn.
  specialize (Ha r). specialize (He r). split_and!; [|done..].
  split; cbn; [done| | | |done]; by destruct (e r).
Qed.
Lemma record_ok r m :
  mgr_ok m → allowed v0 (Recorded r) (log m) →
  let '(r', m') := record_capture r m in
  r' = r ∧ at_rest m' ∧ same m m' ∧ log m' = Recorded r :: log m ∧ capture_verified (state m') = is_ok r.
Proof. intros [Hl Hv Hf Hs Hb] Ha. cbn. by split_and!. Qed.
Lemma close_ok m : at_rest m →
  let '(r, m') := close_admission m in
  at_rest m' ∧ same m m' ∧ log m' = PolicyClosed r :: log m ∧ capture_verified (state m') = capture_verified (state m).
Proof.
  intros [Hm Ho]. unfold close_admission. pose proof (call_ok svc_close PolicyClosed m Hm ltac:(done) ltac:(done)) as Hc.
  destruct (call_service _ _ m) as [r m'], Hc as (? & ? & Hlog & ?). split_and!; [|done..]. split; [done|]. by rewrite Hlog.
Qed.
Lemma pause_ok n m : at_rest m →
  let '(r, m') := set_paused_svc true n m in
  at_rest m' ∧ same m m' ∧ log m' = Commanded true n r :: log m
  ∧ capture_verified (state m') = capture_verified (state m).
Proof.
  intros [Hm Ho]. unfold set_paused_svc.
  pose proof (call_ok (svc_set_paused true n) (Commanded true n) m Hm ltac:(done) ltac:(done)) as Hc.
  destruct (call_service _ _ m) as [r m'], Hc as (? & ? & Hlog & ?). split_and!; [|done..]. split; [done|]. by rewrite Hlog.
Qed.

(** Postconditions of a whole step: at rest again, the preference untouched. *)
Definition step_ok (m m' : Manager) : Prop := at_rest m' ∧ same m m'.
Lemma step_refl m : at_rest m → step_ok m m.
Proof. by split. Qed.
Lemma step_trans a b c : step_ok a b → step_ok b c → step_ok a c.
Proof. intros [_ ?] [? ?]. split; [done|]. by eapply same_trans. Qed.

Lemma quiesce_ok m : at_rest m →
  let '(r, m') := quiesce_locked m in
  step_ok m m' ∧ last_command (log m') = Some true ∧ capture_verified (state m') = false.
Proof.
  intros [Hm Ho]. unfold quiesce_locked. rewrite ignore_run.
  pose proof (record_ok (Err "Capture is quiesced for a policy transition"%string) m Hm I) as Hr.
  destruct (record_capture _ m) as [r1 m1], Hr as (_ & R1 & S1 & L1 & V1). cbn [snd]. rewrite bind_run.
  pose proof (pause_ok 0 m1 R1) as Hp. destruct (set_paused_svc true 0 m1) as [r2 m2], Hp as (R2 & S2 & L2 & V2).
  destruct r2 as [u|e]; [|by split; [split; [|eauto using same_trans]|rewrite L2, V2]].
  pose proof (close_ok m2 R2) as Hp. destruct (close_admission m2) as [r3 m3], Hp as (R3 & S3 & L3 & V3).
  split; [split; [done|eauto using same_trans]|]. by rewrite L3, V3, V2; cbn; rewrite L2.
Qed.
Lemma matches_ok v m : at_rest m →
  let '(r, m') := retention_matches v m in
  step_ok m m' ∧ capture_verified (state m') = capture_verified (state m) ∧
  (r = Ok true ∧ (∃ p, log m' = PolicyRead (Ok p) :: log m ∧ limits_match p v = true) ∨ r = Ok false).
Proof.
  intros [Hm Ho]. unfold retention_matches, policy_svc.
  pose proof (call_ok svc_policy PolicyRead m Hm ltac:(done) ltac:(done)) as Hc.
  destruct (call_service _ _ m) as [[p|e] m'], Hc as (? & ? & Hlog & ?);
    (split; [by split; [split; [done|rewrite Hlog]|]|split; [done|]]).
  - destruct (limits_match p v) eqn:?; [left; eauto|by right].
  - by right.
Qed.
Lemma apply_retention_ok v m : at_rest m → v = value (state m) →
  let '(r, m') := apply_retention v m in step_ok m m'.
Proof.
  intros Hm Hv. unfold apply_retention. rewrite bind_run.
  pose proof (matches_ok v m Hm) as Hc. destruct (retention_matches v m) as [r m1].
  destruct Hc as (S1 & _ & [[-> _] | ->]); [done|]. rewrite bind_run.
  pose proof (quiesce_ok m1 (proj1 S1)) as Hq. destruct (quiesce_locked m1) as [[u|e] m2], Hq as (S2 & L2 & _);
    [|by eapply step_trans].
  destruct (step_trans _ _ _ S1 S2) as [[M2 O2] S]. unfold apply_svc.
  assert (Ha : ∀ r, allowed v0 (PolicyApplied (store_policy v) r) (log m2)).
  { intros r. split_and!; [done| |by rewrite L2]. by rewrite <- (mo_value _ M2), (proj1 S), <- Hv. }
  pose proof (call_ok (svc_apply (store_policy v)) (PolicyApplied (store_policy v)) m2 M2 Ha ltac:(done)) as Hc.
  destruct (call_service _ _ m2) as [r m3], Hc as (? & ? & Hlog & _).
  split; [split; [done|by rewrite Hlog]|by eapply same_trans].
Qed.
Lemma verify_ok d m : at_rest m →
  let '(r, m') := verify_capture d m in
  mgr_ok m' ∧ same m m' ∧ ∃ o, log m' = Observed o :: log m ∧ (is_ok r = true → o = Ok d).
Proof.
  intros [Hm Ho]. unfold verify_capture, is_paused_svc. rewrite bind_run.
  pose proof (call_ok svc_is_paused Observed m Hm ltac:(done) ltac:(done)) as Hc.
  destruct (call_service _ _ m) as [[b|e] m1], Hc as (? & ? & ? & _); [|by split_and!; [..|eexists]].
  destruct (bool_decide_reflect (b = d)) as [->|]; cbn; split_and!; eauto.
  eexists. split; [done|]. done.
Qed.

(** The transition and its verdict. *)
Definition verdict_at (v : ClipboardSettings) (r : result string unit) (m m' : Manager) : Prop :=
  mgr_ok m' ∧ same m m' ∧ (is_ok r = true → observed (log m') = Some (Ok (capture_paused v))).
Lemma verdict_rest v e m m' : step_ok m m' → verdict_at v (Err e) m m'.
Proof. intros [[? ?] ?]. by split_and!. Qed.
Lemma verdict_verify v m m1 : step_ok m m1 →
  let '(r, m') := verify_capture (capture_paused v) m1 in verdict_at v r m m'.
Proof.
  intros [R1 S1]. pose proof (verify_ok (capture_paused v) m1 R1) as Hc.
  destruct (verify_capture _ m1) as [r m2], Hc as (? & ? & o & Hlog & Hr).
  split_and!; [done|by eapply same_trans|]. intros Hok. rewrite Hlog. cbn. by rewrite (Hr Hok).
Qed.
Lemma transition_ok v m :
  at_rest m → v = value (state m) → stopping m = false → capture_verified (state m) = false →
  let '(r, m') := transition_capture v m in verdict_at v r m m'.
Proof.
  intros Hm Hv Hs Hf. unfold transition_capture. destruct (capture_paused v) eqn:Hp.
  - rewrite bind_run. cbn [mret M_ret negb]. rewrite bind_run.
    pose proof (pause_ok (cs_max_entry_bytes v) m Hm) as Hc.
    destruct (set_paused_svc _ _ m) as [[u|e] m1], Hc as (R1 & S1 & _); [|by apply verdict_rest].
    rewrite bind_run. pose proof (close_ok m1 R1) as Hc.
    destruct (close_admission m1) as [[u'|e] m2], Hc as (R2 & S2 & _);
      assert (S : step_ok m m2) by (split; [done|by eapply same_trans]); [|by apply verdict_rest].
    rewrite <- Hp. by apply verdict_verify.
  - rewrite bind_run. pose proof (matches_ok v m Hm) as Hc.
    destruct (retention_matches v m) as [r m1], Hc as (S1 & V1 & [[-> (p & Hlog & Hpm)] | ->]); cbn [negb].
    + rewrite bind_run. unfold set_paused_svc. destruct S1 as [[M1 O1] S1].
      assert (Ha : ∀ r, allowed v0 (Commanded false (cs_max_entry_bytes v) r) (log m1)).
      { intros r. unfold allowed. rewrite <- (mo_value _ M1), (proj1 S1), <- Hv, <- (mo_verified _ M1), <- (mo_stopping _ M1).
        destruct S1 as (_ & -> & _). rewrite V1. split_and!; eauto. }
      pose proof (call_ok (svc_set_paused false (cs_max_entry_bytes v)) (Commanded false (cs_max_entry_bytes v)) m1 M1 Ha ltac:(done)) as Hc.
      destruct (call_service _ _ m1) as [[u|e] m2], Hc as (M2 & S2 & L2 & _);
        assert (S : step_ok m m2) by (split; [by split; [done|rewrite L2]|by eapply same_trans]); [|by apply verdict_rest].
      rewrite bind_run. cbn [mret M_ret]. rewrite <- Hp. by apply verdict_verify.
    + rewrite bind_run. pose proof (quiesce_ok m1 (proj1 S1)) as Hq.
      destruct (quiesce_locked m1) as [[u|e] m2], Hq as (S2 & _); apply verdict_rest; by eapply step_trans.
Qed.
Lemma verdict_recorded v r m m' : v = value (state m) → verdict_at v r m m' →
  let '(r', m2) := record_capture r m' in
  r' = r ∧ step_ok m m2 ∧ capture_verified (state m2) = is_ok r
  ∧ (is_ok r = true → ∃ l, log m2 = Recorded r :: Observed (Ok (capture_paused v)) :: l).
Proof.
  intros Hv (M1 & S1 & O1). assert (Ha : allowed v0 (Recorded r) (log m')).
  { destruct r as [u|e]; [|done]. cbn. rewrite (O1 eq_refl), <- (mo_value _ M1), (proj1 S1). by rewrite Hv. }
  pose proof (record_ok r m' M1 Ha) as Hc. destruct (record_capture r m') as [r' m2], Hc as (-> & R2 & S2 & L2 & V2).
  split_and!; [done|split; [done|by eapply same_trans]|done|]. intros Hok. specialize (O1 Hok). rewrite L2.
  unfold observed in O1. destruct (log m') as [|[] l]; try discriminate O1. injection O1 as ->. eauto.
Qed.
Lemma apply_capture_ok v m : at_rest m → v = value (state m) → stopping m = false →
  let '(r, m') := apply_capture v m in
  step_ok m m' ∧ capture_verified (state m') = is_ok r
  ∧ (is_ok r = true → ∃ l, log m' = Recorded r :: Observed (Ok (capture_paused v)) :: l).
Proof.
  intros [Hm Ho] Hv Hs. unfold apply_capture. rewrite ignore_run.
  pose proof (record_ok (Err "Capture transition is not yet verified"%string) m Hm I) as Hr.
  destruct (record_capture _ m) as [r1 m1], Hr as (_ & R1 & S1 & L1 & V1). cbn [snd]. rewrite try_run.
  assert (Hv1 : v = value (state m1)) by (by rewrite (proj1 S1)).
  assert (Hs1 : stopping m1 = false) by (destruct S1 as (_ & -> & _); done).
  pose proof (transition_ok v m1 R1 Hv1 Hs1 V1) as Ht. destruct (transition_capture v m1) as [r m2].
  cbn [fst snd]. pose proof (verdict_recorded v r m1 m2 Hv1 Ht) as Hc.
  destruct (record_capture r m2) as [r' m3], Hc as (-> & [R3 S3] & V3 & L3).
  split_and!; [split; [done|by eapply same_trans]|done..].
Qed.

(** ** Every operation *)
Lemma preferences_run (m : Manager) : preferences m = (fst (preferences m), m).
Proof.
  unfold preferences, mbind, M_bind, validated_state. destruct (stopping m); [done|]. by destruct (load_error (state m)).
Qed.
Lemma preferences_Ok (m : Manager) v : fst (preferences m) = Ok v → v = value (state m) ∧ stopping m = false.
Proof.
  unfold preferences. rewrite bind_run. unfold validated_state. destruct (stopping m); [done|].
  destruct (load_error (state m)); [done|]. by intros [= <-].
Qed.
(** An operation starts by reading the preference. *)
Lemma with_preferences {A} (f : ClipboardSettings → @M W A) (P : result string A → Manager → Prop) (m : Manager) :
  (∀ e, P (Err e) m) → (∀ v, v = value (state m) → stopping m = false → P (fst (f v m)) (snd (f v m))) →
  P (fst ((preferences ≫= f) m)) (snd ((preferences ≫= f) m)).
Proof.
  intros He Hf. rewrite bind_run, preferences_run. destruct (fst (preferences m)) as [v|e] eqn:Hp; [|apply He].
  apply preferences_Ok in Hp as [Hv Hs]. by apply Hf.
Qed.

Lemma validated_bounds u c lo hi x : lo <= c <= hi → validated_update u c lo hi = Ok x → lo <= x <= hi.
Proof.
  intros Hc. destruct u as [y|]; cbn; [|by intros [= <-]]. destruct (_ && _) eqn:?; [|done]. intros [= <-]. bools. lia.
Qed.
Lemma apply_update_bounds u v v' : settings_ok v → apply_update u v = Ok v' → settings_ok v'
  ∧ capture_paused v' = capture_paused v ∧ private_mode v' = private_mode v.
Proof.
  intros (B1 & B2 & B3 & B4). unfold apply_update. intros Hr. res_inv. unfold settings_ok. cbn.
  match goal with
  | H1 : validated_update (u_max_entries u) _ _ _ = _, H2 : validated_update (u_max_favorites u) _ _ _ = _,
    H3 : validated_update (u_max_entry_bytes u) _ _ _ = _ |- _ =>
      apply validated_bounds in H1, H2, H3; done
  end.
Qed.

Lemma persist_ok v m : at_rest m → let '(r, m') := persist v m in step_ok m m'.
Proof.
  intros [Hm Ho]. unfold persist. destruct (has_path m); cbn [negb]; [|by apply step_refl].
  destruct (encode_settings v) as [b|]; [|by apply step_refl]. unfold M_map_err.
  pose proof (call_ok (svc_write b) (Written v) m Hm ltac:(done) ltac:(done)) as Hc.
  destruct (call_service _ _ m) as [[u|e] m'], Hc as (? & ? & Hlog & _); (split; [split; [done|by rewrite Hlog]|done]).
Qed.
Lemma commit_ok v m : at_rest m → settings_ok v →
  let '(r, m') := commit v m in
  r = Ok v ∧ at_rest m' ∧ value (state m') = v ∧ stopping m' = stopping m ∧ load_error (state m') = None.
Proof.
  intros [[Hl Hv Hf Hs Hb] Ho] Hok. cbn. split_and!; try done. split; [|done]. split; cbn; try done.
  rewrite Hf, <- Hv. repeat case_bool_decide; cbn; try congruence; by rewrite ?andb_false_r, ?andb_true_r.
Qed.
Lemma save_ok v saved m : at_rest m → settings_ok v →
  let '(r, m') := save v saved m in
  match r with
  | Ok v' => v' = v ∧ at_rest m' ∧ value (state m') = v ∧ stopping m' = stopping m ∧ load_error (state m') = None
  | Err _ => step_ok m m'
  end.
Proof.
  intros Hm Hv. unfold save. rewrite bind_run. pose proof (persist_ok v m Hm) as Hp.
  destruct (persist v m) as [[u|e] m1]; [|done]. unfold M_map_err.
  pose proof (commit_ok v m1 (proj1 Hp) Hv) as Hc. destruct (commit v m1) as [r m2], Hc as (-> & ? & ? & Hs & ?).
  split_and!; try done. rewrite Hs. apply Hp.
Qed.
Lemma get_run (m : Manager) : snd (get m) = m.
Proof.
  unfold get, mbind, M_bind, validated_state. destruct (stopping m); [done|]. by destruct (load_error (state m)).
Qed.

Lemma reconcile_rest m : at_rest m → at_rest (snd (reconcile_capture m)).
Proof.
  intros Hm. unfold reconcile_capture. apply (with_preferences apply_capture (λ _ m, at_rest m)); [done|].
  intros v Hv Hs. pose proof (apply_capture_ok v m Hm Hv Hs) as Hc. destruct (apply_capture v m), Hc as [[? _] _]. done.
Qed.
Lemma refresh_rest m : at_rest m → at_rest (snd (refresh_capture m)).
Proof.
  intros Hm. unfold refresh_capture.
  apply (with_preferences (λ v, r ← M_try (verify_capture (capture_paused v)); record_capture r) (λ _ m, at_rest m)); [done|].
  intros v Hv Hs. rewrite try_run. pose proof (verdict_verify v m m (step_refl m Hm)) as Hc.
  destruct (verify_capture _ m) as [r m1]. cbn [fst snd].
  pose proof (verdict_recorded v r m m1 Hv Hc) as Hr. destruct (record_capture r m1), Hr as (_ & [? _] & _). done.
Qed.
Lemma stop_rest m : at_rest m → at_rest (snd (stop_capture m)).
Proof.
  intros [[Hl Hv Hf Hs Hb] Ho]. unfold stop_capture.
  set (m1 := mkManager _ _ _ _ _). assert (Hm : at_rest m1) by (split; [split; cbn; done|done]).
  pose proof (quiesce_ok m1 Hm) as Hq. destruct (quiesce_locked m1), Hq as [[? _] _]. done.
Qed.
Lemma update_rest u m : at_rest m → at_rest (snd (update u m)).
Proof.
  intros Hm. unfold update. apply (with_preferences _ (λ _ m, at_rest m)); [done|].
  intros v Hv Hs. rewrite bind_run. unfold M_result.
  destruct (apply_update u v) as [v'|e] eqn:Hu; [|done]. rewrite bind_run.
  assert (Hb : settings_ok v) by (rewrite Hv; apply Hm).
  apply apply_update_bounds in Hu as [Hb' _]; [|done].
  assert (H1 : let '(r, m1) := (if retention_changed v v' then quiesce_locked else mret tt) m in step_ok m m1).
  { destruct (retention_changed v v'); [|by apply step_refl]. pose proof (quiesce_ok m Hm) as Hq.
    by destruct (quiesce_locked m), Hq as [? _]. }
  destruct ((if retention_changed v v' then quiesce_locked else mret tt) m) as [[t|e] m1]; [|apply H1].
  destruct H1 as [R1 (V1 & S1 & _)]. rewrite bind_run.
  assert (H2 : let '(r, m2) := (if bool_decide (v' = v) then mret v' else save v' SETTINGS_SAVED) m1 in
    at_rest m2 ∧ ∀ v2, r = Ok v2 → v2 = value (state m2) ∧ stopping m2 = false).
  { destruct (bool_decide_reflect (v' = v)) as [->|].
    - split; [done|]. intros v2 [= <-]. split; congruence.
    - pose proof (save_ok v' SETTINGS_SAVED m1 R1 Hb') as Hc. destruct (save v' SETTINGS_SAVED m1) as [[v2|e] m2].
      + destruct Hc as (-> & ? & ? & ? & ?). split; [done|]. intros ? [= <-]. split; congruence.
      + split; [apply Hc|done]. }
  destruct ((if bool_decide (v' = v) then mret v' else save v' SETTINGS_SAVED) m1) as [[v2|e] m2]; [|apply H2].
  destruct H2 as [R2 H2]. destruct (H2 v2 eq_refl) as [V2 S2]. rewrite bind_run. unfold M_map_err at 1.
  pose proof (apply_retention_ok v2 m2 R2 V2) as Hc. destruct (apply_retention v2 m2) as [[t'|e] m3]; [|apply Hc].
  destruct Hc as [R3 (V3 & S3 & _)]. rewrite bind_run. unfold M_map_err.
  pose proof (apply_capture_ok v2 m3 R3 ltac:(congruence) ltac:(congruence)) as Hc.
  destruct (apply_capture v2 m3) as [[t''|e] m4], Hc as [[? _] _]; [by rewrite get_run|done].
Qed.
Lemma set_paused_ok p q m : at_rest m →
  let '(r, m') := set_paused p q m in
  at_rest m' ∧ ∀ s, r = Ok s →
    capture_paused s = p ∧ private_mode s = p && q ∧ value (state m') = s
    ∧ reported_paused (capture_state m') = Some p
    ∧ ∃ l, log m' = Recorded (Ok tt) :: Observed (Ok p) :: l.
Proof.
  intros Hm. rewrite (surjective_pairing (set_paused p q m)). unfold set_paused.
  apply (with_preferences _ (λ r m', at_rest m' ∧ ∀ s, r = Ok s → capture_paused s = p ∧ private_mode s = p && q
    ∧ value (state m') = s ∧ reported_paused (capture_state m') = Some p ∧ ∃ l, log m' = Recorded (Ok tt) :: Observed (Ok p) :: l));
    [done|].
  intros v Hv Hs. set (v' := mkSettings _ _ _ _ _ _).
  assert (Hb : settings_ok v').
  { assert (Hb : settings_ok v) by (rewrite Hv; apply Hm). destruct Hb as (B1 & B2 & B3 & _). unfold settings_ok. cbn.
    split_and!; try lia. by destruct p. }
  rewrite try_run. pose proof (save_ok v' CAPTURE_SAVED m Hm Hb) as Hc.
  destruct (save v' CAPTURE_SAVED m) as [[v2|e] m1]; cbn [fst snd].
  - destruct Hc as (-> & R1 & V1 & S1 & E1). rewrite bind_run.
    pose proof (apply_capture_ok v' m1 R1 (eq_sym V1) ltac:(congruence)) as Hc.
    destruct (apply_capture v' m1) as [[t|e] m2], Hc as ([R2 (V2 & S2 & E2)] & F2 & L2); cbn [fst snd]; [|done].
    rewrite get_run. split; [done|]. unfold get, mbind, M_bind, validated_state. rewrite S2, S1, Hs, E2, E1. cbn.
    rewrite F2. intros s [= <-]. rewrite V2, V1. split_and!; try done. destruct t. by apply L2.
  - assert (at_rest m1) as R1 by apply Hc. destruct p; [|by split].
    split; [|intros s; by rewrite !bind_run].
    rewrite !bind_run. unfold M_ignore, mbind, M_bind, M_fail.
    pose proof (pause_ok 0 m1 R1) as Hp. destruct (set_paused_svc true 0 m1) as [r2 m2], Hp as (R2 & _). cbn [snd].
    pose proof (close_ok m2 R2) as Hp. destruct (close_admission m2) as [r3 m3], Hp as (R3 & _). cbn [snd].
    pose proof (record_ok (Err e) m3 (proj1 R3) I) as Hr. destruct (record_capture (Err e) m3) as [r4 m4], Hr as (_ & R4 & _).
    done.
Qed.
Lemma run_op_rest o m : at_rest m → at_rest (run_op o m).
Proof.
  intros Hm. destruct o as [u|p q| | | | |]; cbn [run_op].
  - by apply update_rest.
  - pose proof (set_paused_ok p q m Hm) as Hc. by destruct (set_paused p q m), Hc as [? _].
  - pose proof (quiesce_ok m Hm) as Hq. unfold quiesce. by destruct (quiesce_locked m), Hq as [[? _] _].
  - by apply reconcile_rest.
  - by apply stop_rest.
  - by apply reconcile_rest.
  - by apply refresh_rest.
Qed.
Lemma run_ops_rest os m : at_rest m → at_rest (foldl (λ m o, run_op o m) m os).
Proof. revert m. induction os as [|o os IH]; intros m Hm; [done|]. apply IH. by apply run_op_rest. Qed.

Lemma initialize_rest m : mgr_ok m → log m = [] → at_rest (snd (initialize_retention m)).
Proof.
  intros Hm Hl. unfold initialize_retention.
  apply (with_preferences _ (λ _ m', at_rest m')); [by split; [|rewrite Hl]|]. intros v Hv Hs. unfold apply_svc.
  assert (Ha : ∀ r, allowed v0 (PolicyApplied (store_policy v) r) (log m)).
  { intros r. rewrite Hl. split_and!; [done| |done]. by rewrite Hv, (mo_value _ Hm), Hl. }
  pose proof (call_ok (svc_apply (store_policy v)) (PolicyApplied (store_policy v)) m Hm Ha ltac:(done)) as Hc.
  destruct (call_service _ _ m) as [r m'], Hc as (? & ? & Hlog & _). cbn. by split; [|rewrite Hlog].
Qed.
End proofs.

(** ** Start *)
Lemma validated_some x c lo hi y : validated_update (Some x) c lo hi = Ok y → lo <= x <= hi.
Proof. cbn. destruct (_ && _) eqn:?; [|done]. intros _. bools. lia. Qed.
Lemma validate_loaded_ok v v' : validate_loaded_settings v = Ok v' → v' = v ∧ settings_ok v.
Proof.
  unfold validate_loaded_settings, apply_update. intros Hr. res_inv.
  cbn [u_max_entries u_max_favorites u_max_entry_bytes] in *. split; [done|].
  match goal with
  | H1 : validated_update (Some (cs_max_entries _)) _ _ _ = _, H2 : validated_update (Some (cs_max_favorites _)) _ _ _ = _,
    H3 : validated_update (Some (cs_max_entry_bytes _)) _ _ _ = _ |- _ => apply validated_some in H1, H2, H3
  end.
  unfold settings_ok. split_and!; try lia. intros Hp. rewrite Hp in *. by destruct (capture_paused _).
Qed.
Lemma load_settings_ok {W} `{Services W} path v : load_settings (W:=W) path = Ok v → settings_ok v.
Proof.
  unfold load_settings. destruct path as [[b| |]|]; try done.
  1: { intros Hr. res_inv. by match goal with H : validate_loaded_settings _ = _ |- _ => apply validate_loaded_ok in H as [-> ?] end. }
  all: by intros [= <-].
Qed.
Lemma start_ok {W} `{Services W} path (w : W) :
  mgr_ok (value (state (new_manager path w))) (new_manager path w).
Proof.
  unfold new_manager. destruct (load_settings path) as [v|e] eqn:Hl; split; cbn; try done.
  by apply load_settings_ok in Hl.
Qed.
Lemma life_rest {W} `{Services W} path (w : W) os :
  at_rest (value (state (new_manager path w))) (life path w os).
Proof.
  apply run_ops_rest, initialize_rest; [apply start_ok|]. unfold new_manager. by destruct (load_settings path).
Qed.

(** ** What the log shows *)
Lemma claim_holds v0 l : log_ok v0 l → observed l = None →
  verified_of v0 l = true → capture_paused (value_of v0 l) = true → paused_since l = true.
Proof.
  induction l as [|e l IH]; [done|]. intros [Ha Hl] Ho. specialize (IH Hl).
  destruct e as [r|v|p n r|r|r|p r|r|v r|]; cbn in *; try (by apply IH); try done.
  - destruct r as [u|e]; [|done]. destruct l as [|[] l]; cbn in *; try done. injection Ha as ->. intros _ Hp.
    apply bool_decide_eq_true. by rewrite Hp.
  - destruct Ha as [Ho' _]. intros Hv Hp. bools. apply IH; congruence.
  - destruct p; [by apply IH|]. destruct Ha as (_ & -> & _). done.
  - destruct Ha as (? & _). by apply IH.
Qed.
Lemma value_ok v0 l : settings_ok v0 → log_ok v0 l → settings_ok (value_of v0 l).
Proof.
  intros H0. induction l as [|e l IH]; [done|]. intros [Ha Hl]. specialize (IH Hl).
  destruct e; cbn in *; try done. apply Ha.
Qed.

(** ** Properties *)
(** C8 The manager never claims a privacy it has not seen: for every start,
    every request sequence and every behaviour of the services, whenever the
    reported state is "paused" — at the end, and at every moment an outsider
    can look except between a fresh observation and its recording — the
    controller was observed paused and no resume was commanded since. *)
Theorem privacy_claim {W} `{Services W} path (w : W) os l2 l1 :
  let v0 := value (state (new_manager path w)) in
  let m := life path w os in
  (reported_paused (capture_state m) = Some true → paused_since (log m) = true)
  ∧ (log m = l2 ++ l1 → observed l1 = None → verified_of v0 l1 = true →
     capture_paused (value_of v0 l1) = true → paused_since l1 = true).
Proof.
  intros v0 m. destruct (life_rest path w os : at_rest v0 m) as [[Hl Hv Hf Hs Hb] Ho]. split.
  - unfold capture_state. cbn. destruct (capture_verified _) eqn:Hc; [|done]. intros [= Hp].
    apply (claim_holds v0); congruence.
  - intros Hlog. rewrite Hlog in Hl. apply log_ok_app in Hl. by apply claim_holds.
Qed.

(** C9 Capture is resumed only in step with the store: every resume command
    follows immediately on reading a store policy whose limits are the saved
    ones, with the saved byte limit, while the saved preference is "not
    paused", while nothing is reported as verified, and never after the
    manager was stopped. *)
Theorem resume_synchronised {W} `{Services W} path (w : W) os l2 l1 n r :
  let v := value_of (value (state (new_manager path w))) l1 in
  log (life path w os) = l2 ++ Commanded false n r :: l1 →
  stopped l1 = false ∧ capture_paused v = false ∧ n = cs_max_entry_bytes v
  ∧ verified_of (value (state (new_manager path w))) l1 = false
  ∧ ∃ p l, l1 = PolicyRead (Ok p) :: l ∧ limits_match p v = true.
Proof.
  intros v Hlog. destruct (life_rest path w os) as [[Hl _ _ _ _] _]. rewrite Hlog in Hl.
  apply log_ok_app in Hl as [(_ & ? & ? & ? & ? & ?) _]. done.
Qed.

(** Retention policy changes are quiet and well-formed: every policy the
    manager gives to the store is the saved preference's, closes admission,
    passes the store's own validation, and is given while the last command to
    the capture controller, if any, was a pause. *)
Theorem policy_quiesced {W} `{Services W} path (w : W) os l2 l1 p r :
  log (life path w os) = l2 ++ PolicyApplied p r :: l1 →
  p = store_policy (value_of (value (state (new_manager path w))) l1)
  ∧ admission p = false ∧ valid_policy p = true ∧ last_command l1 ≠ Some false.
Proof.
  intros Hlog. destruct (life_rest path w os) as [[Hl _ _ _ _] _]. rewrite Hlog in Hl.
  apply log_ok_app in Hl as [(_ & -> & Hc) Hl]. split_and!; [done|done| |done].
  pose proof (value_ok _ l1 (mo_bounds _ _ (start_ok path w)) Hl) as (B1 & B2 & B3 & _).
  unfold valid_policy. cbn [store_policy max_entries max_favorites max_entry_bytes max_total_bytes].
  apply negb_true_iff. rewrite !orb_false_iff, !Z.ltb_ge, !Z.eqb_neq. unfold MAX_ENTRY_BYTES, MAX_TOTAL_BYTES, i64_max. lia.
Qed.

(** A pause or resume that answers success is real: when [set_paused]
    returns settings after any history, they carry the requested pause (and
    private mode only together with a pause), they are the saved ones, and the
    last thing done was to observe the controller in that state and record
    it. *)
Theorem pause_acknowledged {W} `{Services W} path (w : W) os p q s m :
  set_paused p q (life path w os) = (Ok s, m) →
  capture_paused s = p ∧ private_mode s = p && q ∧ value (state m) = s
  ∧ reported_paused (capture_state m) = Some p
  ∧ ∃ l, log m = Recorded (Ok tt) :: Observed (Ok p) :: l.
Proof.
  intros Hr. pose proof (set_paused_ok _ p q _ (life_rest path w os)) as Hc. rewrite Hr in Hc. by apply Hc.
Qed.

(** Saved settings survive a restart: whatever settings the manager holds
    after any history, if the codec reads back what it writes, then loading
    the bytes [persist] would write gives exactly those settings; and every
    settings value that loads is within the supported ranges. *)
Theorem settings_roundtrip {W} `{Services W} path (w : W) os b v r :
  (∀ s c, encode_settings s = Some c → decode_settings c = Some s) →
  (encode_settings (value (state (life path w os))) = Some b →
   load_settings (W:=W) (Some (ReadBytes b)) = Ok (value (state (life path w os))))
  ∧ (load_settings (W:=W) r = Ok v → settings_ok v).
Proof.
  intros Hcodec. split; [|apply load_settings_ok].
  intros He. unfold load_settings. rewrite (Hcodec _ _ He). cbn [ok_or mbind result_bind].
  destruct (life_rest path w os) as [[_ _ _ _ Hb] _]. generalize dependent (value (state (life path w os))).
  intros s _ (B1 & B2 & B3 & B4). unfold validate_loaded_settings, apply_update.
  cbn [u_max_entries u_max_favorites u_max_entry_bytes validated_update].
  assert (Hr : ∀ x lo hi, lo <= x <= hi → (lo <=? x) && (x <=? hi) = true) by (intros; rewrite andb_true_iff, !Z.leb_le; lia).
  rewrite !Hr by done. cbn. destruct (private_mode s); cbn; [by rewrite B4|done].
Qed.

(** ** Services *)
(** [capture::Unavailable] and [services::Unavailable]: no collector, no store;
    the codec and the writer stay parameters. *)
Definition unavailable_services {W} (enc : ClipboardSettings → option bytes) (dec : bytes → option ClipboardSettings)
    (write : bytes → W → result string unit * W) : Services W := {|
  svc_set_paused p _ w := (if p then Ok tt else Err "No capture owner is attached to this API", w);
  svc_is_paused w := (Ok true, w);
  svc_policy w := (Err "History store is unavailable", w);
  svc_apply _ w := (Err "History store is unavailable", w);
  svc_close w := (Ok tt, w);
  encode_settings := enc; decode_settings := dec; svc_write := write;
|}.

(** Services that do what they are told, for examples: whether capture is
    paused, the policy, and the file. *)
Record Toy := mkToy { toy_paused : bool; toy_policy : StorePolicy; toy_file : option bytes }.
Definition toy_encode (v : ClipboardSettings) : option bytes :=
  if bool_decide (v = default_settings) then Some [x01] else None.
Definition toy_decode (b : bytes) : option ClipboardSettings :=
  if bool_decide (b = [x01]) then Some default_settings else None.
Definition toy_apply (p : StorePolicy) (w : Toy) : result string unit * Toy := (Ok tt, mkToy (toy_paused w) p (toy_file w)).
Definition toy_services : Services Toy := {|
  svc_set_paused p _ w := (Ok tt, mkToy p (toy_policy w) (toy_file w));
  svc_is_paused w := (Ok (toy_paused w), w);
  svc_policy w := (Ok (toy_policy w), w);
  svc_apply := toy_apply;
  svc_close := provided_close (λ w, (Ok (toy_policy w), w)) toy_apply;
  encode_settings := toy_encode; decode_settings := toy_decode;
  svc_write b w := (Ok tt, mkToy (toy_paused w) (toy_policy w) (Some b));
|}.
#[local] Existing Instance toy_services.
Definition toy_start : Toy := mkToy true initial_policy None.
Definition toy_life (os : list Op) : Manager (W:=Toy) := life None toy_start os.

Lemma privacy_claim_witness :
  reported_paused (capture_state (toy_life [ReconcileCapture])) = Some true
  ∧ paused_since (log (toy_life [ReconcileCapture])) = true.
Proof.
  assert (Hp : reported_paused (capture_state (toy_life [ReconcileCapture])) = Some true) by (vm_compute; reflexivity).
  split; [exact Hp|]. exact (proj1 (privacy_claim None toy_start [ReconcileCapture] [] []) Hp).
Defined.
(** The newest events of a run around its [n]-th newest. *)
Definition run_log (os : list Op) : list Event := log (life None toy_start os).
Lemma resume_synchronised_witness :
  ∃ l2 l1 n, log (life None toy_start [SetPaused false false]) = l2 ++ Commanded false n (Ok tt) :: l1
             ∧ stopped l1 = false ∧ n = 16777216.
Proof.
  exists (take 2 (run_log [SetPaused false false])), (drop 3 (run_log [SetPaused false false])), 16777216.
  assert (Hl : log (life None toy_start [SetPaused false false])
    = take 2 (run_log [SetPaused false false]) ++ Commanded false 16777216 (Ok tt) :: drop 3 (run_log [SetPaused false false]))
    by (vm_compute; reflexivity).
  destruct (resume_synchronised None toy_start [SetPaused false false] _ _ _ _ Hl) as [Hs _].
  split; [exact Hl|]. split; [exact Hs|reflexivity].
Defined.
Definition smaller : list Op := [Update (mkUpdate (Some 5) None None None)].
Lemma policy_quiesced_witness :
  ∃ l2 l1 p, log (life None toy_start smaller) = l2 ++ PolicyApplied p (Ok tt) :: l1
             ∧ max_entries p = 5 ∧ valid_policy p = true.
Proof.
  exists (take 5 (run_log smaller)), (drop 6 (run_log smaller)), (mkPolicy false 5 100 16777216 268435456).
  assert (Hl : log (life None toy_start smaller)
    = take 5 (run_log smaller) ++ PolicyApplied (mkPolicy false 5 100 16777216 268435456) (Ok tt) :: drop 6 (run_log smaller))
    by (vm_compute; reflexivity).
  destruct (policy_quiesced None toy_start smaller _ _ _ _ Hl) as (_ & _ & Hv & _).
  split; [exact Hl|]. split; [reflexivity|exact Hv].
Defined.
Lemma pause_acknowledged_witness :
  ∃ s m, set_paused true true (life None toy_start [SetPaused false false]) = (Ok s, m)
         ∧ private_mode s = true && true ∧ reported_paused (capture_state m) = Some true.
Proof.
  destruct (set_paused true true (life None toy_start [SetPaused false false])) as [[s|e] m] eqn:Hr;
    [|vm_compute in Hr; discriminate Hr].
  destruct (pause_acknowledged None toy_start [SetPaused false false] true true s m Hr) as (_ & Hp & _ & Hc & _).
  exists s, m. split; [reflexivity|]. split; [exact Hp|exact Hc].
Defined.
Lemma toy_codec (s : ClipboardSettings) c : toy_encode s = Some c → toy_decode c = Some s.
Proof. unfold toy_encode. destruct (bool_decide_reflect (s = default_settings)) as [->|]; [|done]. by intros [= <-]. Qed.
Lemma settings_roundtrip_witness :
  load_settings (W:=Toy) (Some (ReadBytes [x01])) = Ok default_settings.
Proof.
  apply (proj1 (@settings_roundtrip Toy toy_services None toy_start [] [x01] default_settings None toy_codec)).
  vm_compute. reflexivity.
Defined.
