(* ===== verification/Api.v ===== *)
(** * Api: the request layer's own state, [api.rs], [api/operations.rs] and
    [api/history.rs]: the owner registry of operations ([Book]), the
    observation clock ([Clock]) and the wipe challenges. *)
From S2P Require Import Prelude Text Model Settings.
Local Open Scope Z_scope.

(** ** [ApiError], [actions.rs] *)
Record ApiError := mkApiError { a_code : string; a_message : string; a_retryable : bool }.
Definition ApiError_new (c m : string) : ApiError := mkApiError c m false.
Definition validation (m : string) : ApiError := ApiError_new "validation-error" m.
Definition unsupported (m : string) : ApiError := ApiError_new "unsupported-method" m.
Definition from_backend (e : BackendError) : ApiError :=
  mkApiError (BackendErrorKind_code (kind e)) (message e) (BackendErrorKind_retryable (kind e)).
Abbreviation ApiResult := (result ApiError).

(** ** The observation clock *)
Module Clock.
Record Clock := mkClock { token : option Z; revision : Z }.
Definition new : Clock := mkClock None 0.
Definition MAX_REVISION : Z := 9007199254740991.
Definition advance (c : Clock) : ApiResult Clock :=
  if MAX_REVISION <=? revision c then
    Err (ApiError_new "history-unavailable" "History observation clock exhausted; restart required")
  else Ok (mkClock (token c) (revision c + 1)).
Definition observe (t : Z) (c : Clock) : ApiResult (Z * Clock) :=
  if bool_decide (token c = Some t) then Ok (revision c, c)
  else c ← advance c; mret (revision c, mkClock (Some t) (revision c)).
Definition invalidate (c : Clock) : Clock := mkClock None (revision c).

Inductive Event := Observe (t : Z) | Invalidate.
Fixpoint run (es : list Event) (c : Clock) : option Clock :=
  match es with
  | [] => Some c
  | Observe t :: es' => match observe t c with Ok (_, c') => run es' c' | Err _ => None end
  | Invalidate :: es' => run es' (invalidate c)
  end.

Lemma observe_Ok t c r c' : observe t c = Ok (r, c') →
  r = revision c' ∧ token c' = Some t
  ∧ ((token c = Some t ∧ c' = c) ∨ (token c ≠ Some t ∧ revision c' = revision c + 1 ∧ revision c' <= MAX_REVISION)).
Proof.
  unfold observe, advance. case_bool_decide as Ht; [intros [= <- <-]; auto|].
  destruct (Z.leb_spec MAX_REVISION (revision c)); [done|]. intros [= <- <-]. cbn. split_and!; auto. right. split_and!; auto; lia.
Qed.
Lemma run_mono es c c' : run es c = Some c' → revision c <= revision c'
  ∧ (revision c <= MAX_REVISION → revision c' <= MAX_REVISION).
Proof.
  revert c. induction es as [|[t|] es IH]; intros c; cbn; [by intros [= <-]| |apply (IH (invalidate c))].
  destruct (observe t c) as [[r c1]|e] eqn:Ho; [|done]. apply observe_Ok in Ho as (_ & _ & [[_ ->]|(_ & ? & ?)]); [apply IH|].
  intros Hr. apply IH in Hr. lia.
Qed.
Lemma observed_above es c c1 t r c2 :
  token c = None → run es c = Some c1 → observe t c1 = Ok (r, c2) → revision c < r.
Proof.
  intros Hn Hr Ho. pose proof (observe_Ok _ _ _ _ Ho) as (-> & _ & Hc).
  destruct es as [|e es]; cbn in Hr.
  - injection Hr as <-. destruct Hc as [[? _]|(_ & ? & _)]; [congruence|lia].
  - revert c Hn e Hr. induction es as [|e' es IH]; intros c Hn e Hr.
    + destruct e as [t1|]; [|injection Hr as <-; destruct Hc as [[Hc _]|(_ & ? & _)]; cbn in *; [done|lia]].
      destruct (observe t1 c) as [[r1 c3]|] eqn:H1; [|done]. injection Hr as ->.
      apply observe_Ok in H1 as (_ & _ & [[? _]|(_ & ? & _)]); [congruence|].
      destruct Hc as [[_ ->]|(_ & ? & _)]; lia.
    + destruct e as [t1|]; [|by apply (IH (invalidate c) eq_refl e')].
      destruct (observe t1 c) as [[r1 c3]|] eqn:H1; [|done]. apply run_mono in Hr as [? _].
      apply observe_Ok in H1 as (_ & _ & [[? _]|(_ & ? & _)]); [congruence|].
      destruct Hc as [[_ ->]|(_ & ? & _)]; lia.
Qed.
Lemma observed_same es c t c1 t' r c2 :
  token c = Some t → run es c = Some c1 → observe t' c1 = Ok (r, c2) →
  revision c <= r ∧ (r = revision c ↔ t' = t ∧ Forall (λ e, e = Observe t) es).
Proof.
  revert c t. induction es as [|e es IH]; intros c t Ht Hr Ho.
  - injection Hr as <-. apply observe_Ok in Ho as (-> & _ & [[? ->]|(? & ? & _)]); split; try lia.
    + split; [split; [congruence|done]|done].
    + split; [lia|]. intros [-> _]. congruence.
  - destruct e as [t1|]; cbn in Hr.
    + destruct (observe t1 c) as [[r1 c3]|] eqn:H1; [|done]. pose proof (observe_Ok _ _ _ _ H1) as (_ & Ht3 & [[Heq ->]|(Hne & Hrev & _)]).
      * destruct (IH c t Ht Hr Ho) as [? Hiff]. split; [done|]. rewrite Hiff, Forall_cons. assert (t1 = t) as -> by congruence. tauto.
      * destruct (IH c3 t1 Ht3 Hr Ho) as [? _]. split; [lia|]. split; [lia|]. intros [_ Hall].
        apply Forall_cons in Hall as [[= ->] _]. congruence.
    + pose proof (observed_above es (invalidate c) c1 t' r c2 eq_refl Hr Ho). cbn in *. split; [lia|].
      split; [lia|]. intros [_ Hall]. by apply Forall_cons in Hall as [? _].
Qed.

(** The history revision is a sound baseline: in every history of
    observations and outages, a later observation has a revision that is not
    smaller, and it is the same one exactly when every observation in between
    saw the same change token and no outage intervened; revisions stay within
    the integers JSON clients can represent. *)
Theorem clock_baseline es0 c0 t r c es c1 t' r' c2 :
  run es0 new = Some c0 → observe t c0 = Ok (r, c) → run es c = Some c1 → observe t' c1 = Ok (r', c2) →
  r <= r' ∧ (r' = r ↔ t' = t ∧ Forall (λ e, e = Observe t) es) ∧ r' <= MAX_REVISION.
Proof.
  intros H0 H1 H2 H3. pose proof (observe_Ok _ _ _ _ H1) as (-> & Ht & Hc).
  destruct (observed_same es c t c1 t' r' c2 Ht H2 H3) as [? ?]. split_and!; [done|done|].
  apply run_mono in H0 as [_ B0]. apply run_mono in H2 as [_ B2]. pose proof (observe_Ok _ _ _ _ H3) as (-> & _ & Hc3).
  unfold MAX_REVISION, new in *. cbn in *.
  destruct Hc as [[_ ->]|(_ & ? & ?)], Hc3 as [[_ ->]|(_ & ? & ?)]; lia.
Qed.

Lemma clock_baseline_witness : 2 <= 3 ∧ (3 = 2 ↔ 5 = 9 ∧ Forall (λ e, e = Observe 9) [Observe 9]) ∧ 3 <= MAX_REVISION.
Proof.
  apply (clock_baseline [Observe 4; Invalidate] (mkClock None 1) 9 2 (mkClock (Some 9) 2) [Observe 9] (mkClock (Some 9) 2) 5 3
           (mkClock (Some 5) 3)); reflexivity.
Defined.
End Clock.

(** ** The owner registry *)
Module Book.
Definition RETENTION : Z := 300000.      (* milliseconds *)
Definition MAX_ACTIVE : Z := 64.
Definition MAX_OWNER_ACTIVE : Z := 16.
Definition MAX_RECORDS : Z := 256.

Record Record_ := mkRecord {
  owner : option string;
  operation : OperationResult;
  r_revision : Z;
  updated : Z;
}.
Definition active (r : Record_) : bool := bool_decide (o_status (operation r) = "started").
Record Book := mkBook {
  records : gmap string Record_;
  pending : gmap string (option string);       (* reservation id to owner *)
}.
Definition new : Book := mkBook ∅ ∅.

Definition prune (now : Z) (b : Book) : Book :=
  mkBook (filter (λ kr, active kr.2 = true ∨ now - updated kr.2 < RETENTION) (records b)) (pending b).

Definition owned_by (o : option string) (m : gmap string (option string)) : Z :=
  zlen (filter (λ kv, kv.2 = o) (map_to_list m)).
Definition active_records (b : Book) : list Record_ :=
  filter (λ r, active r = true) (snd <$> map_to_list (records b)).
Definition reserve (now : Z) (uuid : string) (o : option string) (b : Book) : ApiResult unit * Book :=
  let b := prune now b in
  let n := zlen (map_to_list (pending b)) + zlen (active_records b) in
  let own := owned_by o (pending b) + zlen (filter (λ r, owner r = o) (active_records b)) in
  if (MAX_ACTIVE <=? n) || (MAX_OWNER_ACTIVE <=? own) then
    (Err (ApiError_new "busy" "Too many active clipboard operations"), b)
  else (Ok tt, mkBook (records b) (<[uuid := o]> (pending b))).
(** [Reservation::drop]. *)
Definition release (uuid : string) (b : Book) : Book := mkBook (records b) (delete uuid (pending b)).

(** [min_by_key]: the first of the oldest finished records, in the map's order. *)
Fixpoint oldest (l : list (string * Record_)) : option (string * Record_) :=
  match l with
  | [] => None
  | kr :: l' =>
      match oldest l' with
      | Some kr' => if updated kr.2 <=? updated kr'.2 then Some kr else Some kr'
      | None => Some kr
      end
  end.
Definition evict (b : Book) : Book :=
  if MAX_RECORDS <=? zlen (map_to_list (records b)) then
    match oldest (filter (λ kr, active kr.2 = false) (map_to_list (records b))) with
    | Some (id, _) => mkBook (delete id (records b)) (pending b)
    | None => b
    end
  else b.
Definition register (now : Z) (op : OperationResult) (o : option string) (b : Book) : Book :=
  let b := evict (prune now b) in
  mkBook (<[o_id op := mkRecord o op 1 now]> (records b)) (pending b).

(** *** [ApiService], the part that works on the book *)
Record Service := mkService {
  book : Book;
  published : list Record_;              (* [emit_operation], newest first *)
}.
(** [track_operation]; [status] is what the backend answers for the identifier. *)
Definition track (now : Z) (status : BackendResult (option OperationResult)) (initial : OperationResult)
    (o : option string) (s : Service) : Service :=
  let current := default initial (mjoin (ok_of status)) in
  let b := register now current o (book s) in
  mkService b (mkRecord o current 1 now :: published s).
(** [refresh_operation]; [active_ids] is what [active_operations] answers. *)
Definition refreshed (id : string) (status : BackendResult (option OperationResult))
    (active_ids : BackendResult (gset string)) (r : Record_) : option OperationResult :=
  match status with
  | Err _ => None
  | Ok (Some current) => Some current
  | Ok None =>
      match active_ids with
      | Ok ids => if bool_decide (id ∈ ids) then None
                  else Some (with_id id (o_action (operation r)) "unknown"
                               "Operation outcome is unavailable; do not replay")
      | Err _ => None
      end
  end.
Definition refresh (now : Z) (id : string) (status : BackendResult (option OperationResult))
    (active_ids : BackendResult (gset string)) (s : Service) : Service :=
  match records (book s) !! id with
  | Some r =>
      if active r then
        match refreshed id status active_ids r with
        | Some current =>
            if bool_decide (operation r = current) then s
            else
              let r := mkRecord (owner r) current (r_revision r + 1) now in
              mkService (mkBook (<[id := r]> (records (book s))) (pending (book s))) (r :: published s)
        | None => s
        end
      else s
  | None => s
  end.
(** [operation_status] after its [refresh_operation]. *)
Definition operation_status (now : Z) (id : string) (o : option string) (s : Service)
    : ApiResult (OperationResult * Z) * Service :=
  if bool_decide (id = EmptyString) || (256 <? str_len id) then
    (Err (validation "Invalid operation identity"), s)
  else
    let s := mkService (prune now (book s)) (published s) in
    match records (book s) !! id with
    | Some r => if bool_decide (owner r = o) then (Ok (operation r, r_revision r), s)
                else (Err (ApiError_new "operation-unknown" "Operation outcome is unknown or expired; do not replay"), s)
    | None => (Err (ApiError_new "operation-unknown" "Operation outcome is unknown or expired; do not replay"), s)
    end.
(** The guard of [cancel_operation_owned], and the identifiers [release_owner] cancels. *)
Definition may_cancel (id : string) (o : option string) (s : Service) : bool :=
  match records (book s) !! id with
  | Some r => bool_decide (owner r = o) && active r
  | None => false
  end.
Definition owned_active (o : string) (s : Service) : list string :=
  fst <$> filter (λ kr, active kr.2 = true ∧ owner kr.2 = Some o) (map_to_list (records (book s))).
(** [LifecycleEvent::visible_to] of an operation event. *)
Definition visible_to (o : option string) (r : Record_) : bool := bool_decide (owner r = o).

Inductive Call :=
| Reserve (now : Z) (uuid : string) (o : option string)
| Release (uuid : string)
| Track (now : Z) (status : BackendResult (option OperationResult)) (initial : OperationResult) (o : option string)
| Refresh (now : Z) (id : string) (status : BackendResult (option OperationResult)) (active_ids : BackendResult (gset string))
| StatusOf (now : Z) (id : string) (o : option string).
Definition call (c : Call) (s : Service) : Service :=
  match c with
  | Reserve now uuid o => mkService (snd (reserve now uuid o (book s))) (published s)
  | Release uuid => mkService (release uuid (book s)) (published s)
  | Track now st i o => track now st i o s
  | Refresh now id st act => refresh now id st act s
  | StatusOf now id o => snd (operation_status now id o s)
  end.

(** What the outside guarantees: identifiers are fresh when tracked, the
    backend answers for the identifier it is asked about, and fewer than
    [MAX_RECORDS] operations are active at once. *)
Definition answers_for (id : string) (status : BackendResult (option OperationResult)) : Prop :=
  ∀ op, status = Ok (Some op) → o_id op = id.
Definition published_for (id : string) (s : Service) : list Record_ :=
  filter (λ r, o_id (operation r) = id) (published s).
Definition admissible (c : Call) (s : Service) : Prop :=
  match c with
  | Track _ st i _ => answers_for (o_id i) st ∧ published_for (o_id i) s = []
                      ∧ zlen (active_records (book s)) < MAX_RECORDS
  | Refresh _ id st _ => answers_for id st
  | _ => True
  end.
Inductive reachable : Service → Prop :=
| r_new : reachable (mkService new [])
| r_call c s : reachable s → admissible c s → reachable (call c s).

(** **** Counting *)
Lemma zlen_filter_perm {A} (P : A → Prop) `{∀ x, Decision (P x)} (l1 l2 : list A) :
  l1 ≡ₚ l2 → zlen (filter P l1) = zlen (filter P l2).
Proof. intros Hl. unfold zlen. by rewrite Hl. Qed.
Lemma zlen_filter_cons {A} (P : A → Prop) `{∀ x, Decision (P x)} x (l : list A) :
  zlen (filter P (x :: l)) = (if decide (P x) then 1 else 0) + zlen (filter P l).
Proof. rewrite filter_cons. destruct (decide (P x)); [rewrite zlen_cons|]; lia. Qed.

(** Entries of a map that satisfy [P]. *)
Definition count {V} (P : string * V → Prop) `{∀ x, Decision (P x)} (m : gmap string V) : Z :=
  zlen (filter P (map_to_list m)).
Lemma count_delete {V} (P : string * V → Prop) `{∀ x, Decision (P x)} k (m : gmap string V) :
  count P m = count P (delete k m) + match m !! k with Some v => if decide (P (k, v)) then 1 else 0 | None => 0 end.
Proof.
  unfold count. destruct (m !! k) as [v|] eqn:Hk; [|rewrite delete_id by done; lia].
  rewrite <- (zlen_filter_perm P _ _ (map_to_list_delete m k v Hk)), zlen_filter_cons. lia.
Qed.
Lemma count_insert {V} (P : string * V → Prop) `{∀ x, Decision (P x)} k v (m : gmap string V) :
  count P (<[k := v]> m) = count P (delete k m) + if decide (P (k, v)) then 1 else 0.
Proof.
  rewrite <- insert_delete_eq. unfold count.
  rewrite (zlen_filter_perm P _ _ (map_to_list_insert (delete k m) k v (lookup_delete_eq m k))), zlen_filter_cons. lia.
Qed.
Lemma count_delete_le {V} (P : string * V → Prop) `{∀ x, Decision (P x)} k (m : gmap string V) :
  count P (delete k m) <= count P m.
Proof. rewrite (count_delete P k m). destruct (m !! k); [case_decide|]; lia. Qed.
Lemma count_all {V} (m : gmap string V) : count (λ _, True) m = zlen (map_to_list m).
Proof. unfold count. induction (map_to_list m) as [|x l IH]; [done|]. by rewrite zlen_filter_cons, zlen_cons, IH, decide_True, Z.add_comm. Qed.
Lemma count_filter_le {V} (P Q : string * V → Prop) `{∀ x, Decision (P x)} `{∀ x, Decision (Q x)} (m : gmap string V) :
  count P (filter Q m) <= count P m.
Proof.
  unfold count. rewrite map_filter_alt, (zlen_filter_perm P _ (filter Q (map_to_list m))).
  - induction (map_to_list m) as [|x l IH]; [done|]. rewrite (filter_cons Q).
    destruct (decide (Q x)); rewrite !zlen_filter_cons; case_decide; lia.
  - apply map_to_list_to_map. eapply sublist_NoDup; [apply (NoDup_fst_map_to_list m)|apply fmap_sublist, sublist_filter].
Qed.

Lemma owned_by_count o m : owned_by o m = count (λ kv, kv.2 = o) m.
Proof. done. Qed.
Lemma actives_count b : zlen (active_records b) = count (λ kr, active kr.2 = true) (records b).
Proof.
  unfold active_records, count. induction (map_to_list (records b)) as [|x l IH]; [done|].
  cbn [fmap list_fmap]. rewrite !zlen_filter_cons. repeat case_decide; cbn in *; lia.
Qed.

(** **** The bounds *)
Definition bounded (b : Book) : Prop :=
  zlen (map_to_list (pending b)) <= MAX_ACTIVE ∧ (∀ o, owned_by o (pending b) <= MAX_OWNER_ACTIVE)
  ∧ zlen (map_to_list (records b)) <= MAX_RECORDS.
Lemma prune_bounded now b : bounded b → bounded (prune now b).
Proof.
  intros (B1 & B2 & B3). split_and!; [done|done|]. rewrite <- count_all in *. cbn.
  etrans; [apply count_filter_le|done].
Qed.
Lemma pending_bounded b uuid o : bounded b →
  zlen (map_to_list (pending b)) < MAX_ACTIVE → owned_by o (pending b) < MAX_OWNER_ACTIVE →
  bounded (mkBook (records b) (<[uuid := o]> (pending b))).
Proof.
  intros (B1 & B2 & B3) Hn Ho. split_and!; [| |done]; cbn.
  - rewrite <- count_all in *. rewrite count_insert.
    pose proof (count_delete_le (λ _, True) uuid (pending b)). case_decide; lia.
  - intros o'. rewrite owned_by_count, count_insert. specialize (B2 o'). rewrite owned_by_count in *.
    pose proof (count_delete_le (λ kv, kv.2 = o') uuid (pending b)). case_decide as Heq; [cbn in Heq; subst o'|]; lia.
Qed.
Lemma release_bounded uuid b : bounded b → bounded (release uuid b).
Proof.
  intros (B1 & B2 & B3). split_and!; [| |done]; cbn.
  - rewrite <- count_all in *. etrans; [apply count_delete_le|done].
  - intros o. etrans; [apply count_delete_le|apply B2].
Qed.
Lemma oldest_elem l kr : oldest l = Some kr → kr ∈ l.
Proof.
  revert kr. induction l as [|x l IH]; intros kr; cbn; [done|].
  destruct (oldest l) as [y|]; [|intros [= <-]; by left].
  destruct (_ <=? _); intros [= <-]; [by left|right; by apply IH].
Qed.
Lemma oldest_None l : oldest l = None → l = [].
Proof. destruct l as [|x l]; cbn; [done|]. destruct (oldest l); [by destruct (_ <=? _)|done]. Qed.
Lemma evict_bound b :
  zlen (map_to_list (records b)) <= MAX_RECORDS → zlen (active_records b) < MAX_RECORDS →
  zlen (map_to_list (records (evict b))) < MAX_RECORDS.
Proof.
  intros Hb Ha. unfold evict. destruct (Z.leb_spec MAX_RECORDS (zlen (map_to_list (records b)))) as [Hl|Hl]; [|done].
  rewrite actives_count in Ha. destruct (oldest _) as [[id r]|] eqn:Ho; cbn.
  - apply oldest_elem, list_elem_of_filter in Ho as [_ Hin]. apply elem_of_map_to_list in Hin.
    rewrite <- !count_all in *. rewrite (count_delete _ id), Hin, decide_True in Hb, Hl by done. lia.
  - apply oldest_None in Ho. exfalso. rewrite <- count_all in Hl. unfold count in *.
    revert Ho Ha Hl. generalize (map_to_list (records b)). intros l Ho Ha Hl.
    assert (Heq : zlen (filter (λ kr, active kr.2 = true) l) = zlen (filter (λ _, True) l)); [|lia].
    clear Ha Hl. induction l as [|x l IH]; [done|]. rewrite filter_cons in Ho. rewrite !zlen_filter_cons.
    destruct (decide (active x.2 = false)) as [|Hx]; [done|]. rewrite IH by done.
    rewrite !decide_True; [done..|]. by destruct (active x.2).
Qed.
Lemma active_prune_le now b : zlen (active_records (prune now b)) <= zlen (active_records b).
Proof. rewrite !actives_count. apply count_filter_le. Qed.
Lemma evict_pending b : pending (evict b) = pending b.
Proof. unfold evict. destruct (_ <=? _); [|done]. by destruct (oldest _) as [[? ?]|]. Qed.
Lemma insert_records_bound k r (m : gmap string Record_) :
  zlen (map_to_list (<[k := r]> m)) <= zlen (map_to_list m) + 1.
Proof.
  rewrite <- !count_all, count_insert. pose proof (count_delete_le (λ _, True) k m). case_decide; lia.
Qed.
Lemma call_bounded c s : admissible c s → bounded (book s) → bounded (book (call c s)).
Proof.
  intros Ha Hb. destruct c as [now uuid o|uuid|now st i o|now id st act|now id o]; cbn [call book].
  - pose proof (prune_bounded now _ Hb) as Hp. unfold reserve. destruct (_ || _) eqn:Hc; cbn [snd]; [done|].
    bools. pose proof (zlen_nonneg (active_records (prune now (book s)))).
    pose proof (zlen_nonneg (filter (λ r, owner r = o) (active_records (prune now (book s))))).
    apply pending_bounded; [done|lia..].
  - by apply release_bounded.
  - destruct Ha as (_ & _ & Ha). destruct (prune_bounded now _ Hb) as (B1 & B2 & B3). unfold track, register.
    pose proof (active_prune_le now (book s)). cbn [book].
    assert (He : zlen (map_to_list (records (evict (prune now (book s))))) < MAX_RECORDS) by (apply evict_bound; [done|lia]).
    split_and!; cbn [records pending]; rewrite ?evict_pending; [done|done|].
    etrans; [apply insert_records_bound|lia].
  - unfold refresh. destruct (records (book s) !! id) as [r|] eqn:Hr; [|done]. destruct (active r); [|done].
    destruct (refreshed _ _ _ _) as [cur|]; [|done]. case_bool_decide; [done|]. cbn.
    destruct Hb as (B1 & B2 & B3). split_and!; [done|done|]. cbn.
    rewrite <- count_all in *. rewrite count_insert. rewrite (count_delete _ id), Hr in B3. by repeat case_decide.
  - unfold operation_status. destruct (_ || _); [done|]. repeat case_match; by apply prune_bounded.
Qed.
Lemma reachable_bounded s : reachable s → bounded (book s).
Proof.
  induction 1 as [|c s _ IH Ha]; [|by apply call_bounded]. split_and!; cbn; rewrite ?map_to_list_empty; try done.
Qed.

(** **** Publication order *)
(** Newest first: revisions grow, only the newest may be final, one owner. *)
Fixpoint ordered (l : list Record_) : Prop :=
  match l with
  | r :: (r' :: _) as l' => r_revision r' < r_revision r ∧ active r' = true ∧ owner r' = owner r ∧ ordered l'
  | _ => True
  end.
Record published_ok (s : Service) : Prop := {
  po_ordered : ∀ id, ordered (published_for id s);
  po_head : ∀ id r, records (book s) !! id = Some r → o_id (operation r) = id ∧ head (published_for id s) = Some r;
}.
Lemma published_same s b' : published_ok s →
  (∀ id r, records b' !! id = Some r → records (book s) !! id = Some r) → published_ok (mkService b' (published s)).
Proof. intros [Ho Hh] Hb. split; [done|]. intros id r Hr. by apply Hh, Hb. Qed.
Lemma prune_sub now b id r : records (prune now b) !! id = Some r → records b !! id = Some r.
Proof. cbn. intros Hr. by apply map_lookup_filter_Some in Hr as [? _]. Qed.
Lemma evict_sub b id r : records (evict b) !! id = Some r → records b !! id = Some r.
Proof.
  unfold evict. destruct (_ <=? _); [|done]. destruct (oldest _) as [[k x]|]; [|done]. cbn.
  intros Hr. by apply lookup_delete_Some in Hr as [_ ?].
Qed.
Lemma publish_ok s r b' : published_ok s → let id := o_id (operation r) in
  (∀ r', head (published_for id s) = Some r' → r_revision r' < r_revision r ∧ active r' = true ∧ owner r' = owner r) →
  records b' !! id = Some r → (∀ i x, i ≠ id → records b' !! i = Some x → records (book s) !! i = Some x) →
  published_ok (mkService b' (r :: published s)).
Proof.
  intros [Ho Hh] id Hr Hid Hother. split.
  - intros i. unfold published_for. cbn [published]. rewrite filter_cons. case_decide as Hi; [|apply Ho].
    fold (published_for i s). rewrite <- Hi. fold id. specialize (Ho id). specialize (Hr).
    destruct (published_for id s) as [|r' l]; [done|]. destruct (Hr r' eq_refl) as (? & ? & ?). done.
  - intros i x Hx. cbn [book] in Hx. unfold published_for. cbn [published]. rewrite filter_cons.
    destruct (decide (i = id)) as [->|Hne].
    + rewrite Hid in Hx. injection Hx as <-. by rewrite decide_True.
    + rewrite decide_False by (intros Heq; by apply Hne). by apply Hh, Hother.
Qed.
Lemma call_published c s : admissible c s → published_ok s → published_ok (call c s).
Proof.
  intros Ha Hs. destruct c as [now uuid o|uuid|now st i o|now id st act|now id o]; cbn [call].
  - apply published_same; [done|]. intros id r. unfold reserve. destruct (_ || _); apply prune_sub.
  - by apply published_same.
  - destruct Ha as (Hst & Hf & _). unfold track. set (cur := default i _).
    assert (Hcur : o_id cur = o_id i) by (subst cur; destruct st as [[op|]|]; cbn; [by apply Hst|done|done]).
    apply publish_ok; cbn [operation]; [done| | |].
    + rewrite Hcur, Hf. done.
    + unfold register. cbn [records]. by rewrite lookup_insert_eq.
    + intros k x Hk Hx. unfold register in Hx. cbn [records] in Hx. rewrite lookup_insert_ne in Hx by done.
      by eapply prune_sub, evict_sub.
  - unfold refresh. destruct (records (book s) !! id) as [r|] eqn:Hr; [|done]. destruct (active r) eqn:Hact; [|done].
    destruct (refreshed id st act r) as [cur|] eqn:Hcur; [|done]. case_bool_decide; [done|].
    destruct (po_head _ Hs id r Hr) as [Hid Hhd].
    assert (Hc : o_id cur = id).
    { unfold refreshed in Hcur. destruct st as [[op|]|]; [injection Hcur as <-; by apply Ha| |done].
      destruct act as [ids|]; [|done]. case_bool_decide; [done|]. by injection Hcur as <-. }
    apply publish_ok; cbn [operation r_revision owner]; rewrite ?Hc; [done| | |].
    + rewrite Hhd. intros r' [= <-]. split_and!; [lia|done|done].
    + cbn. by rewrite lookup_insert_eq.
    + intros k x Hk. cbn. by rewrite lookup_insert_ne.
  - unfold operation_status. destruct (_ || _); [done|].
    repeat case_match; (apply published_same; [done|]; intros ? ?; apply prune_sub).
Qed.
Lemma reachable_published s : reachable s → published_ok s.
Proof. induction 1 as [|c s _ IH Ha]; [by split|by apply call_published]. Qed.

(** Admission and retention are bounded: in every history of the registry
    at most 64 reservations are held, at most 16 by one owner, and at most
    256 records are kept, provided fewer than 256 operations are active at
    once. *)
Theorem registry_bounded s o :
  reachable s → zlen (map_to_list (pending (book s))) <= MAX_ACTIVE
  ∧ owned_by o (pending (book s)) <= MAX_OWNER_ACTIVE
  ∧ zlen (map_to_list (records (book s))) <= MAX_RECORDS.
Proof. intros Hr. destruct (reachable_bounded s Hr) as (? & ? & ?). done. Qed.

(** Operation events never go back: in every history, the events
    published for one operation have strictly growing revisions, all but the
    newest say "started", so a terminal outcome is published at most once
    and is final, all of them are visible to one owner only, and a record the
    registry still holds is the newest published one. *)
Theorem events_ordered s id :
  reachable s → ordered (published_for id s)
  ∧ ∀ r, records (book s) !! id = Some r → head (published_for id s) = Some r.
Proof. intros Hr. destruct (reachable_published s Hr) as [Ho Hh]. split; [done|]. intros r Hr'. by apply Hh. Qed.

Definition annotating : OperationResult := mkOperation "operation-1" "annotate" "started" "" None None.
Definition annotated : OperationResult := mkOperation "operation-1" "annotate" "completed" "" None None.
Definition tracked : Service := call (Track 0 (Ok None) annotating (Some "me"%string)) (mkService new []).
Definition settled : Service := call (Refresh 5 "operation-1" (Ok (Some annotated)) (Ok ∅)) tracked.
Lemma settled_reachable : reachable settled.
Proof.
  unfold settled, tracked. apply r_call; [apply r_call; [constructor|]|].
  - cbn. split_and!; [by intros ?|done|done].
  - cbn. intros op [= <-]. done.
Qed.
Lemma registry_bounded_witness : zlen (map_to_list (records (book settled))) <= MAX_RECORDS.
Proof. apply (registry_bounded settled None), settled_reachable. Defined.
Lemma events_ordered_witness :
  o_status ∘ operation <$> published_for "operation-1" settled = ["completed"; "started"]
  ∧ ordered (published_for "operation-1" settled).
Proof. split; [vm_compute; reflexivity|]. apply (events_ordered settled "operation-1"), settled_reachable. Defined.
End Book.

(** ** Wiping the history *)
Module WipeFlow.
Record WipeChallenge := mkChallenge { wc_owner : option string; wc_expires : Z }.
Abbreviation Challenges := (gmap string WipeChallenge).
Definition WIPE_TTL : Z := 30000.

Definition prepare_wipe (now inserted_at : Z) (uuid : string) (o : option string) (cs : Challenges) : string * Challenges :=
  let id := ("challenge-" ++ uuid)%string in
  (id, <[id := mkChallenge o (now + WIPE_TTL)]> (filter (λ kc, inserted_at < wc_expires kc.2) cs)).
(** The checks of [commit_wipe]; a challenge of the caller is consumed. *)
Definition take_challenge (now : Z) (id response : string) (o : option string) (cs : Challenges)
    : ApiResult unit * Challenges :=
  if negb (bool_decide (response = "WIPE")) then (Err (validation "wipe confirmation must be WIPE"), cs)
  else match cs !! id with
       | Some c =>
           if bool_decide (wc_owner c = o) then
             (if wc_expires c <=? now then Err (ApiError_new "stale-action" "wipe challenge expired") else Ok tt,
              delete id cs)
           else (Err (ApiError_new "stale-action" "wipe challenge is unknown or already used"), cs)
       | None => (Err (ApiError_new "stale-action" "wipe challenge is unknown or already used"), cs)
       end.
Definition release_owner (o : string) (cs : Challenges) : Challenges :=
  filter (λ kc, wc_owner kc.2 ≠ Some o) cs.
Definition challenge_owners (now : Z) (cs : Challenges) : list string * Challenges :=
  let cs := filter (λ kc, now < wc_expires kc.2) cs in
  (omap (λ kc, wc_owner kc.2) (map_to_list cs), cs).

Section commit.
Context {W : Type} `{Services W}.
(** [self.actions.wipe()]: the backend's mutation. *)
Variable wipe_history : W → ApiResult OperationResult * W.

Definition settings_error {A} (r : result string A) : ApiResult A := map_err (ApiError_new "settings-error") r.
Definition on_services {A} (f : W → A * W) (m : Manager) : A * Manager :=
  match f (services m) with
  | (a, w) => (a, mkManager (state m) (has_path m) (stopping m) w (log m))
  end.
(** [commit_wipe]; the boolean says that the edit leases were cleared. *)
Definition commit_wipe (now : Z) (id response : string) (o : option string) (cs : Challenges) (m : Manager (W:=W))
    : ApiResult OperationResult * Challenges * bool * Manager (W:=W) :=
  match take_challenge now id response o cs with
  | (Err e, cs) => (Err e, cs, false, m)
  | (Ok _, cs) =>
      match quiesce m with
      | (Err e, m) => (settings_error (Err e), cs, false, m)
      | (Ok _, m) =>
          match on_services wipe_history m with
          | (Err e, m) => (Err e, cs, true, m)
          | (Ok op, m) =>
              match resume m with
              | (Ok _, m) => (Ok op, cs, true, m)
              | (Err e, m) =>
                  (Ok (mkOperation (o_id op) (o_action op) (o_status op) (o_message op) (o_path op)
                         (Some ("History was wiped; capture remains stopped: " ++ e)%string)), cs, true, m)
              end
          end
      end
  end.

Lemma take_challenge_Ok now id response o cs u cs' : take_challenge now id response o cs = (Ok u, cs') →
  response = "WIPE" ∧ cs' = delete id cs ∧ ∃ c, cs !! id = Some c ∧ wc_owner c = o ∧ now < wc_expires c.
Proof.
  unfold take_challenge. case_bool_decide; cbn [negb]; [|done]. destruct (cs !! id) as [c|] eqn:Hc; [|done].
  case_bool_decide; [|done]. destruct (Z.leb_spec (wc_expires c) now); [done|]. intros [= _ <-]. eauto 10.
Qed.
Lemma take_challenge_gone now id response o cs : cs !! id = None →
  ∃ e, take_challenge now id response o cs = (Err e, cs).
Proof. intros Hc. unfold take_challenge. case_bool_decide; cbn [negb]; [rewrite Hc|]; eauto. Qed.
Lemma quiesce_log m u m' : quiesce (W:=W) m = (Ok u, m') →
  ∃ l, log m' = PolicyClosed (Ok tt) :: Commanded true 0 (Ok tt) :: l.
Proof.
  unfold quiesce, quiesce_locked, set_paused_svc, close_admission, call_service, mbind, M_bind, M_ignore. cbn.
  destruct (svc_set_paused true 0 (services m)) as [[[]|] w1]; cbn; [|done].
  destruct (svc_close w1) as [[[]|] w2]; cbn; [|done]. intros [= _ <-]. cbn. eauto.
Qed.

(** C25 History is wiped only on a confirmed, owned, fresh and unused
    challenge, with capture stopped first: the backend wipe is reached only
    if the response is "WIPE", the caller prepared that challenge and it
    has not expired, and the controller has acknowledged a pause and the
    store has closed admission; the challenge is spent either way, a second
    commit changes nothing, and a foreign caller can neither wipe nor spend
    it. *)
Theorem wipe_guarded now id response o cs m r cs' wiped m' :
  commit_wipe now id response o cs m = (r, cs', wiped, m') →
  (wiped = true →
   response = "WIPE" ∧ (∃ c, cs !! id = Some c ∧ wc_owner c = o ∧ now < wc_expires c) ∧ cs' = delete id cs
   ∧ ∃ m1 l, quiesce m = (Ok tt, m1) ∧ log m1 = PolicyClosed (Ok tt) :: Commanded true 0 (Ok tt) :: l)
  ∧ (wiped = false → is_ok r = false ∧ (m' = m ∨ snd (quiesce m) = m'))
  ∧ (wiped = true → ∀ now2 response2 o2 m2, ∃ e, commit_wipe now2 id response2 o2 cs' m2 = (Err e, cs', false, m2))
  ∧ (∀ c, cs !! id = Some c → wc_owner c ≠ o → cs' = cs ∧ wiped = false ∧ m' = m).
Proof.
  intros Hc. unfold commit_wipe in Hc. destruct (take_challenge now id response o cs) as [[u|e] cs1] eqn:Ht.
  - apply take_challenge_Ok in Ht as (Hw & -> & c & Hid & Ho & Hx).
    assert (Hforeign : ∀ c', cs !! id = Some c' → wc_owner c' ≠ o → False) by (intros; congruence).
    destruct (quiesce m) as [[[]|e] m1] eqn:Hq.
    + assert (cs' = delete id cs ∧ wiped = true) as [-> ->].
      { destruct (on_services wipe_history m1) as [[op|e] m2]; [|by injection Hc].
        destruct (resume m2) as [[v|e] m3]; by injection Hc. }
      destruct (quiesce_log _ _ _ Hq) as [l Hl]. split_and!; [|done| |naive_solver].
      * intros _. split_and!; [done|eauto|done|eauto].
      * intros _ now2 response2 o2 m2.
        destruct (take_challenge_gone now2 id response2 o2 (delete id cs)) as [e He]; [by rewrite lookup_delete_eq|].
        exists e. unfold commit_wipe. by rewrite He.
    + injection Hc as <- <- <- <-. split_and!; [done|by auto|done|naive_solver].
  - injection Hc as <- <- <- <-. split_and!; [done|by auto|done|].
    intros c Hid Ho. split_and!; [|done|done]. unfold take_challenge in Ht. rewrite Hid in Ht.
    case_bool_decide; cbn [negb] in Ht; [|by injection Ht]. by rewrite bool_decide_false in Ht by done; injection Ht.
Qed.
End commit.

#[local] Existing Instance toy_services.
Definition wipe_ok (w : Toy) : ApiResult OperationResult * Toy := (Ok (with_id "operation-1" "wipe" "completed" ""), w).
Definition challenges : Challenges := {["challenge-1" := mkChallenge (Some "me"%string) 30000]}.
Definition wiping : ApiResult OperationResult * Challenges * bool * Manager (W:=Toy) :=
  commit_wipe wipe_ok 10 "challenge-1" "WIPE" (Some "me"%string) challenges (life None toy_start []).
Lemma wipe_guarded_witness :
  snd (fst wiping) = true ∧ ∃ m1 l, quiesce (life None toy_start []) = (Ok tt, m1)
    ∧ log m1 = PolicyClosed (Ok tt) :: Commanded true 0 (Ok tt) :: l.
Proof.
  destruct wiping as [[[r cs'] w] m'] eqn:Hw. assert (Ht : w = true) by (vm_compute in Hw; congruence).
  destruct (wipe_guarded wipe_ok 10 "challenge-1" "WIPE" (Some "me"%string) challenges (life None toy_start []) r cs' w m' Hw)
    as [H _].
  split; [exact Ht|]. destruct (H Ht) as (_ & _ & _ & Hq). exact Hq.
Defined.
End WipeFlow.
