(* ===== verification/Preferences.v ===== *)
(** * Preferences: the settings requests of [api.rs], and
    [retention_state] of [settings.rs].

    What a client is told of the settings: the saved value, what was observed
    of capture, and the limits the store really applies. *)
From S2P Require Import Prelude Text Externals Model Content Sql Tables Settings Api.
Local Open Scope Z_scope.

(** ** What is reported of the limits *)
Record RetentionLimits := mkLimits { l_max_entries : Z; l_max_favorites : Z; l_max_entry_bytes : Z; l_max_total_bytes : Z }.
Definition limits_of (p : StorePolicy) : RetentionLimits :=
  mkLimits (max_entries p) (max_favorites p) (max_entry_bytes p) (max_total_bytes p).
Record RetentionState := mkRetention {
  desired_max_entries : Z;
  desired_max_favorites : Z;
  desired_max_entry_bytes : Z;
  desired_max_total_bytes : Z;
  effective : option RetentionLimits;
  synchronized : bool;
  retention_error : option string;
}.
(** What [get_settings] answers. *)
Record SettingsReport := mkReport { r_settings : ClipboardSettings; r_capture : CaptureState; r_retention : RetentionState }.

Section preferences.
Context {W : Type} `{Services W}.
#[local] Abbreviation Manager := (Settings.Manager (W:=W)).
#[local] Abbreviation M := (Settings.M (W:=W)).
Implicit Type m : Manager.

Definition retention_state : M RetentionState :=
  desired ← preferences;
  result ← M_try policy_svc;
  mret (mkRetention (cs_max_entries desired) (cs_max_favorites desired) (cs_max_entry_bytes desired) MAX_TOTAL_BYTES
          (limits_of <$> ok_of result)
          (match result with Ok limits => limits_match limits desired | Err _ => false end)
          (err_of result)).

(** ** Requests *)
Definition request {A} (c : M A) (m : Manager) : ApiResult A * Manager := let '(r, m1) := c m in (WipeFlow.settings_error r, m1).
Definition seen {A} (f : Manager → A) : M A := λ m, (Ok (f m), m).
Definition get_settings : Manager → ApiResult SettingsReport * Manager :=
  request (_ ← M_ignore refresh_capture;
           settings ← get;
           capture ← seen capture_state;
           retention ← retention_state;
           mret (mkReport settings capture retention)).
Definition update_settings (u : SettingsUpdate) : Manager → ApiResult ClipboardSettings * Manager := request (update u).
(** [capture.paused] and [capture.private_mode], and the settings. *)
Definition set_paused_request (paused private : bool) : Manager → ApiResult (bool * bool * ClipboardSettings) * Manager :=
  request (settings ← set_paused paused private; mret (capture_paused settings, private_mode settings, settings)).
Definition max_entry_bytes_request : Manager → ApiResult Z * Manager :=
  request (settings ← get; mret (cs_max_entry_bytes settings)).
(** At the start: both steps, whatever the first did. *)
Definition initialize : M unit := _ ← M_ignore initialize_retention; M_ignore reconcile_capture.

Lemma request_ok {A} (c : M A) m a m' : request c m = (Ok a, m') → c m = (Ok a, m').
Proof. unfold request, WipeFlow.settings_error. destruct (c m) as [[x|e] m1]; cbn; congruence. Qed.

(** A preference that can be read leaves the manager as it was. *)
Lemma preferences_known m v m1 : preferences m = (Ok v, m1) → m1 = m ∧ v = value (state m) ∧ stopping m = false ∧ load_error (state m) = None.
Proof.
  unfold preferences, mbind, M_bind, validated_state. destruct (stopping m) eqn:Hs; [done|].
  destruct (load_error (state m)) eqn:He; [done|]. by intros [= <- <-].
Qed.
Lemma verify_run d m :
  ∃ o r w, verify_capture d m = (r, mkManager (state m) (has_path m) (stopping m) w (Observed o :: log m)) ∧ (is_ok r = true ↔ o = Ok d).
Proof.
  unfold verify_capture. rewrite bind_run. unfold is_paused_svc, call_service.
  destruct (svc_is_paused (services m)) as [[b|e] w].
  - exists (Ok b), (if bool_decide (b = d) then Ok tt else Err "Capture service does not match the saved preference"%string), w.
    destruct (bool_decide_reflect (b = d)) as [->|Hne]; (split; [done|]); cbn; naive_solver.
  - exists (Err e), (Err e), w. split; [done|]. cbn. naive_solver.
Qed.
Lemma refresh_log m :
  stopping m = false → load_error (state m) = None →
  ∃ o r, let m1 := snd (refresh_capture m) in
    log m1 = Recorded r :: Observed o :: log m ∧ state m1 = mkState (value (state m)) None (is_ok r) (err_of r)
    ∧ stopping m1 = false ∧ (is_ok r = true ↔ o = Ok (capture_paused (value (state m)))).
Proof.
  intros Hs He. unfold refresh_capture. rewrite bind_run.
  assert (Hp : preferences m = (Ok (value (state m)), m)) by (unfold preferences, mbind, M_bind, validated_state; by rewrite Hs, He).
  rewrite Hp, try_run. destruct (verify_run (capture_paused (value (state m))) m) as (o & r & w & -> & Ho).
  exists o, r. cbn. by rewrite He.
Qed.
Lemma limits_match_iff p v :
  limits_match p v = true ↔ limits_of p = mkLimits (cs_max_entries v) (cs_max_favorites v) (cs_max_entry_bytes v) MAX_TOTAL_BYTES.
Proof.
  unfold limits_match, limits_of. rewrite !andb_true_iff, !Z.eqb_eq. split; [by intros (((-> & ->) & ->) & ->)|by intros [= -> -> -> ->]].
Qed.
(** The settings answer of a request nothing else interleaves with: the saved
    preference; capture as it was observed during this very request, and
    reported as unverified when it does not match; and the limits the store
    answered during this request, said to be synchronized exactly when they
    are the saved ones. *)
Theorem settings_reported m s m' :
  get_settings m = (Ok s, m') →
  ∃ o r p, log m' = PolicyRead p :: Recorded r :: Observed o :: log m
  ∧ value (state m') = value (state m)
  ∧ r_capture s = capture_state m'
  ∧ (verified (r_capture s) = true ↔ o = Ok (capture_paused (value (state m))))
  ∧ (∀ b, reported_paused (r_capture s) = Some b → o = Ok b ∧ b = capture_paused (r_settings s))
  ∧ (reported_paused (r_capture s) = None → capture_paused (r_settings s) = false ∧ private_mode (r_settings s) = false)
  ∧ effective (r_retention s) = limits_of <$> ok_of p ∧ retention_error (r_retention s) = err_of p
  ∧ (synchronized (r_retention s) = true ↔
       effective (r_retention s) = Some (mkLimits (cs_max_entries (r_settings s)) (cs_max_favorites (r_settings s)) (cs_max_entry_bytes (r_settings s)) MAX_TOTAL_BYTES)).
Proof.
  intros Hg%request_ok. rewrite ignore_run in Hg. 
  assert (Hm : stopping m = false ∧ load_error (state m) = None).
  { destruct (preferences m) as [[v|e] m1] eqn:Hp; [by apply preferences_known in Hp as (_ & _ & ? & ?)|].
    assert (Hr : snd (refresh_capture m) = m). { unfold refresh_capture. rewrite bind_run, Hp. cbn. rewrite preferences_run in Hp. congruence. }
    rewrite Hr, bind_run in Hg. unfold get, preferences in *. rewrite bind_run in *. destruct (validated_state m) as [[st|x] m2]; done. }
  destruct Hm as [Hs He]. destruct (refresh_log m Hs He) as (o & r & Hlog & Hst & Hstop & Ho).
  destruct (snd (refresh_capture m)) as [st hp sp sv lg]. cbn in Hlog, Hst, Hstop. subst st sp lg.
  unfold get, retention_state, preferences, validated_state, seen, M_try, policy_svc, call_service, mbind, M_bind, mret, M_ret in Hg. cbn in Hg.
  destruct (svc_policy sv) as [p w] eqn:Hp. injection Hg as <- <-. exists o, r, p. cbn.
  assert (Hsync : ∀ v, (match p with Ok limits => limits_match limits v | Err _ => false end = true)
    ↔ limits_of <$> ok_of p = Some (mkLimits (cs_max_entries v) (cs_max_favorites v) (cs_max_entry_bytes v) MAX_TOTAL_BYTES)).
  { intros v. destruct p as [limits|e]; cbn; [|done]. rewrite limits_match_iff. split; [by intros ->|intros Hx; by apply (inj Some) in Hx]. }
  rewrite Hsync. destruct (is_ok r) eqn:Hr; cbn; split_and!; try done.
  intros b [= <-]. split; [by apply Ho|done].
Qed.
(** A life that starts with [initialize] is one of [Settings.life]: its
    theorems hold from the start of the daemon on. *)
Theorem initialize_life path (w : W) os :
  foldl (λ m o, run_op o m) (snd (initialize (new_manager path w))) os = life path w (ReconcileCapture :: os).
Proof. unfold initialize. rewrite ignore_run. done. Qed.
(** A pause that is answered was observed, and is what is answered. *)
Theorem pause_answered path (w : W) os paused private a m' :
  set_paused_request paused private (life path w os) = (Ok a, m') →
  ∃ s, a = (capture_paused s, private_mode s, s) ∧ set_paused paused private (life path w os) = (Ok s, m')
    ∧ capture_paused s = paused ∧ private_mode s = paused && private ∧ verified (capture_state m') = true.
Proof.
  intros Hr%request_ok. rewrite bind_run in Hr. destruct (set_paused _ _ _) as [[s|e] m1] eqn:Hs; [|done].
  injection Hr as <- <-. exists s. split; [done|]. split; [done|].
  destruct (pause_acknowledged path w os paused private s m1 Hs) as (? & ? & _ & Hp & _). split; [done|]. split; [done|].
  unfold capture_state in *. cbn in *. by destruct (capture_verified (state m1)).
Qed.
End preferences.

(** ** A run *)
#[local] Existing Instance toy_services.
Definition toy_report : ApiResult SettingsReport * Settings.Manager (W:=Toy) := get_settings (toy_life [ReconcileCapture]).
(** Capture is paused as saved; the store still has its initial limits. *)
Example settings_reported_run :
  ∃ s m, toy_report = (Ok s, m) ∧ reported_paused (r_capture s) = Some true ∧ capture_paused (r_settings s) = true.
Proof.
  destruct toy_report as [[s|e] m] eqn:Hr; [|vm_compute in Hr; discriminate Hr]. exists s, m. split; [done|].
  assert (Hp : reported_paused (r_capture s) = Some true) by (vm_compute in Hr; injection Hr as <- _; reflexivity).
  destruct (settings_reported (toy_life [ReconcileCapture]) s m Hr) as (o & r & p & _ & _ & _ & _ & Hb & _).
  split; [done|]. symmetry. by apply (Hb true).
Qed.
