(* ===== verification/Subscription.v ===== *)
(** * Subscription: the event streams of the daemon, [daemon/subscription.rs].

    One observer polls the history's change token through the shared clock and
    broadcasts what is new; every subscriber starts from a baseline of its own
    and then receives the broadcast, which may overwrite what a slow receiver
    has not read.  The observer's tick has two steps, the observation and the
    broadcast, and all tasks interleave freely.  Operation and session events
    are forwarded to the owner they concern only. *)
From S2P Require Import Prelude Text Model Settings Api.
Local Open Scope Z_scope.

(** ** Streams, [protocol.rs] *)
Definition HISTORY : string := "clipboard.history.changed".
Definition CURRENT : string := "clipboard.current.changed".
Definition OPERATION : string := "clipboard.operation".
Definition CAPTURE : string := "clipboard.capture.changed".
Definition SESSION : string := "clipboard.session".
Definition STREAMS : list string := [HISTORY; CURRENT; OPERATION; CAPTURE; SESSION].

Record RequestedStreams := mkRequested { history : bool; current : bool; lifecycle : bool }.
Definition parse (streams : list string) : option RequestedStreams :=
  if bool_decide (streams = []) || existsb (λ x, negb (memb x STREAMS)) streams then None
  else
    let wants target := memb target streams in
    Some (mkRequested (wants HISTORY) (wants CURRENT) (wants OPERATION || wants CAPTURE || wants SESSION)).
Definition watches_clipboard (r : RequestedStreams) : bool := history r || current r.

(** ** Observations *)
(** [observe_history]'s value: the token and the clock's revision, under the
    epoch of the process. *)
Record Observation := mkObservation { obs_token : Z; obs_revision : Z }.
#[export] Instance Observation_eq_dec : EqDecision Observation.
Proof. solve_decision. Defined.
Definition observe_history (token : BackendResult Z) (c : Clock.Clock) : ApiResult Observation * Clock.Clock :=
  match token with
  | Err e => (Err (from_backend e), Clock.invalidate c)
  | Ok t =>
      match Clock.observe t c with
      | Ok (r, c') => (Ok (mkObservation t r), c')
      | Err e => (Err e, c)
      end
  end.

Inductive HistoryUpdate := Changed (o : Observation) | Unavailable (e : ApiError).
Record HistoryState := mkHistoryState { previous : option Observation; unavailable : bool }.
Definition default_state : HistoryState := mkHistoryState None false.
Definition update (r : ApiResult Observation) (s : HistoryState) : option HistoryUpdate * HistoryState :=
  match r with
  | Ok o =>
      if unavailable s || negb (bool_decide (previous s = Some o))
      then (Some (Changed o), mkHistoryState (Some o) false)
      else (None, mkHistoryState (previous s) false)
  | Err e => if unavailable s then (None, s) else (Some (Unavailable e), mkHistoryState (previous s) true)
  end.

(** ** What a subscriber is sent *)
Inductive Delivery :=
| Initial (u : HistoryUpdate)            (* its own baseline *)
| Forwarded (u : HistoryUpdate)
| Lagged (skipped : Z).
Inductive EventBody :=
| Seen (o : Observation) (initial : bool)
| Skipped (n : Z)                        (* change: reset, reason: lagged *)
| Failed (e : ApiError).
(** [emit_update] and [emit_requested]. *)
Definition emit_update (r : RequestedStreams) (d : Delivery) : list (string * string * EventBody) :=
  let '(on_history, on_current, body) :=
    match d with
    | Initial (Changed o) => ("reset", "changed", Seen o true)
    | Forwarded (Changed o) => ("reset", "changed", Seen o false)
    | Lagged n => ("reset", "changed", Skipped n)
    | Initial (Unavailable e) | Forwarded (Unavailable e) => ("unavailable", "unavailable", Failed e)
    end%string in
  (if history r then [(HISTORY, on_history, body)] else []) ++ (if current r then [(CURRENT, on_current, body)] else []).

(** ** The observer and the subscribers *)
Record Subscriber := mkSubscriber {
  started : bool;                        (* its baseline was sent *)
  pending : list HistoryUpdate;          (* broadcast and not yet received, oldest first *)
  lost : Z;                              (* overwritten and not yet reported *)
  delivered : list Delivery;             (* newest first *)
}.
Record System := mkSystem {
  clock : Clock.Clock;
  observer : HistoryState;
  observed : option (ApiResult Observation);   (* of the tick under way *)
  subscribers : gmap nat Subscriber;
}.
Definition initial_system : System := mkSystem Clock.new default_state None ∅.

Inductive Step :=
| Subscribe (i : nat)                    (* the receiver exists *)
| Unsubscribe (i : nat)
| Baseline (i : nat) (token : BackendResult Z)
| Receive (i : nat)
| Overwrite (i : nat)                    (* the channel was full *)
| Observe (token : BackendResult Z)      (* observe_history_tick *)
| Broadcast
| OtherClient (e : Clock.Event).         (* requests that use the clock *)

Definition with_subscribers (m : gmap nat Subscriber) (s : System) : System :=
  mkSystem (clock s) (observer s) (observed s) m.
Definition with_clock (c : Clock.Clock) (s : System) : System :=
  mkSystem c (observer s) (observed s) (subscribers s).
Definition enqueue (u : option HistoryUpdate) (b : Subscriber) : Subscriber :=
  match u with
  | Some u => mkSubscriber (started b) (pending b ++ [u]) (lost b) (delivered b)
  | None => b
  end.
Definition baseline_of (r : ApiResult Observation) : HistoryUpdate :=
  match r with Ok o => Changed o | Err e => Unavailable e end.
Definition step (e : Step) (s : System) : option System :=
  match e with
  | Subscribe i =>
      match subscribers s !! i with
      | None => Some (with_subscribers (<[i := mkSubscriber false [] 0 []]> (subscribers s)) s)
      | Some _ => None
      end
  | Unsubscribe i => Some (with_subscribers (delete i (subscribers s)) s)
  | Baseline i token =>
      b ← subscribers s !! i;
      if started b then None
      else
        let '(r, c) := observe_history token (clock s) in
        Some (with_clock c (with_subscribers
          (<[i := mkSubscriber true (pending b) (lost b) [Initial (baseline_of r)]]> (subscribers s)) s))
  | Receive i =>
      b ← subscribers s !! i;
      if negb (started b) then None
      else if 0 <? lost b then
        Some (with_subscribers (<[i := mkSubscriber true (pending b) 0 (Lagged (lost b) :: delivered b)]> (subscribers s)) s)
      else
        match pending b with
        | [] => None
        | u :: l => Some (with_subscribers (<[i := mkSubscriber true l 0 (Forwarded u :: delivered b)]> (subscribers s)) s)
        end
  | Overwrite i =>
      b ← subscribers s !! i;
      match pending b with
      | [] => None
      | _ :: l => Some (with_subscribers (<[i := mkSubscriber (started b) l (lost b + 1) (delivered b)]> (subscribers s)) s)
      end
  | Observe token =>
      match observed s with
      | Some _ => None
      | None =>
          if bool_decide (subscribers s = ∅) then Some (mkSystem (clock s) default_state None (subscribers s))
          else let '(r, c) := observe_history token (clock s) in
               Some (mkSystem c (observer s) (Some r) (subscribers s))
      end
  | Broadcast =>
      r ← observed s;
      let '(u, h) := update r (observer s) in
      Some (mkSystem (clock s) h None (enqueue u <$> subscribers s))
  | OtherClient e => c ← Clock.run [e] (clock s); Some (with_clock c s)
  end.
Inductive reachable : System → Prop :=
| reachable_init : reachable initial_system
| reachable_step e s s' : reachable s → step e s = Some s' → reachable s'.

(** ** No subscriber is left behind *)

(** What a subscriber knows once it has received what was sent to it. *)
Inductive News := Nothing | Reload | Knows (u : HistoryUpdate).
Definition news (b : Subscriber) : News :=
  match last (pending b) with
  | Some u => Knows u
  | None =>
      if 0 <? lost b then Reload
      else match delivered b with
           | [] => Nothing
           | (Initial u | Forwarded u) :: _ => Knows u
           | Lagged _ :: _ => Reload
           end
  end.
(** Nobody observed anything else since [o], nor was there an outage. *)
Definition still (c : Clock.Clock) (o : Observation) : Prop :=
  Clock.token c = Some (obs_token o) ∧ Clock.revision c = obs_revision o.
#[export] Instance still_dec c o : Decision (still c o).
Proof. unfold still. apply _. Defined.
Definition informed (s : System) (b : Subscriber) : Prop :=
  ∀ o, previous (observer s) = Some o → unavailable (observer s) = false → still (clock s) o →
    news b = Reload ∨ news b = Knows (Changed o) ∨ (started b = false ∧ news b = Nothing).

Definition not_exhausted (c : Clock.Clock) : Prop := Clock.revision c < Clock.MAX_REVISION.
(** A clock that moved past [o] never comes back to it. *)
Definition passes (c c' : Clock.Clock) : Prop :=
  Clock.revision c <= Clock.revision c'
  ∧ ∀ o, obs_revision o <= Clock.revision c → still c' o → still c o.
#[export] Instance passes_refl : Reflexive passes.
Proof. intros c. split; [lia|done]. Qed.
Lemma invalidate_passes c : passes c (Clock.invalidate c).
Proof. split; [cbn; lia|]. intros o _ [Ht _]. done. Qed.
Lemma observe_passes t c r c' :
  Clock.observe t c = Ok (r, c') → passes c c' ∧ r = Clock.revision c' ∧ Clock.token c' = Some t.
Proof.
  intros (-> & Ht & Hc)%Clock.observe_Ok. split_and!; [|done..].
  destruct Hc as [[_ ->]|(_ & Hr & _)]; [done|]. split; [lia|]. intros o Ho [_ Hs]. lia.
Qed.
Lemma observe_history_spec token c r c' :
  observe_history token c = (r, c') →
  passes c c'
  ∧ match r with
    | Ok o => still c' o
    | Err _ => Clock.token c' = None ∨ ¬ not_exhausted c'
    end.
Proof.
  unfold observe_history. destruct token as [t|e].
  - destruct (Clock.observe t c) as [[r' c1]|e] eqn:Ho; intros [= <- <-].
    + apply observe_passes in Ho as (? & -> & ?). done.
    + split; [done|]. right. revert Ho. unfold Clock.observe, Clock.advance, not_exhausted.
      case_bool_decide; [done|]. destruct (Z.leb_spec Clock.MAX_REVISION (Clock.revision c)); [lia|done].
  - intros [= <- <-]. split; [apply invalidate_passes|by left].
Qed.
Lemma run_passes e c c' : Clock.run [e] c = Some c' → passes c c'.
Proof.
  destruct e as [t|]; cbn; [|intros [= <-]; apply invalidate_passes].
  destruct (Clock.observe t c) as [[r c1]|] eqn:Ho; [|done]. intros [= <-]. by apply observe_passes in Ho as [? _].
Qed.
Lemma still_eq c o o' : still c o → still c o' → o = o'.
Proof. destruct o, o'. unfold still. cbn. intros [? ?] [? ?]. f_equal; congruence. Qed.

Record sound (s : System) : Prop := {
  sd_previous : ∀ o, previous (observer s) = Some o → obs_revision o <= Clock.revision (clock s);
  sd_observed : ∀ o, observed s = Some (Ok o) → obs_revision o <= Clock.revision (clock s);
  sd_lost : ∀ i b, subscribers s !! i = Some b → 0 <= lost b;
  sd_delivered : ∀ i b, subscribers s !! i = Some b → started b = false → delivered b = [];
  sd_informed : not_exhausted (clock s) → ∀ i b, subscribers s !! i = Some b → informed s b;
}.

(** A step of the clock keeps everyone informed. *)
Lemma informed_passes s c ob m b :
  passes (clock s) c → (∀ o, previous (observer s) = Some o → obs_revision o <= Clock.revision (clock s)) →
  informed s b → informed (mkSystem c (observer s) ob m) b.
Proof. intros [_ Hp] Hle Hi o Ho Hu Hs. apply Hi; [done..|]. apply Hp; [by apply Hle|done]. Qed.
Lemma news_baseline b r :
  news (mkSubscriber true (pending b) (lost b) [Initial (baseline_of r)])
  = match last (pending b) with
    | Some u => Knows u
    | None => if 0 <? lost b then Reload else Knows (baseline_of r)
    end.
Proof. done. Qed.
Lemma news_receive b u l :
  pending b = u :: l → 0 <= lost b → (0 <? lost b) = false →
  news (mkSubscriber true l 0 (Forwarded u :: delivered b)) = news b.
Proof.
  intros Hp Hl Hz. unfold news. rewrite Hp. cbn [pending lost delivered]. destruct l as [|v l] using rev_ind; [done|].
  rewrite app_comm_cons, !last_snoc. done.
Qed.
Lemma news_lag b : 0 <= lost b → (0 <? lost b) = true →
  news (mkSubscriber true (pending b) 0 (Lagged (lost b) :: delivered b)) = news b.
Proof. intros _ Hz. unfold news. cbn [pending lost delivered]. destruct (last (pending b)); [done|]. by rewrite Hz. Qed.
Lemma news_overwrite b u l :
  pending b = u :: l → 0 <= lost b →
  news (mkSubscriber (started b) l (lost b + 1) (delivered b)) = news b
  ∨ news (mkSubscriber (started b) l (lost b + 1) (delivered b)) = Reload.
Proof.
  intros Hp Hl. unfold news. rewrite Hp. cbn [pending lost delivered]. destruct l as [|v l] using rev_ind.
  - right. cbn. by rewrite (proj2 (Z.ltb_lt 0 (lost b + 1))) by lia.
  - left. by rewrite app_comm_cons, !last_snoc.
Qed.
Lemma last_some_news b u : last (pending b) = Some u → news b = Knows u.
Proof. unfold news. by intros ->. Qed.

Lemma sound_subscribers s m :
  sound s →
  (∀ i b, m !! i = Some b → 0 <= lost b ∧ (started b = false → delivered b = [])
     ∧ (not_exhausted (clock s) → informed s b)) →
  sound (with_subscribers m s).
Proof.
  intros [A B C D E] Hm. split; cbn; [done|done|..].
  - intros i b Hb. by apply (Hm i b Hb).
  - intros i b Hb. by apply (Hm i b Hb).
  - intros Hx i b Hb. by apply (Hm i b Hb).
Qed.
Lemma sound_insert s i b :
  sound s → 0 <= lost b → (started b = false → delivered b = []) → (not_exhausted (clock s) → informed s b) →
  sound (with_subscribers (<[i := b]> (subscribers s)) s).
Proof.
  intros Hs Hl Hd Hi. apply sound_subscribers; [done|]. intros j x [[_ <-]|[_ Hx]]%lookup_insert_Some; [done|].
  destruct Hs as [A B C D E]. split_and!; eauto.
Qed.
Lemma sound_clock s c ob :
  sound s → passes (clock s) c → (∀ o, ob = Some (Ok o) → obs_revision o <= Clock.revision c) →
  sound (mkSystem c (observer s) ob (subscribers s)).
Proof.
  intros [A B C D E] Hp Hob. pose proof Hp as [Hr _]. split; cbn; try done.
  - intros o Ho. specialize (A o Ho). lia.
  - intros Hx i b Hb. unfold not_exhausted in *. apply informed_passes; [done|done|]. apply (E ltac:(lia) i b Hb).
Qed.
Lemma baseline_sound s i b token r c :
  sound s → subscribers s !! i = Some b → started b = false → observe_history token (clock s) = (r, c) →
  sound (with_clock c (with_subscribers
    (<[i := mkSubscriber true (pending b) (lost b) [Initial (baseline_of r)]]> (subscribers s)) s)).
Proof.
  intros Hs Hb Hst Ho. apply observe_history_spec in Ho as [Hp Hr].
  set (s1 := mkSystem c (observer s) (observed s) (subscribers s)).
  assert (H1 : sound s1).
  { apply sound_clock; [done|done|]. intros o Hob. pose proof (sd_observed s Hs o Hob). destruct Hp. lia. }
  change (sound (with_subscribers (<[i := mkSubscriber true (pending b) (lost b) [Initial (baseline_of r)]]> (subscribers s1)) s1)).
  apply sound_insert; [done|by apply (sd_lost s Hs i b)|done|].
  intros Hx o Hprev Hun Hstill. rewrite news_baseline.
  pose proof (sd_informed s1 H1 Hx i b Hb o Hprev Hun Hstill) as Hi.
  destruct (last (pending b)) as [u|] eqn:Hlast.
  { rewrite (last_some_news b u) in Hi by done. destruct Hi as [Hi|[Hi|[_ Hi]]]; [done|by right; left|done]. }
  destruct (0 <? lost b); [by left|]. right. left. destruct r as [o'|e]; cbn.
  - f_equal. f_equal. by apply (still_eq c).
  - destruct Hr as [Hr|Hr]; [|done]. destruct Hstill as [Ht _]. cbn in Ht. congruence.
Qed.
Lemma receive_sound s i b u l :
  sound s → subscribers s !! i = Some b → started b = true → (0 <? lost b) = false → pending b = u :: l →
  sound (with_subscribers (<[i := mkSubscriber true l 0 (Forwarded u :: delivered b)]> (subscribers s)) s).
Proof.
  intros Hs Hb Hst Hz Hp. apply sound_insert; [done|done|done|]. intros Hx o Ho Hu Hstill.
  rewrite (news_receive b u l) by (done || by apply (sd_lost s Hs i b)).
  destruct (sd_informed s Hs Hx i b Hb o Ho Hu Hstill) as [?|[?|[? _]]]; [by left|by right; left|congruence].
Qed.
Lemma broadcast_sound s r u h :
  sound s → observed s = Some r → update r (observer s) = (u, h) →
  sound (mkSystem (clock s) h None (enqueue u <$> subscribers s)).
Proof.
  intros [A B C D E] Hr Hu. unfold update in Hu.
  assert (Hen : ∀ i x, (enqueue u <$> subscribers s) !! i = Some x →
    ∃ b, subscribers s !! i = Some b ∧ x = enqueue u b ∧ started x = started b ∧ lost x = lost b ∧ delivered x = delivered b).
  { intros i x Hx. apply lookup_fmap_Some in Hx as (b & <- & Hb). exists b. by destruct u. }
  split; cbn.
  - intros o. destruct r as [o'|e].
    + destruct (unavailable (observer s) || _) eqn:Hc; injection Hu as <- <-; cbn; [intros [= ->]; by apply B|apply A].
    + destruct (unavailable (observer s)); injection Hu as <- <-; apply A.
  - done.
  - intros i x (b & Hb & _ & _ & -> & _)%Hen. by apply (C i).
  - intros i x (b & Hb & _ & Hst & _ & Hd)%Hen. rewrite Hst, Hd. by apply (D i).
  - intros Hx i x (b & Hb & -> & _)%Hen o Ho Hun Hstill. cbn in Ho, Hun, Hstill. destruct r as [o'|e].
    + destruct (unavailable (observer s) || _) eqn:Hc; injection Hu as <- <-; cbn in *.
      * injection Ho as ->. right. left. unfold news. cbn. by rewrite last_snoc.
      * apply orb_false_iff in Hc as [Hc _]. by apply (E Hx i b Hb o).
    + destruct (unavailable (observer s)) eqn:Hc; injection Hu as <- <-; cbn in *; congruence.
Qed.
Lemma subscription_step e s s' : step e s = Some s' → sound s → sound s'.
Proof.
  intros Hst Hs. destruct e as [i|i|i token|i|i|token| |ev]; cbn in Hst.
  - destruct (subscribers s !! i); [done|]. injection Hst as <-. apply sound_insert; try done.
    intros _ o _ _ _. by right; right.
  - injection Hst as <-. apply sound_subscribers; [done|]. intros j b [_ Hb]%lookup_delete_Some.
    destruct Hs as [A B C D E]. split_and!; eauto.
  - destruct (subscribers s !! i) as [b|] eqn:Hb; cbn in Hst; [|done]. destruct (started b) eqn:Hb1; [done|].
    destruct (observe_history token (clock s)) as [r c] eqn:Ho. injection Hst as <-. by eapply baseline_sound.
  - destruct (subscribers s !! i) as [b|] eqn:Hb; cbn in Hst; [|done]. destruct (started b) eqn:Hb1; [|done]. cbn in Hst.
    destruct (0 <? lost b) eqn:Hz.
    + injection Hst as <-. apply sound_insert; [done|done|done|]. intros Hx o Ho Hu Hstill.
      rewrite news_lag by (done || by apply (sd_lost s Hs i b)).
      destruct (sd_informed s Hs Hx i b Hb o Ho Hu Hstill) as [?|[?|[? _]]]; [by left|by right; left|congruence].
    + destruct (pending b) as [|u l] eqn:Hp; [done|]. injection Hst as <-. by eapply receive_sound.
  - destruct (subscribers s !! i) as [b|] eqn:Hb; cbn in Hst; [|done]. destruct (pending b) as [|u l] eqn:Hp; [done|].
    injection Hst as <-. pose proof (sd_lost s Hs i b Hb). apply sound_insert; [done|cbn; lia|by apply (sd_delivered s Hs i b)|].
    intros Hx o Ho Hu Hstill. destruct (news_overwrite b u l) as [->| ->]; [done|done| |by left].
    by apply (sd_informed s Hs Hx i b Hb).
  - destruct (observed s); [done|]. destruct (bool_decide _) eqn:He.
    + injection Hst as <-. apply bool_decide_eq_true in He. split; cbn; try done; intros *; rewrite He; intros Hx; try done.
    + destruct (observe_history token (clock s)) as [r c] eqn:Ho. injection Hst as <-.
      apply observe_history_spec in Ho as [Hp Hr]. apply sound_clock; [done|done|].
      intros o [= ->]. destruct Hr as [_ ->]. lia.
  - destruct (observed s) as [r|] eqn:Hr; cbn in Hst; [|done]. destruct (update r (observer s)) as [u h] eqn:Hu.
    injection Hst as <-. by eapply broadcast_sound.
  - destruct (Clock.run [ev] (clock s)) as [c|] eqn:Hc; simpl in Hc, Hst; rewrite ?Hc in Hst; [|done]. injection Hst as <-.
    apply run_passes in Hc. apply sound_clock; [done|done|]. intros o Ho. pose proof (sd_observed s Hs o Ho). destruct Hc. lia.
Qed.
Lemma reachable_sound s : reachable s → sound s.
Proof.
  induction 1 as [|e s s' _ IH Hs]; [|by eapply subscription_step]. split; cbn; try done. all: intros * ; by rewrite lookup_empty.
Qed.

Fixpoint run (l : list Step) (s : System) : option System :=
  match l with
  | [] => Some s
  | e :: l' => s' ← step e s; run l' s'
  end.
(** A subscriber that keeps receiving gets all that was sent to it. *)
Lemma drain s i b :
  subscribers s !! i = Some b → started b = true → 0 <= lost b →
  ∃ n s' b', run (replicate n (Receive i)) s = Some s' ∧ subscribers s' !! i = Some b'
             ∧ pending b' = [] ∧ lost b' = 0 ∧ news b' = news b ∧ delivered b' ≠ [] ∨ (delivered b = [] ∧ news b = Nothing).
Proof.
  assert (Hdrain : ∀ l s b, subscribers s !! i = Some b → started b = true → lost b = 0 → pending b = l → delivered b ≠ [] →
    ∃ n s' b', run (replicate n (Receive i)) s = Some s' ∧ subscribers s' !! i = Some b'
               ∧ pending b' = [] ∧ lost b' = 0 ∧ news b' = news b ∧ delivered b' ≠ []).
  { intros l. induction l as [|u l IH]; intros s0 b0 Hb Hst Hl Hp Hd; [by exists O, s0, b0|].
    set (b1 := mkSubscriber true l 0 (Forwarded u :: delivered b0)).
    destruct (IH (with_subscribers (<[i := b1]> (subscribers s0)) s0) b1) as (n & s' & b' & Hrun & Hs'); try done.
    { cbn. by rewrite lookup_insert_eq. }
    exists (S n), s', b'. cbn. rewrite Hb. cbn. rewrite Hst, Hl, Hp. cbn. split; [exact Hrun|].
    replace (news b0) with (news b1); [exact Hs'|]. apply news_receive; [done|lia|by rewrite Hl]. }
  intros Hb Hst Hl. destruct (0 <? lost b) eqn:Hz.
  - set (b1 := mkSubscriber true (pending b) 0 (Lagged (lost b) :: delivered b)).
    destruct (Hdrain (pending b) (with_subscribers (<[i := b1]> (subscribers s)) s) b1) as (n & s' & b' & Hrun & Hs'); try done.
    { cbn. by rewrite lookup_insert_eq. }
    exists (S n), s', b'. left. cbn. rewrite Hb. cbn. rewrite Hst, Hz. cbn. split; [exact Hrun|].
    replace (news b) with (news b1); [exact Hs'|by apply news_lag].
  - bools. assert (lost b = 0) as Hl0 by lia. destruct (pending b) as [|u l] eqn:Hp.
    + exists O, s, b. destruct (delivered b) as [|d ds] eqn:Hd; [right|by left; cbn; split_and!].
      split; [done|]. unfold news. by rewrite Hp, Hl0, Hd.
    + set (b1 := mkSubscriber true l 0 (Forwarded u :: delivered b)).
      destruct (Hdrain l (with_subscribers (<[i := b1]> (subscribers s)) s) b1) as (n & s' & b' & Hrun & Hs'); try done.
      { cbn. by rewrite lookup_insert_eq. }
      exists (S n), s', b'. left. cbn. rewrite Hb. cbn. rewrite Hst, Hl0, Hp. cbn. split; [exact Hrun|].
      replace (news b) with (news b1); [exact Hs'|]. apply news_receive; [done|lia|by rewrite Hl0].
Qed.

(** What a delivery tells a client: the state of the history, or to reload. *)
Definition tells (d : Delivery) (u : HistoryUpdate) : Prop :=
  match d with Initial u' | Forwarded u' => u' = u | Lagged _ => True end.

(** C17 No subscriber is left with an old history.  Whatever the order in which
    the observer, the subscribers, slow receivers and other clients run, as long
    as the observer holds [o] as the current observation: if nobody has seen a
    change or an outage since [o], then a subscriber that receives what was sent
    to it ends with [o], or with the instruction to reload; and otherwise the
    next successful poll differs from [o], so it is broadcast to everyone. *)
Theorem subscriber_current s o i b :
  reachable s → not_exhausted (clock s) →
  previous (observer s) = Some o → unavailable (observer s) = false →
  subscribers s !! i = Some b → started b = true →
  (still (clock s) o →
     ∃ n s' b' d ds, run (replicate n (Receive i)) s = Some s' ∧ subscribers s' !! i = Some b'
       ∧ pending b' = [] ∧ lost b' = 0 ∧ delivered b' = d :: ds ∧ tells d (Changed o))
  ∧ (¬ still (clock s) o → ∀ token o' c, observe_history token (clock s) = (Ok o', c) →
       fst (update (Ok o') (observer s)) = Some (Changed o')).
Proof.
  intros Hr Hx Ho Hu Hb Hst. pose proof (reachable_sound s Hr) as Hs. split.
  - intros Hstill. pose proof (sd_informed s Hs Hx i b Hb o Ho Hu Hstill) as Hn.
    destruct (drain s i b Hb Hst (sd_lost s Hs i b Hb)) as (n & s' & b' & [(Hrun & Hb' & Hp & Hl & Hnews & Hd)|[Hd Hnews]]).
    2: { rewrite Hnews in Hn. destruct Hn as [?|[?|[? _]]]; congruence. }
    destruct (delivered b') as [|d ds] eqn:Hdel; [done|]. exists n, s', b', d, ds. split_and!; try done.
    unfold news at 1 in Hnews. rewrite Hp, Hl, Hdel in Hnews. cbn in Hnews. rewrite <- Hnews in Hn.
    destruct d as [u|u|k]; cbn in *; try done; destruct Hn as [?|[Hn|[? _]]]; congruence.
  - intros Hmoved token o' c Hobs. apply observe_history_spec in Hobs as [[_ Hp] Hstill]. unfold update. rewrite Hu. cbn [orb].
    rewrite Ho. case_bool_decide as Heq; [|done]. injection Heq as ->. exfalso. apply Hmoved, Hp; [|done].
    by apply (sd_previous s Hs).
Qed.

Definition demo (l : list Step) : System := default initial_system (run l initial_system).
Lemma run_reachable l s s' : run l s = Some s' → reachable s → reachable s'.
Proof.
  revert s. induction l as [|e l IH]; intros s Hr Hs; cbn in Hr; [by injection Hr as <-|].
  destruct (step e s) as [s1|] eqn:He; cbn in Hr; [|done]. by eapply IH; [|eapply reachable_step].
Qed.
Definition demo_steps : list Step :=
  [Subscribe 0; Baseline 0 (Ok 4); Observe (Ok 4); Broadcast; Observe (Ok 7); Broadcast; Overwrite 0].
Definition demo_subscriber : Subscriber := default (mkSubscriber false [] 0 []) (subscribers (demo demo_steps) !! 0%nat).
Lemma subscriber_current_witness :
  pending demo_subscriber = [Changed (mkObservation 7 2)] ∧ lost demo_subscriber = 1
  ∧ ∃ n s' b' d ds, run (replicate n (Receive 0)) (demo demo_steps) = Some s' ∧ subscribers s' !! 0%nat = Some b'
       ∧ pending b' = [] ∧ lost b' = 0 ∧ delivered b' = d :: ds ∧ tells d (Changed (mkObservation 7 2)).
Proof.
  split; [vm_compute; reflexivity|]. split; [vm_compute; reflexivity|].
  refine (proj1 (subscriber_current (demo demo_steps) (mkObservation 7 2) 0 demo_subscriber _ _ _ _ _ _) _).
  - apply (run_reachable demo_steps initial_system); [vm_compute; reflexivity|constructor].
  - vm_compute. reflexivity.
  - vm_compute. reflexivity.
  - vm_compute. reflexivity.
  - vm_compute. reflexivity.
  - vm_compute. reflexivity.
  - split; vm_compute; reflexivity.
Defined.

(** An outage around a subscriber's own baseline is not announced to it: the
    observer already counts as unavailable, so the second failing poll is quiet
    and the subscriber keeps its healthy baseline until the recovery. *)
Definition outage_steps : list Step :=
  let down := Err (Model.unavailable "History storage is closed") in
  [Subscribe 0; Baseline 0 (Ok 4); Observe down; Broadcast; Subscribe 1; Baseline 1 (Ok 4); Observe down; Broadcast].
Lemma outage_unannounced :
  unavailable (observer (demo outage_steps)) = true
  ∧ ∃ o, news <$> subscribers (demo outage_steps) !! 1%nat = Some (Knows (Changed o)).
Proof. split; [vm_compute; reflexivity|]. exists (mkObservation 4 2). vm_compute. reflexivity. Qed.
