(* ===== verification/Client.v ===== *)
(** * Client: the command-line client of [client.rs], and [publish] of
    [main.rs].

    A client sends calls and awaits what the bus has for it.  What it gets, in
    the order it takes it, is a list of [Reply]; what it did is a list of [Act].
    JSON is [serde_json]'s, a parameter. *)
From S2P Require Import Prelude Text Externals Model Subscription.
Local Open Scope Z_scope.

(** ** JSON *)
Class Json := {
  Value : Type;
  from_str : string → option Value;
  get : Value → string → option Value;     (* the member of an object *)
  as_str : Value → option string;
  as_bool : Value → option bool;
}.
(** What arrives: the answer of a call or its failure, a signal's body (with
    its stream and event, if it has the two), the end of the connection, a
    tick of the timer, the end of a time limit. *)
Inductive Reply :=
| Answer (s : string)
| Failed (e : string)
| Signal (body : option (string * string))
| Ended
| Tick
| TimedOut.
Inductive Act :=
| Connect
| Proxy
| ReceiveEvents
| CallPublish (mime : string) (b : bytes)
| CallSubscribe (streams : list string)
| CallCapture (mode : string) (annotate : bool)
| CallStatus (id : string).
#[export] Instance Act_eq_dec : EqDecision Act.
Proof. solve_decision. Defined.
(** [Waiting]: nothing more arrived. *)
Inductive Outcome (A : Type) := Done (r : result string A) | Waiting.
Arguments Done {A}. Arguments Waiting {A}.
Record Bus := mkBus { arriving : list Reply; acts : list Act }.
Definition Client (A : Type) : Type := Bus → Outcome A * Bus.
#[export] Instance Client_ret : MRet Client := λ A a b, (Done (Ok a), b).
#[export] Instance Client_bind : MBind Client := λ A C f m b,
  match m b with (Done (Ok a), b1) => f a b1 | (Done (Err e), b1) => (Done (Err e), b1) | (Waiting, b1) => (Waiting, b1) end.
Definition fail {A} (e : string) : Client A := λ b, (Done (Err e), b).
Definition say (a : Act) (b : Bus) : Bus := mkBus (arriving b) (acts b ++ [a]).
(** The reply of a call. *)
Definition wait_answer : Client string := λ b,
  match arriving b with
  | [] => (Waiting, b)
  | r :: rs =>
      (Done (match r with Answer s => Ok s | Failed e => Err e | _ => Err "unexpected reply" end), mkBus rs (acts b))
  end.
Definition call (a : Act) : Client string := λ b, wait_answer (say a b).

Section client.
Context `{Json}.

Definition pointer (v : option Value) (path : list string) : option Value := foldl (λ o k, v ← o; get v k) v path.
Definition str_at (v : option Value) (path : list string) : option string := v ← pointer v path; as_str v.
Definition bool_at (v : option Value) (path : list string) : option bool := v ← pointer v path; as_bool v.
Definition decode (s : string) : Client Value := match from_str s with Some v => mret v | None => fail "invalid JSON" end.

(** ** [ClipCorrelation] *)
Definition operation_id (response : Value) : option string := str_at (Some response) ["data"; "operation"; "id"].
Definition event_id (stream : string) (event : Value) : option string :=
  if bool_decide (stream = OPERATION) then str_at (Some event) ["data"; "operation"; "id"]
  else str_at (Some event) ["subscription_id"].
Definition is_terminal (stream : string) (event : Value) : bool :=
  bool_decide (stream = OPERATION)
  && match str_at (Some event) ["event"] with
     | Some s => memb s ["completed"; "failed"; "cancelled"; "unknown"]
     | None => false
     end.

(** ** [publish] *)
Definition publish (mime : string) (b : bytes) : Client unit :=
  _ ← call Connect;
  _ ← call Proxy;
  response ← call (CallPublish mime b);
  response ← decode response;
  match bool_at (Some response) ["ok"] with
  | Some true => mret tt
  | _ => fail (default "clip-daemon rejected the clipboard content" (str_at (Some response) ["error"; "message"]))
  end.
Definition publish_stdin (mime : string) (stdin : bytes) : Client unit :=
  let b := ztake (MAX_WAYLAND_SELECTION_BYTES + 1) stdin in
  if zlen b <=? MAX_WAYLAND_SELECTION_BYTES then publish mime b
  else fail "stdin exceeds the hard clipboard limit of 67108864 bytes".

(** ** [screenshot] *)
(** Wait for the confirmation of the subscription; no timer runs yet. *)
Definition confirms (subscription : string) (event : Value) : bool :=
  bool_decide (str_at (Some event) ["subscription_id"] = Some subscription)
  && bool_decide (str_at (Some event) ["event"] = Some "subscribed").
Fixpoint await_subscribed (subscription : string) (rs : list Reply) (made : list Act) : Outcome unit * Bus :=
  match rs with
  | [] => (Waiting, mkBus [] made)
  | Signal (Some (_, text)) :: rs =>
      match from_str text with
      | None => (Done (Err "invalid JSON"), mkBus rs made)
      | Some event => if confirms subscription event then (Done (Ok tt), mkBus rs made) else await_subscribed subscription rs made
      end
  | Signal None :: rs => (Done (Err "unexpected signal"), mkBus rs made)
  | _ :: rs => (Done (Err "Screenshot observation ended"), mkBus rs made)
  end.
(** The operation an event or an answer reports, when it is ours. *)
Definition reported_event (subscription id : string) (event : Value) : option (option Value) :=
  if bool_decide (str_at (Some event) ["subscription_id"] = Some subscription)
     && bool_decide (str_at (Some event) ["data"; "operation"; "id"] = Some id)
  then Some (pointer (Some event) ["data"; "operation"]) else None.
Definition reported_status (id : string) (status : Value) : option (option Value) :=
  if bool_decide (bool_at (Some status) ["ok"] = Some true)
     && bool_decide (str_at (Some status) ["data"; "operation"; "id"] = Some id)
  then Some (pointer (Some status) ["data"; "operation"]) else None.
Definition status_of (operation : option Value) : option string := str_at operation ["status"].
Definition UNKNOWN : string := "Screenshot outcome unknown; do not replay".
(** Until the operation is no longer "started": its events, and its status
    at every tick. *)
Fixpoint watch (subscription id : string) (operation : option Value) (rs : list Reply) (made : list Act) {struct rs} :
  Outcome (option Value) * Bus :=
  if negb (bool_decide (status_of operation = Some "started")) then (Done (Ok operation), mkBus rs made)
  else
    match rs with
    | [] => (Waiting, mkBus [] made)
    | Signal (Some (_, text)) :: rs =>
        match from_str text with
        | None => (Done (Err "invalid JSON"), mkBus rs made)
        | Some event => watch subscription id (default operation (reported_event subscription id event)) rs made
        end
    | Signal None :: rs => (Done (Err "unexpected signal"), mkBus rs made)
    | Tick :: rs =>
        let made := (made ++ [CallStatus id])%list in
        match rs with
        | [] => (Waiting, mkBus [] made)
        | Answer text :: rs =>
            match from_str text with
            | None => (Done (Err "invalid JSON"), mkBus rs made)
            | Some status =>
                match reported_status id status with
                | Some operation => watch subscription id operation rs made
                | None => (Done (Err UNKNOWN), mkBus rs made)
                end
            end
        | Failed e :: rs => (Done (Err e), mkBus rs made)
        | _ :: rs => (Done (Err UNKNOWN), mkBus rs made)
        end
    | _ :: rs => (Done (Err UNKNOWN), mkBus rs made)
    end.
Definition on_bus {A} (f : list Reply → list Act → Outcome A * Bus) : Client A := λ b, f (arriving b) (acts b).
Definition required {A} (o : option A) (e : string) : Client A := match o with Some a => mret a | None => fail e end.
Definition observe : Client string :=
  _ ← call Connect;
  _ ← call Proxy;
  _ ← call ReceiveEvents;
  subscribed ← call (CallSubscribe [OPERATION]);
  subscribed ← decode subscribed;
  if negb (bool_decide (bool_at (Some subscribed) ["ok"] = Some true)) then fail "Could not observe screenshot completion"
  else required (str_at (Some subscribed) ["data"; "subscription"; "id"]) "Missing subscription identity".
Definition start_capture (screen annotate : bool) : Client (string * option Value) :=
  response ← call (CallCapture (if screen then "screen" else "region") annotate);
  response ← decode response;
  if negb (bool_decide (bool_at (Some response) ["ok"] = Some true)) then
    fail (default "Screenshot request failed" (str_at (Some response) ["error"; "message"]))
  else
    id ← required (str_at (Some response) ["data"; "operation"; "id"]) "Missing screenshot operation identity";
    mret (id, pointer (Some response) ["data"; "operation"]).
Definition screenshot (screen annotate : bool) : Client unit :=
  subscription ← observe;
  _ ← on_bus (await_subscribed subscription);
  '(id, operation) ← start_capture screen annotate;
  operation ← on_bus (watch subscription id operation);
  if bool_decide (status_of operation = Some "completed") then mret tt
  else fail ("Screenshot did not complete: " ++ default "unknown" (status_of operation))%string.

(** ** Lemmas: one step after another *)
Definition stopped {A C} (x : Outcome A) (o : Outcome C) : Prop :=
  match x, o with Done (Err e), Done (Err e') => e = e' | Waiting, Waiting => True | _, _ => False end.
Lemma client_bind_cases {A C} (m : Client A) (f : A → Client C) b o b' :
  (m ≫= f) b = (o, b') →
  (∃ a b1, m b = (Done (Ok a), b1) ∧ f a b1 = (o, b')) ∨ ∃ x, m b = (x, b') ∧ stopped x o.
Proof.
  unfold mbind, Client_bind. destruct (m b) as [[[a|e]|] b1]; [eauto|intros [= <- <-]; right..]; by eexists.
Qed.
(** The client has taken [used], and did at most what [more] lists. *)
Record went (used : list Reply) (more : list Act) (b b' : Bus) : Prop := {
  wt_taken : arriving b = (used ++ arriving b')%list;
  wt_acts : ∃ did, acts b' = (acts b ++ did)%list ∧ did `prefix_of` more;
}.
Lemma went_app u1 u2 m1 m2 b b1 b2 :
  acts b1 = (acts b ++ m1)%list → went u1 m1 b b1 → went u2 m2 b1 b2 → went (u1 ++ u2) (m1 ++ m2) b b2.
Proof.
  intros Ha [T1 _] [T2 (did & Hd & Hp)]. split; [by rewrite T1, T2, app_assoc|].
  exists (m1 ++ did)%list. rewrite Hd, Ha, app_assoc. split; [done|]. by apply prefix_app.
Qed.
Lemma went_stop u m1 m2 b b' : went u m1 b b' → went u (m1 ++ m2) b b'.
Proof. intros [T (did & Hd & Hp)]. split; [done|]. exists did. split; [done|]. by apply prefix_app_r. Qed.
Lemma call_result a b o b' :
  call a b = (o, b') →
  acts b' = (acts b ++ [a])%list ∧ ∃ used, went used [a] b b' ∧ ∀ s, o = Done (Ok s) → used = [Answer s].
Proof.
  unfold call, wait_answer, say. cbn [arriving acts]. destruct (arriving b) as [|r rs] eqn:Hr; intros [= <- <-]; cbn; (split; [done|]).
  - exists []. split; [|done]. split; [by rewrite Hr|]. by exists [a].
  - exists [r]. split; [split; [by rewrite Hr|by exists [a]]|]. intros s. destruct r; naive_solver.
Qed.
Lemma went_same b : went [] [] b b.
Proof. split; [done|]. exists []. by rewrite app_nil_r. Qed.
Lemma await_result subscription rs made o b' :
  await_subscribed subscription rs made = (o, b') →
  acts b' = made ∧ ∃ used, rs = (used ++ arriving b')%list
  ∧ (o = Done (Ok tt) → ∃ stream text event, Signal (Some (stream, text)) ∈ used ∧ from_str text = Some event ∧ confirms subscription event = true).
Proof.
  revert o b'. induction rs as [|r rs IH]; intros o b'; cbn [await_subscribed]; [intros [= <- <-]; split; [done|]; by exists []|].
  assert (Hone : ∀ e, (Done (Err e), mkBus rs made) = (o, b') → acts b' = made ∧ ∃ used, r :: rs = (used ++ arriving b')%list
    ∧ (o = Done (Ok tt) → ∃ stream text event, Signal (Some (stream, text)) ∈ used ∧ from_str text = Some event ∧ confirms subscription event = true)).
  { intros e [= <- <-]. split; [done|]. by exists [r]. }
  destruct r as [| |[[stream text]|]| | |]; try apply Hone. destruct (from_str text) as [event|] eqn:Ht; [|apply Hone].
  destruct (confirms subscription event) eqn:Hc.
  - intros [= <- <-]. split; [done|]. exists [Signal (Some (stream, text))]. split; [done|]. intros _. exists stream, text, event. set_solver.
  - intros Hr. destruct (IH _ _ Hr) as (Ha & used & -> & Hu). split; [done|]. eexists (_ :: used). split; [done|].
    intros Ho. destruct (Hu Ho) as (s & t & v & Hin & ?). exists s, t, v. split; [by right|done].
Qed.

(** *** Watching *)
(** The operation named [id] in a value. *)
Definition told_of (id : string) (v : Value) : option (option Value) :=
  if decide (str_at (Some v) ["data"; "operation"; "id"] = Some id) then Some (pointer (Some v) ["data"; "operation"]) else None.
(** What a reply tells of it: an event of the client's own subscription, or a
    successful answer. *)
Definition reports (subscription id : string) (r : Reply) : option (option Value) :=
  match r with
  | Signal (Some (_, text)) =>
      event ← from_str text;
      if decide (str_at (Some event) ["subscription_id"] = Some subscription) then told_of id event else None
  | Answer text =>
      status ← from_str text;
      if decide (bool_at (Some status) ["ok"] = Some true) then told_of id status else None
  | _ => None
  end.
Lemma reported_event_told subscription id event :
  reported_event subscription id event =
    if decide (str_at (Some event) ["subscription_id"] = Some subscription) then told_of id event else None.
Proof. unfold reported_event, told_of, bool_decide. by repeat case_decide. Qed.
Lemma reported_status_told id status :
  reported_status id status = if decide (bool_at (Some status) ["ok"] = Some true) then told_of id status else None.
Proof. unfold reported_status, told_of, bool_decide. by repeat case_decide. Qed.
(** What the client knows of the operation, from its start on. *)
Definition known (subscription id : string) (operation : option Value) (used : list Reply) : list (option Value) :=
  operation :: omap (reports subscription id) used.
Definition watched (subscription id : string) (operation : option Value) (used : list Reply) (o : Outcome (option Value)) : Prop :=
  match o with
  | Done (Ok v) => last (known subscription id operation used) = Some v ∧ status_of v ≠ Some "started"
  | Done (Err _) => True
  | Waiting => Forall (λ v, status_of v = Some "started") (known subscription id operation used)
  end.
Lemma watched_step subscription id r used operation o :
  status_of operation = Some "started" →
  watched subscription id (default operation (reports subscription id r)) used o → watched subscription id operation (r :: used) o.
Proof.
  intros Hs. assert (Hk : known subscription id operation (r :: used) =
    match reports subscription id r with Some v => operation :: known subscription id v used | None => known subscription id operation used end).
  { unfold known. cbn [omap list_omap]. by destruct (reports subscription id r). }
  unfold watched. rewrite Hk. destruct (reports subscription id r) as [v|]; cbn [default]; [|done].
  destruct o as [[x|e]|]; [done|done|]. intros Hf. by constructor.
Qed.
Definition watching (subscription id : string) (operation : option Value) (rs : list Reply) (made : list Act) (o : Outcome (option Value)) (b' : Bus) : Prop :=
  ∃ used asks, rs = (used ++ arriving b')%list ∧ acts b' = (made ++ replicate asks (CallStatus id))%list
    ∧ watched subscription id operation used o ∧ (o = Waiting → arriving b' = []).
Lemma watching_err subscription id operation r rs made e :
  watching subscription id operation (r :: rs) made (Done (Err e)) (mkBus rs made).
Proof. exists [r], 0%nat. split; [done|]. split; [cbn; by rewrite app_nil_r|done]. Qed.
Lemma watching_wait subscription id operation made :
  status_of operation = Some "started" → watching subscription id operation [] made Waiting (mkBus [] made).
Proof. intros Hs. exists [], 0%nat. split; [done|]. split; [cbn; by rewrite app_nil_r|]. split; [|done]. constructor; [done|constructor]. Qed.
Lemma watching_end subscription id operation rs made :
  status_of operation ≠ Some "started" → watching subscription id operation rs made (Done (Ok operation)) (mkBus rs made).
Proof. intros Hs. exists [], 0%nat. split; [done|]. split; [cbn; by rewrite app_nil_r|done]. Qed.
Lemma watching_event subscription id operation r rs made o b' :
  status_of operation = Some "started" →
  watching subscription id (default operation (reports subscription id r)) rs made o b' →
  watching subscription id operation (r :: rs) made o b'.
Proof. intros Hs (used & asks & -> & Ha & Hw & He). exists (r :: used), asks. split; [done|]. split; [done|]. split; [|done]. by apply watched_step. Qed.
Lemma watching_tick subscription id operation rs made o b' :
  status_of operation = Some "started" →
  watching subscription id operation rs (made ++ [CallStatus id]) o b' → watching subscription id operation (Tick :: rs) made o b'.
Proof.
  intros Hs (used & asks & -> & Ha & Hw & He). exists (Tick :: used), (S asks). split; [done|]. split; [by rewrite Ha, <- app_assoc|].
  split; [|done]. by apply watched_step.
Qed.
Lemma watch_result subscription id : ∀ rs operation made o b',
  watch subscription id operation rs made = (o, b') → watching subscription id operation rs made o b'.
Proof.
  fix IH 1. intros [|r rs] operation made o b'; cbn [watch];
    (destruct (bool_decide (status_of operation = Some "started")) eqn:Hs; cbn [negb];
      [apply bool_decide_eq_true in Hs|apply bool_decide_eq_false in Hs; intros [= <- <-]; by apply watching_end]).
  { intros [= <- <-]. by apply watching_wait. }
  destruct r as [s|e|[[stream text]|]| | |]; try (intros [= <- <-]; apply watching_err).
  - destruct (from_str text) as [event|] eqn:Ht; [|intros [= <- <-]; apply watching_err].
    rewrite reported_event_told. intros Hr%IH. apply watching_event; [done|]. cbn [reports]. by rewrite Ht.
  - destruct rs as [|r rs]; [intros [= <- <-]; by apply watching_tick, watching_wait|].
    destruct r as [text|e|x| | |]; try (intros [= <- <-]; by apply watching_tick, watching_err).
    destruct (from_str text) as [status|] eqn:Ht; [|intros [= <- <-]; by apply watching_tick, watching_err].
    destruct (reported_status id status) as [op|] eqn:Hop; [|intros [= <- <-]; by apply watching_tick, watching_err].
    intros Hr%IH. apply watching_tick; [done|]. apply watching_event; [done|]. cbn [reports]. rewrite Ht.
    unfold mbind, option_bind. rewrite reported_status_told in Hop. by rewrite Hop.
Qed.

(** *** The conversation up to the launch *)
Definition SETUP : list Act := [Connect; Proxy; ReceiveEvents; CallSubscribe [OPERATION]].
Definition launch (screen annotate : bool) : Act := CallCapture (if screen then "screen" else "region") annotate.
Definition answered (used : list Reply) (P : Value → Prop) : Prop :=
  ∃ text v, Answer text ∈ used ∧ from_str text = Some v ∧ bool_at (Some v) ["ok"] = Some true ∧ P v.
Lemma answered_app u1 u2 P : answered u1 P ∨ answered u2 P → answered (u1 ++ u2) P.
Proof. intros [(t & v & Hin & ?)|(t & v & Hin & ?)]; exists t, v; (split; [set_solver|done]). Qed.
Lemma stopped_ok {A C} (x : Outcome A) (o : Outcome C) c : stopped x o → o ≠ Done (Ok c).
Proof. destruct x as [[]|], o as [[]|]; done. Qed.
(** A call that must succeed, then the rest. *)
Lemma call_then {C} (P : C → list Reply → Prop) a more (f : string → Client C) b o b' :
  (call a ≫= f) b = (o, b') →
  (∀ s b1 o b', f s b1 = (o, b') → ∃ used, went used more b1 b' ∧ ∀ c, o = Done (Ok c) → acts b' = (acts b1 ++ more)%list ∧ P c (Answer s :: used)) →
  ∃ used, went used (a :: more) b b' ∧ ∀ c, o = Done (Ok c) → acts b' = (acts b ++ a :: more)%list ∧ P c used.
Proof.
  intros [(s & b1 & H1 & Hr)|(x & H1 & Hx)]%client_bind_cases Hf; apply call_result in H1 as (Ha & u1 & W1 & Hu1).
  - destruct (Hf _ _ _ _ Hr) as (u2 & W2 & H2). exists (u1 ++ u2)%list. split; [by apply (went_app u1 u2 [a] more _ b1)|].
    intros c Hc. destruct (H2 c Hc) as [Ha2 HP]. rewrite (Hu1 s eq_refl). split; [|done]. by rewrite Ha2, Ha, <- app_assoc.
  - exists u1. split; [by apply (went_stop u1 [a])|]. intros c Hc. by apply (stopped_ok x o c) in Hx.
Qed.
Definition follows {C} (P : C → list Reply → Prop) (more : list Act) (m : Client C) : Prop :=
  ∀ b o b', m b = (o, b') → ∃ used, went used more b b' ∧ ∀ c, o = Done (Ok c) → acts b' = (acts b ++ more)%list ∧ P c used.
Lemma follows_call {C} (P : C → list Reply → Prop) a more (f : string → Client C) :
  (∀ s, follows (λ c used, P c (Answer s :: used)) more (f s)) → follows P (a :: more) (call a ≫= f).
Proof. intros Hf b o b' Hr. eapply call_then; [exact Hr|]. intros s b1 o1 b1' H1. exact (Hf s b1 o1 b1' H1). Qed.
Lemma follows_quiet {C} (P : C → list Reply → Prop) (m : Client C) :
  (∀ b, (m b).2 = b ∧ ∀ c, (m b).1 = Done (Ok c) → P c []) → follows P [] m.
Proof.
  intros Hm b o b' Hr. destruct (Hm b) as [Hb Hc]. rewrite Hr in Hb, Hc. cbn in *. subst b'. exists []. split; [apply went_same|].
  intros c Ho. rewrite app_nil_r. auto.
Qed.
Definition subscription_of (c : string) (used : list Reply) : Prop :=
  answered used (λ v, str_at (Some v) ["data"; "subscription"; "id"] = Some c).
Lemma client_ret_bind {A C} (a : A) (f : A → Client C) b : (mret a ≫= f) b = f a b.
Proof. done. Qed.
Lemma observe_follows : follows subscription_of SETUP observe.
Proof.
  unfold observe, SETUP. do 4 (apply follows_call; intros ?). apply follows_quiet. intros b. unfold decode. rename s2 into text.
  destruct (from_str text) as [v|] eqn:Hv; [rewrite client_ret_bind|done].
  destruct (bool_decide (bool_at (Some v) ["ok"] = Some true)) eqn:Hok; [|done]. apply bool_decide_eq_true in Hok.
  unfold required, negb. destruct (str_at _ _) as [x|] eqn:Hx; [|done]. split; [done|]. intros c [= <-]. exists text, v.
  split; [set_solver|done].
Qed.
Definition launched (x : string * option Value) (used : list Reply) : Prop :=
  answered used (λ v, str_at (Some v) ["data"; "operation"; "id"] = Some x.1 ∧ x.2 = pointer (Some v) ["data"; "operation"]).
Lemma start_follows screen annotate : follows launched [launch screen annotate] (start_capture screen annotate).
Proof.
  unfold start_capture. apply follows_call; intros text. apply follows_quiet. intros b. unfold decode.
  destruct (from_str text) as [v|] eqn:Hv; [rewrite client_ret_bind|done].
  destruct (bool_decide (bool_at (Some v) ["ok"] = Some true)) eqn:Hok; [|done]. apply bool_decide_eq_true in Hok.
  unfold required, negb. destruct (str_at _ _) as [x|] eqn:Hx; [|done]. rewrite client_ret_bind. split; [done|].
  intros c [= <-]. exists text, v. split; [set_solver|done].
Qed.

(** What a client saw before it launched: that its events are under way. *)
Record observing (subscription : string) (seen : list Reply) : Prop := {
  ob_identity : subscription_of subscription seen;
  ob_confirmed : ∃ stream text event, Signal (Some (stream, text)) ∈ seen ∧ from_str text = Some event ∧ confirms subscription event = true;
}.
(** The whole conversation of a [screenshot]. *)
Inductive conversation (screen annotate : bool) (rs : list Reply) (o : Outcome unit) (b : Bus) : Prop :=
| Unobserved :
    (∀ u, o ≠ Done (Ok u)) → (∃ did, acts b = did ∧ did `prefix_of` SETUP) → conversation screen annotate rs o b
| Unlaunched subscription seen used :
    (∀ u, o ≠ Done (Ok u)) → observing subscription seen → rs = (seen ++ used ++ arriving b)%list →
    (∃ did, acts b = (SETUP ++ did)%list ∧ did `prefix_of` [launch screen annotate]) → conversation screen annotate rs o b
| Launched subscription seen answer id operation used asks :
    observing subscription seen → launched (id, operation) answer → rs = (seen ++ answer ++ used ++ arriving b)%list →
    acts b = (SETUP ++ [launch screen annotate] ++ replicate asks (CallStatus id))%list →
    match o with
    | Done (Ok _) => ∃ v, last (known subscription id operation used) = Some v ∧ status_of v = Some "completed"
    | Done (Err _) => True
    | Waiting => arriving b = [] ∧ Forall (λ v, status_of v = Some "started") (known subscription id operation used)
    end → conversation screen annotate rs o b.
Lemma stopped_not_ok {A C} (x : Outcome A) (o : Outcome C) : stopped x o → ∀ c, o ≠ Done (Ok c).
Proof. intros Hx c. by apply (stopped_ok x). Qed.
Lemma screenshot_conversation screen annotate rs o b :
  screenshot screen annotate (mkBus rs []) = (o, b) → conversation screen annotate rs o b.
Proof.
  unfold screenshot. intros [(sub & b1 & H1 & Hr)|(x & H1 & Hx)]%client_bind_cases; apply observe_follows in H1 as (u1 & W1 & Hok1).
  2: { apply Unobserved; [by apply (stopped_not_ok x)|]. apply W1. }
  destruct (Hok1 sub eq_refl) as [Ha1 Hsub]. destruct W1 as [T1 _]. cbn in Ha1, T1. clear Hok1. unfold on_bus in Hr.
  apply client_bind_cases in Hr as [([] & b2 & H2 & Hr)|(x & H2 & Hx)]; apply await_result in H2 as (Ha2 & u2 & T2 & Hok2); rewrite Ha1 in Ha2.
  2: { apply Unobserved; [by apply (stopped_not_ok x)|]. exists SETUP. by rewrite Ha2. }
  assert (Hob : observing sub (u1 ++ u2)).
  { split; [by apply answered_app; left|]. destruct (Hok2 eq_refl) as (st & text & v & Hin & ?). exists st, text, v. split; [set_solver|done]. }
  assert (T : rs = ((u1 ++ u2) ++ arriving b2)%list) by (by rewrite T1, T2, app_assoc). clear Hok2 T1 T2 Hsub.
  apply client_bind_cases in Hr as [([id op] & b3 & H3 & Hr)|(x & H3 & Hx)]; apply start_follows in H3 as (u3 & [T3 (did & Hd & Hp)] & Hok3).
  2: { eapply Unlaunched; [by apply (stopped_not_ok x)|exact Hob|rewrite T; by rewrite T3|]. exists did. by rewrite Hd, Ha2. }
  destruct (Hok3 _ eq_refl) as [Ha3 Hl]. rewrite Ha2 in Ha3. clear Hd Hp did Hok3. cbv beta iota in Hr.
  apply client_bind_cases in Hr as [(v & b4 & H4 & Hr)|(x & H4 & Hx)]; apply watch_result in H4 as (u4 & asks & T4 & Ha4 & Hw & He);
    rewrite Ha3 in Ha4.
  - assert (b = b4) as -> by (destruct (bool_decide (status_of v = Some "completed")); by injection Hr as _ <-).
    eapply (Launched screen annotate rs o b4 sub _ u3 id op u4 asks); [exact Hob|exact Hl|by rewrite T, T3, T4|by rewrite Ha4, <- app_assoc|].
    destruct Hw as [Hlast _]. destruct (bool_decide (status_of v = Some "completed")) eqn:Hs; injection Hr as <-; [|done].
    apply bool_decide_eq_true in Hs. by exists v.
  - eapply (Launched screen annotate rs o b sub _ u3 id op u4 asks); [exact Hob|exact Hl|by rewrite T, T3, T4|by rewrite Ha4, <- app_assoc|].
    destruct x as [[?|?]|], o as [[?|?]|]; try done. split; [by apply He|exact Hw].
Qed.

(** C36 [clip-daemon screenshot] tells the truth.  It asks the daemon for the
    screenshot once at most, after its own subscription was confirmed, and
    afterwards only ever asks for the status of that operation: nothing is
    replayed.  It succeeds only when the last it was told of the operation, by
    an event of its subscription or by the daemon's answer, is that it
    completed; and as long as it waits, every report said it runs. *)
Theorem screenshot_truthful screen annotate rs :
  let '(o, b) := screenshot screen annotate (mkBus rs []) in
  conversation screen annotate rs o b
  ∧ (length (filter (λ a, a = launch screen annotate) (acts b)) <= 1)%nat
  ∧ (o = Done (Ok tt) → launch screen annotate ∈ acts b).
Proof.
  destruct (screenshot screen annotate (mkBus rs [])) as [o b] eqn:Hs. apply screenshot_conversation in Hs as Hc. split; [done|].
  assert (Hpre : ∀ did, did `prefix_of` (SETUP ++ [launch screen annotate])%list → (length (filter (λ a, a = launch screen annotate) did) <= 1)%nat).
  { intros did [k Hk]. assert (Hle : (length (filter (λ a, a = launch screen annotate) did) + length (filter (λ a, a = launch screen annotate) k) = 1)%nat).
    { rewrite <- length_app, <- filter_app, <- Hk. unfold SETUP, launch. cbn [app]. repeat rewrite filter_cons_False by done. by rewrite filter_cons_True. }
    lia. }
  destruct Hc as [Ho (did & -> & Hp)|sub seen used Ho _ _ (did & -> & Hp)|sub seen answer id op used asks _ _ _ -> _].
  - split; [apply Hpre; by apply prefix_app_r|]. intros ->. by destruct (Ho tt).
  - split; [apply Hpre; by apply prefix_app|]. intros ->. by destruct (Ho tt).
  - split; [|intros _; set_solver]. rewrite app_assoc, filter_app, length_app.
    assert (Hno : filter (λ a, a = launch screen annotate) (replicate asks (CallStatus id)) = []) by (induction asks; [done|by rewrite replicate_S, filter_cons_False]).
    rewrite Hno. cbn [length]. rewrite Nat.add_0_r. apply Hpre. reflexivity.
Qed.

(** *** Publishing *)
Definition accepted (used : list Reply) : Prop := answered used (λ _, True).
Lemma publish_follows mime b : follows (λ _, accepted) [Connect; Proxy; CallPublish mime b] (publish mime b).
Proof.
  unfold publish. do 3 (apply follows_call; intros ?). apply follows_quiet. intros w. unfold decode. rename s1 into text.
  destruct (from_str text) as [v|] eqn:Hv; [rewrite client_ret_bind|done].
  destruct (bool_at (Some v) ["ok"]) as [[]|] eqn:Hok; [|done..]. split; [done|]. intros _ _. exists text, v. split; [set_solver|done].
Qed.
(** The standard input is published whole, within the limit of the daemon, or
    the daemon is asked nothing; success means that the daemon said so. *)
Theorem publish_truthful mime stdin rs :
  let '(o, b) := publish_stdin mime stdin (mkBus rs []) in
  acts b `prefix_of` [Connect; Proxy; CallPublish mime stdin]
  ∧ (MAX_WAYLAND_SELECTION_BYTES < zlen stdin → acts b = [])
  ∧ (o = Done (Ok tt) → acts b = [Connect; Proxy; CallPublish mime stdin] ∧ ∃ used, rs = (used ++ arriving b)%list ∧ accepted used).
Proof.
  destruct (publish_stdin mime stdin _) as [o b] eqn:Hp. unfold publish_stdin in Hp.
  rewrite zlen_ztake in Hp by (unfold MAX_WAYLAND_SELECTION_BYTES; lia).
  destruct (Z.leb_spec (Z.min (MAX_WAYLAND_SELECTION_BYTES + 1) (zlen stdin)) MAX_WAYLAND_SELECTION_BYTES).
  - rewrite ztake_all in Hp by lia. apply publish_follows in Hp as (used & [T (did & Hd & Hpre)] & Hok). cbn in T, Hd. subst rs.
    split; [by rewrite Hd|]. split; [lia|]. intros Ho. destruct (Hok tt Ho) as [Ha ?]. split; [exact Ha|by exists used].
  - injection Hp as <- <-. split; [apply prefix_nil|done].
Qed.
End client.

(** ** A run *)
Inductive TValue := TString (s : string) | TBool (b : bool) | TEmpty | TMember (k : string) (v rest : TValue).
Fixpoint toy_get (v : TValue) (k : string) : option TValue :=
  match v with TMember k' x rest => if String.eqb k' k then Some x else toy_get rest k | _ => None end.
Definition TObject (l : list (string * TValue)) : TValue := foldr (λ m, TMember (fst m) (snd m)) TEmpty l.
Definition toy_operation (id status : string) : TValue :=
  TObject [("operation", TObject [("id", TString id); ("status", TString status)])].
Definition toy_event (event : string) (data : TValue) : TValue :=
  TObject [("subscription_id", TString "s-1"); ("event", TString event); ("data", data)].
Definition toy_response (data : TValue) : TValue := TObject [("ok", TBool true); ("data", data)].
(** Some texts, by name. *)
Definition toy_texts : list (string * TValue) :=
  [("subscription", toy_response (TObject [("subscription", TObject [("id", TString "s-1")])]));
   ("confirmed", toy_event "subscribed" (TObject []));
   ("accepted", toy_response (toy_operation "op-7" "started"));
   ("other", toy_event "completed" (toy_operation "op-9" "completed"));
   ("running", toy_response (toy_operation "op-7" "started"));
   ("done", toy_event "completed" (toy_operation "op-7" "completed"))].
#[local] Instance toy_json : Json := {
  Value := TValue;
  from_str s := snd <$> find (λ t, String.eqb (fst t) s) toy_texts;
  get := toy_get;
  as_str v := match v with TString s => Some s | _ => None end;
  as_bool v := match v with TBool b => Some b | _ => None end;
}.
Definition toy_replies : list Reply :=
  [Answer "bus"; Answer "proxy"; Answer "match"; Answer "subscription"; Signal (Some (OPERATION, "confirmed"));
   Answer "accepted"; Signal (Some (OPERATION, "other")); Tick; Answer "running"].
Definition last_event : Reply := Signal (Some (OPERATION, "done")).
(** Another client's operation completes and the status says "started": it
    still waits; then its own event arrives. *)
Lemma screenshot_truthful_witness :
  fst (screenshot false true (mkBus toy_replies [])) = Waiting
  ∧ fst (screenshot false true (mkBus (toy_replies ++ [last_event]) [])) = Done (Ok tt)
  ∧ launch false true ∈ acts (snd (screenshot false true (mkBus (toy_replies ++ [last_event]) [])))
  ∧ fst (screenshot false true (mkBus (toy_replies ++ [Ended]) [])) = Done (Err UNKNOWN).
Proof.
  split; [vm_compute; reflexivity|]. split; [vm_compute; reflexivity|]. split; [|vm_compute; reflexivity].
  pose proof (screenshot_truthful false true (toy_replies ++ [last_event])) as Ht.
  destruct (screenshot false true (mkBus (toy_replies ++ [last_event]) [])) as [o b] eqn:Hs. destruct Ht as (_ & _ & Hl).
  apply Hl. apply (f_equal fst) in Hs. cbn [fst] in Hs. rewrite <- Hs. vm_compute. reflexivity.
Defined.
Lemma publish_truthful_witness :
  fst (publish_stdin "text/plain" [x68] (mkBus [Answer ""; Answer ""; Answer "accepted"] [])) = Done (Ok tt)
  ∧ acts (snd (publish_stdin "text/plain" [x68] (mkBus [Answer ""; Answer ""; Answer "accepted"] []))) = [Connect; Proxy; CallPublish "text/plain" [x68]].
Proof.
  split; [vm_compute; reflexivity|].
  pose proof (publish_truthful "text/plain" [x68] [Answer ""; Answer ""; Answer "accepted"]) as Ht.
  destruct (publish_stdin "text/plain" [x68] (mkBus [Answer ""; Answer ""; Answer "accepted"] [])) as [o b] eqn:Hs. destruct Ht as (_ & _ & Hl).
  apply Hl. apply (f_equal fst) in Hs. cbn [fst] in Hs. rewrite <- Hs. vm_compute. reflexivity.
Defined.
