(* ===== verification/Daemon.v ===== *)
(** * Daemon: the life of the service, [run] and [serve] of [daemon.rs], and
    its requests, [ClipDaemon] and [start] of [daemon/subscription.rs].

    What the daemon calls may each succeed or fail ([outcome]); what it did is
    the list of [Act].  The bus, the listener and the request boundary are
    parameters; what the acts do is in the other files: [Initialize] and
    [StopCapture] in [Settings], [ReleaseOwners] in [Owners],
    [ShutdownBackend] in [Drain] and [Store]. *)
From S2P Require Import Prelude Text Model Subscription Client.
Local Open Scope Z_scope.

(** ** Start and stop *)
Module Life.
Inductive Act :=
| OpenStore
| ConnectBus | StartOwners | Export | ClaimName | Initialize | Listen
| AwaitEnd                                  (* a signal, or the listener's end *)
| StopCapture | StopListener | JoinListener | ReleaseOwners | CloseBus | StopSubscriptions | StopTasks
| ShutdownCapture | ShutdownBackend.
#[export] Instance Act_eq_dec : EqDecision Act.
Proof. solve_decision. Defined.
(** [Result::and] *)
Definition and_result (a b : result string unit) : result string unit := match a with Ok _ => b | Err e => Err e end.
Definition Life (A : Type) : Type := list Act → result string A * list Act.
#[export] Instance Life_ret : MRet Life := λ A a l, (Ok a, l).
#[export] Instance Life_bind : MBind Life := λ A C f m l, match m l with (Ok a, l1) => f a l1 | (Err e, l1) => (Err e, l1) end.
Definition told (r : result string unit) : Life unit := λ l, (r, l).
(** The outcome as a value: the caller goes on. *)
Definition settled {A} (m : Life A) : Life (result string A) := λ l, let '(r, l1) := m l in (Ok r, l1).

Section life.
(** What each call that can fail answers; whether it was the listener that
    ended. *)
Variable outcome : Act → result string unit.
Variable ended : bool.

Definition act (a : Act) : Life unit := λ l, (outcome a, l ++ [a])%list.
Definition note (a : Act) : Life unit := λ l, (Ok tt, l ++ [a])%list.
Definition serve : Life unit :=
  _ ← act ConnectBus;
  _ ← act StartOwners;
  _ ← act Export;
  _ ← act ClaimName;
  _ ← note Initialize;
  _ ← note Listen;
  result ← settled (act AwaitEnd);
  capture_result ← settled (act StopCapture);
  _ ← note StopListener;
  socket_result ← (if ended then mret (Ok tt) else settled (act JoinListener));
  _ ← note ReleaseOwners;
  closed ← settled (act CloseBus);
  _ ← note StopSubscriptions;
  _ ← note StopTasks;
  told (and_result (and_result (and_result result capture_result) socket_result) closed).
Definition run : Life unit :=
  _ ← act OpenStore;
  result ← settled serve;
  stopped ← settled (act ShutdownCapture);
  drained ← settled (act ShutdownBackend);
  told (and_result (and_result result stopped) drained).
(** Somebody else's backend, [run_with_capture]. *)
Definition run_with_capture : Life unit :=
  result ← settled serve;
  shutdown ← settled (act ShutdownCapture);
  told (and_result result shutdown).

(** The order in which everything is meant to happen. *)
Definition ORDER : list Act :=
  [OpenStore; ConnectBus; StartOwners; Export; ClaimName; Initialize; Listen; AwaitEnd; StopCapture; StopListener;
   JoinListener; ReleaseOwners; CloseBus; StopSubscriptions; StopTasks; ShutdownCapture; ShutdownBackend].
Definition STARTUP : list Act := [OpenStore; ConnectBus; StartOwners; Export; ClaimName].
Definition fallible (a : Act) : bool :=
  match a with Initialize | Listen | StopListener | ReleaseOwners | StopSubscriptions | StopTasks => false | _ => true end.
(** The first failure of the calls that were made. *)
Definition first_failure (l : list Act) : result string unit :=
  foldr (λ a r, if fallible a then and_result (outcome a) r else r) (Ok tt) l.
Definition good (a : Act) : bool := is_ok (outcome a).
(** What happened, by how far the start got. *)
Definition teardown : list Act :=
  [StopCapture; StopListener] ++ (if ended then [] else [JoinListener]) ++ [ReleaseOwners; CloseBus; StopSubscriptions; StopTasks].
Definition started : bool := forallb good STARTUP.
(** Calls up to the first that fails. *)
Fixpoint attempted (l : list Act) : list Act := match l with [] => [] | a :: l' => a :: if good a then attempted l' else [] end.
Definition expected : list Act :=
  attempted STARTUP ++ (if started then [Initialize; Listen; AwaitEnd] ++ teardown else [])
    ++ (if good OpenStore then [ShutdownCapture; ShutdownBackend] else []).

#[local] Ltac refused := by destruct (outcome ShutdownCapture) as [[]|], (outcome ShutdownBackend) as [[]|].
Lemma run_expected : run [] = (first_failure expected, expected).
Proof.
  unfold expected, started, teardown, first_failure, good, STARTUP. cbn [attempted forallb]. unfold good.
  unfold run, serve, settled, act, note, told, mbind, Life_bind, mret, Life_ret.
  destruct (outcome OpenStore) as [[]|] eqn:H1; [|cbn; by rewrite H1].
  destruct (outcome ConnectBus) as [[]|] eqn:H2; [|cbn; rewrite H1, H2; refused].
  destruct (outcome StartOwners) as [[]|] eqn:H3; [|cbn; rewrite H1, H2, H3; refused].
  destruct (outcome Export) as [[]|] eqn:H4; [|cbn; rewrite H1, H2, H3, H4; refused].
  destruct (outcome ClaimName) as [[]|] eqn:H5; [|cbn; rewrite H1, H2, H3, H4, H5; refused].
  destruct ended; cbn; rewrite ?H1, ?H2, ?H3, ?H4, ?H5; cbn; f_equal;
    destruct (outcome AwaitEnd) as [[]|], (outcome StopCapture) as [[]|]; try reflexivity;
    destruct (outcome CloseBus) as [[]|], (outcome JoinListener) as [[]|], (outcome ShutdownCapture) as [[]|], (outcome ShutdownBackend) as [[]|];
    reflexivity.
Qed.
Lemma expected_order : expected `sublist_of` ORDER.
Proof.
  unfold expected, started, STARTUP, teardown. cbn [attempted forallb].
  destruct (good OpenStore), (good ConnectBus), (good StartOwners), (good Export), (good ClaimName), ended;
    repeat first [apply sublist_nil_l | apply sublist_skip | apply sublist_cons].
Qed.
Lemma expected_ends :
  (Initialize ∈ expected ↔ started = true)
  ∧ (Initialize ∈ expected → StopCapture ∈ expected ∧ ReleaseOwners ∈ expected ∧ StopTasks ∈ expected)
  ∧ (good OpenStore = true → ShutdownCapture ∈ expected ∧ ShutdownBackend ∈ expected).
Proof.
  unfold expected, started, STARTUP, teardown. cbn [attempted forallb].
  destruct (good OpenStore), (good ConnectBus), (good StartOwners), (good Export), (good ClaimName), ended;
    apply (bool_decide_unpack _); vm_compute; exact I.
Qed.

(** The daemon starts and stops in one order, whatever fails on the way:
    the store is opened first, and nothing is reachable when it cannot be;
    capture is only admitted once the name is claimed, hence by one daemon;
    when it was, it is stopped before any client or resource is let go, and
    everything that was started is torn down; then, however far the start got,
    the capture controller and last the backend are shut down.  The first
    failure is the one that is reported. *)
Theorem daemon_ordered :
  let '(r, l) := run [] in
  l `sublist_of` ORDER ∧ r = first_failure l
  ∧ (Initialize ∈ l ↔ started = true)
  ∧ (Initialize ∈ l → StopCapture ∈ l ∧ ReleaseOwners ∈ l ∧ StopTasks ∈ l)
  ∧ (good OpenStore = true → ShutdownCapture ∈ l ∧ ShutdownBackend ∈ l).
Proof. rewrite run_expected. split; [apply expected_order|]. split; [done|]. apply expected_ends. Qed.
End life.
End Life.

(** ** Requests *)
Module Boundary.
(** What an answer is: the boundary's own refusal, an API error, an answer the
    boundary encoded, or the two answers made here. *)
Inductive Response :=
| Refused (s : string)
| ApiError (code message : string)
| Encoded (response : string)
| Cancelled (id kind : string)
| Subscribed (id : string) (streams : list string).
(** A client on the bus, or a session of the socket. *)
Inductive Caller := Dbus (owner : string) | Socket (owner : string).
Definition id (c : Caller) : string := match c with Dbus owner => owner | Socket owner => owner end.
(** [SubscriptionTask]: what it observes, and its receivers. *)
Record Task := mkTask {
  t_id : string; t_streams : list string; t_owner : string; t_requested : RequestedStreams;
  t_history_events : bool; t_lifecycle_events : bool;
}.

(** The admission of the boundary, the tasks it keeps by owner, and the API,
    whose [dispatch] may be lost ([None]). *)
Class Service := {
  World : Type;
  Params : Type;
  admit_call : option string → string → string → option string;      (* the refusal *)
  admit_subscribe : option string → list string → option string;
  admit_cancel : option string → string → option string;
  admit_raw : option string → string → Z → option string;
  parse_params : string → option Params;
  dispatch : Caller → string → Params → World → option string * World;
  publish_selection : option string → string → bytes → World → string * World;
  next_id : World → string * World;
  spawn_until : Task → World → result string unit * World;
  cancel_task : string → option string → World → bool * World;
  cancel_operation : string → option string → World → bool * World;
}.

Section boundary.
Context `{Service}.
Definition call_owned (caller : Caller) (method params_json : string) (w : World) : Response * World :=
  match admit_call (Some (id caller)) method params_json with
  | Some refusal => (Refused refusal, w)
  | None =>
      match parse_params params_json with
      | None => (ApiError "validation-error" "Invalid params JSON", w)
      | Some params =>
          let '(response, w1) := dispatch caller method params w in
          (match response with
           | Some r => Encoded r
           | None => ApiError "outcome-unknown" "Clipboard outcome is unknown; do not replay"
           end, w1)
      end
  end.
(** The D-Bus method: the caller's identity first. *)
Definition call (sender : option string) (method params_json : string) (w : World) : Response * World :=
  match sender with
  | Some owner => call_owned (Dbus owner) method params_json w
  | None => (ApiError "owner-unavailable" "Clipboard caller is unavailable", w)
  end.
Definition publish (sender : option string) (mime : string) (b : bytes) (w : World) : Response * World :=
  match admit_raw sender mime (zlen b) with
  | Some refusal => (Refused refusal, w)
  | None => let '(r, w1) := publish_selection sender mime b w in (Encoded r, w1)
  end.
Definition start (streams : list string) (owner : string) (w : World) : Response * World :=
  match parse streams with
  | None => (ApiError "unsupported-stream" "Subscription contains no supported clip-api streams", w)
  | Some requested =>
      let '(id, w1) := next_id w in
      let task := mkTask id streams owner requested (watches_clipboard requested) (lifecycle requested) in
      match spawn_until task w1 with
      | (Err e, w2) => (ApiError "subscription-unavailable" e, w2)
      | (Ok _, w2) => (Subscribed id streams, w2)
      end
  end.
Definition subscribe_owned (streams : list string) (owner : string) (w : World) : Response * World :=
  match admit_subscribe (Some owner) streams with
  | Some refusal => (Refused refusal, w)
  | None => start streams owner w
  end.
Definition subscribe (sender : option string) (streams : list string) (w : World) : Response * World :=
  match sender with
  | Some owner => subscribe_owned streams owner w
  | None => (ApiError "subscription-unavailable" "D-Bus caller identity is unavailable", w)
  end.
Definition cancel_owned (request_id : string) (owner : option string) (w : World) : Response * World :=
  match admit_cancel owner request_id with
  | Some refusal => (Refused refusal, w)
  | None =>
      let '(subscription, w1) := cancel_task request_id owner w in
      if (subscription : bool) then (Cancelled request_id "subscription", w1)
      else
        let '(operation, w2) := cancel_operation request_id owner w1 in
        if (operation : bool) then (Cancelled request_id "operation", w2)
        else (ApiError "request-not-found" "No owned cancellable request; an operation may already be committing", w2)
  end.

(** Without an identity, without the boundary's admission, with parameters
    that are no JSON or with streams that are none, nothing is done. *)
Theorem refusals_have_no_effect w :
  (∀ m p, snd (call None m p w) = w) ∧ (∀ s, snd (subscribe None s w) = w)
  ∧ (∀ c m p, admit_call (Some (id c)) m p ≠ None ∨ parse_params p = None → snd (call_owned c m p w) = w)
  ∧ (∀ s m b, admit_raw s m (zlen b) ≠ None → snd (publish s m b w) = w)
  ∧ (∀ o s, admit_subscribe (Some o) s ≠ None ∨ parse s = None → snd (subscribe_owned s o w) = w)
  ∧ (∀ o i, admit_cancel o i ≠ None → snd (cancel_owned i o w) = w).
Proof.
  split_and!; try done.
  - intros c m p. unfold call_owned. destruct (admit_call _ _ _); [done|]. intros [?| ->]; done.
  - intros s m b. unfold publish. by destruct (admit_raw _ _ _).
  - intros o s. unfold subscribe_owned, start. destruct (admit_subscribe _ _); [done|]. intros [?| ->]; done.
  - intros o i. unfold cancel_owned. by destruct (admit_cancel _ _).
Qed.
Lemma parse_watches streams r : parse streams = Some r → watches_clipboard r || lifecycle r = true.
Proof.
  unfold parse. destruct streams as [|x l]; [done|]. rewrite bool_decide_eq_false_2 by done. cbn [orb].
  destruct (existsb _ _) eqn:He; [done|]. intros [= <-]. cbn [existsb] in He. apply orb_false_iff in He as [Hx _].
  apply negb_false_iff in Hx. unfold watches_clipboard. cbn [history current lifecycle].
  assert (Hhead : ∀ y, x = y → memb y (x :: l) = true) by (intros y <-; unfold memb; apply bool_decide_eq_true; left).
  unfold memb at 1 in Hx. apply bool_decide_eq_true in Hx. unfold STREAMS in Hx.
  rewrite !elem_of_cons, elem_of_nil in Hx. destruct Hx as [Hx|[Hx|[Hx|[Hx|[Hx|[]]]]]]; rewrite (Hhead _ Hx), ?orb_true_r; done.
Qed.
(** A subscriber that is told of its subscription has a task of its own under
    that name, with a receiver for each kind of event it asked for. *)
Theorem subscribed_runs streams owner w i s w' :
  subscribe_owned streams owner w = (Subscribed i s, w') →
  s = streams ∧ ∃ requested w1, parse streams = Some requested ∧ next_id w = (i, w1)
    ∧ spawn_until (mkTask i streams owner requested (watches_clipboard requested) (lifecycle requested)) w1 = (Ok tt, w')
    ∧ watches_clipboard requested || lifecycle requested = true.
Proof.
  unfold subscribe_owned, start. destruct (admit_subscribe _ _); [done|]. destruct (parse streams) as [r|] eqn:Hp; [|done].
  destruct (next_id w) as [x w1]. destruct (spawn_until _ w1) as [[[]|e] w2] eqn:Hs; [|done]. intros [= <- <- <-].
  split; [done|]. exists r, w1. split_and!; [done..|]. by eapply parse_watches.
Qed.
(** A cancellation tells what it cancelled: a subscription, or else an
    operation; a subscription's name never reaches the operations. *)
Theorem cancel_told i owner w r w' :
  cancel_owned i owner w = (r, w') → admit_cancel owner i = None →
  let '(subscription, w1) := cancel_task i owner w in
  let '(operation, w2) := cancel_operation i owner w1 in
  (r = Cancelled i "subscription" ↔ subscription = true) ∧ (r = Cancelled i "operation" ↔ subscription = false ∧ operation = true)
  ∧ w' = if subscription then w1 else w2.
Proof.
  intros Hc Ha. unfold cancel_owned in Hc. rewrite Ha in Hc. destruct (cancel_task i owner w) as [[] w1]; [|].
  - injection Hc as <- <-. destruct (cancel_operation i owner w1). naive_solver.
  - destruct (cancel_operation i owner w1) as [[] w2]; injection Hc as <- <-; naive_solver.
Qed.
End boundary.
End Boundary.
