(* ===== verification/Lifecycle.v ===== *)
(** * Lifecycle: which client learns of which request, [api.rs] and
    [daemon/subscription.rs].

    A finished request publishes events with an audience; every lifecycle
    subscriber receives the broadcast, possibly with gaps, and forwards to its
    client what concerns it.  Of the JSON answer of a request only what the
    code looks at is modelled: [Receipt]. *)
From S2P Require Import Prelude Text Model Settings Api Subscription.
Local Open Scope Z_scope.

(** ** What a request answered *)
Record OperationView := mkView { v_id : option string; v_action : option string; v_status : option string }.
#[export] Instance OperationView_eq_dec : EqDecision OperationView.
Proof. solve_decision. Defined.
Record Receipt := mkReceipt { rc_operation : option OperationView; rc_target_available : option bool }.

Inductive EventAudience := Everyone | Owner (owner : option string).
Record LifecycleEvent := mkEvent {
  le_stream : string;
  le_event : string;
  le_data : Receipt;
  le_audience : EventAudience;
}.
Definition visible_to (e : LifecycleEvent) (owner : option string) : bool :=
  match le_audience e with Everyone => true | Owner expected => bool_decide (expected = owner) end.

(** ** Publication, [api.rs] *)
Definition started_operation_id (d : Receipt) : option string :=
  op ← rc_operation d;
  if bool_decide (v_status op = Some "started"%string) then v_id op else None.
Definition operation_event (d : Receipt) (owner : option string) : option LifecycleEvent :=
  op ← rc_operation d;
  let status := default "completed"%string (v_status op) in
  if bool_decide (status = "started"%string) then None
  else Some (mkEvent OPERATION status (mkReceipt (Some op) None) (Owner owner)).
Definition policy_event (method : string) (d : Receipt) (owner : option string) : option LifecycleEvent :=
  '(stream, event) ←
    (if memb method ["clipboard.capture.setPaused"; "clipboard.capture.screenshot"] then Some (CAPTURE, "changed"%string)
     else if bool_decide (method = "clipboard.session.begin"%string) then
       Some (SESSION, if bool_decide (rc_target_available d = Some true) then "completed" else "fallback")%string
     else if memb method ["clipboard.session.hidden"; "clipboard.session.end"] then Some (SESSION, "completed"%string)
     else if bool_decide (method = "clipboard.entry.action"%string)
             && match rc_operation d ≫= v_action with Some a => memb a ["paste"; "image-as-file"] | None => false end
     then Some (SESSION, default "completed"%string (rc_operation d ≫= v_status))
     else None);
  Some (mkEvent stream event d
          (if bool_decide (method = "clipboard.capture.setPaused"%string) then Everyone else Owner owner)).
Definition publish_lifecycle (method : string) (d : Receipt) (owner : option string) : list LifecycleEvent :=
  omap id [operation_event d owner; policy_event method d owner].
(** [emit_operation], of a record of the owner registry. *)
Definition emit_operation (r : Book.Record_) : LifecycleEvent :=
  let op := Book.operation r in
  mkEvent OPERATION (o_status op) (mkReceipt (Some (mkView (Some (o_id op)) (Some (o_action op)) (Some (o_status op)))) None)
          (Owner (Book.owner r)).

(** ** Forwarding, [daemon/subscription.rs] *)
Inductive BroadcastEvent := Item (e : LifecycleEvent) | Gap (skipped : Z).
Inductive Emission := Told (stream event : string) (d : Receipt) | Missed (stream : string) (skipped : Z).
Definition emit (owner : string) (streams : list string) (e : LifecycleEvent) : list Emission :=
  if negb (visible_to e (Some owner)) || negb (memb (le_stream e) streams) then []
  else [Told (le_stream e) (le_event e) (le_data e)].
Definition lag_event (stream : string) : bool := memb stream [OPERATION; CAPTURE; SESSION].
Definition emit_lag (streams : list string) (skipped : Z) : list Emission :=
  (λ x, Missed x skipped) <$> filter (λ x, lag_event x = true) streams.
Definition receive_lifecycle (owner : string) (streams : list string) (l : list BroadcastEvent) : list Emission :=
  l ≫= λ b, match b with Item e => emit owner streams e | Gap n => emit_lag streams n end.

(** ** A lossy broadcast *)
(** [received sent l]: the receiver sees [sent] in order, each message at most
    once, with a gap of the right length wherever some are missing. *)
Inductive received : list LifecycleEvent → list BroadcastEvent → Prop :=
| rc_done : received [] []
| rc_item e sent l : received sent l → received (e :: sent) (Item e :: l)
| rc_gap lost sent l : lost ≠ [] → received sent l → received (lost ++ sent) (Gap (zlen lost) :: l).

(** Everything the service ever published: receipts and operation records. *)
Inductive Publication :=
| OfRequest (method : string) (d : Receipt) (owner : option string)
| OfRecord (r : Book.Record_).
Definition publish (p : Publication) : list LifecycleEvent :=
  match p with
  | OfRequest m d o => publish_lifecycle m d o
  | OfRecord r => [emit_operation r]
  end.
Definition belongs (p : Publication) (owner : string) : Prop :=
  match p with
  | OfRequest m _ o => o = Some owner ∨ m = "clipboard.capture.setPaused"%string
  | OfRecord r => Book.owner r = Some owner
  end.

Lemma operation_event_audience d o e :
  operation_event d o = Some e → le_audience e = Owner o ∧ le_event e ≠ "started"%string.
Proof.
  unfold operation_event. destruct (rc_operation d) as [op|]; cbn; [|done]. case_bool_decide; [done|]. by intros [= <-].
Qed.
Lemma policy_event_audience m d o e :
  policy_event m d o = Some e → le_audience e = Owner o ∨ (m = "clipboard.capture.setPaused"%string ∧ le_stream e = CAPTURE).
Proof.
  unfold policy_event. destruct (memb m ["clipboard.capture.setPaused"; "clipboard.capture.screenshot"]) eqn:Hc; cbn.
  - intros [= <-]. cbn. case_bool_decide; auto.
  - intros Hp. assert (Hm : m ≠ "clipboard.capture.setPaused"%string).
    { intros ->. vm_compute in Hc. discriminate Hc. }
    rewrite (bool_decide_false _ Hm) in Hp. repeat case_match; cbn in Hp; try done; injection Hp as <-; by left.
Qed.
Lemma publish_visible p e owner :
  e ∈ publish p → visible_to e (Some owner) = true → belongs p owner.
Proof.
  destruct p as [m d o|r]; cbn [publish belongs].
  - unfold publish_lifecycle. intros (x & Hx & He)%list_elem_of_omap. cbn in He. subst x. unfold visible_to.
    apply elem_of_cons in Hx as [Hx|[Hx| []%elem_of_nil]%elem_of_cons].
    + apply eq_sym, operation_event_audience in Hx as [-> _]. intros H%bool_decide_eq_true. by left.
    + apply eq_sym, policy_event_audience in Hx as [->|[? _]]; [|by right]. intros H%bool_decide_eq_true. by left.
  - intros ->%list_elem_of_singleton. unfold visible_to, emit_operation. cbn [le_audience]. by intros ?%bool_decide_eq_true.
Qed.
Lemma received_items sent l e : received sent l → Item e ∈ l → e ∈ sent.
Proof. induction 1; set_solver. Qed.
Lemma received_all sent l : received sent l → (∀ n, Gap n ∉ l) → l = Item <$> sent.
Proof.
  induction 1 as [|e sent l _ IH|lost sent l _ _ IH]; intros Hn; [done| |exfalso; apply (Hn (zlen lost)); set_solver].
  cbn. f_equal. apply IH. set_solver.
Qed.

(** A client learns of its own requests only, and of all of them.  Whatever
    was published, and whatever part of it a subscriber received, everything
    told to the subscriber's client on its streams belongs to a request or an
    operation of that very client, or is the shared pause state; a client that
    missed something is told so on each of its lifecycle streams; and if nothing
    was missed it was told exactly the events visible to it, in order. *)
Theorem lifecycle_private ps l owner streams :
  received (ps ≫= publish) l →
  (∀ x ev d, Told x ev d ∈ receive_lifecycle owner streams l →
     x ∈ streams ∧ ∃ p, p ∈ ps ∧ belongs p owner ∧ ∃ e, e ∈ publish p ∧ le_data e = d ∧ le_stream e = x ∧ le_event e = ev)
  ∧ (∀ n x, Gap n ∈ l → x ∈ streams → lag_event x = true → Missed x n ∈ receive_lifecycle owner streams l)
  ∧ ((∀ n, Gap n ∉ l) → receive_lifecycle owner streams l
       = (λ e, Told (le_stream e) (le_event e) (le_data e))
         <$> filter (λ e, visible_to e (Some owner) = true ∧ le_stream e ∈ streams) (ps ≫= publish)).
Proof.
  intros Hr. split_and!.
  - intros x ev d (b & Hin & Hb)%list_elem_of_bind. destruct b as [e|n].
    2: { apply list_elem_of_fmap in Hin as (y & [=] & _). }
    unfold emit in Hin. destruct (visible_to e (Some owner)) eqn:Hv; [|by apply elem_of_nil in Hin].
    destruct (memb (le_stream e) streams) eqn:Hm; [|by apply elem_of_nil in Hin]. cbn in Hin.
    apply list_elem_of_singleton in Hin as [= -> -> ->]. split; [by apply bool_decide_eq_true in Hm|].
    eapply received_items in Hb; [|done]. apply list_elem_of_bind in Hb as (p & He & Hp).
    exists p. split_and!; [done|by eapply publish_visible|]. by exists e.
  - intros n x Hin Hx Hlag. apply list_elem_of_bind. exists (Gap n). split; [|done].
    apply list_elem_of_fmap. exists x. split; [done|]. by apply list_elem_of_filter.
  - intros Hn. rewrite (received_all _ _ Hr Hn). generalize (ps ≫= publish). intros sent.
    induction sent as [|e sent IH]; [done|].
    unfold receive_lifecycle in *. rewrite fmap_cons, bind_cons, IH, filter_cons. unfold emit.
    destruct (visible_to e (Some owner)) eqn:Hv; cbn [negb orb]; [|rewrite decide_False by naive_solver; done].
    destruct (memb (le_stream e) streams) eqn:Hm; cbn [negb orb].
    + apply bool_decide_eq_true in Hm. by rewrite decide_True.
    + apply bool_decide_eq_false in Hm. rewrite decide_False by naive_solver. done.
Qed.
Definition demo_publications : list Publication :=
  [OfRequest "clipboard.session.begin" (mkReceipt None (Some true)) (Some ":1.1"%string);
   OfRequest "clipboard.capture.setPaused" (mkReceipt None None) (Some ":1.2"%string)].
Lemma lifecycle_private_witness :
  receive_lifecycle ":1.2" STREAMS (Item <$> (demo_publications ≫= publish)) = [Told CAPTURE "changed" (mkReceipt None None)]
  ∧ receive_lifecycle ":1.2" STREAMS (Item <$> (demo_publications ≫= publish))
    = (λ e, Told (le_stream e) (le_event e) (le_data e))
      <$> filter (λ e, visible_to e (Some ":1.2"%string) = true ∧ le_stream e ∈ STREAMS) (demo_publications ≫= publish).
Proof.
  split; [vm_compute; reflexivity|].
  refine (proj2 (proj2 (lifecycle_private demo_publications (Item <$> (demo_publications ≫= publish)) ":1.2" STREAMS _)) _).
  - cbn. repeat constructor.
  - intros n Hn. apply list_elem_of_fmap in Hn as (e & [=] & _).
Defined.
