(* ===== verification/Owners.v ===== *)
(** * Owners: what belongs to a client goes with it, [daemon/owner.rs] and the
    dispatch of [daemon.rs].

    Sessions and edits, operations and wipe challenges belong to the client
    that asked for them.  Clients vanish at any time; the loss is reported by a
    lossy monitor (D-Bus) or by the disconnection (socket), while requests of
    the very client may still be running.  Every check, registration and
    partial release is one step, and all tasks interleave freely. *)
From S2P Require Import Prelude Text.
Local Open Scope Z_scope.

(** What [ApiService::release_owner] revokes, in its order.  Operations are
    those that can still be cancelled: one that began to commit is not revoked,
    it keeps its outcome and then ends ([Expire]). *)
Inductive Kind := Interactions | Operations | Challenges.
#[export] Instance Kind_eq_dec : EqDecision Kind.
Proof. solve_decision. Defined.
#[export] Instance Kind_countable : Countable Kind.
Proof.
  refine (inj_countable' (λ k, match k with Interactions => 0 | Operations => 1 | Challenges => 2 end)%N
            (λ n, match n with 0%N => Interactions | 1%N => Operations | _ => Challenges end) _).
  by intros [].
Defined.
Definition ALL : list Kind := [Interactions; Operations; Challenges].
Definition Resource : Type := string * Kind.
(** D-Bus owners are unique bus names; a socket session's is not. *)
Definition is_bus (owner : string) : bool := starts_with ":" owner.

(** ** State *)
(** Where a request is, in [Owners::dispatch] and [Caller::dispatch]. *)
Inductive Phase :=
| Asked | Known                          (* alive: before and after asking the bus *)
| Running                                (* dispatch_owned *)
| Answered | StillKnown                  (* alive, once more *)
| Releasing (ks : list Kind)             (* release_owner: what is left to revoke *)
| Done.
Record Call := mkCall { c_owner : string; c_phase : Phase }.
(** The loop of [Owners::start]. *)
Inductive Watcher :=
| Receiving
| Listing                                (* lagged: resource_owners *)
| Probing (todo : list string)
| Revoking (owner : string) (ks : list Kind) (todo : list string)
| Ended.
(** [Owners::shutdown]. *)
Inductive Sweep := Collecting | Sweeping (todo : list (string * list Kind)).

Record State := mkState {
  gone : gset string;                    (* never back: bus names are not reused *)
  stopped : bool;
  resources : gset Resource;
  losses : list string;                  (* reported and not yet received, oldest first *)
  lagged : bool;                         (* a report was overwritten *)
  watcher : Watcher;
  sweeps : gmap nat Sweep;
  calls : gmap nat Call;
}.
Definition initial_state : State := mkState ∅ false ∅ [] false Receiving ∅ ∅.

Definition set_call (i : nat) (o : string) (p : Phase) (s : State) : State :=
  mkState (gone s) (stopped s) (resources s) (losses s) (lagged s) (watcher s) (sweeps s) (<[i := mkCall o p]> (calls s)).
Definition set_resources (r : gset Resource) (s : State) : State :=
  mkState (gone s) (stopped s) r (losses s) (lagged s) (watcher s) (sweeps s) (calls s).
Definition set_watcher (w : Watcher) (s : State) : State :=
  mkState (gone s) (stopped s) (resources s) (losses s) (lagged s) w (sweeps s) (calls s).
Definition set_losses (l : list string) (lag : bool) (s : State) : State :=
  mkState (gone s) (stopped s) (resources s) l lag (watcher s) (sweeps s) (calls s).
Definition set_sweeps (stop : bool) (m : gmap nat Sweep) (s : State) : State :=
  mkState (gone s) stop (resources s) (losses s) (lagged s) (watcher s) m (calls s).
Definition set_gone (g : gset string) (s : State) : State :=
  mkState g (stopped s) (resources s) (losses s) (lagged s) (watcher s) (sweeps s) (calls s).

Definition revoke (o : string) (k : Kind) (s : State) : State := set_resources (resources s ∖ {[(o, k)]}) s.
(** [resource_owners], those with a bus name. *)
Definition bus_owners (s : State) : list string :=
  elements (filter (λ o, is_bus o = true) (set_map fst (resources s) : gset string)).

Inductive Step :=
| Ask (i : nat) (o : string)
| Probe (i : nat) (yes : bool)           (* has_owner, or is_closed *)
| Confirm (i : nat)                      (* the second look at [stopped] *)
| Register (i : nat) (k : Kind)
| Respond (i : nat)
| Release (i : nat)
| Expire (o : string) (k : Kind)         (* ended, finished, used or expired *)
| Lose (j : nat) (o : string)
| Overwrite
| Receive
| List
| ProbeNext (yes : bool)
| Revoke
| MonitorStops (j : nat)
| BeginShutdown (j : nat)
| Collect (j : nat)
| SweepNext (j : nat).

Definition alive (o : string) (yes : bool) (s : State) : bool := negb (yes && bool_decide (o ∈ gone s)).
Definition step (e : Step) (s : State) : option State :=
  match e with
  | Ask i o => match calls s !! i with None => Some (set_call i o Asked s) | Some _ => None end
  | Probe i yes =>
      '(mkCall o p) ← calls s !! i;
      if is_bus o then
        (* a bus error counts as no; a lost name is never found *)
        if negb (alive o yes s) then None
        else
          match p with
          | Asked => Some (set_call i o (if yes then Known else Releasing ALL) s)
          | Answered => Some (set_call i o (if yes then StillKnown else Releasing ALL) s)
          | _ => None
          end
      else
        let closed := bool_decide (o ∈ gone s) in
        match p with
        | Asked => Some (set_call i o (if closed then Done else Running) s)
        | Answered => Some (set_call i o (if closed then Releasing ALL else Done) s)
        | _ => None
        end
  | Confirm i =>
      '(mkCall o p) ← calls s !! i;
      match p with
      | Known => Some (set_call i o (if stopped s then Releasing ALL else Running) s)
      | StillKnown => Some (set_call i o (if stopped s then Releasing ALL else Done) s)
      | _ => None
      end
  | Register i k =>
      '(mkCall o p) ← calls s !! i;
      match p with Running => Some (set_resources ({[(o, k)]} ∪ resources s) s) | _ => None end
  | Respond i =>
      '(mkCall o p) ← calls s !! i;
      match p with Running => Some (set_call i o Answered s) | _ => None end
  | Release i =>
      '(mkCall o p) ← calls s !! i;
      match p with
      | Releasing (k :: ks) => Some (set_call i o (Releasing ks) (revoke o k s))
      | Releasing [] => Some (set_call i o Done s)
      | _ => None
      end
  | Expire o k => Some (revoke o k s)
  | Lose j o =>
      if bool_decide (o ∈ gone s) then None
      else
        let s := set_gone ({[o]} ∪ gone s) s in
        if is_bus o then
          Some (match watcher s with Ended => s | _ => set_losses (losses s ++ [o]) (lagged s) s end)
        else
          (* [disconnected] *)
          match calls s !! j with None => Some (set_call j o (Releasing ALL) s) | Some _ => None end
  | Overwrite => match losses s with _ :: l => Some (set_losses l true s) | [] => None end
  | Receive =>
      match watcher s with
      | Receiving =>
          if lagged s then Some (set_watcher Listing (set_losses (losses s) false s))
          else match losses s with
               | o :: l => Some (set_watcher (Revoking o ALL []) (set_losses l false s))
               | [] => None
               end
      | _ => None
      end
  | List => match watcher s with Listing => Some (set_watcher (Probing (bus_owners s)) s) | _ => None end
  | ProbeNext yes =>
      match watcher s with
      | Probing [] => Some (set_watcher Receiving s)
      | Probing (o :: l) =>
          if negb (alive o yes s) then None
          else Some (set_watcher (if yes then Probing l else Revoking o ALL l) s)
      | _ => None
      end
  | Revoke =>
      match watcher s with
      | Revoking o (k :: ks) l => Some (set_watcher (Revoking o ks l) (revoke o k s))
      | Revoking o [] l => Some (set_watcher (Probing l) s)
      | _ => None
      end
  | MonitorStops j =>
      match watcher s, sweeps s !! j with
      | Receiving, None => Some (set_watcher Ended (set_sweeps true (<[j := Collecting]> (sweeps s)) s))
      | _, _ => None
      end
  | BeginShutdown j =>
      match sweeps s !! j with None => Some (set_sweeps true (<[j := Collecting]> (sweeps s)) s) | Some _ => None end
  | Collect j =>
      match sweeps s !! j with
      | Some Collecting => Some (set_sweeps (stopped s) (<[j := Sweeping ((λ o, (o, ALL)) <$> bus_owners s)]> (sweeps s)) s)
      | _ => None
      end
  | SweepNext j =>
      match sweeps s !! j with
      | Some (Sweeping ((o, k :: ks) :: l)) =>
          Some (set_sweeps (stopped s) (<[j := Sweeping ((o, ks) :: l)]> (sweeps s)) (revoke o k s))
      | Some (Sweeping ((_, []) :: l)) => Some (set_sweeps (stopped s) (<[j := Sweeping l]> (sweeps s)) s)
      | Some (Sweeping []) => Some (set_sweeps (stopped s) (delete j (sweeps s)) s)
      | _ => None
      end
  end.
Fixpoint run (l : list Step) (s : State) : option State :=
  match l with
  | [] => Some s
  | e :: l' => s' ← step e s; run l' s'
  end.
Inductive reachable : State → Prop :=
| reachable_init : reachable initial_state
| reachable_step e s s' : reachable s → step e s = Some s' → reachable s'.

(** ** Who will revoke what *)
Definition covers (p : Phase) (k : Kind) : Prop :=
  match p with Running | Answered => True | Releasing ks => k ∈ ks | _ => False end.
Definition by_call (s : State) (o : string) (k : Kind) : Prop :=
  ∃ i p, calls s !! i = Some (mkCall o p) ∧ covers p k.
Definition by_watcher (w : Watcher) (o : string) (k : Kind) : Prop :=
  match w with
  | Receiving | Ended => False
  | Listing => True
  | Probing l => o ∈ l
  | Revoking o' ks l => o ∈ l ∨ (o = o' ∧ k ∈ ks)
  end.
Definition by_sweep (s : State) (o : string) (k : Kind) : Prop :=
  ∃ j w, sweeps s !! j = Some w ∧
    match w with Collecting => True | Sweeping l => ∃ ks, (o, ks) ∈ l ∧ k ∈ ks end.
Definition reported (s : State) (o : string) (k : Kind) : Prop :=
  o ∈ losses s ∨ lagged s = true ∨ by_watcher (watcher s) o k.

(** Whatever a lost client still has, somebody is about to revoke; and so it is
    with every D-Bus client once the daemon stops. *)
Record sound (s : State) : Prop := {
  sn_gone : ∀ o k, (o, k) ∈ resources s → o ∈ gone s →
    by_call s o k ∨ (is_bus o = true ∧ (reported s o k ∨ stopped s = true));
  sn_stopped : ∀ o k, (o, k) ∈ resources s → is_bus o = true → stopped s = true →
    by_call s o k ∨ (∃ i, calls s !! i = Some (mkCall o StillKnown)) ∨ by_sweep s o k;
  sn_ended : watcher s = Ended → stopped s = true;
}.
Lemma all_kinds k : k ∈ ALL.
Proof. unfold ALL. destruct k; set_solver. Qed.
#[local] Hint Resolve all_kinds : core.
Lemma elem_of_bus_owners s o : o ∈ bus_owners s ↔ is_bus o = true ∧ ∃ k, (o, k) ∈ resources s.
Proof.
  unfold bus_owners. rewrite elem_of_elements, elem_of_filter, elem_of_map. split.
  - intros [? ([o' k] & -> & ?)]. eauto.
  - intros [? [k ?]]. split; [done|]. by exists (o, k).
Qed.

Lemma sound_call s i o p p' :
  sound s → calls s !! i = Some (mkCall o p) →
  (∀ k, (o, k) ∈ resources s → o ∈ gone s → covers p k → covers p' k) →
  (∀ k, (o, k) ∈ resources s → is_bus o = true → stopped s = true →
        covers p k ∨ p = StillKnown → covers p' k ∨ p' = StillKnown) →
  sound (set_call i o p' s).
Proof.
  intros [A B C] Hi Hg Hst. split; cbn; [| |done].
  - intros x k Hr Hx. destruct (A x k Hr Hx) as [(j & q & Hj & Hq)|Hb]; [left|by right].
    destruct (decide (j = i)) as [->|Hne]; [|by exists j, q; cbn; rewrite lookup_insert_ne].
    rewrite Hi in Hj. injection Hj as -> ->. exists i, p'. cbn. rewrite lookup_insert_eq. split; [done|]. by apply Hg.
  - intros x k Hr Hx Hs.
    assert (Hcall : ∀ q, calls s !! i = Some (mkCall x q) → covers q k ∨ q = StillKnown →
      by_call (set_call i o p' s) x k ∨ ∃ j, calls (set_call i o p' s) !! j = Some (mkCall x StillKnown)).
    { intros q Hq Hc. rewrite Hi in Hq. injection Hq as -> ->.
      destruct (Hst k Hr Hx Hs Hc) as [H| ->]; [left; exists i, p'|right; exists i]; cbn; rewrite lookup_insert_eq; done. }
    destruct (B x k Hr Hx Hs) as [(j & q & Hj & Hq)|[[j Hj]|Hb]]; [| |by right; right].
    + destruct (decide (j = i)) as [->|Hne]; [destruct (Hcall q Hj) as [?|?]; auto|].
      left. exists j, q. cbn. by rewrite lookup_insert_ne.
    + destruct (decide (j = i)) as [->|Hne]; [destruct (Hcall StillKnown Hj) as [?|?]; auto|].
      right; left. exists j. cbn. by rewrite lookup_insert_ne.
Qed.
Lemma sound_new_call s i o p : sound s → calls s !! i = None → sound (set_call i o p s).
Proof.
  intros [A B C] Hi. assert (Hold : ∀ j c, calls s !! j = Some c → <[i := mkCall o p]> (calls s) !! j = Some c).
  { intros j c Hj. rewrite lookup_insert_ne; [done|congruence]. }
  split; cbn; [| |done].
  - intros x k Hr Hx. destruct (A x k Hr Hx) as [(j & q & Hj & Hq)|Hb]; [left|by right]. exists j, q. split; [by apply Hold|done].
  - intros x k Hr Hx Hs. destruct (B x k Hr Hx Hs) as [(j & q & Hj & Hq)|[[j Hj]|Hb]]; [left|right; left|by right; right].
    + exists j, q. split; [by apply Hold|done].
    + exists j. by apply Hold.
Qed.
Lemma sound_fewer s r : sound s → r ⊆ resources s → sound (set_resources r s).
Proof. intros [A B C] Hr. split; cbn; [| |done]; intros o k Hin; [apply A|apply B]; by apply Hr. Qed.
Lemma sound_revoke s o k : sound s → sound (revoke o k s).
Proof. intros Hs. apply sound_fewer; [done|set_solver]. Qed.
Lemma sound_watch s l lag w :
  sound s → (w = Ended → stopped s = true) →
  (∀ o k, (o, k) ∈ resources s → is_bus o = true → o ∈ gone s → reported s o k →
          o ∈ l ∨ lag = true ∨ by_watcher w o k) →
  sound (set_watcher w (set_losses l lag s)).
Proof.
  intros [A B C] Hw Hc. split; cbn; [|done|done]. intros o k Hr Hg.
  destruct (A o k Hr Hg) as [?|[Hb [?|?]]]; [by left|right|by right; auto]. split; [done|]. left. by apply Hc.
Qed.
Lemma sound_sweeps s stop m :
  sound s → (stopped s = true → stop = true) →
  (∀ o k, (o, k) ∈ resources s → is_bus o = true → stop = true →
     (stopped s = true → by_sweep s o k) →
     by_call s o k ∨ (∃ i, calls s !! i = Some (mkCall o StillKnown)) ∨ by_sweep (set_sweeps stop m s) o k) →
  sound (set_sweeps stop m s).
Proof.
  intros [A B C] Hm Hc. split; cbn; [| |by intros H; apply Hm, C].
  - intros o k Hr Hg. destruct (A o k Hr Hg) as [?|[Hb [?|?]]]; [by left|by right; auto|right]. split; [done|]. right. by apply Hm.
  - intros o k Hr Hb Hst. destruct (stopped s) eqn:Hs; [|by apply Hc].
    destruct (B o k Hr Hb eq_refl) as [?|[?|?]]; [by left|by right; left|by apply Hc].
Qed.

Lemma alive_gone o yes s : alive o yes s = true → o ∈ gone s → yes = false.
Proof. unfold alive. destruct yes; [|done]. case_bool_decide; done. Qed.
Lemma probe_sound s i o p yes s' :
  sound s → calls s !! i = Some (mkCall o p) → step (Probe i yes) s = Some s' → sound s'.
Proof.
  intros Hs Hi Hst. cbn in Hst. rewrite Hi in Hst. cbn in Hst. destruct (is_bus o) eqn:Hb.
  - destruct (alive o yes s) eqn:Ha; cbn in Hst; [|done].
    destruct p; try done; injection Hst as <-; apply (sound_call _ _ _ _ _ Hs Hi); cbn; try done.
    + intros k _ _ _ [?|?]; done.
    + intros k _ Hg _. rewrite (alive_gone o yes s Ha Hg). apply all_kinds.
    + intros k _ _ _ _. destruct yes; [by right|left; apply all_kinds].
  - destruct p; try done; injection Hst as <-; apply (sound_call _ _ _ _ _ Hs Hi); cbn; try done; try congruence.
    intros k _ Hg _. rewrite bool_decide_true by done. apply all_kinds.
Qed.
Lemma lose_sound s j o s' : sound s → step (Lose j o) s = Some s' → sound s'.
Proof.
  intros Hs Hst. cbn in Hst. destruct (bool_decide (o ∈ gone s)); [done|]. pose proof Hs as [A B C].
  destruct (is_bus o) eqn:Hb.
  - injection Hst as <-. assert (Hended : watcher s = Ended ∨ watcher s ≠ Ended) by (destruct (watcher s); auto).
    destruct Hended as [Hw|Hw].
    + rewrite Hw. split; cbn; [|done|done]. intros x k Hr [->%elem_of_singleton|Hx]%elem_of_union; [right|by apply A].
      split; [done|]. right. by apply C.
    + assert (Heq : (match watcher s with
                     | Ended => set_gone ({[o]} ∪ gone s) s
                     | _ => set_losses (losses s ++ [o]) (lagged s) (set_gone ({[o]} ∪ gone s) s)
                     end) = set_losses (losses s ++ [o]) (lagged s) (set_gone ({[o]} ∪ gone s) s)) by (by destruct (watcher s)).
      cbn in Heq |- *. rewrite Heq. split; cbn; [|done|done].
      intros x k Hr Hx. destruct (decide (x = o)) as [->|Hne].
      * right. split; [done|]. left; left. set_solver.
      * assert (Hg : x ∈ gone s) by set_solver.
        destruct (A x k Hr Hg) as [?|[? [[?|[?|?]]|?]]]; [by left|right..]; (split; [done|]); unfold reported; cbn; set_solver.
  - destruct (calls s !! j) eqn:Hj; [done|]. injection Hst as <-.
    assert (Hold : ∀ i c, calls s !! i = Some c → <[j := mkCall o (Releasing ALL)]> (calls s) !! i = Some c).
    { intros i c Hi. rewrite lookup_insert_ne; [done|congruence]. }
    split; cbn; [| |done].
    + intros x k Hr Hx. destruct (decide (x = o)) as [->|Hne].
      * left. exists j, (Releasing ALL). cbn. rewrite lookup_insert_eq. auto.
      * assert (Hg : x ∈ gone s) by set_solver. destruct (A x k Hr Hg) as [(i & q & Hi & Hq)|?]; [left; exists i, q; auto|by right].
    + intros x k Hr Hx Hst. destruct (B x k Hr Hx Hst) as [(i & q & Hi & Hq)|[[i Hi]|?]]; [left; exists i, q; auto|right; left; exists i; auto|by right; right].
Qed.
Lemma sweep_sound s j w s' :
  sound s → sweeps s !! j = Some w → step (Collect j) s = Some s' ∨ step (SweepNext j) s = Some s' → sound s'.
Proof.
  intros Hs Hj. pose proof Hs as [A B C].
  assert (Hgo : ∀ w' s1, sound s1 → sweeps s1 = sweeps s →
    (∀ o k, (o, k) ∈ resources s1 → is_bus o = true →
       match w with Collecting => True | Sweeping l => ∃ ks, (o, ks) ∈ l ∧ k ∈ ks end →
       match w' with Some Collecting => True | Some (Sweeping l) => ∃ ks, (o, ks) ∈ l ∧ k ∈ ks | None => False end) →
    sound (set_sweeps (stopped s1) (partial_alter (λ _, w') j (sweeps s1)) s1)).
  { intros w' s1 H1 Heq Hc. apply sound_sweeps; [done|done|]. intros o k Hr Hb Hst Hsw. right; right.
    destruct (Hsw Hst) as (i & x & Hi & Hx). rewrite Heq in *. destruct (decide (i = j)) as [->|Hne].
    - rewrite Hj in Hi. injection Hi as ->. specialize (Hc o k Hr Hb Hx). destruct w' as [w'|]; [|done].
      exists j, w'. cbn. by rewrite lookup_partial_alter_eq.
    - exists i, x. cbn. by rewrite lookup_partial_alter_ne. }
  cbn. rewrite Hj. intros [Hst|Hst].
  - destruct w; [|done]. injection Hst as <-. apply (Hgo (Some (Sweeping _)) s Hs eq_refl).
    intros o k Hr Hb _. exists ALL. split; [|done]. apply list_elem_of_fmap. exists o. split; [done|]. apply elem_of_bus_owners. eauto.
  - destruct w as [|[|[o [|k ks]] l]]; try done; injection Hst as <-.
    + apply (Hgo None s Hs eq_refl). intros o k _ _ (ks & []%elem_of_nil & _).
    + apply (Hgo (Some (Sweeping l)) s Hs eq_refl). intros x k _ _ (ks & [[= -> ->]|Hin]%elem_of_cons & Hk); [set_solver|]. eauto.
    + apply (Hgo (Some (Sweeping ((o, ks) :: l))) (revoke o k s)); [by apply sound_revoke|done|].
      intros x k' Hr _ (ks' & [[= -> ->]|Hin]%elem_of_cons & Hk); [|exists ks'; set_solver].
      exists ks. split; [set_solver|]. apply elem_of_cons in Hk as [->|Hk]; [|done]. cbn in Hr. set_solver.
Qed.
Lemma watcher_sound e s s' :
  match e with Overwrite | Receive | List | ProbeNext _ | Revoke => True | _ => False end →
  sound s → step e s = Some s' → sound s'.
Proof.
  intros He Hs Hst. destruct s as [g stp r ls lag w sw cs] eqn:Es. rewrite <- Es in Hs.
  assert (Hw : ∀ l lag' w', w' ≠ Ended ∨ w' = w →
    (∀ o k, (o, k) ∈ r → is_bus o = true → o ∈ g → reported s o k → o ∈ l ∨ lag' = true ∨ by_watcher w' o k) →
    sound (mkState g stp r l lag' w' sw cs)).
  { intros l lag' w' Hne Hc. pose proof (sound_watch s l lag' w' Hs) as H. subst s. apply H; [|done].
    intros ->. destruct Hne as [?|<-]; [done|]. by apply (sn_ended _ Hs). }
  unfold reported in Hw. subst s. destruct e as [| | | | | | | | |  | |yes| | | | |]; try done; cbn in *.
  - destruct ls as [|o l]; [done|]. injection Hst as <-. apply Hw; [by right|]. auto.
  - destruct w; try done. destruct lag; [|destruct ls as [|o l]; [done|]]; injection Hst as <-; (apply Hw; [by left|]); cbn; auto.
    intros x k _ _ _ [[->|?]%elem_of_cons|[?|?]]; [|by auto|done|done]. right; right; right. auto.
  - destruct w; try done. injection Hst as <-. apply Hw; [by left|]. cbn. intros x k Hr Hb _ _. right; right.
    apply elem_of_bus_owners. eauto.
  - destruct w as [| |[|o l]| |]; try done.
    + injection Hst as <-. apply Hw; [by left|]. cbn. intros x k _ _ _ [?|[?|[]%elem_of_nil]]; auto.
    + destruct (alive o yes _) eqn:Ha; cbn in Hst; [|done]. injection Hst as <-.
      apply Hw; [left; by destruct yes|]. intros x k _ _ Hg [?|[?|[->|?]%elem_of_cons]]; [by auto..| |].
      * rewrite (alive_gone _ _ _ Ha Hg). right; right; right. auto.
      * right; right. destruct yes; cbn; auto.
  - destruct w as [| | |o [|k ks] l|]; try done; injection Hst as <-.
    + apply Hw; [by left|]. cbn. intros x k _ _ _ [?|[?|[?|[_ []%elem_of_nil]]]]; auto.
    + pose proof (sound_revoke _ o k Hs) as Hs'. apply (sound_watch _ ls lag (Revoking o ks l)) in Hs'; [exact Hs'|done|].
      unfold reported. cbn. intros x k' Hr _ _ [?|[?|[?|[-> [->|?]%elem_of_cons]]]]; [by auto..| |by auto].
      set_solver.
Qed.
Lemma owners_step e s s' : step e s = Some s' → sound s → sound s'.
Proof.
  intros Hst Hs. destruct e as [i o|i yes|i|i k|i|i|o k|j o| | | |yes| |j|j|j|j];
    try (match type of Hst with step ?e _ = _ => exact (watcher_sound e s s' I Hs Hst) end).
  - cbn in Hst. destruct (calls s !! i) eqn:Hi; [done|]. injection Hst as <-. by apply sound_new_call.
  - destruct (calls s !! i) as [[o p]|] eqn:Hi; [by eapply probe_sound|]. cbn in Hst. by rewrite Hi in Hst.
  - cbn in Hst. destruct (calls s !! i) as [[o p]|] eqn:Hi; cbn in Hst; [|done].
    destruct p; try done; injection Hst as <-; apply (sound_call _ _ _ _ _ Hs Hi); cbn; try done.
    + intros k _ _ _ [?|?]; done.
    + intros k _ _ -> _. left. apply all_kinds.
  - cbn in Hst. destruct (calls s !! i) as [[o p]|] eqn:Hi; cbn in Hst; [|done]. destruct p; try done. injection Hst as <-.
    destruct Hs as [A B C]. assert (Hc : by_call (set_resources ({[(o, k)]} ∪ resources s) s) o k) by (by exists i, Running).
    split; cbn; [| |done].
    + intros x k' [[= -> ->]%elem_of_singleton|Hr]%elem_of_union Hg; [by left|by apply A].
    + intros x k' [[= -> ->]%elem_of_singleton|Hr]%elem_of_union Hb Hst; [by left|by apply B].
  - cbn in Hst. destruct (calls s !! i) as [[o p]|] eqn:Hi; cbn in Hst; [|done]. destruct p; try done. injection Hst as <-.
    apply (sound_call _ _ _ _ _ Hs Hi); cbn; auto.
  - cbn in Hst. destruct (calls s !! i) as [[o p]|] eqn:Hi; cbn in Hst; [|done]. destruct p as [| | | | |[|k ks]|]; try done; injection Hst as <-.
    + apply (sound_call _ _ _ _ _ Hs Hi); cbn; try done; [intros k _ _ []%elem_of_nil|intros k _ _ _ [[]%elem_of_nil|?]; done].
    + assert (Hk : ∀ k', (o, k') ∈ resources (revoke o k s) → k' ∈ k :: ks → k' ∈ ks) by (cbn; set_solver).
      apply (sound_call _ _ _ _ _ (sound_revoke s o k Hs) Hi); [intros k' Hr _; by apply Hk|]. intros k' Hr _ _ [?|?]; [left; by apply Hk|done].
  - cbn in Hst. injection Hst as <-. by apply sound_revoke.
  - by eapply lose_sound.
  - cbn in Hst. destruct (watcher s) eqn:Hw; try done. destruct (sweeps s !! j); [done|]. injection Hst as <-.
    assert (H1 : sound (set_sweeps true (<[j := Collecting]> (sweeps s)) s)).
    { apply sound_sweeps; [done|done|]. intros o k _ _ _ _. right; right. exists j, Collecting. cbn. by rewrite lookup_insert_eq. }
    pose proof (sound_watch _ (losses s) (lagged s) Ended H1) as H2. apply H2; [done|]. unfold reported. cbn. rewrite Hw.
    intros o k _ _ _ [?|[?|[]]]; auto.
  - cbn in Hst. destruct (sweeps s !! j); [done|]. injection Hst as <-. apply sound_sweeps; [done|done|].
    intros o k _ _ _ _. right; right. exists j, Collecting. cbn. by rewrite lookup_insert_eq.
  - destruct (sweeps s !! j) as [w|] eqn:Hj; [by eapply sweep_sound; [..|left]|]. cbn in Hst. by rewrite Hj in Hst.
  - destruct (sweeps s !! j) as [w|] eqn:Hj; [by eapply sweep_sound; [..|right]|]. cbn in Hst. by rewrite Hj in Hst.
Qed.
Lemma reachable_owned s : reachable s → sound s.
Proof. induction 1 as [|e s s' _ IH Hs]; [by split|by eapply owners_step]. Qed.

(** Nothing under way: requests are answered, reports handled, sweeps done. *)
Record settled (s : State) : Prop := {
  st_calls : ∀ i c, calls s !! i = Some c → c_phase c = Done;
  st_losses : losses s = [];
  st_lagged : lagged s = false;
  st_watcher : watcher s = Receiving ∨ watcher s = Ended;
  st_sweeps : sweeps s = ∅;
}.

(** C16 Nothing outlives its owner.  Whatever the order in which clients vanish,
    loss reports are lost or delayed, requests of vanishing clients register
    sessions, edits, operations or challenges, and the daemon stops: once
    nothing is under way, whatever is still held belongs to a client that is
    still there, and if the daemon stopped, to no D-Bus client at all. *)
Theorem resources_reclaimed s o k :
  reachable s → settled s → (o, k) ∈ resources s →
  (o ∉ gone s) ∧ (is_bus o = true → stopped s = false).
Proof.
  intros Hr [Hcalls Hl Hlag Hw Hsw] Hin. destruct (reachable_owned s Hr) as [A B _].
  assert (Hnone : ¬ by_call s o k).
  { intros (i & p & Hi & Hp). apply Hcalls in Hi. cbn in Hi. by subst p. }
  assert (Hstop : is_bus o = true → stopped s = false).
  { intros Hb. destruct (stopped s) eqn:Hst; [|done].
    destruct (B o k Hin Hb eq_refl) as [?|[[i Hi]|(j & w & Hj & _)]]; [done| |].
    - apply Hcalls in Hi. done.
    - rewrite Hsw in Hj. by rewrite lookup_empty in Hj. }
  split; [|done]. intros Hg. destruct (A o k Hin Hg) as [?|[Hb [[Hx|[Hx|Hx]]|Hx]]]; [done|..].
  - rewrite Hl in Hx. by apply elem_of_nil in Hx.
  - congruence.
  - by destruct Hw as [Hw|Hw]; rewrite Hw in Hx.
  - rewrite (Hstop Hb) in Hx. done.
Qed.

Lemma run_owned l s s' : run l s = Some s' → reachable s → reachable s'.
Proof.
  revert s. induction l as [|e l IH]; intros s Hr Hs; cbn in Hr; [by injection Hr as <-|].
  destruct (step e s) as [s1|] eqn:He; cbn in Hr; [|done]. by eapply IH; [|eapply reachable_step].
Qed.
(** A client is lost while its request runs, and the report before that. *)
Definition late_steps : list Step :=
  [Ask 0 ":1.1"; Probe 0 true; Confirm 0; Ask 1 ":1.2"; Probe 1 true; Confirm 1; Register 1 Interactions; Lose 9 ":1.1"; Overwrite;
   Receive; List; ProbeNext true; ProbeNext true; Register 0 Challenges; Respond 0; Probe 0 false; Release 0; Release 0;
   Release 0; Release 0; Respond 1; Probe 1 true; Confirm 1].
Definition late_state : State := default initial_state (run late_steps initial_state).
Lemma resources_reclaimed_witness :
  bool_decide (":1.1" ∈ gone late_state) = true ∧ (":1.2", Interactions) ∈ resources late_state
  ∧ (":1.2" ∉ gone late_state) ∧ (is_bus ":1.2" = true → stopped late_state = false).
Proof.
  assert (Hin : bool_decide ((":1.2", Interactions) ∈ resources late_state) = true) by (vm_compute; reflexivity).
  apply bool_decide_eq_true in Hin. split; [vm_compute; reflexivity|]. split; [exact Hin|].
  refine (resources_reclaimed late_state ":1.2" Interactions _ _ Hin).
  - apply (run_owned late_steps initial_state); [vm_compute; reflexivity|constructor].
  - assert (Hcalls : forallb (λ kv, match c_phase kv.2 with Done => true | _ => false end) (map_to_list (calls late_state)) = true)
      by (vm_compute; reflexivity). rewrite forallb_forall in Hcalls.
    assert (Hsw : bool_decide (size (sweeps late_state) = 0%nat) = true) by (vm_compute; reflexivity).
    apply bool_decide_eq_true, map_size_empty_inv in Hsw.
    split; [|vm_compute; reflexivity|vm_compute; reflexivity|left; vm_compute; reflexivity|exact Hsw].
    intros i c Hi%elem_of_map_to_list%list_elem_of_In. specialize (Hcalls (i, c) Hi). cbn in Hcalls.
    destruct (c_phase c); first [discriminate Hcalls|reflexivity].
Defined.
