(* ===== verification/Outcomes.v ===== *)
(** * Outcomes: what clients are told of image operations, [api.rs].

    The owner registry mirrors the operations of the backend: a launched
    operation is tracked for the client that asked for it, events, requests and
    lost events refresh its record, and only its owner may cancel it.  The
    backend's own steps ([Operations.v]) and those of the registry ([Api.v])
    interleave freely; what the registry reads of the backend may already be
    old when it is written down only where the code reads without holding its
    own lock: the set of active operations. *)
From S2P Require Import Prelude Text Model Operations Settings Api.
Local Open Scope Z_scope.

Record Daemon := mkDaemon {
  backend : OperationState;
  service : Book.Service;
  launcher : gmap string (option string);   (* history: who asked for each operation *)
  untracked : list (OperationResult * option string);   (* launched, and the request has not tracked it yet *)
  permits : list (string * option string);  (* cancellations the registry let through *)
}.
Definition initial_daemon : Daemon := mkDaemon initial_state (Book.mkService Book.new []) ∅ [] [].
Definition set_backend (b : OperationState) (d : Daemon) : Daemon :=
  mkDaemon b (service d) (launcher d) (untracked d) (permits d).
Definition set_service (s : Book.Service) (d : Daemon) : Daemon :=
  mkDaemon (backend d) s (launcher d) (untracked d) (permits d).
(** [backend.operation_status] under the registry's lock; a poisoned backend
    lock is an error. *)
Definition backend_status (now : Z) (poisoned : bool) (id : string) (d : Daemon) : BackendResult (option OperationResult) :=
  if poisoned then Err (operation_error "Clipboard operation state is unavailable")
  else Ok (fst (status now id (backend d))).

Inductive Event :=
| Backend (e : Step)                       (* work and cleanup; a drain may cancel *)
| Launched (uuid action message : string) (files : list string) (owner : option string)
| Tracked (now : Z) (poisoned : bool) (op : OperationResult) (owner : option string)
| Refreshed (now : Z) (poisoned : bool) (id : string) (active_ids : BackendResult (gset string))
| Asked (c : Book.Call)                    (* reservations and status requests *)
| Permitted (id : string) (owner : option string)   (* the guard of cancel_operation_owned, release_owner's list *)
| Cancelled (id : string) (owner : option string).

(** [cancel_operation_owned]: the check, and later the backend's answer. *)
Definition permit (id : string) (o : option string) (d : Daemon) : Daemon :=
  if Book.may_cancel id o (service d)
  then mkDaemon (backend d) (service d) (launcher d) (untracked d) ((id, o) :: permits d)
  else d.
Definition track_operation (now : Z) (poisoned : bool) (op : OperationResult) (o : option string) (d : Daemon) : Daemon :=
  set_service (Book.track now (backend_status now poisoned (o_id op) d) op o (service d)) d.
Definition refresh_operation (now : Z) (poisoned : bool) (id : string) (active_ids : BackendResult (gset string)) (d : Daemon)
    : Daemon :=
  set_service (Book.refresh now id (backend_status now poisoned id d) active_ids (service d)) d.
Definition started_operation (uuid action message : string) : OperationResult :=
  let c := completed uuid action message in
  mkOperation (o_id c) (o_action c) "started" (o_message c) (o_path c) (o_warning c).

Inductive step : Daemon → Event → Daemon → Prop :=
| d_backend e b d :
    Operations.step (backend d) e b → (match e with Launch _ _ _ _ => False | _ => True end) →
    step d (Backend e) (set_backend b d)
| d_launched uuid action message files o d :
    let op := started_operation uuid action message in
    phase (backend d) !! o_id op = None →
    step d (Launched uuid action message files o)
      (mkDaemon (launch uuid action message files (backend d)) (service d) (<[o_id op := o]> (launcher d))
                ((op, o) :: untracked d) (permits d))
| d_tracked now poisoned op o d :
    (op, o) ∈ untracked d → step d (Tracked now poisoned op o) (track_operation now poisoned op o d)
| d_refreshed now poisoned id ids d :
    step d (Refreshed now poisoned id ids) (refresh_operation now poisoned id ids d)
| d_asked c d :
    (match c with Book.Reserve _ _ _ | Book.Release _ | Book.StatusOf _ _ _ => True | _ => False end) →
    step d (Asked c) (set_service (Book.call c (service d)) d)
| d_permitted id o d : step d (Permitted id o) (permit id o d)
| d_cancelled id o d :
    (id, o) ∈ permits d → step d (Cancelled id o) (set_backend (snd (cancel id (backend d))) d).
Inductive reachable : Daemon → Prop :=
| reachable_initial : reachable initial_daemon
| reachable_event d e d' : reachable d → step d e d' → reachable d'.

(** ** The backend keeps what it said *)
Record remembers (b : OperationState) : Prop := {
  rm_started : ∀ id t, active b !! id = Some t → o_status (initial t) = "started"%string;
  rm_cancelling : ∀ id x, cancelling b !! id = Some x → o_status x.1 = "started"%string;
  rm_terminal : ∀ x, x ∈ terminal b → x.2 ∈ events b ∧ o_status x.2 ≠ "started"%string;
}.
Lemma remembers_step b e b' : remembers b → Operations.step b e b' → remembers b'.
Proof.
  intros [A B C] Hs. destruct Hs as [uuid a m fs b Hn|id b|now id r b p Hp Hpf Hr|id b|now id b Hid|now id b]; cbn.
  - split; cbn; [|done|].
    + intros id t [[_ <-]|[_ Ht]]%lookup_insert_Some; [done|by eapply A].
    + intros x Hx. destruct (C x Hx). split; [set_solver|done].
  - unfold begin_commit. by destruct (p ← phase b !! id; exchange COMMITTING p).
  - unfold complete. destruct (active b !! id) as [t|] eqn:Ht; [|done]. split; cbn.
    + intros i y [_ Hy]%lookup_delete_Some. by eapply A.
    + done.
    + intros x [Hx| ->]%elem_of_retain; [destruct (C x Hx); split; [set_solver|done]|].
      split; [set_solver|]. cbn. by apply (completion_event_spec id (t_action t) r (id ∈ committed b)).
  - unfold cancel. destruct (active b !! id) as [t|] eqn:Ht; [|done].
    destruct (p ← phase b !! id; exchange CANCELLED p) as [p|]; [|done]. split; cbn.
    + intros i y [_ Hy]%lookup_delete_Some. by eapply A.
    + intros i x [[_ <-]|[_ Hx]]%lookup_insert_Some; [by eapply A|by eapply B].
    + done.
  - unfold finish_cancel. destruct (cancelling b !! id) as [[r t]|] eqn:Hc; [|done]. split; cbn.
    + done.
    + intros i x [_ Hx]%lookup_delete_Some. by eapply B.
    + intros x [Hx| ->]%elem_of_retain; [destruct (C x Hx); split; [set_solver|done]|]. split; [set_solver|done].
  - split; cbn; [done|done|]. intros x Hx. apply C. eapply elem_of_sublist; [exact Hx|apply prune_sublist].
Qed.

(** Nothing runs under this identifier. *)
Definition quiet (id : string) (b : OperationState) : Prop := active b !! id = None ∧ cancelling b !! id = None.
Lemma quiet_step id b e b' :
  Operations.step b e b' → is_Some (phase b !! id) → quiet id b → quiet id b'.
Proof.
  intros Hs Hp [Ha Hc]. destruct Hs as [uuid a m fs b Hn|i b|now i r b p Hp' Hpf Hr|i b|now i b Hid|now i b]; cbn.
  - split; cbn; [|done]. rewrite lookup_insert_ne; [done|]. intros Heq. cbn in Heq. rewrite Heq in Hn. rewrite Hn in Hp. by destruct Hp.
  - unfold begin_commit. by destruct (p ← phase b !! i; exchange COMMITTING p).
  - unfold complete. destruct (active b !! i); [|done]. split; cbn; [|done]. rewrite lookup_delete_None. auto.
  - unfold cancel. destruct (active b !! i) as [t|] eqn:Ht; [|done]. destruct (p ← phase b !! i; exchange CANCELLED p); [|done].
    assert (i ≠ id) by congruence. split; cbn; [rewrite lookup_delete_None; auto|by rewrite lookup_insert_ne].
  - unfold finish_cancel. destruct (cancelling b !! i) as [[r t]|]; [|done]. split; cbn; [done|]. rewrite lookup_delete_None. auto.
  - done.
Qed.
Lemma events_grow b e b' x : Operations.step b e b' → x ∈ events b → x ∈ events b'.
Proof.
  intros Hs Hx. destruct Hs as [uuid a m fs b Hn|i b|now i r b p Hp' Hpf Hr|i b|now i b Hid|now i b]; cbn; try done.
  - set_solver.
  - unfold begin_commit. by destruct (p ← phase b !! i; exchange COMMITTING p).
  - unfold complete. destruct (active b !! i); cbn; set_solver.
  - unfold cancel. destruct (active b !! i); [|done]. by destruct (p ← phase b !! i; exchange CANCELLED p).
  - unfold finish_cancel. destruct (cancelling b !! i) as [[r t]|]; cbn; set_solver.
Qed.
Lemma phase_stays b e b' id : Operations.step b e b' → is_Some (phase b !! id) → is_Some (phase b' !! id).
Proof.
  assert (Hins : ∀ (m : gmap string Phase) i p, is_Some (m !! id) → is_Some (<[i := p]> m !! id)).
  { intros m i p Hm. destruct (decide (i = id)) as [->|Hne]; [by rewrite lookup_insert_eq|by rewrite lookup_insert_ne]. }
  intros Hs Hx. destruct Hs as [uuid a m fs b Hn|i b|now i r b p Hp' Hpf Hr|i b|now i b Hid|now i b]; cbn; auto.
  - unfold begin_commit. destruct (p ← phase b !! i; exchange COMMITTING p); cbn; auto.
  - unfold complete. destruct (active b !! i); cbn; auto.
  - unfold cancel. destruct (active b !! i); [|done]. destruct (p ← phase b !! i; exchange CANCELLED p); cbn; auto.
  - unfold finish_cancel. destruct (cancelling b !! i) as [[r t]|]; cbn; auto.
Qed.

(** What [status] answers. *)
Lemma status_answer now id b r :
  Operations.reachable b → remembers b → fst (status now id b) = Some r →
  o_id r = id ∧ (o_status r = "started"%string ∨ r ∈ events b).
Proof.
  intros Hb [A B C] Hr. destruct (reachable_ok b Hb) as [Oa Oc _ _]. cbn in Hr.
  destruct (active b !! id) as [t|] eqn:Ht.
  - injection Hr as <-. destruct (Oa id t Ht) as (_ & _ & ? & _). split; [done|]. left. by eapply A.
  - destruct (cancelling b !! id) as [[x t]|] eqn:Hx.
    + injection Hr as <-. destruct (Oc id _ Hx) as (_ & _ & ? & _). split; [done|]. left. by apply (B id (x, t)).
    + apply fmap_Some in Hr as ([at_ x] & Hh & ->). apply head_Some_elem_of, list_elem_of_filter in Hh as [Hid Hin].
      split; [done|]. right. apply C. eapply elem_of_sublist; [exact Hin|apply prune_sublist].
Qed.
Lemma status_none now id b : fst (status now id b) = None → quiet id b.
Proof.
  cbn. unfold quiet. destruct (active b !! id); [done|]. destruct (cancelling b !! id) as [[x t]|]; done.
Qed.

(** ** The invariant *)
Definition told (d : Daemon) (r : Book.Record_) : Prop :=
  let id := o_id (Book.operation r) in
  launcher d !! id = Some (Book.owner r)
  ∧ (o_status (Book.operation r) = "started"%string
     ∨ Book.operation r ∈ events (backend d)
     ∨ (o_status (Book.operation r) = "unknown"%string ∧ quiet id (backend d))).
Record sound (d : Daemon) : Prop := {
  so_backend : Operations.reachable (backend d);
  so_remembers : remembers (backend d);
  so_published : ∀ r, r ∈ Book.published (service d) → told d r;
  so_records : ∀ id r, Book.records (Book.book (service d)) !! id = Some r → o_id (Book.operation r) = id ∧ told d r;
  so_untracked : ∀ op o, (op, o) ∈ untracked d → o_status op = "started"%string ∧ launcher d !! o_id op = Some o;
  so_permits : ∀ id o, (id, o) ∈ permits d → launcher d !! id = Some o;
  so_launcher : ∀ id, is_Some (launcher d !! id) → is_Some (phase (backend d) !! id);
}.
Lemma told_later d d' r :
  (∀ id o, launcher d !! id = Some o → launcher d' !! id = Some o ∧ (quiet id (backend d) → quiet id (backend d'))) →
  (∀ x, x ∈ events (backend d) → x ∈ events (backend d')) →
  told d r → told d' r.
Proof. intros Hl He [Ho Hs]. destruct (Hl _ _ Ho) as [Ho' Hq]. split; [done|]. naive_solver. Qed.
Lemma sound_backend d e b :
  sound d → Operations.step (backend d) e b → sound (set_backend b d).
Proof.
  intros [A B C D E F G] Hs.
  assert (Ht : ∀ r, told d r → told (set_backend b d) r).
  { intros r. apply told_later; cbn; [|intros x; by eapply events_grow]. intros id o Ho. split; [done|].
    apply (quiet_step _ _ _ _ Hs). apply G. by rewrite Ho. }
  split; cbn; try done.
  - by eapply Operations.r_step.
  - by eapply remembers_step.
  - intros r Hr. by apply Ht, C.
  - intros id r Hr. destruct (D id r Hr). auto.
  - intros id Hid. eapply phase_stays; [done|by apply G].
Qed.
Lemma sound_launched uuid action message files o d :
  sound d → let op := started_operation uuid action message in phase (backend d) !! o_id op = None →
  sound (mkDaemon (launch uuid action message files (backend d)) (service d) (<[o_id op := o]> (launcher d))
                  ((op, o) :: untracked d) (permits d)).
Proof.
  intros [A B C D E F G] op Hn.
  assert (Hnew : launcher d !! o_id op = None).
  { destruct (launcher d !! o_id op) eqn:Hl; [|done]. destruct (G (o_id op)) as [p ?]; [by rewrite Hl|congruence]. }
  assert (Hstep : Operations.step (backend d) (Launch uuid action message files) (launch uuid action message files (backend d))).
  { by constructor. }
  assert (Hold : ∀ id x, launcher d !! id = Some x → <[o_id op := o]> (launcher d) !! id = Some x).
  { intros id x Hx. rewrite lookup_insert_ne; [done|congruence]. }
  set (d' := mkDaemon _ _ _ _ _). assert (Ht : ∀ r, told d r → told d' r).
  { intros r. apply told_later; [|intros x; by apply (events_grow _ _ _ _ Hstep)]. intros id x Hx. split; [by apply Hold|].
    apply (quiet_step _ _ _ _ Hstep). apply G. by rewrite Hx. }
  split.
  - by eapply Operations.r_step.
  - by eapply remembers_step.
  - intros r Hr. by apply Ht, C.
  - intros id r Hr. destruct (D id r Hr). auto.
  - intros x y [[= -> ->]|Hx]%elem_of_cons; cbn; [split; [done|apply lookup_insert_eq]|]. destruct (E x y Hx). auto.
  - intros x y Hx. by apply Hold, F.
  - cbn. intros id [x Hx]. apply lookup_insert_Some in Hx as [[<- _]|[_ Hx]].
    + eexists. apply lookup_insert_eq.
    + apply (phase_stays _ _ _ _ Hstep), G. by rewrite Hx.
Qed.
Lemma sound_service d s :
  sound d → (∀ r, r ∈ Book.published s → told d r) →
  (∀ id r, Book.records (Book.book s) !! id = Some r → o_id (Book.operation r) = id ∧ told d r) →
  sound (set_service s d).
Proof. intros [A B C D E F G] Hp Hr. split; cbn; try done. Qed.
(** A record of what the backend answers now. *)
Lemma told_status d now id o r rev at_ :
  sound d → launcher d !! id = Some o → fst (status now id (backend d)) = Some r → told d (Book.mkRecord o r rev at_).
Proof.
  intros Hs Ho Hr. apply status_answer in Hr as [Hid Hr]; [|apply Hs..]. unfold told. cbn. rewrite Hid.
  split; [done|]. naive_solver.
Qed.
Lemma sound_tracked d now poisoned op o :
  sound d → (op, o) ∈ untracked d → sound (track_operation now poisoned op o d).
Proof.
  intros Hs Hin. destruct (so_untracked d Hs op o Hin) as [Hst Hl]. unfold track_operation, Book.track.
  set (current := default op _).
  assert (Hc : o_id current = o_id op ∧ ∀ rev at_, told d (Book.mkRecord o current rev at_)).
  { subst current. unfold backend_status. destruct poisoned; cbn [ok_of mjoin option_join default].
    - split; [done|]. intros rev at_. split; [done|by left].
    - destruct (fst (status now (o_id op) (backend d))) as [r|] eqn:Hr; cbn [ok_of mjoin option_join default from_option].
      + split; [|intros; by eapply told_status]. by eapply status_answer in Hr as [? _]; [|apply Hs..].
      + split; [done|]. intros rev at_. split; [done|by left]. }
  destruct Hc as [Hid Ht]. apply sound_service; [done|..]; cbn.
  - intros r [->|Hr]%elem_of_cons; [done|by apply (so_published d Hs)].
  - intros id r [[<- <-]|[_ Hr]]%lookup_insert_Some; [done|]. apply (so_records d Hs).
    by eapply Book.prune_sub, Book.evict_sub.
Qed.
Lemma sound_refreshed d now poisoned id ids : sound d → sound (refresh_operation now poisoned id ids d).
Proof.
  intros Hs. unfold refresh_operation, Book.refresh.
  destruct (Book.records (Book.book (service d)) !! id) as [r|] eqn:Hr; [|by destruct d].
  destruct (Book.active r) eqn:Hact; [|by destruct d].
  destruct (Book.refreshed _ _ _ _) as [cur|] eqn:Hcur; [|by destruct d].
  case_bool_decide; [by destruct d|]. destruct (so_records d Hs id r Hr) as [Hid [Ho _]]. rewrite Hid in Ho.
  assert (Ht : o_id cur = id ∧ ∀ rev at_, told d (Book.mkRecord (Book.owner r) cur rev at_)).
  { unfold Book.refreshed, backend_status in Hcur. destruct poisoned; [done|].
    destruct (fst (status now id (backend d))) as [x|] eqn:Hx.
    - injection Hcur as <-. split; [|intros; by eapply told_status]. by eapply status_answer in Hx as [? _]; [|apply Hs..].
    - apply status_none in Hx. destruct ids as [ids|e]; [|done]. case_bool_decide; [done|]. injection Hcur as <-. cbn.
      split; [done|]. intros rev at_. split; [done|]. right; right. done. }
  destruct Ht as [Hcid Ht]. apply sound_service; [done|..]; cbn.
  - intros x [->|Hx]%elem_of_cons; [done|by apply (so_published d Hs)].
  - intros i x [[<- <-]|[_ Hx]]%lookup_insert_Some; [done|by apply (so_records d Hs)].
Qed.
Lemma asked_sub c s :
  (match c with Book.Reserve _ _ _ | Book.Release _ | Book.StatusOf _ _ _ => True | _ => False end) →
  Book.published (Book.call c s) = Book.published s
  ∧ ∀ id r, Book.records (Book.book (Book.call c s)) !! id = Some r → Book.records (Book.book s) !! id = Some r.
Proof.
  destruct c; try done; intros _; cbn.
  - split; [done|]. intros id r. unfold Book.reserve. destruct (_ || _); cbn; intros Hr; by apply map_lookup_filter_Some in Hr as [? _].
  - unfold Book.operation_status. destruct (_ || _); [done|].
    destruct (_ !! id) as [x|]; [case_bool_decide|]; cbn; (split; [done|]);
      intros i r Hr; by apply map_lookup_filter_Some in Hr as [? _].
Qed.
Lemma sound_step d e d' : step d e d' → sound d → sound d'.
Proof.
  intros Hst Hs. destruct Hst as [e b d Hb _|uuid a m fs o d op Hn|now p op o d Hin|now p id ids d|c d Hc|id o d|id o d Hin].
  - by eapply sound_backend.
  - by apply sound_launched.
  - by apply sound_tracked.
  - by apply sound_refreshed.
  - destruct (asked_sub c (service d) Hc) as [Hp Hr]. apply sound_service; [done|rewrite Hp; apply Hs|].
    intros id r Hx. by apply (so_records d Hs), Hr.
  - unfold permit. destruct (Book.may_cancel _ _ _) eqn:Hc; [|done]. destruct Hs as [A B C D E F G]. split; cbn; try done.
    intros i x [[= -> ->]|Hx]%elem_of_cons; [|by apply F]. unfold Book.may_cancel in Hc.
    destruct (_ !! id) as [r|] eqn:Hr; [|done]. bools. destruct (D id r Hr) as [<- [? _]]. congruence.
  - eapply sound_backend; [done|]. constructor.
Qed.
Lemma daemon_sound d : reachable d → sound d.
Proof.
  induction 1 as [|d e d' _ IH Hs]; [|by eapply sound_step]. split; cbn; try done; try set_solver.
  - constructor.
  - split; cbn; [intros ? ?; by rewrite lookup_empty..|set_solver].
  - intros id. rewrite lookup_empty. by intros [? ?].
Qed.

Lemma reported_final d r :
  sound d → told d r → let id := o_id (Book.operation r) in
  Book.active r = false → ∃ e, ended id (backend d) = [e]
    ∧ (Book.operation r = e ∨ o_status (Book.operation r) = "unknown"%string)
    ∧ (o_status (Book.operation r) = "cancelled"%string → id ∉ committed (backend d)).
Proof.
  intros Hs [Ho Ht] id Hact. destruct (reachable_ok _ (so_backend d Hs)) as [Oa Oc Oe Ou]. fold id in Ho, Ht.
  assert (Hph : is_Some (phase (backend d) !! id)) by (apply (so_launcher d Hs); by rewrite Ho).
  unfold Book.active in Hact. apply bool_decide_eq_false in Hact. destruct Ht as [?|[He|[Hu [Ha Hc]]]]; [done| |].
  - assert (Hend : Book.operation r ∈ ended id (backend d)) by (apply list_elem_of_filter; done).
    destruct (active (backend d) !! id) as [t|] eqn:Ha.
    { destruct (Oa id t Ha) as (_ & Hnil & _). rewrite Hnil in Hend. by apply elem_of_nil in Hend. }
    destruct (cancelling (backend d) !! id) as [x|] eqn:Hc.
    { destruct (Oc id x Hc) as (Hnil & _). rewrite Hnil in Hend. by apply elem_of_nil in Hend. }
    destruct (Oe id Hph Ha Hc) as [(e & Heq & Hcm) _]. rewrite Heq in Hend. apply list_elem_of_singleton in Hend as Hre.
    exists e. split; [done|]. split; [by left|]. by rewrite Hre.
  - destruct (Oe id Hph Ha Hc) as [(e & Heq & _) _]. exists e. split; [done|]. split; [by right|]. by rewrite Hu.
Qed.
Lemma refresh_final d id now r :
  sound d → quiet id (backend d) →
  Book.records (Book.book (service (refresh_operation now false id (Ok (active_ids (backend d))) d))) !! id = Some r →
  Book.active r = false.
Proof.
  intros Hs [Ha Hc]. unfold refresh_operation, Book.refresh, backend_status. cbn [service set_service].
  destruct (Book.records (Book.book (service d)) !! id) as [x|] eqn:Hx; [|congruence].
  destruct (Book.active x) eqn:Hact; [|congruence]. pose proof Hact as Hst. apply bool_decide_eq_true in Hst.
  assert (Hnew : ∃ cur, Book.refreshed id (Ok (fst (status now id (backend d)))) (Ok (active_ids (backend d))) x = Some cur
      ∧ o_status cur ≠ "started"%string).
  { unfold Book.refreshed. cbn. rewrite Ha, Hc. destruct (snd <$> _) as [cur|] eqn:Hcur.
    - exists cur. split; [done|]. apply fmap_Some in Hcur as ([at_ y] & Hh & ->).
      apply head_Some_elem_of, list_elem_of_filter in Hh as [_ Hin].
      apply (rm_terminal _ (so_remembers d Hs) (at_, y)). eapply elem_of_sublist; [exact Hin|apply prune_sublist].
    - rewrite bool_decide_false; [by eexists|]. unfold active_ids. rewrite elem_of_union, !elem_of_dom, Ha, Hc. by intros [[? ?]|[? ?]]. }
  destruct Hnew as (cur & -> & Hne). rewrite bool_decide_false by congruence. cbn. rewrite lookup_insert_eq. intros [= <-].
  by apply bool_decide_eq_false.
Qed.

(** ** What the backend remembers is what is told *)
(** The steps of the backend in a run of the daemon, and the times it reads. *)
Definition backend_steps (e : Event) : list Step :=
  match e with
  | Backend s => [s]
  | Launched uuid action message files _ => [Launch uuid action message files]
  | Cancelled id _ => [Cancel id]
  | _ => []
  end.
Definition timely (deadline : Z) (e : Event) : Prop :=
  match e with
  | Backend s => before deadline s
  | Tracked now _ _ _ | Refreshed now _ _ _ => now < deadline
  | _ => True
  end.
Definition endings (tr : list Event) : Z := costs (concat (backend_steps <$> tr)).
Inductive run : Daemon → list Event → Daemon → Prop :=
| run_nil d : run d [] d
| run_event d e d' tr d'' : step d e d' → run d' tr d'' → run d (e :: tr) d''.
Lemma step_backend d e d' : step d e d' → Operations.run (backend d) (backend_steps e) (backend d').
Proof.
  intros Hs. destruct Hs as [e b d Hb _|uuid a m fs o d op Hn|now p op o d Hin|now p id ids d|c d Hc|id o d|id o d Hin];
    cbn [backend_steps]; try apply Operations.run_nil.
  - eapply Operations.run_step; [done|constructor].
  - eapply Operations.run_step; [by constructor|constructor].
  - unfold permit. destruct (Book.may_cancel _ _ _); constructor.
  - eapply Operations.run_step; [by constructor|constructor].
Qed.
Lemma run_app b tr1 b' tr2 b'' : Operations.run b tr1 b' → Operations.run b' tr2 b'' → Operations.run b (tr1 ++ tr2) b''.
Proof. induction 1 as [|s e s' tr s'' Hs _ IH]; [done|]. intros Hr. econstructor; [exact Hs|by apply IH]. Qed.
Lemma run_backend d tr d' : run d tr d' → Operations.run (backend d) (concat (backend_steps <$> tr)) (backend d').
Proof.
  induction 1 as [|d e d' tr d'' Hs _ IH]; [constructor|]. cbn. eapply run_app; [by eapply step_backend|exact IH].
Qed.
Lemma run_sound d tr d' : run d tr d' → sound d → sound d'.
Proof. induction 1 as [|d e d' tr d'' Hs _ IH]; [done|]. intros Hd. apply IH. by eapply sound_step. Qed.
Lemma timely_before deadline tr : Forall (timely deadline) tr → Forall (before deadline) (concat (backend_steps <$> tr)).
Proof.
  induction 1 as [|e tr He _ IH]; cbn; [done|]. apply Forall_app. split; [|done].
  destruct e; cbn in *; auto.
Qed.
(** The end of an operation is the newest entry of the ring. *)
Lemma end_retained b b' at_ id e :
  Operations.reachable b → (∃ r, Operations.step b (Complete at_ id r) b') ∨ Operations.step b (FinishCancel at_ id) b' →
  ended id b = [] → ended id b' = [e] → ∃ l, terminal b' = l ++ [(at_, e)].
Proof.
  intros Hb Hs Hn He. pose proof (reachable_ok b Hb) as Hok. destruct Hs as [[r Hs]|Hs].
  - inversion Hs as [| |? ? ? ? p Hp Hpf Hr Heq| | |]; subst. destruct (active b !! id) as [t|] eqn:Ht.
    + destruct (complete_ends b id t at_ r Hok Ht Hr) as (_ & _ & He'). rewrite He in He'. injection He' as ->.
      unfold complete. rewrite Ht. by eexists.
    + revert He. unfold complete. rewrite Ht. unfold ended in *. cbn. congruence.
  - inversion Hs as [| | | |? ? ? [x Hx] Heq|]; subst.
    destruct (finish_cancel_ends b id x at_ Hok Hx) as (_ & _ & He'). rewrite He in He'. injection He' as ->.
    unfold finish_cancel. rewrite Hx. destruct x. by eexists.
Qed.

(** The registry tells exactly [e] of this operation at [now]: a refresh that
    reaches the backend writes it down and publishes it, a request that only
    now registers the operation registers it. *)
Definition tells (e : OperationResult) (now : Z) (d : Daemon) : Prop :=
  let id := o_id e in
  fst (status now id (backend d)) = Some e
  ∧ (∀ r ids, Book.records (Book.book (service d)) !! id = Some r → Book.active r = true →
       let r' := Book.mkRecord (Book.owner r) e (Book.r_revision r + 1) now in
       let s' := service (refresh_operation now false id ids d) in
       Book.records (Book.book s') !! id = Some r' ∧ Book.published s' = r' :: Book.published (service d))
  ∧ (∀ op o, (op, o) ∈ untracked d → o_id op = id →
       let r' := Book.mkRecord o e 1 now in
       let s' := service (track_operation now false op o d) in
       Book.records (Book.book s') !! id = Some r' ∧ Book.published s' = r' :: Book.published (service d)).
Lemma status_tells e now d :
  o_status e ≠ "started"%string → fst (status now (o_id e) (backend d)) = Some e → tells e now d.
Proof.
  intros Hst Hs. split; [done|]. split.
  - intros r ids Hr Hact. unfold refresh_operation, Book.refresh. cbn [service set_service]. rewrite Hr, Hact.
    unfold backend_status, Book.refreshed. rewrite Hs. unfold Book.active in Hact. apply bool_decide_eq_true in Hact.
    rewrite bool_decide_false by congruence. cbn. by rewrite lookup_insert_eq.
  - intros op o _ Hid. unfold track_operation, Book.track, backend_status. rewrite Hid, Hs. cbn.
    by rewrite lookup_insert_eq.
Qed.
Lemma end_told d at_ id b e tr d' now :
  sound d → (∃ r, Operations.step (backend d) (Complete at_ id r) b) ∨ Operations.step (backend d) (FinishCancel at_ id) b →
  ended id (backend d) = [] → ended id b = [e] →
  run (set_backend b d) tr d' → Forall (timely (at_ + TERMINAL_TTL)) tr → endings tr < TERMINAL_LIMIT →
  now < at_ + TERMINAL_TTL → tells e now d'.
Proof.
  intros Hd Hs Hn He Hrun Ht Hl Hnow. destruct (end_retained _ _ _ _ _ (so_backend d Hd) Hs Hn He) as [l Hlast].
  assert (Hd1 : sound (set_backend b d)) by (destruct Hs as [[r Hs]|Hs]; by eapply sound_backend).
  assert (Hin : (at_, e) ∈ terminal (backend d')).
  { eapply (run_retained b _ _ l at_ e []); [by apply (run_backend _ _ _ Hrun)|done|by apply timely_before|].
    exact Hl. }
  pose proof (run_sound _ _ _ Hrun Hd1) as Hd'. destruct (rm_terminal _ (so_remembers d' Hd') _ Hin) as [_ Hst].
  apply status_tells; [done|]. apply (status_retained now _ at_); [apply Hd'|done|lia|done].
Qed.

(** C15 Clients are told the outcome the backend had, and nobody else's.
    However the work, cancellations, registrations, refreshes and lost events
    interleave: an operation is reported only to the client that launched it;
    a final report is the one terminal event of the backend, or says that the
    outcome is unknown although the operation has ended; a report of a
    cancellation is never about an operation that committed; the registry lets
    a cancellation through only for that client; once an operation has ended,
    the next refresh that reaches the backend makes its record final; and
    from the step that ends an operation with an event on, for five minutes and
    until 256 others have ended, whatever else happens, the backend answers
    exactly that event, and a refresh or a late registration that reaches it
    records and publishes exactly that event, never "unknown". *)
Theorem outcomes_told d :
  reachable d →
  (∀ r, r ∈ Book.published (service d) → let id := o_id (Book.operation r) in
     launcher d !! id = Some (Book.owner r)
     ∧ (Book.active r = false → ∃ e, ended id (backend d) = [e]
          ∧ (Book.operation r = e ∨ o_status (Book.operation r) = "unknown"%string)
          ∧ (o_status (Book.operation r) = "cancelled"%string → id ∉ committed (backend d))))
  ∧ (∀ id o, (id, o) ∈ permits d → launcher d !! id = Some o)
  ∧ (∀ id now r, quiet id (backend d) →
       Book.records (Book.book (service (refresh_operation now false id (Ok (active_ids (backend d))) d))) !! id = Some r →
       Book.active r = false)
  ∧ (∀ at_ id b e tr d' now,
       (∃ r, Operations.step (backend d) (Complete at_ id r) b) ∨ Operations.step (backend d) (FinishCancel at_ id) b →
       ended id (backend d) = [] → ended id b = [e] →
       run (set_backend b d) tr d' → Forall (timely (at_ + TERMINAL_TTL)) tr → endings tr < TERMINAL_LIMIT →
       now < at_ + TERMINAL_TTL → o_id e = id ∧ tells e now d').
Proof.
  intros Hr. pose proof (daemon_sound d Hr) as Hs. split_and!.
  - intros r Hin id. pose proof (so_published d Hs r Hin) as Ht. split; [apply Ht|by apply reported_final].
  - apply (so_permits d Hs).
  - intros id now r. by apply refresh_final.
  - intros at_ id b e tr d' now Hst Hn He Hrun Ht Hl Hnow. split; [|by eapply end_told].
    assert (Hin : e ∈ ended id b) by (rewrite He; by left). by apply list_elem_of_filter in Hin as [[? _] _].
Qed.

(** An operation commits while its owner asks to cancel it, and completes. *)
Definition demo_operation : OperationResult := started_operation "1" "annotate" "Started".
Definition demo_launched : Daemon :=
  mkDaemon (launch "1" "annotate" "Started" [] initial_state) (service initial_daemon) {[o_id demo_operation := Some ":1.1"%string]}
           [(demo_operation, Some ":1.1"%string)] [].
Definition demo_tracked : Daemon := track_operation 0 false demo_operation (Some ":1.1"%string) demo_launched.
Definition demo_permitted : Daemon := permit operation1 (Some ":1.1"%string) demo_tracked.
Definition demo_committing : Daemon := set_backend (snd (begin_commit operation1 (backend demo_permitted))) demo_permitted.
Definition demo_refused : Daemon := set_backend (snd (cancel operation1 (backend demo_committing))) demo_committing.
Definition demo_completion : result string OperationCompletion := Ok (mkCompletion "completed" "Saved" None).
Definition demo_completed : Daemon :=
  set_backend (complete 9 operation1 demo_completion (backend demo_refused)) demo_refused.
Definition demo_told : Daemon := refresh_operation 10 false operation1 (Ok ∅) demo_completed.
Lemma demo_refused_reachable : reachable demo_refused.
Proof.
  apply (reachable_event demo_committing (Cancelled operation1 (Some ":1.1"%string))); [|constructor; vm_compute; by left].
  apply (reachable_event demo_permitted (Backend (BeginCommit operation1))); [|apply (d_backend _ _ demo_permitted); [constructor|done]].
  apply (reachable_event demo_tracked (Permitted operation1 (Some ":1.1"%string))); [|constructor].
  apply (reachable_event demo_launched (Tracked 0 false demo_operation (Some ":1.1"%string))); [|constructor; by left].
  apply (reachable_event initial_daemon (Launched "1" "annotate" "Started" [] (Some ":1.1"%string))); [constructor|].
  by apply (d_launched "1" "annotate" "Started" [] (Some ":1.1"%string) initial_daemon).
Qed.
Lemma demo_ends : Operations.step (backend demo_refused) (Complete 9 operation1 demo_completion) (backend demo_completed).
Proof.
  apply (s_complete 9 operation1 demo_completion _ COMMITTING); [by vm_compute|done|].
  intros c [= <-]. split; [done|]. by intros _.
Qed.
Lemma outcome_reachable : reachable demo_told.
Proof.
  apply (reachable_event demo_completed (Refreshed 10 false operation1 (Ok ∅))); [|constructor].
  apply (reachable_event demo_refused (Backend (Complete 9 operation1 demo_completion))); [apply demo_refused_reachable|].
  by apply (d_backend _ _ demo_refused), I; apply demo_ends.
Qed.
Definition demo_outcome : Book.Record_ :=
  default (Book.mkRecord None demo_operation 0 0) (Book.records (Book.book (service demo_told)) !! operation1).
Definition demo_event : OperationResult := mkOperation operation1 "annotate" "completed" "Saved" None None.
Lemma outcomes_told_witness :
  Book.operation demo_outcome = demo_event
  ∧ Book.owner demo_outcome = Some ":1.1"%string
  ∧ launcher demo_told !! operation1 = Some (Some ":1.1"%string)
  ∧ (∃ e, ended operation1 (backend demo_told) = [e]
      ∧ (Book.operation demo_outcome = e ∨ o_status (Book.operation demo_outcome) = "unknown"%string)
      ∧ (o_status (Book.operation demo_outcome) = "cancelled"%string → operation1 ∉ committed (backend demo_told)))
  ∧ tells demo_event 300000 demo_told.
Proof.
  split; [vm_compute; reflexivity|]. split; [vm_compute; reflexivity|].
  destruct (outcomes_told demo_told outcome_reachable) as [H _].
  destruct (H demo_outcome) as [Ho He]; [vm_compute; left|]. split; [exact Ho|].
  split; [apply He; vm_compute; reflexivity|].
  destruct (outcomes_told demo_refused demo_refused_reachable) as (_ & _ & _ & Htold).
  eapply (Htold 9 operation1 (backend demo_completed) demo_event [Refreshed 10 false operation1 (Ok ∅)] demo_told 300000).
  - left. exists demo_completion. apply demo_ends.
  - vm_compute. reflexivity.
  - vm_compute. reflexivity.
  - apply (run_event _ _ demo_told); [apply d_refreshed|constructor].
  - repeat constructor.
  - vm_compute. reflexivity.
  - vm_compute. reflexivity.
Defined.
