(* ===== verification/Requests.v ===== *)
(** * Requests: how a request is dispatched, [api.rs] and [actions.rs].

    The method names are routed to handlers by nested matches; a request that
    may start an operation first reserves its place in the owner registry, and
    an answer that reports a started operation is registered before it is
    returned.  Handlers are a parameter here: their models are in [Actions.v],
    [Api.v], [Sealed.v] and [Settings.v].  While a handler runs, other requests
    work on the registry. *)
From S2P Require Import Prelude Text Model Settings Api Subscription Lifecycle.
Local Open Scope Z_scope.

(** ** Routing *)
Inductive Handler :=
| OperationStatus | HistoryRevision | EntryDetails | EntryThumbnail | QueryHistory
| EntryAction | EditBegin | EditCommit | EditCancel | DeleteEntries
| SessionBegin | SessionEnd | SessionWait | SessionHidden
| WipePrepare | WipeCommit
| SetPaused | InteractiveScreenshot | CaptureScreenshot | GetSettings | UpdateSettings
| PublishSensitive | PublishText | PublishFiles.
#[export] Instance Handler_eq_dec : EqDecision Handler.
Proof. solve_decision. Defined.
Definition METHODS : list string :=
  ["clipboard.session.begin"; "clipboard.session.end"; "clipboard.session.hidden"; "clipboard.session.wait";
   "clipboard.history.query"; "clipboard.history.revision"; "clipboard.entry.details"; "clipboard.entry.thumbnail";
   "clipboard.entry.action"; "clipboard.entries.delete"; "clipboard.entry.edit.begin"; "clipboard.entry.edit.commit";
   "clipboard.entry.edit.cancel"; "clipboard.capture.setPaused"; "clipboard.capture.screenshot";
   "clipboard.capture.interactive"; "clipboard.selection.publishText"; "clipboard.selection.publishSensitive";
   "clipboard.selection.publishFiles"; "clipboard.settings.get"; "clipboard.settings.update";
   "clipboard.history.wipe.prepare"; "clipboard.history.wipe.commit"; "clipboard.operation.status"]%string.

(** The arms of a [match] on the method, and what the last arm does. *)
Fixpoint arms (l : list (string * Handler)) (otherwise : ApiResult Handler) (method : string) : ApiResult Handler :=
  match l with
  | [] => otherwise
  | (m, h) :: l' => if bool_decide (method = m) then Ok h else arms l' otherwise method
  end.
Definition dispatch_entry : string → ApiResult Handler :=
  arms [("clipboard.entry.action", EntryAction); ("clipboard.entry.edit.begin", EditBegin);
        ("clipboard.entry.edit.commit", EditCommit); ("clipboard.entry.edit.cancel", EditCancel)]%string
       (Err (unsupported "Unsupported entry method")).
Definition dispatch_session : string → ApiResult Handler :=
  arms [("clipboard.session.begin", SessionBegin); ("clipboard.session.end", SessionEnd);
        ("clipboard.session.wait", SessionWait); ("clipboard.session.hidden", SessionHidden)]%string
       (Err (unsupported "Unsupported session method")).
Definition dispatch_wipe : string → ApiResult Handler :=
  arms [("clipboard.history.wipe.prepare", WipePrepare); ("clipboard.history.wipe.commit", WipeCommit)]%string
       (Err (unsupported "Unsupported wipe method")).
Definition dispatch_policy (method : string) : ApiResult Handler :=
  arms [("clipboard.capture.setPaused", SetPaused); ("clipboard.capture.interactive", InteractiveScreenshot);
        ("clipboard.capture.screenshot", CaptureScreenshot); ("clipboard.settings.get", GetSettings);
        ("clipboard.settings.update", UpdateSettings); ("clipboard.selection.publishSensitive", PublishSensitive);
        ("clipboard.selection.publishText", PublishText); ("clipboard.selection.publishFiles", PublishFiles)]%string
       (Err (ApiError_new "unsupported-method" ("Unsupported clip-api method: " ++ method))) method.
Definition dispatch_method (method : string) : ApiResult Handler :=
  arms [("clipboard.operation.status", OperationStatus); ("clipboard.history.revision", HistoryRevision);
        ("clipboard.entry.details", EntryDetails); ("clipboard.entry.thumbnail", EntryThumbnail)]%string
    (if starts_with "clipboard.entry." method then dispatch_entry method
     else if bool_decide (method = "clipboard.entries.delete"%string) then Ok DeleteEntries
     else if starts_with "clipboard.session." method then dispatch_session method
     else if starts_with "clipboard.history.wipe." method then dispatch_wipe method
     else dispatch_policy method) method.
Definition route (method : string) : ApiResult Handler :=
  if bool_decide (method = "clipboard.history.query"%string) then Ok QueryHistory else dispatch_method method.
(** [may_start]; [action] is the parameter of that name. *)
Definition may_start (method : string) (action : option string) : bool :=
  bool_decide (method = "clipboard.capture.interactive"%string)
  || (bool_decide (method = "clipboard.entry.action"%string) && bool_decide (action = Some "annotate"%string)).

Lemma arms_cases l other method h :
  arms l other method = Ok h → (method, h) ∈ l ∨ other = Ok h.
Proof.
  induction l as [|[m h'] l IH]; cbn; [by right|]. case_bool_decide as Hm; [intros [= ->]; subst; left; by left|].
  intros [?|?]%IH; [left; by right|by right].
Qed.
Lemma arms_unsupported l other method e : arms l other method = Err e → other = Err e.
Proof. induction l as [|[m h'] l IH]; cbn; [done|]. by case_bool_decide. Qed.
Definition method_of (h : Handler) : string :=
  match h with
  | OperationStatus => "clipboard.operation.status" | HistoryRevision => "clipboard.history.revision"
  | EntryDetails => "clipboard.entry.details" | EntryThumbnail => "clipboard.entry.thumbnail"
  | QueryHistory => "clipboard.history.query"
  | EntryAction => "clipboard.entry.action" | EditBegin => "clipboard.entry.edit.begin"
  | EditCommit => "clipboard.entry.edit.commit" | EditCancel => "clipboard.entry.edit.cancel"
  | DeleteEntries => "clipboard.entries.delete"
  | SessionBegin => "clipboard.session.begin" | SessionEnd => "clipboard.session.end"
  | SessionWait => "clipboard.session.wait" | SessionHidden => "clipboard.session.hidden"
  | WipePrepare => "clipboard.history.wipe.prepare" | WipeCommit => "clipboard.history.wipe.commit"
  | SetPaused => "clipboard.capture.setPaused" | InteractiveScreenshot => "clipboard.capture.interactive"
  | CaptureScreenshot => "clipboard.capture.screenshot"
  | GetSettings => "clipboard.settings.get" | UpdateSettings => "clipboard.settings.update"
  | PublishSensitive => "clipboard.selection.publishSensitive" | PublishText => "clipboard.selection.publishText"
  | PublishFiles => "clipboard.selection.publishFiles"
  end%string.
Ltac in_arms H := repeat (apply elem_of_cons in H as [[= -> ->]|H]; [done|]); by apply elem_of_nil in H.
Lemma route_method method h : route method = Ok h → method = method_of h.
Proof.
  unfold route, dispatch_method, dispatch_entry, dispatch_session, dispatch_wipe, dispatch_policy.
  case_bool_decide as Hq; [by intros [= <-]|]. intros [Hin|H]%arms_cases; [in_arms Hin|].
  destruct (starts_with "clipboard.entry." method); [apply arms_cases in H as [Hin|[=]]; in_arms Hin|].
  case_bool_decide as Hd; [by injection H as <-|].
  destruct (starts_with "clipboard.session." method); [apply arms_cases in H as [Hin|[=]]; in_arms Hin|].
  destruct (starts_with "clipboard.history.wipe." method); apply arms_cases in H as [Hin|[=]]; in_arms Hin.
Qed.
Lemma route_refused method e : route method = Err e → a_code e = "unsupported-method"%string ∧ a_retryable e = false.
Proof.
  unfold route, dispatch_method, dispatch_entry, dispatch_session, dispatch_wipe, dispatch_policy.
  case_bool_decide as Hq; [done|]. intros H%arms_unsupported.
  destruct (starts_with "clipboard.entry." method); [by apply arms_unsupported in H as [= <-]|].
  case_bool_decide as Hd; [done|].
  destruct (starts_with "clipboard.session." method); [by apply arms_unsupported in H as [= <-]|].
  destruct (starts_with "clipboard.history.wipe." method); by apply arms_unsupported in H as [= <-].
Qed.
Lemma route_of h : route (method_of h) = Ok h.
Proof. by destruct h. Qed.
Lemma method_listed h : method_of h ∈ METHODS.
Proof. apply (bool_decide_eq_true_1 _). by destruct h. Qed.

(** The published method list is the dispatcher's: exactly the listed
    methods reach a handler, each a handler of its own, and any other name is
    refused as unsupported, for good. *)
Theorem methods_routed method :
  (method ∈ METHODS ↔ ∃ h, route method = Ok h)
  ∧ (∀ m h, route method = Ok h → route m = Ok h → m = method)
  ∧ (∀ e, route method = Err e → a_code e = "unsupported-method"%string ∧ a_retryable e = false).
Proof.
  split_and!.
  - split; [|intros [h ->%route_method]; apply method_listed].
    intros Hm. revert method Hm. apply Forall_forall. repeat constructor; by eexists.
  - by intros m h ->%route_method ->%route_method.
  - apply route_refused.
Qed.

(** ** One request *)
Inductive Answer := Data (d : Receipt) | Tracked (op : OperationResult) (revision : Z).
Definition STATUS : string := "clipboard.operation.status".

Section dispatch.
Context {W : Type}.
Variable handler : Handler → W → ApiResult Receipt * W.
(** What the backend in [W] answers, and the deserializer of operations. *)
Variable status : W → string → BackendResult (option OperationResult).
Variable active_ids : W → BackendResult (gset string).
Variable parse_operation : OperationView → option OperationResult.

Record Api := mkApi {
  world : W;
  service : Book.Service;
  events : list LifecycleEvent;          (* of publish_lifecycle, oldest first *)
}.
Definition refresh_operation (now : Z) (w : W) (id : string) (s : Book.Service) : Book.Service :=
  Book.refresh now id (status w id) (active_ids w) s.
Definition refresh_operations (now : Z) (w : W) (s : Book.Service) : Book.Service :=
  let ids := (map_to_list (Book.records (Book.book s))).*1 in
  let s := foldl (λ s id, refresh_operation now w id s) s ids in
  Book.mkService (Book.prune now (Book.book s)) (Book.published s).
(** [operation_status]: the identifier is checked before the record is refreshed. *)
Definition operation_status (now : Z) (w : W) (id : string) (o : option string) (s : Book.Service)
    : ApiResult (OperationResult * Z) * Book.Service :=
  let s := if bool_decide (id = EmptyString) || (256 <? str_len id) then s else refresh_operation now w id s in
  Book.operation_status now id o s.

(** The answer of the handler is registered, or published, or neither. *)
Definition settle (now : Z) (method : string) (o : option string) (w : W) (result : ApiResult Receipt) (s : Book.Service)
    : ApiResult Answer * Book.Service * list LifecycleEvent :=
  match result with
  | Err e => (Err e, s, [])
  | Ok d =>
      let op := if bool_decide (method = STATUS) then None
                else id ← started_operation_id d; v ← rc_operation d; op ← parse_operation v; Some (id, op) in
      match op with
      | Some (id, op) =>
          let s := Book.track now (status w (o_id op)) op o s in
          let '(r, s) := operation_status now w id o s in
          ((λ x, Tracked x.1 x.2) <$> r, s, [])
      | None => (Ok (Data d), s, if bool_decide (method = STATUS) then [] else publish_lifecycle method d o)
      end
  end.
(** [dispatch_owned]; [others] is what other requests do to the registry while
    the handler runs. *)
Definition dispatch_owned (now : Z) (method : string) (action o : option string) (uuid : string) (others : list Book.Call)
    (s : Api) : ApiResult Answer * Api :=
  let sv := refresh_operations now (world s) (service s) in
  let '(admitted, sv) :=
    if may_start method action then
      let '(r, b) := Book.reserve now uuid o (Book.book sv) in (r, Book.mkService b (Book.published sv))
    else (Ok tt, sv) in
  match admitted with
  | Err e => (Err e, mkApi (world s) sv (events s))
  | Ok _ =>
      let '(result, w) := match route method with Ok h => handler h (world s) | Err e => (Err e, world s) end in
      let sv := foldl (λ sv c, Book.call c sv) sv others in
      let '(answer, sv, evs) := settle now method o w result sv in
      let sv := if may_start method action then Book.mkService (Book.release uuid (Book.book sv)) (Book.published sv) else sv in
      (answer, mkApi w sv (events s ++ evs))
  end.

Lemma refresh_pending now w id s :
  Book.pending (Book.book (refresh_operation now w id s)) = Book.pending (Book.book s).
Proof.
  unfold refresh_operation, Book.refresh. destruct (_ !! id) as [r|]; [|done]. destruct (Book.active r); [|done].
  destruct (Book.refreshed _ _ _ _); [|done]. by case_bool_decide.
Qed.
Lemma refreshes_pending now w s :
  Book.pending (Book.book (refresh_operations now w s)) = Book.pending (Book.book s).
Proof.
  unfold refresh_operations. cbn. generalize ((map_to_list (Book.records (Book.book s))).*1). intros ids.
  revert s. induction ids as [|id ids IH]; intros s; cbn; [done|]. by rewrite IH, refresh_pending.
Qed.
Lemma may_start_routed method action : may_start method action = true → ∃ h, route method = Ok h.
Proof.
  unfold may_start. intros [Hm%bool_decide_eq_true|[Hm%bool_decide_eq_true _]%andb_true_iff]%orb_true_iff; subst; vm_compute; by eexists.
Qed.
Lemma status_found now w id o s op rev s' :
  operation_status now w id o s = (Ok (op, rev), s') →
  ∃ r, Book.records (Book.book s') !! id = Some r ∧ Book.owner r = o ∧ Book.operation r = op ∧ Book.r_revision r = rev.
Proof.
  unfold operation_status, Book.operation_status. destruct (_ || _); [done|].
  set (s1 := Book.mkService _ _). destruct (Book.records (Book.book s1) !! id) as [r|] eqn:Hr; [|done].
  case_bool_decide; [|done]. intros [= <- <- <-]. by exists r.
Qed.
(** What [settle] leaves behind. *)
Lemma settle_cases now method o w result s answer s' evs :
  settle now method o w result s = (answer, s', evs) →
  match answer with
  | Err _ => evs = [] ∧ True
  | Ok (Data d) => evs = if bool_decide (method = STATUS) then [] else publish_lifecycle method d o
  | Ok (Tracked op rev) => method ≠ STATUS ∧ evs = [] ∧ ∃ d id r, result = Ok d ∧ started_operation_id d = Some id
      ∧ Book.records (Book.book s') !! id = Some r ∧ Book.owner r = o ∧ Book.operation r = op ∧ Book.r_revision r = rev
  end.
Proof.
  unfold settle. destruct result as [d|e]; [|by intros [= <- _ <-]]. case_bool_decide as Hm; [by intros [= <- _ <-]|].
  destruct (started_operation_id d) as [id|] eqn:Hid; cbn; [|by intros [= <- _ <-]].
  destruct (rc_operation d) as [v|]; cbn; [|by intros [= <- _ <-]].
  destruct (parse_operation v) as [op|]; cbn; [|by intros [= <- _ <-]].
  destruct (operation_status _ _ _ _ _) as [[[op' rev]|e] s1] eqn:Hst; cbn; intros [= <- <- <-]; [|done].
  apply status_found in Hst as (r & ? & ? & ? & ?). split_and!; [done..|]. by exists d, id, r.
Qed.

(** A started operation is registered, published and answered. *)
Definition unknown_outcome (op : OperationResult) : OperationResult :=
  with_id (o_id op) (o_action op) "unknown" "Operation outcome is unavailable; do not replay".
Lemma refresh_publishes now w id s r :
  r ∈ Book.published s → r ∈ Book.published (refresh_operation now w id s).
Proof.
  unfold refresh_operation, Book.refresh. intros Hr. destruct (_ !! id) as [x|]; [|done]. destruct (Book.active x); [|done].
  destruct (Book.refreshed _ _ _ _); [|done]. case_bool_decide; [done|]. by right.
Qed.
Lemma status_publishes now w id o s r :
  r ∈ Book.published s → r ∈ Book.published (snd (operation_status now w id o s)).
Proof.
  intros Hr. unfold operation_status, Book.operation_status. destruct (_ || _); [done|].
  pose proof (refresh_publishes now w id s r Hr). cbn [Book.book Book.published]. destruct (_ !! id); [|done]. by case_bool_decide.
Qed.
Lemma status_reads now w id o s r :
  id ≠ EmptyString → str_len id <= 256 →
  Book.records (Book.book (refresh_operation now w id s)) !! id = Some r → Book.owner r = o → Book.updated r = now →
  fst (operation_status now w id o s) = Ok (Book.operation r, Book.r_revision r).
Proof.
  intros Hne Hlen Hr Ho Hu. unfold operation_status, Book.operation_status.
  rewrite (bool_decide_false (id = EmptyString)) by done. destruct (Z.ltb_spec 256 (str_len id)); [lia|]. cbn [orb Book.book].
  assert (Hp : Book.records (Book.prune now (Book.book (refresh_operation now w id s))) !! id = Some r).
  { apply map_lookup_filter_Some. split; [done|right]. cbn. unfold Book.RETENTION. lia. }
  rewrite Hp, bool_decide_true by done. done.
Qed.
Lemma track_refreshed now w o op s :
  let id := o_id op in let current := default op (mjoin (ok_of (status w id))) in Book.answers_for id (status w id) →
  let records := Book.records (Book.book (refresh_operation now w id (Book.track now (status w id) op o s))) in
  records !! id = Some (Book.mkRecord o current 1 now)
  ∨ status w id = Ok None ∧ (∃ ids, active_ids w = Ok ids ∧ id ∉ ids)
    ∧ records !! id = Some (Book.mkRecord o (unknown_outcome op) 2 now).
Proof.
  intros id current Hfor. assert (Hcur : o_id current = id).
  { subst current. destruct (status w id) as [[x|]|]; cbn; [by apply Hfor|done|done]. }
  unfold refresh_operation, Book.refresh, Book.track. fold current.
  assert (Hin : Book.records (Book.register now current o (Book.book s)) !! id = Some (Book.mkRecord o current 1 now)).
  { unfold Book.register. cbn. by rewrite Hcur, lookup_insert_eq. }
  cbn [Book.book]. rewrite Hin. destruct (Book.active _); [|by left].
  unfold Book.refreshed. cbn [Book.operation Book.r_revision Book.owner]. subst current.
  destruct (status w id) as [[x|]|e]; [|destruct (active_ids w) as [ids|e]|]; cbn [ok_of mjoin option_join default from_option id] in *.
  - left. by rewrite bool_decide_true.
  - case_bool_decide; [by left|]. case_bool_decide as Heq; [left; exact Hin|right].
    split; [done|]. split; [by eexists|]. cbn. by rewrite lookup_insert_eq.
  - by left.
  - by left.
Qed.
(** The operation a receipt reports as started. *)
Definition starts (d : Receipt) (id : string) (op : OperationResult) : Prop :=
  started_operation_id d = Some id ∧ ∃ v, rc_operation d = Some v ∧ parse_operation v = Some op.
Definition answered_started (now : Z) (o : option string) (w : W) (id : string) (op : OperationResult)
    (answer : ApiResult Answer) (s' : Book.Service) : Prop :=
  let current := default op (mjoin (ok_of (status w (o_id op)))) in
  Book.mkRecord o current 1 now ∈ Book.published s'
  ∧ (∀ d, answer ≠ Ok (Data d))
  ∧ (o_id op = id → id ≠ EmptyString → str_len id <= 256 → Book.answers_for id (status w id) →
       answer = Ok (Tracked current 1)
       ∨ status w id = Ok None ∧ (∃ ids, active_ids w = Ok ids ∧ id ∉ ids) ∧ answer = Ok (Tracked (unknown_outcome op) 2)).
Lemma settle_started now method o w d s id op answer s' evs :
  method ≠ STATUS → starts d id op → settle now method o w (Ok d) s = (answer, s', evs) →
  answered_started now o w id op answer s' ∧ evs = [].
Proof.
  intros Hm (Hid & v & Hv & Hop). unfold settle. rewrite bool_decide_false, Hid, Hv by done. cbn. rewrite Hop. cbn.
  destruct (operation_status _ _ _ _ _) as [r s1] eqn:Hst. intros [= <- <- <-]. split; [|done]. split_and!.
  - change s1 with (snd (r, s1)). rewrite <- Hst. apply status_publishes. by left.
  - by destruct r as [[]|].
  - intros <- Hne Hlen Hfor. pose proof (track_refreshed now w o op s Hfor) as Ht.
    change r with (fst (r, s1)). rewrite <- Hst. destruct Ht as [Hr|(H1 & H2 & Hr)]; [left|right; split; [done|split; [done|]]];
      by erewrite status_reads by (exact Hr || done).
Qed.
Lemma settle_plain now method o w d s :
  method = STATUS ∨ (∀ id op, ¬ starts d id op) →
  settle now method o w (Ok d) s = (Ok (Data d), s, if bool_decide (method = STATUS) then [] else publish_lifecycle method d o).
Proof.
  unfold settle. case_bool_decide as Hm; [done|]. intros [?|Hs]; [done|].
  destruct (started_operation_id d) as [id|] eqn:Hid; cbn; [|done]. destruct (rc_operation d) as [v|] eqn:Hv; cbn; [|done].
  destruct (parse_operation v) as [op|] eqn:Hop; cbn; [|done]. destruct (Hs id op). split; [done|]. by exists v.
Qed.

(** The place of the request in the registry: it needs none, or got one. *)
Definition admitted (now : Z) (method : string) (action o : option string) (uuid : string) (s : Api) : ApiResult unit :=
  if may_start method action
  then fst (Book.reserve now uuid o (Book.book (refresh_operations now (world s) (service s)))) else Ok tt.
(** [dispatch_owned] is one settlement, or a refusal. *)
Lemma dispatch_cases now method action o uuid others s :
  let '(answer, s') := dispatch_owned now method action o uuid others s in
  match admitted now method action o uuid s with
  | Err e => answer = Err e ∧ world s' = world s ∧ events s' = events s
             ∧ Book.pending (Book.book (service s')) = Book.pending (Book.book (service s))
  | Ok _ => ∃ result w sv sv' evs,
      match route method with Ok h => handler h (world s) | Err e => (Err e, world s) end = (result, w)
      ∧ settle now method o w result sv = (answer, sv', evs) ∧ world s' = w ∧ events s' = events s ++ evs
      ∧ Book.published (service s') = Book.published sv'
      ∧ Book.records (Book.book (service s')) = Book.records (Book.book sv')
      ∧ (may_start method action = true → Book.pending (Book.book (service s')) !! uuid = None)
  end.
Proof.
  unfold dispatch_owned, admitted. pose proof (refreshes_pending now (world s) (service s)) as Hpend.
  set (sv := refresh_operations _ _ _) in *. clearbody sv. destruct (may_start method action) eqn:Hm.
  - destruct (Book.reserve now uuid o (Book.book sv)) as [[[]|e] b] eqn:Hr; cbn [fst].
    + destruct (match route method with Ok h => handler h (world s) | Err e => (Err e, world s) end) as [result w].
      set (sv1 := foldl _ _ _). destruct (settle now method o w result sv1) as [[answer sv2] evs] eqn:Hs.
      exists result, w, sv1, sv2, evs. split_and!; try done. intros _. apply lookup_delete_eq.
    + unfold Book.reserve in Hr. destruct (_ || _); [injection Hr as _ <-|done]. split_and!; cbn; done.
  - destruct (match route method with Ok h => handler h (world s) | Err e => (Err e, world s) end) as [result w].
    set (sv1 := foldl _ _ _). destruct (settle now method o w result sv1) as [[answer sv2] evs] eqn:Hs.
    by exists result, w, sv1, sv2, evs.
Qed.

(** C26 Every request accounts for what it did.  Whatever the handler answers
    and whatever other requests do to the registry meanwhile: its reservation
    is gone when it returns; a request the registry refuses, or a method without
    a handler, touches nothing outside the registry; a failed request publishes
    nothing and its error is the answer; when the handler reports an operation
    as started, the operation is registered for the caller and its record is
    published, and the answer is never the handler's data but that record, as
    the backend knows it now (or "unknown", when the backend has already
    forgotten it); an answer that names an operation is the record the registry
    holds for the caller; every other success answers the handler's data and
    publishes exactly its lifecycle events. *)
Theorem request_accounted now method action o uuid others s :
  let '(answer, s') := dispatch_owned now method action o uuid others s in
  (Book.pending (Book.book (service s)) !! uuid = None → may_start method action = true →
     Book.pending (Book.book (service s')) !! uuid = None)
  ∧ (∀ e, admitted now method action o uuid s = Err e →
       answer = Err e ∧ world s' = world s ∧ events s' = events s)
  ∧ (∀ e, route method = Err e → answer = Err e ∧ world s' = world s ∧ events s' = events s)
  ∧ (∀ e, answer = Err e → events s' = events s)
  ∧ (∀ op rev, answer = Ok (Tracked op rev) →
       method ≠ STATUS ∧ events s' = events s ∧ ∃ h d id r,
         route method = Ok h ∧ handler h (world s) = (Ok d, world s') ∧ started_operation_id d = Some id
         ∧ Book.records (Book.book (service s')) !! id = Some r
         ∧ Book.owner r = o ∧ Book.operation r = op ∧ Book.r_revision r = rev)
  ∧ (∀ d, answer = Ok (Data d) → events s' = events s ++ if bool_decide (method = STATUS) then [] else publish_lifecycle method d o)
  ∧ (∀ h result w, admitted now method action o uuid s = Ok tt → route method = Ok h → handler h (world s) = (result, w) →
       world s' = w
       ∧ (∀ e, result = Err e → answer = Err e)
       ∧ (∀ d id op, result = Ok d → method ≠ STATUS → starts d id op →
            answered_started now o w id op answer (service s') ∧ events s' = events s)
       ∧ (∀ d, result = Ok d → method = STATUS ∨ (∀ id op, ¬ starts d id op) → answer = Ok (Data d))).
Proof.
  pose proof (dispatch_cases now method action o uuid others s) as Hcases.
  assert (Hroute : ∀ e, route method = Err e → admitted now method action o uuid s = Ok tt).
  { intros e He. unfold admitted. destruct (may_start method action) eqn:Hm; [|done].
    destruct (may_start_routed _ _ Hm) as [h Hh]. congruence. }
  destruct (dispatch_owned now method action o uuid others s) as [answer s'].
  destruct (admitted now method action o uuid s) as [[]|e'].
  2: { destruct Hcases as (-> & Hw & He & Hp). split_and!; try done; [by rewrite Hp|by intros e [= <-]|intros e Hr; by specialize (Hroute e Hr)]. }
  destruct Hcases as (result & w & sv & sv' & evs & Hh & Hs & <- & Hev & Hpub & Hrec & Hpend).
  pose proof (settle_cases _ _ _ _ _ _ _ _ _ Hs) as Hc. rewrite Hev, Hrec. split_and!; try done.
  - intros e He. rewrite He in Hh. injection Hh as <- <-. cbn in Hs. injection Hs as <- <- <-. by rewrite app_nil_r.
  - intros e ->. destruct Hc as (-> & _). by rewrite app_nil_r.
  - intros op rev ->. destruct Hc as (Hne & -> & d & id & r & -> & Hd & Hr). rewrite app_nil_r. split_and!; [done..|].
    destruct (route method) as [h|e] eqn:Hro; [|done]. by exists h, d, id, r.
  - intros d ->. by rewrite Hc.
  - intros h result' w' _ Hro Hw. rewrite Hro, Hw in Hh. injection Hh as -> ->. split; [done|]. split_and!.
    + intros e ->. cbn in Hs. by injection Hs as <- _ _.
    + intros d id op -> Hm Hst. destruct (settle_started _ _ _ _ _ _ _ _ _ _ _ Hm Hst Hs) as [Ha ->].
      rewrite app_nil_r. split; [|done]. unfold answered_started. by rewrite Hpub.
    + intros d -> Hd. rewrite settle_plain in Hs by done. by injection Hs as <- _ _.
Qed.
End dispatch.

Lemma methods_routed_witness : ∃ h, route "clipboard.history.wipe.commit" = Ok h.
Proof.
  apply (proj1 (methods_routed "clipboard.history.wipe.commit")). apply (bool_decide_eq_true_1 _). vm_compute. reflexivity.
Defined.

(** An annotation starts while another client reserves a place. *)
Definition demo_view : OperationView := mkView (Some "operation-1") (Some "annotate") (Some "started")%string.
Definition demo_handler (h : Handler) (w : nat) : ApiResult Receipt * nat := (Ok (mkReceipt (Some demo_view) None), S w).
Definition demo_parsed : OperationResult := mkOperation "operation-1" "annotate" "started" "Started" None None.
Definition demo_status (w : nat) (id : string) : BackendResult (option OperationResult) := Ok (Some demo_parsed).
Definition demo_active (w : nat) : BackendResult (gset string) := Ok {["operation-1"%string]}.
Definition demo_start : Api (W := nat) := mkApi 0%nat (Book.mkService Book.new []) [].
#[local] Abbreviation demo_request :=
  (dispatch_owned demo_handler demo_status demo_active (λ _, Some demo_parsed) 5 "clipboard.entry.action"
     (Some "annotate"%string) (Some ":1.1"%string) "a" [Book.Reserve 5 "b" (Some ":1.2"%string)] demo_start).
Definition demo_record : Book.Record_ := Book.mkRecord (Some ":1.1"%string) demo_parsed 1 5.
Lemma request_accounted_witness :
  fst demo_request = Ok (Tracked demo_parsed 1) ∧ Book.pending (Book.book (service (snd demo_request))) !! "a"%string = None
  ∧ demo_record ∈ Book.published (service (snd demo_request)).
Proof.
  split; [vm_compute; reflexivity|].
  pose proof (request_accounted demo_handler demo_status demo_active (λ _, Some demo_parsed) 5 "clipboard.entry.action"
    (Some "annotate"%string) (Some ":1.1"%string) "a" [Book.Reserve 5 "b" (Some ":1.2"%string)] demo_start) as H.
  destruct demo_request as [answer s']. split; [apply (proj1 H); vm_compute; reflexivity|].
  destruct H as (_ & _ & _ & _ & _ & _ & H).
  destruct (H EntryAction (Ok (mkReceipt (Some demo_view) None)) 1%nat) as (_ & _ & Hs & _);
    [vm_compute; reflexivity|vm_compute; reflexivity|vm_compute; reflexivity|].
  apply (Hs (mkReceipt (Some demo_view) None) "operation-1"%string demo_parsed); [reflexivity|discriminate|].
  split; [vm_compute; reflexivity|]. exists demo_view. split; reflexivity.
Defined.
