(* ===== verification/Search.v ===== *)
(** * Search: cursor-mode history search, [history_search.rs], and the query
    guard of [actions.rs].

    A cursor is the JSON of a token, an offset and an expiry, sealed with an
    HMAC over the query it belongs to; the server keeps no rows between pages.
    JSON, HMAC and hexadecimal are parameters ([CursorCodec]); the laws they are
    used by are [codec_laws]. *)
From Stdlib Require Import Ascii.
From S2P Require Import Prelude Text Model Settings Api.
Local Open Scope Z_scope.

Definition CURSOR_SECONDS : Z := 120.

Record Cursor := mkCursor { token : Z; offset : Z; expires : Z }.
#[export] Instance Cursor_eq_dec : EqDecision Cursor.
Proof. solve_decision. Defined.
Record CursorScope := mkScope {
  sc_query : string;
  sc_generation : Z;
  sc_owner : option string;
  sc_collapse : bool;
}.
#[export] Instance CursorScope_eq_dec : EqDecision CursorScope.
Proof. solve_decision. Defined.
Record QueryParams := mkParams {
  query : string;
  generation : Z;
  qp_offset : Z;
  limit : Z;
  cursor_mode : bool;
  cursor : option string;
}.
Definition CursorScope_new (p : QueryParams) (o : option string) (collapse : bool) : CursorScope :=
  mkScope (query p) (generation p) o collapse.

Class CursorCodec := {
  json_cursor : Cursor → option string;                   (* serde_json::to_string *)
  parse_cursor : string → option Cursor;                  (* serde_json::from_str *)
  json_scope : string → CursorScope → option bytes;       (* serde_json::to_vec of the tuple *)
  hmac : bytes → bytes → bytes;                           (* Hmac<Sha256> *)
  hex_encode : bytes → string;
  hex_decode : string → option bytes;
}.
(** Documented behaviour of serde_json and hex: what is written is read back,
    distinct tuples have distinct JSON, and hexadecimal has no bar. *)
Record codec_laws `(CursorCodec) : Prop := {
  cl_parse : ∀ c s, json_cursor c = Some s → parse_cursor s = Some c;
  cl_scope : ∀ s1 s2 c1 c2 b, json_scope s1 c1 = Some b → json_scope s2 c2 = Some b → s1 = s2 ∧ c1 = c2;
  cl_hex : ∀ b, hex_decode (hex_encode b) = Some b;
  cl_bar : ∀ b, rsplit_once "|" (hex_encode b) = None;
}.

Definition stale_cursor : ApiError :=
  ApiError_new "stale-cursor" "Clipboard history changed or the cursor expired; refresh the query".
Definition search_failed : ApiError := ApiError_new "search-failed" "Clipboard search failed".

Record SearchAnswer := mkAnswer {
  sa_revision : Z;
  sa_generation : Z;
  sa_current : option EntrySummary;
  sa_entries : list EntrySummary;
  sa_has_more : bool;
  sa_next_cursor : option string;
  sa_total : Z;
  sa_offset : Z;
}.

Definition Cursor_check (c : Cursor) (t : Z) : ApiResult unit := ensure (token c =? t) stale_cursor.

Section search.
Context `{CursorCodec}.
(** [HistorySearch::key]. *)
Variable key : bytes.

Definition mac (body : string) (scope : CursorScope) : ApiResult bytes :=
  b ← ok_or (json_scope body scope) search_failed; mret (hmac key b).
Definition decode (elapsed : Z) (v : string) (scope : CursorScope) : ApiResult Cursor :=
  _ ← ensure (str_len v <=? 512) stale_cursor;
  '(body, tag) ← ok_or (rsplit_once "|" v) stale_cursor;
  m ← mac body scope;
  t ← ok_or (hex_decode tag) stale_cursor;
  _ ← ensure (bool_decide (t = m)) stale_cursor;
  c ← ok_or (parse_cursor body) stale_cursor;
  _ ← ensure (negb (expires c <=? elapsed)) stale_cursor;
  mret c.
Definition encode (c : Cursor) (scope : CursorScope) : ApiResult string :=
  body ← ok_or (json_cursor c) search_failed;
  tag ← mac body scope;
  mret (body ++ "|" ++ hex_encode tag)%string.

Definition answer_page (page : HistoryPage) (c : Cursor) (p : QueryParams) (o : option string) (collapse : bool)
    : ApiResult SearchAnswer :=
  let consumed := saturating_add (offset c) (zlen (p_entries page)) in
  next ← (if p_has_more page then
            n ← encode (mkCursor (token c) consumed (expires c)) (CursorScope_new p o collapse); mret (Some n)
          else mret None);
  mret (mkAnswer (token c) (generation p) (p_current page) (p_entries page) (p_has_more page) next
                 (p_total page) (offset c)).

Definition lift {A} (r : BackendResult A) : ApiResult A := map_err from_backend r.
(** [HistorySearch::query]: [running] searches hold a permit; [token1] and
    [token2] are the two change tokens the backend answers; [page] is its
    query. *)
Definition search_query (running elapsed : Z) (token1 : BackendResult Z)
    (page : HistoryQuery → BackendResult HistoryPage) (token2 : BackendResult Z)
    (p : QueryParams) (o : option string) (collapse : bool) : ApiResult SearchAnswer :=
  _ ← ensure (running <? 2) (ApiError_new "busy" "Clipboard search is busy");
  t ← lift token1;
  c ← match cursor p with
      | Some v => decode elapsed v (CursorScope_new p o collapse)
      | None => mret (mkCursor t 0 (elapsed + CURSOR_SECONDS))
      end;
  _ ← Cursor_check c t;
  pg ← lift (page (mkQuery (query p) (generation p) (offset c) (limit p) collapse));
  t2 ← lift token2;
  _ ← Cursor_check c t2;
  answer_page pg c p o collapse.

(** The guard of [ClipboardService::query]. *)
Inductive Answer := Searched (a : SearchAnswer) | Paged (p : HistoryPage).
Definition service_query (running elapsed : Z) (token1 : BackendResult Z)
    (page : HistoryQuery → BackendResult HistoryPage) (token2 : BackendResult Z)
    (p : QueryParams) (collapse : bool) (o : option string) : ApiResult Answer :=
  if MAX_QUERY_BYTES <? str_len (query p) then Err (validation "Search query exceeds 4096 bytes")
  else if negb ((1 <=? limit p) && (limit p <=? MAX_QUERY_LIMIT)) then
    Err (validation "limit must be between 1 and 200")
  else if cursor_mode p then
    if negb (qp_offset p =? 0) then Err (validation "Use next_cursor, not offsets, in cursor mode")
    else a ← search_query running elapsed token1 page token2 p o collapse; mret (Searched a)
  else match cursor p with
       | Some _ => Err (validation "A cursor requires cursor mode")
       | None =>
           h ← lift (page (mkQuery (query p) (generation p) (qp_offset p) (limit p) collapse));
           mret (Paged h)
       end.

(** ** Lemmas *)
Lemma lift_Ok {A} (r : BackendResult A) a : lift r = Ok a ↔ r = Ok a.
Proof. destruct r; cbn; split; congruence. Qed.
End search.

(** [rsplit_once] splits at the last separator. *)
Lemma rsplit_once_app c a b :
  rsplit_once c b = None → rsplit_once c (a ++ String c b)%string = Some (a, b).
Proof.
  intros Hb. induction a as [|x a IH].
  - change ((EmptyString ++ String c b)%string) with (String c b). cbn [rsplit_once]. rewrite Hb.
    by rewrite Ascii.eqb_refl.
  - change ((String x a ++ String c b)%string) with (String x (a ++ String c b)%string). cbn [rsplit_once]. by rewrite IH.
Qed.

Section properties.
Context `{C : CursorCodec} (laws : codec_laws C).

Lemma encode_Ok key c scope v : encode key c scope = Ok v →
  ∃ body b, json_cursor c = Some body ∧ json_scope body scope = Some b
    ∧ v = (body ++ String "|" (hex_encode (hmac key b)))%string.
Proof.
  unfold encode, mac. intros Hv. res_inv. eexists _, _. split_and!; [done..|]. reflexivity.
Qed.
(** Decoding a sealed cursor under any scope. *)
Lemma decode_sealed key elapsed body b scope c :
  decode key elapsed (body ++ String "|" (hex_encode b))%string scope = Ok c →
  ∃ s, json_scope body scope = Some s ∧ hmac key s = b ∧ parse_cursor body = Some c ∧ elapsed < expires c.
Proof.
  unfold decode, mac. rewrite (rsplit_once_app _ _ _ (cl_bar _ laws b)). intros Hd. res_inv. simplify_eq. res_inv. bools.
  rewrite (cl_hex _ laws) in *. simplify_eq. eexists. split_and!; [done..|lia].
Qed.
Lemma decode_encode key c scope v elapsed :
  encode key c scope = Ok v → str_len v <= 512 → elapsed < expires c → decode key elapsed v scope = Ok c.
Proof.
  intros He Hlen Hx. apply encode_Ok in He as (body & b & Hb & Hs & ->). unfold decode, mac.
  rewrite (rsplit_once_app _ _ _ (cl_bar _ laws _)), (proj2 (Z.leb_le _ _) Hlen). cbn [ensure ok_or mbind result_bind].
  rewrite Hs. cbn [ok_or mbind result_bind mret result_ret]. rewrite (cl_hex _ laws).
  cbn [ok_or mbind result_bind]. rewrite bool_decide_true by done.
  cbn [ensure ok_or mbind result_bind]. rewrite (cl_parse _ laws _ _ Hb). cbn [ensure ok_or mbind result_bind].
  by rewrite (proj2 (Z.leb_gt _ _) Hx).
Qed.
Lemma search_query_Ok key running elapsed token1 page token2 p o collapse a :
  search_query key running elapsed token1 page token2 p o collapse = Ok a →
  ∃ t c pg, token1 = Ok t ∧ token2 = Ok t ∧ token c = t ∧ running < 2
    ∧ match cursor p with
      | Some v => decode key elapsed v (CursorScope_new p o collapse) = Ok c
      | None => c = mkCursor t 0 (elapsed + CURSOR_SECONDS)
      end
    ∧ page (mkQuery (query p) (generation p) (offset c) (limit p) collapse) = Ok pg
    ∧ answer_page key pg c p o collapse = Ok a.
Proof.
  unfold search_query, Cursor_check. intros Ha. res_inv. bools.
  repeat match goal with H : lift _ = Ok _ |- _ => apply lift_Ok in H end. simplify_eq.
  destruct (cursor p); res_inv; eauto 20.
Qed.
Lemma answer_page_Ok key pg c p o collapse a : answer_page key pg c p o collapse = Ok a →
  sa_entries a = p_entries pg ∧ sa_offset a = offset c ∧ sa_revision a = token c
  ∧ match sa_next_cursor a with
    | Some n => p_has_more pg = true
        ∧ encode key (mkCursor (token c) (saturating_add (offset c) (zlen (p_entries pg))) (expires c))
                 (CursorScope_new p o collapse) = Ok n
    | None => p_has_more pg = false
    end.
Proof.
  unfold answer_page. intros Ha. res_inv. cbn. split_and!; try done. destruct (p_has_more pg); res_inv; auto.
Qed.

(** C30 A cursor belongs to its query: it decodes, unchanged, for the process,
    query, generation, owner and policy it was made for until it expires; if
    it is accepted for another scope, or by a process with another key, then
    two different messages or keys have the same MAC. *)
Theorem cursor_bound key c scope v :
  encode key c scope = Ok v →
  (∀ elapsed, str_len v <= 512 → elapsed < expires c → decode key elapsed v scope = Ok c)
  ∧ (∀ elapsed, expires c <= elapsed → is_ok (decode key elapsed v scope) = false)
  ∧ (∀ elapsed key' scope' c', decode key' elapsed v scope' = Ok c' →
       c' = c ∧ ((key' = key ∧ scope' = scope) ∨ ∃ x y, (key, x) ≠ (key', y) ∧ hmac key x = hmac key' y)).
Proof.
  intros He. split; [intros; by eapply decode_encode|]. apply encode_Ok in He as (body & b & Hb & Hs & ->). split.
  - intros elapsed Hx. destruct (decode _ _ _ _) as [c'|] eqn:Hd; [|done].
    apply decode_sealed in Hd as (s & _ & _ & Hp & ?). rewrite (cl_parse _ laws _ _ Hb) in Hp. simplify_eq. lia.
  - intros elapsed key' scope' c' Hd. apply decode_sealed in Hd as (s & Hs' & Hm & Hp & _).
    rewrite (cl_parse _ laws _ _ Hb) in Hp. split; [congruence|].
    destruct (decide ((key, b) = (key', s))) as [Heq|Hne]; [|right; by exists b, s]. left. simplify_eq.
    split; [done|]. by destruct (cl_scope _ laws _ _ _ _ _ Hs Hs') as [_ ?].
Qed.

(** C29 Pages chain over one revision of the history: an answered search page
    was read between two equal change tokens; if its next cursor is sent back
    with the same query, then, whatever happened in between, the search is
    answered only while the token is still that one and the cursor has not
    expired, and the page read is then exactly the one that starts where the
    previous page ended; its own cursor expires no later. *)
Theorem search_chain key p o collapse running1 now1 token1 page1 token1' a n
    running2 now2 token2 page2 token2' a' :
  search_query key running1 now1 token1 page1 token1' p o collapse = Ok a →
  sa_next_cursor a = Some n →
  search_query key running2 now2 token2 page2 token2'
    (mkParams (query p) (generation p) (qp_offset p) (limit p) (cursor_mode p) (Some n)) o collapse = Ok a' →
  token1 = Ok (sa_revision a) ∧ token1' = token1 ∧ token2 = token1 ∧ token2' = token1
  ∧ sa_revision a' = sa_revision a
  ∧ sa_offset a' = saturating_add (sa_offset a) (zlen (sa_entries a))
  ∧ (∃ pg, page2 (mkQuery (query p) (generation p) (sa_offset a') (limit p) collapse) = Ok pg ∧ sa_entries a' = p_entries pg)
  ∧ (cursor p = None → now2 < now1 + CURSOR_SECONDS).
Proof.
  intros H1 Hn H2. apply search_query_Ok in H1 as (t & c & pg & -> & -> & Ht & _ & Hc & _ & Ha).
  apply answer_page_Ok in Ha as (He & Ho & Hr & Hnext). rewrite Hn in Hnext. destruct Hnext as [_ Henc].
  apply search_query_Ok in H2 as (t2 & c2 & pg2 & -> & -> & Ht2 & _ & Hc2 & Hp2 & Ha2). cbn in Hc2, Hp2.
  apply encode_Ok in Henc as (body & b & Hb & Hs & ->).
  apply decode_sealed in Hc2 as (s & _ & _ & Hp & Hx). rewrite (cl_parse _ laws _ _ Hb) in Hp.
  injection Hp as <-. apply answer_page_Ok in Ha2 as (He2 & Ho2 & Hr2 & _). cbn in *.
  rewrite Ho2, Hr2, Ho, Hr, He, He2. split_and!; try congruence; [by eauto|].
  intros Hnone. rewrite Hnone in Hc. by subst c.
Qed.
End properties.

(** ** An example codec: two cursors, one scope, bits for hexadecimal *)
Definition toy_first : Cursor := mkCursor 7 0 120.
Definition toy_second : Cursor := mkCursor 7 2 120.
Definition toy_scope : CursorScope := mkScope "cafe" 0 (Some "me") true.
Definition toy_json (c : Cursor) : option string :=
  if bool_decide (c = toy_first) then Some "a" else if bool_decide (c = toy_second) then Some "b" else None.
Definition toy_parse (s : string) : option Cursor :=
  if bool_decide (s = "a") then Some toy_first else if bool_decide (s = "b") then Some toy_second else None.
Definition toy_tuple (s : string) (c : CursorScope) : option bytes :=
  if bool_decide (c = toy_scope) then Some (str_bytes s) else None.
Definition bit (b : bool) : Ascii.ascii := if b then "1"%char else "0"%char.
Definition unbit (c : Ascii.ascii) : bool := Ascii.eqb c "1"%char.
Fixpoint toy_hex (b : bytes) : string :=
  match b with
  | [] => EmptyString
  | x :: b' =>
      let '(b0, (b1, (b2, (b3, (b4, (b5, (b6, b7))))))) := Byte.to_bits x in
      String (bit b0) (String (bit b1) (String (bit b2) (String (bit b3)
        (String (bit b4) (String (bit b5) (String (bit b6) (String (bit b7) (toy_hex b'))))))))
  end.
Fixpoint toy_unhex (s : string) : option bytes :=
  match s with
  | EmptyString => Some []
  | String c0 (String c1 (String c2 (String c3 (String c4 (String c5 (String c6 (String c7 s'))))))) =>
      b ← toy_unhex s';
      Some (Byte.of_bits (unbit c0, (unbit c1, (unbit c2, (unbit c3, (unbit c4, (unbit c5, (unbit c6, unbit c7)))))))
            :: b)
  | _ => None
  end.
#[local] Instance toy_codec : CursorCodec := {|
  json_cursor := toy_json; parse_cursor := toy_parse; json_scope := toy_tuple;
  hmac k b := k ++ b; hex_encode := toy_hex; hex_decode := toy_unhex;
|}.
Lemma unbit_bit b : unbit (bit b) = b.
Proof. by destruct b. Qed.
Lemma toy_unhex_hex b : toy_unhex (toy_hex b) = Some b.
Proof.
  induction b as [|x b IH]; [done|]. cbn [toy_hex].
  destruct (Byte.to_bits x) as (b0 & b1 & b2 & b3 & b4 & b5 & b6 & b7) eqn:Hx.
  cbn [toy_unhex]. rewrite IH, !unbit_bit, <- Hx. cbn. by rewrite Byte.of_bits_to_bits.
Qed.
Lemma rsplit_bit b s : rsplit_once "|" s = None → rsplit_once "|" (String (bit b) s) = None.
Proof. intros Hs. cbn [rsplit_once]. rewrite Hs. by destruct b. Qed.
Lemma toy_hex_bar b : rsplit_once "|" (toy_hex b) = None.
Proof.
  induction b as [|x b IH]; [done|]. cbn [toy_hex].
  destruct (Byte.to_bits x) as (b0 & b1 & b2 & b3 & b4 & b5 & b6 & b7). by do 8 apply rsplit_bit.
Qed.
Lemma toy_laws : codec_laws toy_codec.
Proof.
  split; cbn.
  - intros c s. unfold toy_json. destruct (bool_decide_reflect (c = toy_first)) as [->|]; [by intros [= <-]|].
    destruct (bool_decide_reflect (c = toy_second)) as [->|]; [by intros [= <-]|done].
  - intros s1 s2 c1 c2 b. unfold toy_tuple. destruct (bool_decide_reflect (c1 = toy_scope)) as [->|]; [|done].
    destruct (bool_decide_reflect (c2 = toy_scope)) as [->|]; [|done]. intros [= <-] [= Hs]. split; [|done].
    unfold str_bytes in Hs. apply (f_equal String.string_of_list_byte) in Hs.
    by rewrite !String.string_of_list_byte_of_string in Hs.
  - apply toy_unhex_hex.
  - apply toy_hex_bar.
Qed.
Definition toy_key : bytes := [x2a].
Definition toy_sealed : string := ("b|" ++ toy_hex (toy_key ++ str_bytes "b")%list)%string.
Definition toy_params : QueryParams := mkParams "cafe" 0 0 2 true None.
Definition toy_row (id : string) : EntrySummary := mkSummary id 1 Text "text/plain" 1 false false "x".
Definition toy_page1 (q : HistoryQuery) : BackendResult HistoryPage :=
  Ok (mkPage 3 7 0 None [toy_row "1"; toy_row "2"] true (Some 2)).
Definition toy_page2 (q : HistoryQuery) : BackendResult HistoryPage :=
  Ok (mkPage 3 7 0 None [toy_row "3"] false None).

Lemma cursor_bound_witness :
  encode toy_key toy_second toy_scope = Ok toy_sealed ∧ decode toy_key 100 toy_sealed toy_scope = Ok toy_second.
Proof.
  assert (He : encode toy_key toy_second toy_scope = Ok toy_sealed) by (vm_compute; reflexivity).
  split; [exact He|]. apply (cursor_bound toy_laws toy_key toy_second toy_scope toy_sealed He); vm_compute; [discriminate|reflexivity].
Defined.
Lemma search_chain_witness :
  ∃ a a' n, search_query toy_key 0 0 (Ok 7) toy_page1 (Ok 7) toy_params (Some "me"%string) true = Ok a
    ∧ sa_next_cursor a = Some n ∧ sa_offset a = 0
    ∧ sa_offset a' = saturating_add (sa_offset a) (zlen (sa_entries a)).
Proof.
  destruct (search_query toy_key 0 0 (Ok 7) toy_page1 (Ok 7) toy_params (Some "me"%string) true) as [a|e] eqn:H1;
    [|vm_compute in H1; discriminate H1].
  assert (Hn : sa_next_cursor a = Some toy_sealed ∧ sa_offset a = 0).
  { revert H1. vm_compute. intros [= <-]. split; reflexivity. }
  destruct (search_query toy_key 0 60 (Ok 7) toy_page2 (Ok 7) (mkParams "cafe" 0 0 2 true (Some toy_sealed)) (Some "me"%string) true)
    as [a'|e] eqn:H2; [|vm_compute in H2; discriminate H2].
  destruct (search_chain toy_laws _ _ _ _ _ _ _ _ _ _ _ _ _ _ _ _ _ H1 (proj1 Hn) H2) as (_ & _ & _ & _ & _ & Ho & _).
  exists a, a', toy_sealed. split; [reflexivity|]. split; [apply Hn|]. split; [apply Hn|exact Ho].
Defined.
