(* ===== verification/Sealed.v ===== *)
(** * Sealed: history answers name one state of the history, [api.rs].

    A history query reads the change token, the page and the token again while
    other clients keep changing the history; the observation clock, held for
    the whole request, turns tokens into revisions.  This file composes the
    database ([History.v], [Query.v]), the query service ([Search.v]) and the
    clock ([Api.v]). *)
From S2P Require Import Prelude Text Externals Model Content Sql Tables Database Retention Invariant Preservation History HistorySpec Query Examples Settings Api Subscription Search.
Local Open Scope Z_scope.

(** What precedes one read of the store: operations of other clients, and then
    the engine's faults, or the refusal of the backend or of its queue. *)
Record Moment := mkMoment {
  before : list Operation;
  faults : list Outcome;
  refused : option BackendError;
}.
(** What the request shows: an observation only, or the answer to a query. *)
Inductive Shown :=
| Baseline
| Queried (running elapsed : Z) (p : QueryParams) (collapse : bool) (owner : option string) (a : Answer).
Record Sealing := mkSealing { se_token : Z; se_revision : Z; se_shown : Shown }.
Definition stale_history : ApiError :=
  ApiError_new "stale-history" "History changed during the query; refresh without replaying effects".

Section sealed.
Context `{Externals} `{CursorCodec}.
Variable key : bytes.

Definition moved (m : Moment) (db : Database Tables) : Database Tables := steps (before m) db.
(** The worker refuses every job once the owner is fenced. *)
Definition served {A} (m : Moment) (r : SqlT A) (db : Database Tables) : BackendResult A :=
  match refused m with
  | Some e => Err e
  | None =>
      if blocked db then Err (Model.unavailable "History storage is fenced; restart required")
      else fst (read r (mkDatabase (durable db) (open_transaction db) (faults m) (blocked db)))
  end.

(** The moments of a query: the token, the three reads of the service (a plain
    query performs the second only), and the token again. *)
Record Moments := mkMoments { m_before : Moment; m_token : Moment; m_page : Moment; m_check : Moment; m_after : Moment }.
Definition stored (ms : Moments) (db : Database Tables) : Database Tables :=
  moved (m_after ms) (moved (m_check ms) (moved (m_page ms) (moved (m_token ms) (moved (m_before ms) db)))).
(** [query_history]: the settings, the decoded parameters, the clock. *)
Definition query_history (collapse : ApiResult bool) (params : ApiResult QueryParams) (owner : option string)
    (running elapsed : Z) (ms : Moments) (db : Database Tables) (c : Clock.Clock) : ApiResult Sealing * Clock.Clock :=
  let db1 := moved (m_before ms) db in
  let db2 := moved (m_token ms) db1 in
  let db3 := moved (m_page ms) db2 in
  let db4 := moved (m_check ms) db3 in
  let db5 := moved (m_after ms) db4 in
  match collapse with
  | Err e => (Err e, c)
  | Ok collapse =>
  match (t ← lift (served (m_before ms) db_revision db1); '(_, c) ← Clock.observe t c; mret (t, c)) with
  | Err e => (Err e, c)
  | Ok (before, c) =>
  match (p ← params;
         a ← service_query key running elapsed (served (m_token ms) db_revision db2)
               (λ q, served (m_page ms) (db_query q) db3) (served (m_check ms) db_revision db4) p collapse owner;
         t ← lift (served (m_after ms) db_revision db5); '(r, c) ← Clock.observe t c; mret (p, a, t, r, c)) with
  | Err e => (Err e, c)
  | Ok (p, a, after, revision, c) =>
      if bool_decide (before = after)
      then (Ok (mkSealing after revision (Queried running elapsed p collapse owner a)), c)
      else (Err stale_history, c)
  end end end.

(** ** The daemon's requests that seal, over a moving history *)
Record System := mkSystem { store : Database Tables; clock : Clock.Clock; answers : list Sealing }.   (* newest first *)
Inductive Request :=
| Observe (m : Moment)                   (* observe_history: subscriptions, history.revision *)
| Query (collapse : ApiResult bool) (params : ApiResult QueryParams) (owner : option string)
    (running elapsed : Z) (ms : Moments).
Definition answered (r : ApiResult Sealing) (l : list Sealing) : list Sealing :=
  match r with Ok x => x :: l | Err _ => l end.
Definition handle (q : Request) (s : System) : System :=
  match q with
  | Observe m =>
      let db := moved m (store s) in
      let '(r, c) := observe_history (served m db_revision db) (clock s) in
      mkSystem db c (answered ((λ o, mkSealing (obs_token o) (obs_revision o) Baseline) <$> r) (answers s))
  | Query collapse params owner running elapsed ms =>
      let '(r, c) := query_history collapse params owner running elapsed ms (store s) (clock s) in
      mkSystem (stored ms (store s)) c (answered r (answers s))
  end.
Definition moments (q : Request) : list Moment :=
  match q with
  | Observe m => [m]
  | Query _ _ _ _ _ ms => [m_before ms; m_token ms; m_page ms; m_check ms; m_after ms]
  end.
(** Unsigned policies, as in [History.v]. *)
Definition proper (q : Request) : Prop := Forall (λ m, Forall typed (before m)) (moments q).
Definition handles (qs : list Request) (s : System) : System := foldl (λ s q, handle q s) s qs.
Definition started (db : Database Tables) : System := mkSystem db Clock.new [].

(** ** Time *)
Lemma step_advances o db : settled db → advances (durable db) (durable (History.step o db)).
Proof.
  intros [_ Hs]. unfold History.step.
  assert (Hatomic : ∀ d, healthy d → advances (durable d) (durable (snd (perform o d)))).
  { intros d Hd. destruct (perform_atomic o d Hd) as [Ha Hr _].
    destruct (fst (perform o d)); [destruct (Ha eq_refl) as [_ He]|destruct (Hr eq_refl) as [->|[He _]]];
      [by apply revision_advances in He|done|by apply revision_advances in He]. }
  destruct Hs as [Hb|Hh]; [|by apply Hatomic].
  assert (Hcall : ∀ A (c : Call A), durable (snd (run_call c db)) = durable db).
  { intros A [e|a|body]; cbn; [done..|]. by rewrite transaction_blocked. }
  destruct o; cbn [perform told snd]; rewrite ?Hcall; try done.
  - unfold shutdown. by rewrite Hb.
  - apply (Hatomic (mkDatabase (durable db) None [] false)). done.
Qed.
Lemma moved_advances m db :
  Forall typed (before m) → settled db → settled (moved m db) ∧ advances (durable db) (durable (moved m db)).
Proof.
  unfold moved. intros Hty. revert db. induction Hty as [|o os Ho _ IH]; intros db Hs; [done|].
  destruct (IH (History.step o db)) as [? ?]; [by apply settled_step|]. split; [done|].
  etrans; [by apply step_advances|done].
Qed.

(** A read that answers is the fault-free answer of the durable tables. *)
Lemma served_ideal {A} m (r : SqlT A) db a `{!Faithful r} :
  settled db → served m r db = Ok a → fst (ideal r (durable db)) = Ok a.
Proof.
  intros [_ Hs]. unfold served. destruct (refused m); [done|]. destruct (blocked db) eqn:Hb; [done|].
  destruct Hs as [Hs|[_ Ho]]; [congruence|]. unfold read. cbn. rewrite Ho. cbn.
  destruct (r (mkConn (durable db) (faults m))) as [[x|e] c] eqn:Hr; [|done]. intros [= ->].
  apply faithful in Hr. unfold ideal. by rewrite Hr.
Qed.
#[export] Instance db_query_faithful q : Faithful (db_query q).
Proof. unfold db_query. sql_class. Qed.

(** A page depends on the contents and the revision only. *)
Lemma page_of_contents q t t' :
  contents t' = contents t → t_revision t' = t_revision t → fst (ideal (db_query q) t') = fst (ideal (db_query q) t).
Proof.
  intros [= He Hp Hs] Hr. unfold db_query, db_revision.
  assert (Hcur : ∀ c, current_row c t' = current_row c t) by (intros c; unfold current_row; by rewrite He).
  assert (Hrow : ∀ n c, matching_rows n c t' = matching_rows n c t).
  { intros n c. unfold matching_rows. rewrite He. f_equal. apply list_filter_iff. intros r. unfold row_matches. by rewrite Hs. }
  unfold ideal, db_query, db_revision, rows, sql_result, mbind, sql_bind, mret, sql_ret. cbn [c_schedule c_tables tail].
  rewrite Hcur, He. destruct (decode_summary (t_entries t) <$> _) as [[cur|e]|]; cbn [c_schedule c_tables tail option_fmap fmap option_map]; [|done|].
  all: rewrite ?He, !Hrow, ?Hr; destruct (collect_results _); done.
Qed.
Lemma token_served m db tk : settled db → served m db_revision db = Ok tk → tk = t_revision (durable db).
Proof.
  intros Hs Hr. apply served_ideal in Hr; [|apply _|done]. destruct Hs as [[Hwf _] _].
  unfold db_revision in Hr. rewrite ideal_bind, ideal_rows, ideal_ret in Hr by apply _. injection Hr as <-.
  pose proof (wf_meta _ Hwf) as [Hm _]. unfold revision_limit in *. apply as_u64_small. unfold u64_max. lia.
Qed.

(** A query service that is answered at least as much answers the same. *)
Lemma service_query_more running elapsed tok1 tok1' page page' tok2 tok2' p collapse o a :
  (∀ x, tok1 = Ok x → tok1' = Ok x) → (∀ q x, page q = Ok x → page' q = Ok x) → (∀ x, tok2 = Ok x → tok2' = Ok x) →
  service_query key running elapsed tok1 page tok2 p collapse o = Ok a →
  service_query key running elapsed tok1' page' tok2' p collapse o = Ok a.
Proof.
  intros H1 Hp H2. unfold service_query. destruct (_ <? _); [done|]. destruct (negb _); [done|].
  destruct (cursor_mode p).
  - destruct (negb _); [done|]. unfold search_query. destruct (ensure _ _) as [u|e]; [|done]. cbn.
    destruct tok1 as [t|e]; [|done]. rewrite (H1 t eq_refl). cbn. destruct (match cursor p with Some _ => _ | None => _ end) as [c|e]; [|done].
    cbn. destruct (Cursor_check c t) as [[]|e]; [|done]. cbn.
    destruct (page _) as [x|e] eqn:Hx; [|done]. apply Hp in Hx. rewrite Hx. cbn.
    destruct tok2 as [t2|e]; [|done]. by rewrite (H2 t2 eq_refl).
  - destruct (cursor p); [done|]. destruct (page _) as [x|e] eqn:Hx; [|done]. apply Hp in Hx. by rewrite Hx.
Qed.

(** ** What an answer says of one state *)
(** The answer is the one a client gets from [t] when nothing moves. *)
Definition frozen (x : Sealing) (t : Tables) : Prop :=
  t_revision t = se_token x
  ∧ match se_shown x with
    | Baseline => True
    | Queried running elapsed p collapse owner a =>
        service_query key running elapsed (Ok (se_token x)) (λ q, fst (ideal (db_query q) t)) (Ok (se_token x))
          p collapse owner = Ok a
    end.
Lemma frozen_same x t t' :
  contents t' = contents t → t_revision t' = t_revision t → frozen x t → frozen x t'.
Proof.
  intros Hc Hr [Ht Hx]. split; [congruence|]. destruct (se_shown x); [done|].
  eapply service_query_more, Hx; [done| |done]. intros q pg. by rewrite (page_of_contents q t t').
Qed.

Record sound (s : System) : Prop := {
  so_settled : settled (store s);
  so_below : ∀ x, x ∈ answers s → se_revision x <= Clock.revision (clock s);
  so_token : ∀ x tk, x ∈ answers s → Clock.token (clock s) = Some tk →
    se_revision x = Clock.revision (clock s) → se_token x = tk;
  so_sorted : StronglySorted (λ x y, se_revision y <= se_revision x) (answers s);
  so_snapshot : ∃ snapshot, ∀ x, x ∈ answers s →
    frozen x (snapshot (se_revision x)) ∧ advances (snapshot (se_revision x)) (durable (store s));
}.
Lemma sound_moved s db :
  sound s → settled db → advances (durable (store s)) (durable db) → sound (mkSystem db (clock s) (answers s)).
Proof.
  intros [A B C D [snap E]] Hs Ha. split; cbn; try done. exists snap. intros x Hx. destruct (E x Hx). split; [done|].
  by etrans.
Qed.
Lemma sound_ticked s c : sound s → passes (clock s) c → sound (mkSystem (store s) c (answers s)).
Proof.
  intros [A B C D E] [Hr Hp]. split; cbn; try done.
  - intros x Hx. specialize (B x Hx). lia.
  - intros x tk Hx Ht Heq. pose proof (B x Hx) as Hb.
    destruct (Hp (mkObservation tk (Clock.revision c))) as [Ht' _]; [cbn; lia|done|].
    apply (C x tk Hx Ht'). lia.
Qed.
Lemma sound_sealed s tk r shown t :
  sound s → still (clock s) (mkObservation tk r) → t_revision (durable (store s)) = tk →
  frozen (mkSealing tk r shown) t → advances t (durable (store s)) →
  sound (mkSystem (store s) (clock s) (mkSealing tk r shown :: answers s)).
Proof.
  intros [A B C D [snap E]] [Ht Hr] Hd Hf Ha. cbn in Ht, Hr. split; cbn; try done.
  - intros x [->|Hx]%elem_of_cons; cbn; [lia|by apply B].
  - intros x k [->|Hx]%elem_of_cons Hk Heq; cbn in *; [congruence|by apply (C x)].
  - constructor; [done|]. apply Forall_forall. intros y Hy. cbn. rewrite <- Hr. by apply B.
  - destruct (decide (Exists (λ x, se_revision x = r) (answers s))) as [(y & Hy & Hyr)%Exists_exists|Hn].
    + exists snap. intros x [->|Hx]%elem_of_cons; [|by apply E]. destruct (E y Hy) as [[Hfy _] Hay]. rewrite Hyr in *. cbn.
      rewrite (C y tk Hy Ht) in Hfy by lia. split; [|done].
      destruct Hf as [Hft ?]. cbn in Hft. apply (frozen_same _ t); [|congruence|by split].
      rewrite <- (advances_eq _ _ Hay) by congruence. apply advances_eq; [done|congruence].
    + exists (λ z, if z =? r then t else snap z). intros x [->|Hx]%elem_of_cons; cbn; [by rewrite Z.eqb_refl|].
      destruct (Z.eqb_spec (se_revision x) r) as [Hxr|_]; [|by apply E].
      exfalso. apply Hn, Exists_exists. by exists x.
Qed.
Lemma passes_trans c1 c2 c3 : passes c1 c2 → passes c2 c3 → passes c1 c3.
Proof.
  intros [H1 P1] [H2 P2]. split; [lia|]. intros o Ho Hs. apply P1, P2; [done|lia|done].
Qed.

(** Between two equal tokens the history stood still. *)
Lemma between t1 t2 t3 : advances t1 t2 → advances t2 t3 → t_revision t3 = t_revision t1 → t_revision t2 = t_revision t1.
Proof. unfold advances. lia. Qed.
Lemma query_history_spec collapse params owner running elapsed ms db c r c' :
  settled db → Forall (λ m, Forall typed (before m)) [m_before ms; m_token ms; m_page ms; m_check ms; m_after ms] →
  query_history collapse params owner running elapsed ms db c = (r, c') →
  settled (stored ms db) ∧ advances (durable db) (durable (stored ms db)) ∧ passes c c'
  ∧ ∀ x, r = Ok x → still c' (mkObservation (se_token x) (se_revision x)) ∧ t_revision (durable (stored ms db)) = se_token x
      ∧ ∃ t, frozen x t ∧ advances t (durable (stored ms db)).
Proof.
  intros Hs [T1 [T2 [T3 [T4 [T5 _]%Forall_cons]%Forall_cons]%Forall_cons]%Forall_cons]%Forall_cons. unfold query_history, stored.
  destruct (moved_advances (m_before ms) db) as [S1 A1]; [done..|]. set (db1 := moved (m_before ms) db) in *.
  destruct (moved_advances (m_token ms) db1) as [S2 A2]; [done..|]. set (db2 := moved (m_token ms) db1) in *.
  destruct (moved_advances (m_page ms) db2) as [S3 A3]; [done..|]. set (db3 := moved (m_page ms) db2) in *.
  destruct (moved_advances (m_check ms) db3) as [S4 A4]; [done..|]. set (db4 := moved (m_check ms) db3) in *.
  destruct (moved_advances (m_after ms) db4) as [S5 A5]; [done..|]. set (db5 := moved (m_after ms) db4) in *.
  intros Hq. split; [done|]. split; [by do 4 (etrans; [eassumption|])|].
  destruct collapse as [collapse|e]; [|by injection Hq as <- <-].
  destruct (served (m_before ms) db_revision db1) as [tk|e] eqn:H1; cbn in Hq; [|by injection Hq as <- <-].
  destruct (Clock.observe tk c) as [[r0 c1]|e] eqn:O1; cbn in Hq; [|by injection Hq as <- <-].
  pose proof (observe_passes _ _ _ _ O1) as (P1 & _ & _).
  destruct params as [p|e]; cbn in Hq; [|by injection Hq as <- <-].
  destruct (service_query _ _ _ _ _ _ _ _ _) as [a|e] eqn:Ha; cbn in Hq; [|by injection Hq as <- <-].
  destruct (served (m_after ms) db_revision db5) as [tk'|e] eqn:H5; cbn in Hq; [|by injection Hq as <- <-].
  destruct (Clock.observe tk' c1) as [[r5 c5]|e] eqn:O5; cbn in Hq; [|by injection Hq as <- <-].
  pose proof (observe_passes _ _ _ _ O5) as (P5 & -> & Ht5).
  pose proof (passes_trans _ _ _ P1 P5) as P.
  case_bool_decide as Heq; injection Hq as <- <-; [subst tk'|done]. split; [done|]. intros x [= <-]. cbn. split; [done|].
  pose proof (token_served _ _ _ S1 H1) as Htk. pose proof (token_served _ _ _ S5 H5) as Htk5. split; [done|].
  exists (durable db3). split; [|by etrans].
  assert (A13 : advances (durable db1) (durable db3)) by by etrans.
  assert (A35 : advances (durable db3) (durable db5)) by by etrans.
  assert (R3 : t_revision (durable db3) = tk) by (rewrite Htk; eapply between; [exact A13|exact A35|congruence]).
  split; [done|]. cbn. eapply service_query_more, Ha.
  - intros y Hy%token_served; [|done]. subst y. f_equal. rewrite Htk. symmetry. eapply (between _ _ (durable db5)); [exact A2| |congruence]. by etrans.
  - intros q pg Hpg. by apply served_ideal in Hpg; [|apply _|].
  - intros y Hy%token_served; [|done]. subst y. f_equal. rewrite Htk. symmetry. eapply (between (durable db1)); [|exact A5|congruence]. by etrans.
Qed.
Lemma handle_sound q s : proper q → sound s → sound (handle q s).
Proof.
  intros Hp Hs. destruct q as [m|collapse params owner running elapsed ms]; cbn.
  - apply Forall_cons in Hp as [Hm _]. destruct (moved_advances m (store s)) as [Hst Ha]; [done|apply Hs|].
    set (db := moved m (store s)) in *. pose proof (sound_moved s db Hs Hst Ha) as Hs1.
    destruct (observe_history _ _) as [r c] eqn:Ho. apply observe_history_spec in Ho as Hspec. destruct Hspec as [Hpass Hr].
    pose proof (sound_ticked _ c Hs1 Hpass) as Hs2. destruct r as [o|e]; [|done]. cbn.
    apply (sound_sealed (mkSystem db c (answers s)) _ _ _ (durable db)); cbn; try done.
    + unfold observe_history in Ho. destruct (served m db_revision db) as [t|e] eqn:Ht; [|done].
      apply token_served in Ht; [|done]. destruct (Clock.observe t _) as [[r' c1]|e]; [|done]. injection Ho as <- <-. done.
    + split; [|done]. cbn. unfold observe_history in Ho. destruct (served m db_revision db) as [t|e] eqn:Ht; [|done].
      apply token_served in Ht; [|done]. destruct (Clock.observe t _) as [[r' c1]|e]; [|done]. injection Ho as <- <-. done.
  - destruct (query_history _ _ _ _ _ _ _ _) as [r c] eqn:Hq.
    apply query_history_spec in Hq as (Hst & Ha & Hpass & Hr); [|apply Hs|done].
    pose proof (sound_ticked _ c (sound_moved s _ Hs Hst Ha) Hpass) as Hs2. destruct r as [[tk r x]|e]; [|done].
    destruct (Hr _ eq_refl) as (Hstill & Htk & t & Hf & Hat). by apply (sound_sealed (mkSystem _ c (answers s)) tk r x t).
Qed.
Lemma handles_sound qs db : settled db → Forall proper qs → sound (handles qs (started db)).
Proof.
  intros Hs Hq. assert (Hstart : sound (started db)).
  { split; cbn; [done|by intros ? ?%elem_of_nil|by intros ? ? ?%elem_of_nil|constructor|].
    exists (λ _, durable db). by intros ? ?%elem_of_nil. }
  revert Hstart. generalize (started db). induction Hq as [|q qs Hp _ IH]; intros s Hsound; [done|]. by apply IH, handle_sound.
Qed.

(** C13 A history revision names one state of the history.  Whatever queries and
    observations the daemon answered, whatever other clients did to the history
    and whatever failed before, during and after each of them, there is one
    state of the tables for every revision such that every answer sealed with
    that revision - observation, plain page or search page, whoever asked - is
    exactly what the fault-free query says of that state; and revisions never
    go back from one answer to the next. *)
Theorem history_sealed qs db :
  settled db → Forall proper qs →
  StronglySorted (λ x y, se_revision y <= se_revision x) (answers (handles qs (started db)))
  ∧ ∃ snapshot : Z → Tables, ∀ x, x ∈ answers (handles qs (started db)) → frozen x (snapshot (se_revision x)).
Proof.
  intros Hs Hq. destruct (handles_sound qs db Hs Hq) as [_ _ _ Hsort [snap Hsnap]]. split; [done|].
  exists snap. intros x Hx. by apply Hsnap.
Qed.
End sealed.

(** Two clients ask; a third replaces an entry while the second is served, and
    the fourth asks again. *)
#[local] Existing Instances toy_externals Search.toy_codec.
Definition calmly : Moment := mkMoment [] [] None.
Definition replacing : Moment := mkMoment [OpReplace ∅ id1 2 "text/html" (str_bytes "abc")] [] None.
Definition all_entries : QueryParams := mkParams "" 0 0 1 false None.
Definition plainly (page : Moment) : Request :=
  Query (Ok false) (Ok all_entries) (Some ":1.1"%string) 0 0 (mkMoments calmly calmly page calmly calmly).
Definition demo_requests : list Request := [plainly calmly; Observe calmly; plainly replacing; plainly calmly].
#[local] Abbreviation demo_answers := (answers (handles [] demo_requests (started sample_db))).
Lemma history_sealed_witness :
  map se_revision demo_answers = [2; 1; 1]
  ∧ StronglySorted (λ x y, se_revision y <= se_revision x) demo_answers
  ∧ ∃ snapshot : Z → Tables, ∀ x, x ∈ demo_answers → frozen [] x (snapshot (se_revision x)).
Proof.
  split; [vm_compute; reflexivity|]. apply (history_sealed [] demo_requests sample_db); [apply sample_settled|by repeat constructor].
Defined.
