(* ===== verification/Actions.v ===== *)
(** * Actions: the entry requests, [actions.rs] ([ClipboardService]): actions,
    edits under a lease, deletions, publications.

    The backend is an interface ([ClipboardBackend]); paste sessions are those
    of [Session.v].  JSON decoding of the parameters is not modelled: a request
    is a typed value.  Each reading of the clock is an argument. *)
From S2P Require Import Prelude Text Externals Model Selection Session Settings Api.
Local Open Scope Z_scope.

Definition MAX_EDIT_BYTES : Z := 262144.
Definition MAX_DELETE_ENTRIES : Z := 5000.
Definition EDIT_TTL : Z := 60000.

(** ** Validation *)
Definition edit_error (m : string) : ApiError := ApiError_new "edit-error" m.
Definition stale_target (m : string) : ApiError := ApiError_new "stale-target" m.
Definition launch_error (m : string) : ApiError := from_backend (operation_error m).
Definition invalid (m : string) : ApiError := from_backend (invalid_data m).

Definition validate_entry_id (id : string) : ApiResult unit :=
  ensure (negb (bool_decide (id = EmptyString))) (validation "entry_id is required").
Definition validate_revision (expected : option Z) (actual : Z) : ApiResult unit :=
  match expected with
  | Some revision =>
      if negb (revision =? actual) then
        Err (mkApiError "stale-entry" "Clipboard entry changed; refresh and try again" true)
      else Ok tt
  | None => Ok tt
  end.
Definition validate_action (details : EntryDetails) (action : string) : ApiResult unit :=
  let k := s_kind (d_entry details) in
  let allowed :=
    if memb action ["copy"; "delete"; "favorite"; "unfavorite"; "pin-current"; "cleanup"] then true
    else if bool_decide (action = "paste") then negb (bool_decide (k = Binary))
    else if memb action ["image-as-file"; "annotate"] then bool_decide (k = Image)
    else if bool_decide (action = "open-url") then bool_decide (k = Link)
    else if memb action ["open-file"; "reveal-file"] then negb (bool_decide (d_files details = []))
    else false in
  ensure allowed (validation "action is unsafe for this clipboard type").
Fixpoint validate_targets (seen : list string) (entries : list EntryTarget) : ApiResult unit :=
  match entries with
  | [] => Ok tt
  | e :: entries' =>
      _ ← validate_entry_id (opaque_id e);
      if memb (opaque_id e) seen then Err (validation "entries must not contain duplicates")
      else validate_targets (opaque_id e :: seen) entries'
  end.
Definition validate_delete_targets (entries : list EntryTarget) : ApiResult unit :=
  if negb ((1 <=? zlen entries) && (zlen entries <=? MAX_DELETE_ENTRIES)) then
    Err (validation "entries must contain between 1 and 5000 clipboard entries")
  else validate_targets [] entries.
Definition editable_value (details : EntryDetails) : ApiResult string :=
  let editable := match s_kind (d_entry details) with Model.Text | Link | Html | Json | Color => true | _ => false end in
  if negb editable || d_preview_truncated details then Err (edit_error "Clipboard entry is not safely editable")
  else
    value ← ok_or (d_text details) (edit_error "Clipboard entry is not valid UTF-8 text");
    _ ← ensure (str_len value <=? MAX_EDIT_BYTES) (edit_error "Clipboard entry exceeds the editable text limit");
    mret value.
Definition complete_text (details : EntryDetails) : ApiResult string :=
  if d_preview_truncated details then Err (invalid "Clipboard text is too large to launch safely")
  else ok_or (d_text details) (invalid "Clipboard entry is not valid UTF-8 text").
Definition selected_file (details : EntryDetails) (index : option nat) : ApiResult FilePreview :=
  ok_or (d_files details !! default 0%nat index) (validation "file_index does not identify a clipboard file").
Definition required_mutation (action : string) (max_bytes : Z) : ApiResult BackendMutation :=
  ok_or (for_action action max_bytes) (validation "unsupported entry action").
Definition paste_feedback (has_target : bool) (action : string) : string * string :=
  match has_target, bool_decide (action = "image-as-file") with
  | true, true => ("paste-prepared", "Image file link prepared; hide the picker")
  | true, false => ("paste-prepared", "Paste prepared; hide the picker")
  | false, true => ("completed", "Image file link copied; paste manually")
  | false, false => ("completed", "Copied; paste manually")
  end.

(** ** The backend and the desktop *)
Class ClipboardBackend (B : Type) := {
  be_details : string → Z → B → BackendResult EntryDetails * B;
  be_revision : string → B → BackendResult Z * B;
  be_thumbnail : string → option Z → Z → B → BackendResult EntryThumbnail * B;
  be_mutate : string → option Z → BackendMutation → B → BackendResult OperationResult * B;
  be_replace : string → Z → string → bytes → B → BackendResult ReplacementResult * B;
  be_remove_many : list EntryTarget → B → BackendResult OperationResult * B;
  be_publish : string → bytes → Z → B → BackendResult OperationResult * B;
  be_publish_sensitive : string → Z → B → BackendResult OperationResult * B;
  be_publish_files : FileSelection → Z → B → BackendResult OperationResult * B;
  be_capture_screenshot : Z → Z → Z → B → BackendResult OperationResult * B;
  (** [Command::spawn] of a program, and [ShowItems] of the file manager. *)
  be_spawn : string → string → B → bool * B;
  be_reveal : string → B → result string unit * B;
}.

(** What the service asked the backend, newest first (a history variable). *)
Inductive Asked :=
| AskDetails (id : string) (limit : Z) (r : BackendResult EntryDetails)
| AskRevision (id : string) (r : BackendResult Z)
| AskThumbnail (id : string) (revision : option Z) (edge : Z) (r : BackendResult EntryThumbnail)
| AskMutate (id : string) (revision : option Z) (m : BackendMutation) (r : BackendResult OperationResult)
| AskReplace (id : string) (revision : Z) (mime : string) (b : bytes) (r : BackendResult ReplacementResult)
| AskRemove (targets : list EntryTarget) (r : BackendResult OperationResult)
| AskPublish (mime : string) (b : bytes) (max : Z) (r : BackendResult OperationResult)
| AskSensitive (text : string) (expiry : Z) (r : BackendResult OperationResult)
| AskFiles (s : FileSelection) (r : BackendResult OperationResult)
| AskScreenshot (w h : Z) (r : BackendResult OperationResult)
| AskLaunch (program argument : string).

(** ** The service *)
Record EditLease := mkLease {
  l_owner : option string;
  l_entry_id : string;
  l_revision : Z;
  l_mime : string;
  l_expires : Z;
}.
Record EditView := mkEditView { ev_id : string; ev_entry_id : string; ev_revision : Z; ev_mime : string; ev_value : string }.
Record PasteView := mkPasteView { pv_session_id : string; pv_prepared : bool; pv_message : string }.
Record ActionParams := mkAction {
  ap_entry_id : string;
  ap_revision : Z;
  ap_action : string;
  ap_session_id : option string;
  ap_file_index : option nat;
}.

Section service.
Context `{Externals} {B : Type} `{ClipboardBackend B}.

Record ClipboardService := mkService {
  backend : B;
  edits : gmap string EditLease;
  sessions : SessionManager;
  asked : list Asked;
}.
Definition M (A : Type) : Type := ClipboardService → ApiResult A * ClipboardService.
#[export] Instance M_ret : MRet M := λ A a s, (Ok a, s).
#[export] Instance M_bind : MBind M :=
  λ A C f c s, match c s with (Ok a, s1) => f a s1 | (Err e, s1) => (Err e, s1) end.
Definition M_result {A} (r : ApiResult A) : M A := λ s, (r, s).
Definition ask {A} (f : B → BackendResult A * B) (e : BackendResult A → Asked) : M A := λ s,
  match f (backend s) with
  | (r, b) => (map_err from_backend r, mkService b (edits s) (sessions s) (e r :: asked s))
  end.
Definition set_edits (es : gmap string EditLease) : M unit := λ s, (Ok tt, mkService (backend s) es (sessions s) (asked s)).
Definition get_edits : M (gmap string EditLease) := λ s, (Ok (edits s), s).
Definition on_sessions {A} (f : SessionManager → A * SessionManager) : M A := λ s,
  match f (sessions s) with (a, ss) => (Ok a, mkService (backend s) (edits s) ss (asked s)) end.

Definition load_details (id : string) (revision : option Z) : M EntryDetails :=
  _ ← M_result (validate_entry_id id);
  d ← ask (be_details id MAX_EDIT_BYTES) (AskDetails id MAX_EDIT_BYTES);
  _ ← M_result (validate_revision revision (s_revision (d_entry d)));
  mret d.
Definition mutate (id : string) (revision : Z) (m : BackendMutation) : M OperationResult :=
  ask (be_mutate id (Some revision) m) (AskMutate id (Some revision) m).

Definition validate_paste (now : Z) (id : option string) (o : option string) : M bool :=
  match id with
  | Some id => r ← on_sessions (Session.validate_paste now id o); M_result (map_err stale_target r)
  | None => mret false
  end.
Definition arm (now : Z) (id : string) (o : option string) : M bool := on_sessions (arm_paste now id o).

Definition with_action (action st msg : string) (op : OperationResult) : OperationResult :=
  mkOperation (o_id op) action st msg (o_path op) (o_warning op).

(** *** Launching *)
Definition spawn (program argument : string) : M unit := λ s,
  match be_spawn program argument (backend s) with
  | (ok, b) => ((if ok then Ok tt else Err (launch_error "Application launch failed")),
                mkService b (edits s) (sessions s) (AskLaunch program argument :: asked s))
  end.
Definition open_url (uuid value : string) : M OperationResult :=
  url ← M_result (ok_or (url_parse (trim value)) (invalid "URL is malformed"));
  if negb (memb (url_scheme url) ["http"; "https"]) then
    M_result (Err (invalid "Only HTTP and HTTPS URLs can be opened directly"))
  else _ ← spawn "xdg-open" (url_str url); mret (completed uuid "open-url" "URL opened").
Definition existing_local_path (fs : Fs) (file : FilePreview) : ApiResult string :=
  path ← ok_or (u ← url_parse (fp_uri file); url_file_path u) (invalid "Clipboard entry is not a local file");
  _ ← ensure (path_exists fs path) (from_backend (not_found "Clipboard file no longer exists"));
  mret path.
Definition open_file (fs : Fs) (uuid : string) (file : FilePreview) : M OperationResult :=
  path ← M_result (existing_local_path fs file);
  _ ← spawn "xdg-open" path; mret (completed uuid "open-file" "File opened").
Definition show_items (uri : string) : M unit := λ s,
  match be_reveal uri (backend s) with
  | (r, b) => (map_err launch_error r, mkService b (edits s) (sessions s) (AskLaunch "ShowItems" uri :: asked s))
  end.
Definition reveal_file (fs : Fs) (uuid : string) (file : FilePreview) : M OperationResult :=
  path ← M_result (existing_local_path fs file);
  uri ← M_result (ok_or (url_from_file_path path) (invalid "Clipboard entry is not a local file"));
  _ ← show_items uri;
  mret (completed uuid "reveal-file" "File revealed").
Definition launch_action (fs : Fs) (uuid : string) (p : ActionParams) (d : EntryDetails) : M OperationResult :=
  if bool_decide (ap_action p = "open-url") then v ← M_result (complete_text d); open_url uuid v
  else if bool_decide (ap_action p = "open-file") then f ← M_result (selected_file d (ap_file_index p)); open_file fs uuid f
  else if bool_decide (ap_action p = "reveal-file") then f ← M_result (selected_file d (ap_file_index p)); reveal_file fs uuid f
  else M_result (Err (validation "unsupported launch action")).

(** *** Actions *)
Definition paste (now1 now2 : Z) (p : ActionParams) (max : Z) (o : option string) : M OperationResult :=
  id ← M_result (ok_or (ap_session_id p) (validation "session_id is required for paste"));
  has_target ← validate_paste now1 (Some id) o;
  m ← M_result (required_mutation (ap_action p) max);
  op ← mutate (ap_entry_id p) (ap_revision p) m;
  has_target ← (if (has_target : bool) then arm now2 id o else mret false);
  let '(st, msg) := paste_feedback has_target (ap_action p) in
  mret (with_action (ap_action p) st msg op).
Definition execute_action (fs : Fs) (uuid : string) (now1 now2 : Z) (p : ActionParams) (d : EntryDetails) (max : Z)
    (o : option string) : M OperationResult :=
  if memb (ap_action p) ["open-url"; "open-file"; "reveal-file"] then launch_action fs uuid p d
  else if memb (ap_action p) ["paste"; "image-as-file"] then paste now1 now2 p max o
  else
    m ← M_result (required_mutation (ap_action p) max);
    op ← mutate (ap_entry_id p) (ap_revision p) m;
    mret (with_action (ap_action p) (o_status op) (o_message op) op).
Definition action (fs : Fs) (uuid : string) (now1 now2 : Z) (p : ActionParams) (max : Z) (o : option string)
    : M OperationResult :=
  d ← load_details (ap_entry_id p) (Some (ap_revision p));
  _ ← M_result (validate_action d (ap_action p));
  execute_action fs uuid now1 now2 p d max o.

(** *** Edits *)
Definition begin_edit (now : Z) (uuid id : string) (revision : option Z) (o : option string) : M EditView :=
  d ← load_details id revision;
  value ← M_result (editable_value d);
  let eid := ("edit-" ++ uuid)%string in
  let e := d_entry d in
  es ← get_edits;
  _ ← set_edits (<[eid := mkLease o (s_id e) (s_revision e) (s_mime e) (now + EDIT_TTL)]> es);
  mret (mkEditView eid (s_id e) (s_revision e) (s_mime e) value).
(** [EditLease::replace]. *)
Definition lease_replace (now : Z) (l : EditLease) (value : string) (max : Z) : M ReplacementResult :=
  _ ← M_result (ensure (negb (l_expires l <=? now)) (edit_error "Edit session expired"));
  _ ← M_result (ensure (negb (Z.min MAX_EDIT_BYTES max <? str_len value)) (edit_error "Edited text exceeds the configured limit"));
  revision ← ask (be_revision (l_entry_id l)) (AskRevision (l_entry_id l));
  _ ← M_result (validate_revision (Some (l_revision l)) revision);
  ask (be_replace (l_entry_id l) (l_revision l) (l_mime l) (str_bytes value))
      (AskReplace (l_entry_id l) (l_revision l) (l_mime l) (str_bytes value)).
Definition take_lease (id : string) (o : option string) : M EditLease :=
  es ← get_edits;
  match es !! id with
  | Some l => if bool_decide (l_owner l = o) then _ ← set_edits (delete id es); mret l
              else M_result (Err (edit_error "Edit session is unknown or already used"))
  | None => M_result (Err (edit_error "Edit session is unknown or already used"))
  end.
Definition commit_edit (now1 now2 now3 : Z) (edit_id value : string) (session : option string) (max : Z) (o : option string)
    : M (ReplacementResult * option PasteView) :=
  paste_target ← validate_paste now1 session o;
  l ← take_lease edit_id o;
  r ← lease_replace now2 l value max;
  match session with
  | None => mret (r, None)
  | Some sid =>
      prepared ← (if r_selection_published r && (paste_target : bool) then arm now3 sid o else mret false);
      mret (r, Some (mkPasteView sid prepared
        (if (prepared : bool) then "Paste prepared; hide the picker"
         else if r_selection_published r then "Text saved and copied; paste manually"
         else "Text saved, but clipboard publication failed; paste was not prepared")))
  end.
Definition cancel_edit (id : string) (o : option string) : M bool :=
  es ← get_edits;
  match es !! id with
  | Some l => if bool_decide (l_owner l = o) then _ ← set_edits (delete id es); mret true else mret false
  | None => mret false
  end.

(** *** The rest *)
Definition delete_entries (targets : list EntryTarget) : M OperationResult :=
  _ ← M_result (validate_delete_targets targets);
  ask (be_remove_many targets) (AskRemove targets).
Definition publish (mime : string) (b : bytes) (max : Z) : M OperationResult :=
  _ ← M_result (ensure (negb (bool_decide (b = []))) (validation "clipboard content must not be empty"));
  ask (be_publish mime b max) (AskPublish mime b max).
Definition publish_text (text : string) (max : Z) : M OperationResult :=
  publish "text/plain;charset=utf-8" (str_bytes text) max.
Definition publish_sensitive (text : string) (expiry : Z) : M OperationResult :=
  _ ← M_result (map_err validation (validate_sensitive (str_bytes text) expiry));
  ask (be_publish_sensitive text expiry) (AskSensitive text expiry).
Definition publish_files (sel : FileSelection) (max : Z) : M OperationResult :=
  _ ← M_result (map_err validation (FileSelection_validate sel));
  ask (be_publish_files sel max) (AskFiles sel).
Definition capture_screenshot (w h max : Z) : M OperationResult :=
  _ ← M_result (ensure (valid_dimensions w h)
        (validation "screenshot dimensions exceed the 16384-pixel edge or 32-megapixel limit"));
  ask (be_capture_screenshot w h max) (AskScreenshot w h).
Definition details (id : string) (revision : option Z) : M EntryDetails := load_details id revision.
Definition thumbnail (id : string) (revision edge : option Z) : M EntryThumbnail :=
  _ ← M_result (validate_entry_id id);
  ask (be_thumbnail id revision (default 512 edge)) (AskThumbnail id revision (default 512 edge)).
(** [dispatch_entry] drops the expired leases first. *)
Definition expire_edits (now : Z) : M unit :=
  es ← get_edits; set_edits (filter (λ kl, now < l_expires kl.2) es).
Definition clear : M unit := set_edits ∅.
Definition release_owner (o : string) : M unit :=
  _ ← on_sessions (λ ss, (tt, Session.release_owner o ss));
  es ← get_edits; set_edits (filter (λ kl, l_owner kl.2 ≠ Some o) es).
Definition owners (now1 now2 : Z) : M (list string) :=
  a ← on_sessions (Session.owners now1);
  _ ← expire_edits now2;
  es ← get_edits;
  mret (a ++ omap (λ kl, l_owner kl.2) (map_to_list es)).
End service.

(** ** Requests *)
Inductive Request :=
| ReqAction (uuid : string) (now1 now2 : Z) (p : ActionParams) (max : Z)
| ReqBegin (now : Z) (uuid id : string) (revision : option Z)
| ReqCommit (now1 now2 now3 : Z) (edit_id value : string) (session : option string) (max : Z)
| ReqCancel (id : string)
| ReqDelete (targets : list EntryTarget)
| ReqPublish (mime : string) (b : bytes) (max : Z)
| ReqSensitive (text : string) (expiry : Z)
| ReqFiles (sel : FileSelection) (max : Z)
| ReqScreenshot (w h max : Z)
| ReqDetails (id : string) (revision : option Z)
| ReqThumbnail (id : string) (revision edge : option Z)
| ReqClear | ReqRelease (o : string) | ReqOwners (now1 now2 : Z).

Section properties.
Context `{Externals} {B : Type} `{ClipboardBackend B}.
Abbreviation Service := (@ClipboardService B).

(** One request of a caller; the leases are pruned first, as [dispatch_entry] does. *)
Definition handle (fs : Fs) (o : option string) (q : Request) (s : Service) : Service :=
  match q with
  | ReqAction uuid n1 n2 p max => snd ((_ ← expire_edits n1; action fs uuid n1 n2 p max o) s)
  | ReqBegin n uuid id rev => snd ((_ ← expire_edits n; begin_edit n uuid id rev o) s)
  | ReqCommit n1 n2 n3 id v ss max => snd ((_ ← expire_edits n1; commit_edit n1 n2 n3 id v ss max o) s)
  | ReqCancel id => snd (cancel_edit id o s)
  | ReqDelete l => snd (delete_entries l s)
  | ReqPublish m b max => snd (publish m b max s)
  | ReqSensitive t e => snd (publish_sensitive t e s)
  | ReqFiles sel max => snd (publish_files sel max s)
  | ReqScreenshot w h max => snd (capture_screenshot w h max s)
  | ReqDetails id rev => snd (details id rev s)
  | ReqThumbnail id rev edge => snd (thumbnail id rev edge s)
  | ReqClear => snd (clear s)
  | ReqRelease o' => snd (release_owner o' s)
  | ReqOwners n1 n2 => snd (owners n1 n2 s)
  end.

Lemma service_bind {A C} (c : M (B:=B) A) (f : A → M C) s :
  (c ≫= f) s = match c s with (Ok a, s1) => f a s1 | (Err e, s1) => (Err e, s1) end.
Proof. done. Qed.

(** *** Computations that leave the paste sessions alone *)
Class KeepsSessions {A} (m : M (B:=B) A) : Prop := keeps_sessions : ∀ s, sessions (snd (m s)) = sessions s.
#[export] Instance keeps_ret A (a : A) : KeepsSessions (mret a).
Proof. done. Qed.
#[export] Instance keeps_result A (r : ApiResult A) : KeepsSessions (M_result r).
Proof. done. Qed.
#[export] Instance keeps_ask A f (e : BackendResult A → Asked) : KeepsSessions (ask f e).
Proof. intros s. unfold ask. by destruct (f (backend s)). Qed.
#[export] Instance keeps_set es : KeepsSessions (set_edits es).
Proof. done. Qed.
#[export] Instance keeps_get : KeepsSessions get_edits.
Proof. done. Qed.
#[export] Instance keeps_spawn p a : KeepsSessions (spawn p a).
Proof. intros s. unfold spawn. by destruct (be_spawn p a (backend s)). Qed.
#[export] Instance keeps_show u : KeepsSessions (show_items u).
Proof. intros s. unfold show_items. by destruct (be_reveal u (backend s)). Qed.
#[export] Instance keeps_bind A C (c : M A) (f : A → M C) :
  KeepsSessions c → (∀ a, KeepsSessions (f a)) → KeepsSessions (c ≫= f).
Proof.
  intros Hc Hf s. rewrite service_bind. specialize (Hc s). destruct (c s) as [[a|e] s1]; [|done]. cbn in *. by rewrite Hf.
Qed.
#[export] Instance keeps_if A (b : bool) (c d : M A) : KeepsSessions c → KeepsSessions d → KeepsSessions (if b then c else d).
Proof. by destruct b. Qed.
#[export] Instance keeps_option A C (x : option C) (f : C → M A) (d : M A) :
  (∀ y, KeepsSessions (f y)) → KeepsSessions d → KeepsSessions (match x with Some y => f y | None => d end).
Proof. by destruct x. Qed.
#[export] Instance keeps_load id rev : KeepsSessions (load_details id rev).
Proof. unfold load_details. apply _. Qed.
#[export] Instance keeps_launch fs uuid p d : KeepsSessions (launch_action fs uuid p d).
Proof. unfold launch_action, open_url, open_file, reveal_file. apply _. Qed.
#[export] Instance keeps_expire now : KeepsSessions (expire_edits now).
Proof. unfold expire_edits. apply _. Qed.
#[export] Instance keeps_take id o : KeepsSessions (take_lease id o).
Proof. unfold take_lease. apply _. Qed.
#[export] Instance keeps_replace now l v max : KeepsSessions (lease_replace now l v max).
Proof. unfold lease_replace. apply _. Qed.
#[export] Instance keeps_begin now uuid id rev o : KeepsSessions (begin_edit now uuid id rev o).
Proof. unfold begin_edit. apply _. Qed.
#[export] Instance keeps_cancel id o : KeepsSessions (cancel_edit id o).
Proof. unfold cancel_edit. apply _. Qed.
#[export] Instance keeps_mutate id rev m : KeepsSessions (mutate id rev m).
Proof. unfold mutate. apply _. Qed.

(** *** Arming *)
Definition pending_at (ss : SessionManager) (id : string) : Prop :=
  ∃ x, Session.sessions ss !! id = Some x ∧ paste_pending x = true.
(** Nothing is armed that was not. *)
Definition no_new (ss ss' : SessionManager) : Prop := ∀ id, pending_at ss' id → pending_at ss id.
Lemma no_new_refl ss : no_new ss ss.
Proof. by intros id. Qed.
#[local] Hint Resolve no_new_refl : core.
Lemma no_new_sub ss ss' :
  (∀ id x, Session.sessions ss' !! id = Some x → Session.sessions ss !! id = Some x) → no_new ss ss'.
Proof. intros Hs id (x & Hx & Hp). exists x. auto. Qed.
Lemma no_new_keep P m : no_new m (keep_sessions P m).
Proof. apply no_new_sub. cbn. intros id x Hx. by apply map_lookup_filter_Some in Hx as [? _]. Qed.
Lemma no_new_remove id m : no_new m (remove_session id m).
Proof. apply no_new_sub. cbn. intros i x Hx. by apply lookup_delete_Some in Hx as [_ ?]. Qed.
Lemma arm_new now id o m i : pending_at (snd (arm_paste now id o m)) i →
  pending_at m i ∨ (i = id ∧ ∃ x, Session.sessions m !! id = Some x ∧ owner x = o).
Proof.
  unfold arm_paste, with_session. destruct (lookup_session id o false m) as [x|] eqn:Hl; [|by left].
  destruct (_ <=? _); cbn; [intros Hi; left; by apply (no_new_remove id)|].
  intros (y & Hy & Hp). cbn in Hy. destruct (decide (i = id)) as [->|Hne].
  - right. split; [done|]. exists x. by apply lookup_session_Some in Hl as (? & ? & _).
  - left. rewrite lookup_insert_ne in Hy by done. by exists y.
Qed.

(** The backend acknowledged that the clipboard now holds the entry. *)
Definition publishes (e : Asked) : Prop :=
  match e with
  | AskMutate _ _ (Restore _ | ImageAsFile _) (Ok _) => True
  | AskReplace _ _ _ _ (Ok r) => r_selection_published r = true
  | _ => False
  end.
Definition names_session (q : Request) : option string :=
  match q with
  | ReqAction _ _ _ p _ => ap_session_id p
  | ReqCommit _ _ _ _ _ ss _ => ss
  | _ => None
  end.
(** How a computation may arm: not at all, or [id] for [o], last, after a publication. *)
Definition arms (id : option string) (o : option string) (s s' : Service) : Prop :=
  ∀ i, pending_at (sessions s') i → pending_at (sessions s) i
    ∨ (id = Some i ∧ (∃ e, head (asked s') = Some e ∧ publishes e)
       ∧ ∃ x, Session.sessions (sessions s) !! i = Some x ∧ owner x = o).
Lemma arms_no_new id o s s' : no_new (sessions s) (sessions s') → arms id o s s'.
Proof. intros Hn i Hi. left. by apply Hn. Qed.
Lemma arms_keeps {A} (m : M A) `{!KeepsSessions m} id o s : arms id o s (snd (m s)).
Proof. apply arms_no_new. rewrite keeps_sessions. apply no_new_refl. Qed.
(** Sessions may only shrink before the arming step. *)
Lemma arms_after id o s s1 s' :
  (∀ i x, Session.sessions (sessions s1) !! i = Some x → Session.sessions (sessions s) !! i = Some x) →
  arms id o s1 s' → arms id o s s'.
Proof.
  intros Hs Ha i Hi. destruct (Ha i Hi) as [(x & Hx & Hp)|(-> & He & x & Hx & Ho)]; [left|right; split_and!; eauto].
  exists x. auto.
Qed.
Lemma arm_arms now id o (s : Service) e : head (asked s) = Some e → publishes e →
  arms (Some id) o s (snd (arm now id o s)).
Proof.
  intros He Hp i. unfold arm, on_sessions. destruct (arm_paste now id o (sessions s)) as [b ss] eqn:Ha. cbn.
  intros Hi. pose proof (arm_new now id o (sessions s) i) as Hn. rewrite Ha in Hn.
  destruct (Hn Hi) as [|[-> ?]]; [by left|right; eauto].
Qed.
Lemma validate_shrinks now id o (s : Service) i x :
  Session.sessions (sessions (snd (validate_paste now id o s))) !! i = Some x →
  Session.sessions (sessions s) !! i = Some x.
Proof.
  destruct id as [id|]; [|done]. unfold validate_paste. rewrite service_bind. unfold on_sessions, M_result.
  unfold Session.validate_paste, with_session. destruct (lookup_session id o false (sessions s)) as [y|]; [|done].
  destruct (_ <=? _); cbn; [|done]. intros Hx. by apply lookup_delete_Some in Hx as [_ ?].
Qed.
Lemma mutation_publishes action max m : memb action ["paste"; "image-as-file"] = true →
  required_mutation action max = Ok m → match m with Restore _ | ImageAsFile _ => True | _ => False end.
Proof.
  unfold memb. intros Ha. apply bool_decide_eq_true in Ha. rewrite !elem_of_cons in Ha.
  destruct Ha as [-> | [-> | Ha]]; [by intros [= <-]|by intros [= <-]|by apply not_elem_of_nil in Ha].
Qed.
Lemma paste_arms n1 n2 p max o (s : Service) : memb (ap_action p) ["paste"; "image-as-file"] = true →
  arms (ap_session_id p) o s (snd (paste n1 n2 p max o s)).
Proof.
  intros Hact. unfold paste. rewrite service_bind. destruct (ap_session_id p) as [id|]; [|by apply arms_no_new].
  unfold M_result at 1. cbn [ok_or]. rewrite service_bind.
  pose proof (validate_shrinks n1 (Some id) o s) as Hv. destruct (validate_paste n1 (Some id) o s) as [[has|e] s1];
    [|apply arms_no_new, no_new_sub, Hv].
  rewrite service_bind. unfold M_result. destruct (required_mutation (ap_action p) max) as [m|e] eqn:Hm;
    [|apply arms_no_new, no_new_sub, Hv].
  apply (mutation_publishes _ _ _ Hact) in Hm. apply (arms_after _ _ _ s1); [apply Hv|]. rewrite service_bind.
  pose proof (keeps_mutate (ap_entry_id p) (ap_revision p) m s1) as Hk.
  destruct (mutate (ap_entry_id p) (ap_revision p) m s1) as [[op|e] s2] eqn:Hmu; cbn [snd] in Hk;
    [|apply arms_no_new; cbn [snd]; by rewrite Hk].
  apply (arms_after _ _ _ s2); [by rewrite Hk|]. rewrite service_bind.
  assert (He : ∃ e, head (asked s2) = Some e ∧ publishes e).
  { unfold mutate, ask in Hmu. destruct (be_mutate _ _ _ _) as [[r|?] b]; [|done]. injection Hmu as _ <-. cbn.
    eexists. split; [done|]. cbn. by destruct m. }
  destruct He as (e & He & Hp). destruct has.
  - pose proof (arm_arms n2 id o s2 e He Hp) as Ha. destruct (arm n2 id o s2) as [[b|?] s3]; [|done].
    by destruct (paste_feedback b (ap_action p)).
  - apply arms_no_new. cbv beta iota zeta delta [mret M_ret]. by destruct (paste_feedback false (ap_action p)).
Qed.
(** What [EditLease::replace] asks, and when: nothing, because the lease has
    expired or the value is too long; the revision, which is another one; or the
    replacement, right after the revision was confirmed. *)
Inductive Outcome (now : Z) (l : EditLease) (v : string) (max : Z) (before : list Asked) : bool → list Asked → Prop :=
| Unasked : l_expires l <= now ∨ Z.min MAX_EDIT_BYTES max < str_len v → Outcome now l v max before false before
| OtherRevision a :
    now < l_expires l → str_len v <= Z.min MAX_EDIT_BYTES max → a ≠ Ok (l_revision l) →
    Outcome now l v max before false (AskRevision (l_entry_id l) a :: before)
| Replaced x :
    now < l_expires l → str_len v <= Z.min MAX_EDIT_BYTES max →
    Outcome now l v max before (is_ok x)
      (AskReplace (l_entry_id l) (l_revision l) (l_mime l) (str_bytes v) x
       :: AskRevision (l_entry_id l) (Ok (l_revision l)) :: before).
Lemma lease_replace_cases now l v max (s : Service) :
  let '(r, s') := lease_replace now l v max s in
  edits s' = edits s ∧ Outcome now l v max (asked s) (is_ok r) (asked s')
  ∧ ∀ r', r = Ok r' → ∃ l' t, asked s' = AskReplace (l_entry_id l) (l_revision l) l' t (Ok r')
                                :: AskRevision (l_entry_id l) (Ok (l_revision l)) :: asked s.
Proof.
  unfold lease_replace. rewrite service_bind. unfold M_result at 1.
  destruct (Z.leb_spec (l_expires l) now) as [Hx|Hx]; cbn [negb ensure].
  { split_and!; [done|constructor; auto|done]. }
  rewrite service_bind. unfold M_result at 1.
  destruct (Z.ltb_spec (Z.min MAX_EDIT_BYTES max) (str_len v)) as [Hl|Hl]; cbn [negb ensure].
  { split_and!; [done|constructor; auto|done]. }
  rewrite service_bind. unfold ask at 1. destruct (be_revision _ _) as [[rev|e] b]; cbn [map_err].
  2: { cbn. split_and!; [done|by constructor|done]. }
  rewrite service_bind. unfold M_result, validate_revision. destruct (Z.eqb_spec (l_revision l) rev) as [<-|Hne]; cbn [negb].
  - unfold ask. cbn [backend]. destruct (be_replace _ _ _ _ b) as [x b']. cbn. split_and!; [done| |].
    + assert (is_ok (map_err from_backend x) = is_ok x) as -> by by destruct x. by constructor.
    + intros r' Hr. destruct x; [|done]. injection Hr as ->. eauto.
  - cbn. split_and!; [done| |done]. constructor; [done|done|congruence].
Qed.
Lemma commit_arms n1 n2 n3 eid v ss max o (s : Service) : arms ss o s (snd (commit_edit n1 n2 n3 eid v ss max o s)).
Proof.
  unfold commit_edit. rewrite service_bind.
  pose proof (validate_shrinks n1 ss o s) as Hv. destruct (validate_paste n1 ss o s) as [[pt|e] s1];
    [|apply arms_no_new, no_new_sub, Hv].
  apply (arms_after _ _ _ s1); [apply Hv|]. rewrite service_bind.
  pose proof (keeps_take eid o s1) as Hk. destruct (take_lease eid o s1) as [[l|e] s2]; cbn [snd] in Hk;
    [|apply arms_no_new; cbn [snd]; by rewrite Hk].
  apply (arms_after _ _ _ s2); [by rewrite Hk|]. rewrite service_bind.
  pose proof (keeps_replace n2 l v max s2) as Hk'. destruct (lease_replace n2 l v max s2) as [[r|e] s3] eqn:Hr; cbn [snd] in Hk';
    [|apply arms_no_new; cbn [snd]; by rewrite Hk'].
  apply (arms_after _ _ _ s3); [by rewrite Hk'|]. destruct ss as [sid|]; [|by apply arms_no_new].
  rewrite service_bind. destruct (r_selection_published r && pt) eqn:Hp; [|by apply arms_no_new].
  apply andb_true_iff in Hp as [Hp ->].
  pose proof (lease_replace_cases n2 l v max s2) as Hc. rewrite Hr in Hc. destruct Hc as (_ & _ & Hc).
  assert (He : ∃ e, head (asked s3) = Some e ∧ publishes e).
  { destruct (Hc r eq_refl) as (l' & t & ->). eexists. split; [done|]. done. }
  destruct He as (e & He & Hpub).
  pose proof (arm_arms n3 sid o s3 e He Hpub) as Harm. by destruct (arm n3 sid o s3) as [[b|?] s4].
Qed.

Lemma arms_request fs o q s : arms (names_session q) o s (handle fs o q s).
Proof.
  assert (Hex : ∀ {A} now (m : M A) id, (∀ s1, arms id o s1 (snd (m s1))) →
    arms id o s (snd ((_ ← expire_edits now; m) s))).
  { intros A now m id Hm. rewrite service_bind. pose proof (keeps_expire now s) as Hk.
    destruct (expire_edits now s) as [[u|e] s1]; cbn [snd] in Hk; [|apply arms_no_new; cbn [snd]; by rewrite Hk].
    apply (arms_after _ _ _ s1); [by rewrite Hk|apply Hm]. }
  destruct q as [uuid n1 n2 p max|n uuid id rev|n1 n2 n3 id v ss max|id|l|m b max|t e|sel max|w h max|id rev|id rev edge| |o'|n1 n2];
    cbn [handle names_session].
  - apply Hex. intros s1. unfold action. rewrite service_bind.
    pose proof (keeps_load (ap_entry_id p) (Some (ap_revision p)) s1) as Hk.
    destruct (load_details _ _ s1) as [[d|e] s2]; cbn [snd] in Hk; [|apply arms_no_new; cbn [snd]; by rewrite Hk].
    apply (arms_after _ _ _ s2); [by rewrite Hk|]. rewrite service_bind. unfold M_result.
    destruct (validate_action d (ap_action p)); [|by apply arms_no_new]. unfold execute_action.
    destruct (memb (ap_action p) ["open-url"; "open-file"; "reveal-file"]); [apply arms_keeps; apply _|].
    destruct (memb (ap_action p) ["paste"; "image-as-file"]) eqn:Hp; [by apply paste_arms|apply arms_keeps; apply _].
  - apply Hex. intros s1. apply arms_keeps. apply _.
  - apply Hex. intros s1. apply commit_arms.
  - apply arms_keeps. apply _.
  - apply (arms_keeps (delete_entries l)).
  - apply (arms_keeps (publish m b max)).
  - apply (arms_keeps (publish_sensitive t e)).
  - apply (arms_keeps (publish_files sel max)).
  - apply (arms_keeps (capture_screenshot w h max)).
  - apply arms_keeps. apply _.
  - apply (arms_keeps (thumbnail id rev edge)).
  - apply arms_keeps. apply _.
  - apply arms_no_new. apply (no_new_keep _ (sessions s)).
  - apply arms_no_new. apply (no_new_keep _ (sessions s)).
Qed.

(** C24 A paste is armed only after the clipboard really holds what was asked:
    whatever the request, a session is armed afterwards that was not armed
    before only if the request names that session, the caller owns it, and
    the last thing the request did at the backend was a copy it acknowledged,
    or a saved edit whose publication succeeded. *)
Theorem armed_after_publication fs o q s id :
  pending_at (sessions (handle fs o q s)) id → ¬ pending_at (sessions s) id →
  names_session q = Some id ∧ (∃ e, head (asked (handle fs o q s)) = Some e ∧ publishes e)
  ∧ ∃ x, Session.sessions (sessions s) !! id = Some x ∧ owner x = o.
Proof. intros Hi Hn. by destruct (arms_request fs o q s id Hi). Qed.

Lemma take_lease_cases id o (s : Service) :
  let '(r, s') := take_lease id o s in
  match r with
  | Ok l => edits s !! id = Some l ∧ l_owner l = o ∧ edits s' = delete id (edits s) ∧ asked s' = asked s
  | Err _ => edits s' = edits s ∧ asked s' = asked s
  end.
Proof.
  unfold take_lease. rewrite service_bind. cbn. destruct (edits s !! id) as [l|] eqn:Hl; [|done].
  by destruct (bool_decide_reflect (l_owner l = o)).
Qed.

(** C27 Committing an edit is single-use and guarded: either the commit is
    refused, the lease untouched and nothing asked of the backend; or the
    caller owned the lease, which is gone whatever follows, and the entry is
    rewritten only before the lease expires, with a value within the limits,
    right after the backend confirmed that the entry still has the revision
    the edit began from, and exactly that entry, revision and MIME. *)
Theorem commit_guarded n1 n2 n3 eid v ss max o s :
  let r := fst (commit_edit n1 n2 n3 eid v ss max o s) in
  let s' := snd (commit_edit n1 n2 n3 eid v ss max o s) in
  (asked s' = asked s ∧ edits s' = edits s ∧ is_ok r = false)
  ∨ ∃ l, edits s !! eid = Some l ∧ l_owner l = o ∧ edits s' = delete eid (edits s)
         ∧ Outcome n2 l v max (asked s) (is_ok r) (asked s').
Proof.
  unfold commit_edit. rewrite service_bind.
  assert (Hv : edits (snd (validate_paste n1 ss o s)) = edits s ∧ asked (snd (validate_paste n1 ss o s)) = asked s).
  { destruct ss as [id|]; [|done]. unfold validate_paste. rewrite service_bind. unfold on_sessions, M_result.
    by destruct (Session.validate_paste n1 id o (sessions s)). }
  destruct (validate_paste n1 ss o s) as [[pt|e] s1], Hv as [Hv1 Hv2]; cbn [fst snd] in *; [|by left].
  rewrite service_bind. pose proof (take_lease_cases eid o s1) as Ht.
  destruct (take_lease eid o s1) as [[l|e] s2]; [|left; cbn; split_and!; [|..|done]; naive_solver congruence].
  destruct Ht as (Hl & Ho & Hd & Ha2). rewrite Hv1 in Hl, Hd. rewrite Hv2 in Ha2.
  right. exists l. split; [done|]. split; [done|]. rewrite service_bind.
  pose proof (lease_replace_cases n2 l v max s2) as Hc.
  destruct (lease_replace n2 l v max s2) as [[r|e] s3], Hc as (He & Hc & _); rewrite Ha2 in Hc; rewrite Hd in He;
    cbn [is_ok] in Hc; [|done].
  destruct ss as [sid|]; [|done]. rewrite service_bind. destruct (r_selection_published r && pt); [|done].
  unfold arm, on_sessions. by destruct (arm_paste n3 sid o (sessions s3)) as [b ss'].
Qed.

(** *** What an action asks *)
Definition entry_request (p : ActionParams) (max : Z) (e : Asked) : Prop :=
  match e with
  | AskMutate i r m _ => i = ap_entry_id p ∧ r = Some (ap_revision p) ∧ for_action (ap_action p) max = Some m
  | AskLaunch _ _ => ap_action p ∈ ["open-url"; "open-file"; "reveal-file"]
  | _ => False
  end.
Definition asks_one (p : ActionParams) (max : Z) (s s' : Service) : Prop :=
  asked s' = asked s ∨ ∃ e, asked s' = e :: asked s ∧ entry_request p max e.
Lemma asks_spawn p max program a (s : Service) : ap_action p ∈ ["open-url"; "open-file"; "reveal-file"] →
  asks_one p max s (snd (spawn program a s)).
Proof. intros Hp. right. unfold spawn. destruct (be_spawn _ _ _). cbn. eauto. Qed.
Lemma asks_then {A C} p max (c : M A) (f : A → M C) (s : Service) :
  asks_one p max s (snd (c s)) → (∀ a s1, asked (snd (f a s1)) = asked s1) → asks_one p max s (snd ((c ≫= f) s)).
Proof.
  intros Hc Hf. rewrite service_bind. destruct (c s) as [[a|e] s1]; [|done].
  destruct Hc as [Hc|(e & Hc & He)]; [left|right; exists e]; rewrite Hf; done.
Qed.
Lemma asks_result {A C} p max (r : ApiResult A) (f : A → M C) (s : Service) :
  (∀ a, r = Ok a → asks_one p max s (snd (f a s))) → asks_one p max s (snd ((M_result r ≫= f) s)).
Proof. intros Hf. rewrite service_bind. unfold M_result. destruct r; [by apply Hf|by left]. Qed.
Lemma asks_launch fs uuid p max d (s : Service) : ap_action p ∈ ["open-url"; "open-file"; "reveal-file"] →
  asks_one p max s (snd (launch_action fs uuid p d s)).
Proof.
  intros Hp. unfold launch_action.
  assert (Hs : ∀ program a op, asks_one p max s (snd ((_ ← spawn program a; mret op : M OperationResult) s))).
  { intros. apply asks_then; [by apply asks_spawn|done]. }
  assert (Hr : ∀ u op, asks_one p max s (snd ((_ ← show_items u; mret op : M OperationResult) s))).
  { intros. apply asks_then; [|done]. right. unfold show_items. destruct (be_reveal _ _). cbn. eauto. }
  repeat case_bool_decide; try by left.
  - apply asks_result. intros v _. unfold open_url. apply asks_result. intros u _. destruct (negb _); [by left|apply Hs].
  - apply asks_result. intros f _. unfold open_file. apply asks_result. intros a _. apply Hs.
  - apply asks_result. intros f _. unfold reveal_file. apply asks_result. intros a _. apply asks_result. intros u _. apply Hr.
Qed.
Lemma asks_mutate p max m (s : Service) : required_mutation (ap_action p) max = Ok m →
  asks_one p max s (snd (mutate (ap_entry_id p) (ap_revision p) m s)).
Proof.
  intros Hm. apply ok_or_Ok in Hm. right. unfold mutate, ask. destruct (be_mutate _ _ _ _). cbn.
  eexists. split; [done|]. by split_and!.
Qed.
Lemma validate_asked now id o (s : Service) : asked (snd (validate_paste now id o s)) = asked s.
Proof.
  destruct id as [id|]; [|done]. unfold validate_paste. rewrite service_bind. unfold on_sessions, M_result.
  by destruct (Session.validate_paste now id o (sessions s)).
Qed.
Lemma asks_execute fs uuid n1 n2 p d max o (s : Service) :
  asks_one p max s (snd (execute_action fs uuid n1 n2 p d max o s)).
Proof.
  unfold execute_action. destruct (memb (ap_action p) ["open-url"; "open-file"; "reveal-file"]) eqn:Hl.
  { apply asks_launch. by apply bool_decide_eq_true in Hl. }
  destruct (memb (ap_action p) ["paste"; "image-as-file"]).
  - unfold paste. apply asks_result. intros id _. rewrite service_bind.
    pose proof (validate_asked n1 (Some id) o s) as Hv. destruct (validate_paste n1 (Some id) o s) as [[has|e] s1]; [|by left].
    assert (Hs1 : ∀ s', asks_one p max s1 s' → asks_one p max s s') by (unfold asks_one; cbn in Hv; by rewrite Hv).
    apply Hs1, asks_result. intros m Hm. apply asks_then; [by apply asks_mutate|]. intros op s2. rewrite service_bind.
    destruct has; [unfold arm, on_sessions; destruct (arm_paste n2 id o (sessions s2)) as [b ss]|cbn [mret M_ret]].
    + by destruct (paste_feedback b (ap_action p)).
    + by destruct (paste_feedback false (ap_action p)).
  - apply asks_result. intros m Hm. apply asks_then; [by apply asks_mutate|done].
Qed.

Lemma load_details_cases id rev (s : Service) :
  let '(x, s') := load_details id rev s in
  match x with
  | Err _ => asked s' = asked s ∨ ∃ r, asked s' = AskDetails id MAX_EDIT_BYTES r :: asked s
  | Ok d => asked s' = AskDetails id MAX_EDIT_BYTES (Ok d) :: asked s
            ∧ ∀ n, rev = Some n → s_revision (d_entry d) = n
  end.
Proof.
  unfold load_details. rewrite service_bind. unfold M_result at 1. destruct (validate_entry_id id); [|by left].
  rewrite service_bind. unfold ask. destruct (be_details _ _ _) as [[d|e] b]; cbn [map_err]; [|right; cbn; eauto].
  rewrite service_bind. unfold M_result, validate_revision. destruct rev as [n|]; [|done].
  destruct (Z.eqb_spec n (s_revision (d_entry d))) as [->|]; cbn; [|eauto]. split; [done|]. by intros ? [= ->].
Qed.

(** C28 An action reaches the backend or the desktop only through its checks:
    an action request first loads the entry and asks nothing more unless the
    entry has exactly the revision the caller saw and its kind permits the
    action; then it asks one thing, the mutation that belongs to the action on
    that entry at that revision, or a launch for the three launch actions. *)
Theorem action_guarded fs uuid n1 n2 p max o s :
  let s' := snd (action fs uuid n1 n2 p max o s) in
  asked s' = asked s
  ∨ ∃ r, let loaded := AskDetails (ap_entry_id p) MAX_EDIT_BYTES r :: asked s in
      asked s' = loaded
      ∨ ∃ d e, r = Ok d ∧ s_revision (d_entry d) = ap_revision p ∧ validate_action d (ap_action p) = Ok tt
               ∧ asked s' = e :: loaded ∧ entry_request p max e.
Proof.
  unfold action. rewrite service_bind. pose proof (load_details_cases (ap_entry_id p) (Some (ap_revision p)) s) as Hl.
  destruct (load_details _ _ s) as [[d|e] s1]; [|destruct Hl as [Hl|[r Hl]]; [by left|right; exists r; by left]].
  destruct Hl as [Hl Hr]. right. exists (Ok d). cbn zeta. rewrite <- Hl. rewrite service_bind. unfold M_result.
  destruct (validate_action d (ap_action p)) as [[]|e] eqn:Ha; [|by left].
  destruct (asks_execute fs uuid n1 n2 p d max o s1) as [Hs|(e & Hs & He)]; [by left|right].
  exists d, e. split_and!; auto.
Qed.

(** A deletion names between 1 and 5000 distinct entries: the backend is
    asked to remove exactly the targets of the request when they are that
    many, none empty and none twice, and is not asked otherwise. *)
Theorem delete_guarded targets s :
  let ok := 1 <= zlen targets <= MAX_DELETE_ENTRIES ∧ Forall (λ g, opaque_id g ≠ EmptyString) targets
            ∧ NoDup (opaque_id <$> targets) in
  (ok → ∃ r, asked (snd (delete_entries targets s)) = AskRemove targets r :: asked s)
  ∧ (¬ ok → asked (snd (delete_entries targets s)) = asked s ∧ is_ok (fst (delete_entries targets s)) = false).
Proof.
  assert (Hv : ∀ l seen, validate_targets seen l = Ok tt ↔
    Forall (λ g, opaque_id g ≠ EmptyString) l ∧ NoDup (opaque_id <$> l) ∧ ∀ g, g ∈ l → opaque_id g ∉ seen).
  { induction l as [|g l IH]; intros seen; cbn [validate_targets fmap list_fmap].
    { split; [|done]. intros _. split_and!; [done|constructor|]. intros g Hg. by apply not_elem_of_nil in Hg. }
    unfold validate_entry_id. rewrite Forall_cons, NoDup_cons.
    destruct (bool_decide_reflect (opaque_id g = EmptyString)) as [He|He]; cbn; [naive_solver|].
    unfold memb. destruct (bool_decide_reflect (opaque_id g ∈ seen)) as [Hs|Hs]; [set_solver|].
    rewrite IH. set_solver. }
  intros ok. unfold delete_entries. rewrite service_bind. unfold M_result, validate_delete_targets.
  assert (Hok : ok ↔ (1 <=? zlen targets) && (zlen targets <=? MAX_DELETE_ENTRIES) = true ∧ validate_targets [] targets = Ok tt).
  { rewrite Hv, andb_true_iff, !Z.leb_le. subst ok. set_solver. }
  destruct ((1 <=? _) && _) eqn:Hn; cbn [negb].
  - destruct (validate_targets [] targets) as [[]|e]; split; intros Hk; rewrite Hok in Hk; [|naive_solver..|done].
    unfold ask. destruct (be_remove_many _ _) as [r b]. cbn. eauto.
  - split; intros Hk; [|done]. rewrite Hok in Hk. by destruct Hk.
Qed.
End properties.

(** ** An example service *)
Definition toy_entry : EntryDetails :=
  mkDetails (mkSummary "entry-1" 1 Model.Text "text/plain" 5 false true "hello") (Some "hello") [] None false.
Definition toy_operation : OperationResult := with_id "operation-1" "copy" "completed" "Copied".
Definition toy_backend : ClipboardBackend unit := {|
  be_details id _ b := (Ok toy_entry, b);
  be_revision id b := (Ok 1, b);
  be_thumbnail id r e b := (Ok (mkThumbnail id 1 "/thumbnail.png" e e), b);
  be_mutate id r m b := (Ok toy_operation, b);
  be_replace id r m v b := (Ok (mkReplacement toy_entry true "Copied"), b);
  be_remove_many l b := (Ok toy_operation, b);
  be_publish m v max b := (Ok toy_operation, b);
  be_publish_sensitive t e b := (Ok toy_operation, b);
  be_publish_files f max b := (Ok toy_operation, b);
  be_capture_screenshot w h max b := (Ok toy_operation, b);
  be_spawn p a b := (true, b);
  be_reveal u b := (Ok tt, b);
|}.
#[local] Existing Instances toy_backend toy_externals.
Definition begun : ClipboardService (B:=unit) :=
  mkService tt ∅ (Session.call (Begin 0 0 "1" (Some firefox) (Some "a")) Session.new_manager) [].
Definition pasting : Request := ReqAction "2" 1 2 (mkAction "entry-1" 1 "paste" (Some "session-1") None) 100.
Lemma armed_after_publication_witness :
  pending_at (sessions (handle ∅ (Some "a") pasting begun)) "session-1"
  ∧ ∃ e, head (asked (handle ∅ (Some "a") pasting begun)) = Some e ∧ publishes e.
Proof.
  assert (Hp : pending_at (sessions (handle ∅ (Some "a") pasting begun)) "session-1").
  { unfold pending_at. vm_compute. eexists. split; reflexivity. }
  assert (Hn : ¬ pending_at (sessions begun) "session-1").
  { intros (x & Hx & Ht). vm_compute in Hx. injection Hx as <-. discriminate Ht. }
  split; [exact Hp|]. apply (armed_after_publication ∅ (Some "a") pasting begun "session-1" Hp Hn).
Defined.
Lemma delete_guarded_witness :
  ∃ r, asked (snd (delete_entries [Model.mkTarget "entry-1" 1] begun)) = [AskRemove [Model.mkTarget "entry-1" 1] r].
Proof.
  apply (delete_guarded [Model.mkTarget "entry-1" 1] begun). split; [vm_compute; split; discriminate|].
  split; [repeat constructor; discriminate|]. constructor; [apply not_elem_of_nil|constructor].
Defined.
